(* ===== verification/_CoqProject ===== *)
-Q . S2P
Prelude.v
GoStd.v
Calendar.v
Float64.v
Rounding.v
Errors.v
Types.v
Encoding.v
JsonSyntax.v
Wire.v
WireText.v
Config.v
Registry.v
Policy.v
Router.v
RouterSpec.v
RouterLive.v
RateLimit.v
RedisWindow.v
Billing.v
Auth.v
AuthCache.v
Prompt.v
Route.v
Catalog.v
Cache.v
Stream.v
Adapter.v
OpenAI.v
Mock.v
Sse.v
Anthropic.v
Chat.v
Http.v
Messages.v
Gateway.v
EndToEnd.v
Tracing.v
Startup.v
Observability.v
Admin.v
Xbctl.v
