(* ===== verification/Prelude.v ===== *)
(** * Verification library of the X-Beacon LLM gateway

    X-Beacon is an HTTP gateway in front of LLM providers.  A client request
    passes the middleware chain (recovery, request id, tracing, logging, CORS,
    authentication, scope check, rate limit), reaches a handler
    (/v1/chat/completions, /v1/messages, /v1/models or an administration
    endpoint), is classified, compressed, checked against token limits and the
    response cache, and is then sent by the router to one provider of a
    fail-over chain, with retries and a circuit breaker per provider.  The
    answer is translated to the client's format, streamed or in one piece,
    billed by an asynchronous worker and possibly cached.  [cmd/gateway] builds
    and runs this; [cmd/xbctl] edits the same database tables off-line.

    ** How the code is modelled

    Every definition is a translation of the Go code it names and is
    executable.  Pure functions are functions; a method that changes its
    receiver takes and returns the state; a function with an error result
    returns a sum, [inl] the error; a panic is [None].  Several goroutines, or
    several processes on one database, are a step relation ([Billing.Worker],
    [AuthCache], [Sse]).  [int], [int64] and [time.Duration] are [Z] with the
    wrap-around written out ([wrap64]); [float64] is the binary64 of
    [SpecFloat]; a Go string is a byte string.  Third-party code and the
    outside world are parameters, mostly type classes: gobreaker
    ([Policy.GoBreaker]), x/time/rate and the LRU cache ([RateLimit]), SHA-256,
    the BPE codec, the YAML and viper readers, golang-migrate, Unicode case
    mapping, the text of floats, the HTTP transport.  Laws required of
    them are classes or named hypotheses with an instance in the witnesses.
    The text of JSON is a class too ([JsonText], [JsonParser]); Go's own text is
    modelled in [JsonSyntax] and is what the theorems that cross the network
    use.
    PostgreSQL is the content of its tables plus, per statement, whether it
    succeeded; Redis is a map with expiry plus the same.

    ** Files

    - [Prelude]: 64-bit integers, durations, tactics, the hint database [go].
    - [GoStd], [Calendar], [Float64], [Rounding], [Encoding], [JsonSyntax]: the
      Go standard library the code rests on (UTF-8, strings, path.Match,
      strconv, the civil calendar, binary64 and its rounding bounds, hex,
      base64, encoding/json at the level of JSON values and of their text).
    - [Errors]: internal/provider/errors.go, both adapters' errors.go,
      internal/server/errmap.go.
    - [Types], [Wire], [WireText]: internal/provider/types.go and provider.go,
      the structs, their JSON form with unknown members kept, and its text.
    - [Config]: internal/envexpand, internal/config.
    - [Registry]: the adapters' constructors and internal/provider/registry.
    - [Policy], [Router], [RouterSpec], [RouterLive]: internal/router.  [Router]
      is the code as state-passing functions over a history of events;
      [RouterSpec] is the abstract protocol of those histories and the
      refinement; [RouterLive] is a Hoare logic for the same monad and shows
      when a request is answered.
    - [RateLimit], [RedisWindow]: internal/ratelimit and its middleware.
      [RedisWindow] runs the Lua script on a Redis model with Lua numbers.
    - [Billing]: internal/billing (Modules [Pricing], [Worker], [Logs]).
    - [Auth], [AuthCache]: internal/auth; [AuthCache] interleaves lookups,
      cache writes and revocations.
    - [Prompt], [Route], [Catalog], [Cache]: pkg/tokenizer and internal/prompt,
      internal/route, internal/provider/catalog with the models handler,
      internal/cache.
    - [Adapter], [OpenAI], [Anthropic]: internal/provider/openai, deepseek,
      anthropic.  [Mock]: scripts/mockupstream, the upstream of the scripts.
    - [Sse]: internal/server/sse, the frame writer shared by the handler and
      the heartbeat goroutine.
    - [Stream], [Chat], [Messages]: internal/server/chat_stream.go, chat.go,
      messages.go.
    - [Http], [Gateway], [EndToEnd]: middleware, route table and composition of
      the chat path with the real router ([Gateway]) and, below it, the real
      adapters over an arbitrary network ([EndToEnd]).
    - [Tracing]: internal/observability/tracing.go and pkg/version.
      [Startup]: cmd/gateway.  [Observability]: internal/observability.
      [Admin]: internal/audit and the admin handlers.  [Xbctl]: cmd/xbctl and
      internal/storage.

    ** What the theorems show

    - Routing: every run of the router is a history of the abstract fail-over
      protocol (retry only retryable errors, fail over only on those and on open
      breakers, bounded attempts, every breaker permit returned, a stream never
      spliced from two providers); together with the chat handler, a 200 means
      exactly one provider call succeeded and carries its response, and a
      streamed answer is the whole stream of one call.
    - Availability: one provider of the chain that is up, behind a breaker that
      admits, is enough for an answer, whatever transient failures the others
      have, until the time budget is used up (a failure that blames the request
      ends it); with the adapters in place, the client receives what one
      upstream replied, and an OpenAI-compatible upstream read exactly the
      routed request.
    - Access: no request without a sufficient credential reaches a protected
      handler; a revoked key dies within the cache TTL in every interleaving;
      the cache does not change answers; keys made by the API or by xbctl carry
      exactly the scopes given.
    - Limits and money: the Redis window never admits more than its limit; the
      billing queue accounts for every event, and drains if its context is alive
      when it is stopped; on a termination signal that context has ended, and
      what is queued is lost ([Worker.worker_drains], [Startup.billing_stopped]);
      a request is billed once exactly when it was routed (but for a stream on a
      connection that cannot be flushed); prices round-trip.
    - Translation: requests and responses survive their JSON text, and the
      gateway's own streams are read back by its adapter; the Anthropic and
      OpenAI streams accumulate to the plain answers; /v1/messages is
      transparent; cached answers replay to themselves; frames and heartbeats
      never interleave and the heartbeat always stops.
    - Operation: start-up and shutdown release every resource in order;
      administrative changes are audited as far as the audit table can be
      written; log pages are complete; the metrics read what was recorded, label by
      label, and recording panics only on a negative cost or a label that is not
      UTF-8; the minute ring is exact.

    ** Bounds and fuel

    Most loops recurse on their data: the fail-over chain, the rules, the body
    lines of an SSE stream, the cost in the Lua script, the buckets of a
    histogram.  The retry loops carry [MaxRetries + 1] as fuel, and the
    refinement theorems show that they always return a result.  The UTF-8
    decoder, [path.Match] and the decimal printer take the length of their input
    (each step consumes at least one byte), and following log pages takes as
    many steps as there are rows.  The JSON reader takes twice the length of its
    text, and [Syntax.fuel_enough] shows that more never changes the result;
    its nesting limit is Go's 10000.  Statements about clocks carry their range:
    instants and durations below 2^63 nanoseconds; the Lua script rounds to 53
    bits.

    ** Not modelled

    A nil slice of messages or choices is not told from an empty one, and
    prints as an empty array.  Prometheus is a map of series that refuses what its
    documentation says it refuses.  Log lines and trace spans have no effect on
    results; the tracing middleware and the process-wide metric registry only
    call third-party constructors.  net/http's accept loop is the runtime's; what
    is behind it is a function of the request.  Tests, SQL migrations, the web
    interface and deployment files are not Go code of the program. *)

From Stdlib Require Export ZArith Lia.
From stdpp Require Export base list gmap strings option.

#[export] Set Warnings "-clear-no-such-hyp,-register-all".

(** ** Machine integers

    Go's [int] and [int64] are 64 bits wide on every platform the gateway is
    built for, arithmetic wraps, and integer division truncates toward zero. *)

Declare Scope go_scope.
Delimit Scope go_scope with go.

Definition two63 : Z := 2 ^ 63.
Definition two64 : Z := 2 ^ 64.
Definition max_int64 : Z := two63 - 1.
Definition min_int64 : Z := - two63.

(** The value an exact integer result takes in an [int64]. *)
Definition wrap64 (z : Z) : Z := ((z + two63) mod two64 - two63)%Z.

(** The value an exact integer result takes in a [uint32]. *)
Definition wrap32u (z : Z) : Z := (z mod 2 ^ 32)%Z.

Notation "x +i y" := (wrap64 (x + y)) (at level 50, left associativity) : go_scope.
Notation "x -i y" := (wrap64 (x - y)) (at level 50, left associativity) : go_scope.
Notation "x *i y" := (wrap64 (x * y)) (at level 40, left associativity) : go_scope.
Notation "x /i y" := (wrap64 (Z.quot x y)) (at level 40, left associativity) : go_scope.

Definition in_int64 (z : Z) : Prop := (min_int64 <= z <= max_int64)%Z.

Ltac unfold_int64 :=
  unfold in_int64, min_int64, max_int64, two64, two63 in *.

Lemma wrap64_id (z : Z) : in_int64 z -> wrap64 z = z.
Proof. unfold wrap64; unfold_int64. intros H. rewrite Z.mod_small; lia. Qed.

Lemma wrap64_range (z : Z) : in_int64 (wrap64 z).
Proof.
  unfold wrap64; unfold_int64.
  pose proof (Z.mod_pos_bound (z + 2 ^ 63) (2 ^ 64) ltac:(lia)). lia.
Qed.

(** ** Time

    Instants are nanoseconds on one clock, durations are [int64] nanoseconds. *)

Definition Nanosecond : Z := 1.
Definition Microsecond : Z := 1000.
Definition Millisecond : Z := 1000000.
Definition Second : Z := 1000000000.
Definition Minute : Z := 60000000000.
Definition Hour : Z := 3600000000000.

(** [time.Time.Sub] saturates at the extreme durations instead of wrapping. *)
Definition time_sub (t u : Z) : Z := Z.max min_int64 (Z.min max_int64 (t - u))%Z.

Lemma time_sub_id (t u : Z) : in_int64 (t - u) -> time_sub t u = (t - u)%Z.
Proof. unfold time_sub; unfold_int64. lia. Qed.

Create HintDb go discriminated.
#[export] Hint Resolve wrap64_id wrap64_range time_sub_id : go.

(** ** Tactics *)

(** Case analysis on the scrutinee of a [match] or [if] in the goal or in a
    hypothesis, keeping the equation. *)
Ltac case_goal :=
  match goal with
  | |- context [match ?x with _ => _ end] => destruct x eqn:?
  end.

Ltac case_hyp H :=
  match type of H with
  | context [match ?x with _ => _ end] => destruct x eqn:?
  end.

(** Turn boolean comparisons in the context into propositions. *)
Ltac bool_to_prop :=
  repeat match goal with
  | H : (_ && _)%bool = true |- _ => apply andb_true_iff in H as [? ?]
  | H : (_ || _)%bool = false |- _ => apply orb_false_iff in H as [? ?]
  | H : negb _ = true |- _ => apply negb_true_iff in H
  | H : negb _ = false |- _ => apply negb_false_iff in H
  | H : bool_decide _ = true |- _ => apply bool_decide_eq_true in H
  | H : bool_decide _ = false |- _ => apply bool_decide_eq_false in H
  | H : (_ <? _)%Z = true |- _ => apply Z.ltb_lt in H
  | H : (_ <? _)%Z = false |- _ => apply Z.ltb_ge in H
  | H : (_ <=? _)%Z = true |- _ => apply Z.leb_le in H
  | H : (_ <=? _)%Z = false |- _ => apply Z.leb_gt in H
  | H : (_ =? _)%Z = true |- _ => apply Z.eqb_eq in H
  | H : (_ =? _)%Z = false |- _ => apply Z.eqb_neq in H
  end.
