(* ===== verification/GoStd.v ===== *)
(** * The parts of Go's standard library the gateway's logic rests on

    Go strings are byte strings, so they are [string]s here.  [Utf8] is the
    decoder and encoder behind [[]rune(s)] and [string(runes)] (package
    unicode/utf8), [Strings] the functions of package strings that the sources
    call, [Path] is [path.Match] (the glob matcher of the provider registry and
    of the routing rules), [Strconv] the decimal conversions. *)

From S2P Require Import Prelude.
From Stdlib Require Import Ascii.
Local Open Scope Z_scope.

(** ** Bytes *)

Abbreviation bytes := (list Z).

Definition byte_of_ascii (a : ascii) : Z := Z.of_N (N_of_ascii a).
Definition ascii_of_byte (b : Z) : ascii := ascii_of_N (Z.to_N b).

Fixpoint bytes_of (s : string) : bytes :=
  match s with
  | EmptyString => []
  | String a s' => byte_of_ascii a :: bytes_of s'
  end.

Fixpoint string_of (l : bytes) : string :=
  match l with
  | [] => EmptyString
  | b :: l' => String (ascii_of_byte b) (string_of l')
  end.

Definition is_byte (b : Z) : Prop := 0 <= b < 256.

Lemma byte_of_ascii_range a : is_byte (byte_of_ascii a).
Proof.
  unfold is_byte, byte_of_ascii. pose proof (N_ascii_bounded a). lia.
Qed.

Lemma ascii_of_byte_of_ascii a : ascii_of_byte (byte_of_ascii a) = a.
Proof.
  unfold ascii_of_byte, byte_of_ascii. rewrite N2Z.id. apply ascii_N_embedding.
Qed.

Lemma string_of_bytes_of s : string_of (bytes_of s) = s.
Proof. induction s as [|a s IH]; simpl; [done|]. by rewrite ascii_of_byte_of_ascii, IH. Qed.

Lemma bytes_of_string_of l : Forall is_byte l -> bytes_of (string_of l) = l.
Proof.
  induction 1 as [|b l Hb _ IH]; [done|]. cbn [string_of bytes_of]. rewrite IH. f_equal.
  unfold byte_of_ascii, ascii_of_byte, is_byte in *.
  rewrite N_ascii_embedding; lia.
Qed.

Lemma bytes_of_range s : Forall is_byte (bytes_of s).
Proof. induction s; simpl; constructor; auto using byte_of_ascii_range. Qed.

Lemma bytes_of_inj s t : bytes_of s = bytes_of t -> s = t.
Proof. intros H. by rewrite <- (string_of_bytes_of s), H, string_of_bytes_of. Qed.

Lemma bytes_of_app s t : bytes_of (s +:+ t) = bytes_of s ++ bytes_of t.
Proof. induction s as [|a s IH]; simpl; [done|]. by rewrite IH. Qed.

Lemma string_of_app l k : string_of (l ++ k) = string_of l +:+ string_of k.
Proof. induction l as [|b l IH]; simpl; [done|]. by rewrite IH. Qed.

(** ** UTF-8 *)

Module Utf8.

Definition RuneError : Z := 65533.

Definition cont (b : Z) : bool := (128 <=? b) && (b <=? 191).
Definition within (lo hi b : Z) : bool := (lo <=? b) && (b <=? hi).

(** The accepted range of the second byte, by first byte (utf8's table of
    accept ranges: overlong forms, surrogates and values above U+10FFFF are
    rejected). *)
Definition second_ok (b0 b1 : Z) : bool :=
  if b0 =? 224 then within 160 191 b1
  else if b0 =? 237 then within 128 159 b1
  else if b0 =? 240 then within 144 191 b1
  else if b0 =? 244 then within 128 143 b1
  else cont b1.

(** One well-formed sequence at the head of the input: rune and byte count. *)
Definition decode_ok (l : bytes) : option (Z * nat) :=
  match l with
  | b0 :: t =>
      if b0 <? 128 then Some (b0, 1%nat)
      else match t with
      | b1 :: t1 =>
          if within 194 223 b0 && cont b1 then
            Some ((b0 - 192) * 64 + (b1 - 128), 2%nat)
          else match t1 with
          | b2 :: t2 =>
              if within 224 239 b0 && second_ok b0 b1 && cont b2 then
                Some ((b0 - 224) * 4096 + (b1 - 128) * 64 + (b2 - 128), 3%nat)
              else match t2 with
              | b3 :: _ =>
                  if within 240 244 b0 && second_ok b0 b1 && cont b2 && cont b3 then
                    Some ((b0 - 240) * 262144 + (b1 - 128) * 4096
                          + (b2 - 128) * 64 + (b3 - 128), 4%nat)
                  else None
              | [] => None
              end
          | [] => None
          end
      | [] => None
      end
  | [] => None
  end.

(** [utf8.DecodeRuneInString]: an ill-formed byte decodes to [RuneError] and
    consumes one byte; the empty input decodes to [(RuneError, 0)]. *)
Definition DecodeRune (l : bytes) : Z * nat :=
  match l with
  | [] => (RuneError, 0%nat)
  | _ => match decode_ok l with Some p => p | None => (RuneError, 1%nat) end
  end.

(** [utf8.AppendRune]: surrogates and out-of-range values encode as U+FFFD. *)
Definition encode_valid (r : Z) : bytes :=
  if r <? 128 then [r]
  else if r <? 2048 then [192 + r / 64; 128 + r mod 64]
  else if r <? 65536 then [224 + r / 4096; 128 + (r / 64) mod 64; 128 + r mod 64]
  else [240 + r / 262144; 128 + (r / 4096) mod 64; 128 + (r / 64) mod 64; 128 + r mod 64].

Definition valid_rune (r : Z) : bool :=
  ((0 <=? r) && (r <? 55296)) || ((57344 <=? r) && (r <=? 1114111)).

Definition EncodeRune (r : Z) : bytes :=
  encode_valid (if valid_rune r then r else RuneError).

(** The conversion [[]rune(s)].  Each step consumes at least one byte, so the
    length of the input is enough fuel. *)
Fixpoint runes_fuel (fuel : nat) (l : bytes) : list Z :=
  match fuel, l with
  | _, [] => []
  | O, _ => []
  | S f, _ => let '(r, n) := DecodeRune l in r :: runes_fuel f (drop n l)
  end.

Definition runes (s : string) : list Z :=
  runes_fuel (length (bytes_of s)) (bytes_of s).

(** The conversion [string(runes)]. *)
Definition string_of_runes (rs : list Z) : string :=
  string_of (concat (map EncodeRune rs)).

(** [utf8.ValidString]. *)
Fixpoint valid_fuel (fuel : nat) (l : bytes) : bool :=
  match fuel, l with
  | _, [] => true
  | O, _ => false
  | S f, _ => match decode_ok l with
              | Some (_, n) => valid_fuel f (drop n l)
              | None => false
              end
  end.

Definition ValidString (s : string) : bool :=
  valid_fuel (length (bytes_of s)) (bytes_of s).

(** *** Decoding then encoding is the identity on well-formed input *)

Ltac inv_bytes :=
  repeat match goal with H : Forall _ (_ :: _) |- _ => inv H end; cbv beta in *.

Ltac decode_cases :=
  unfold decode_ok, second_ok, within, cont;
  repeat first [ case_goal | discriminate ];
  intros [= <- <-]; bool_to_prop;
  repeat match goal with
  | H : (if ?c then _ else _) = true |- _ => destruct c eqn:?; bool_to_prop
  end.

Lemma decode_ok_size l r n :
  decode_ok l = Some (r, n) -> (1 <= n <= length l)%nat.
Proof. destruct l as [|b0 [|b1 [|b2 [|b3 t]]]]; decode_cases; simpl; lia. Qed.

Lemma encode_decode l r n :
  Forall is_byte l -> decode_ok l = Some (r, n) -> EncodeRune r = take n l.
Proof.
  intros Hb Hd.
  assert (Hv : valid_rune r = true).
  { revert Hb Hd. unfold valid_rune, is_byte.
    destruct l as [|b0 [|b1 [|b2 [|b3 t]]]]; intros Hb; decode_cases; inv_bytes; lia. }
  unfold EncodeRune. rewrite Hv. revert Hb Hd. clear Hv.
  unfold is_byte.
  destruct l as [|b0 [|b1 [|b2 [|b3 t]]]]; intros Hb; decode_cases; inv_bytes;
    unfold encode_valid; simpl;
    repeat (case_goal; bool_to_prop; try (exfalso; lia));
    repeat match goal with
    | |- _ :: _ = _ :: _ =>
        apply (f_equal2 cons); [solve [lia | Z.to_euclidean_division_equations; lia]|]
    end; done.
Qed.

Lemma runes_roundtrip_fuel f l :
  Forall is_byte l -> valid_fuel f l = true ->
  concat (map EncodeRune (runes_fuel f l)) = l.
Proof.
  revert l. induction f as [|f IH]; intros [|b l] Hb Hv; try done.
  cbn [runes_fuel valid_fuel DecodeRune] in *.
  destruct (decode_ok (b :: l)) as [[r n]|] eqn:Hd; [|done]. cbn [map concat].
  rewrite (encode_decode _ _ _ Hb Hd), IH; auto using Forall_drop.
  apply take_drop.
Qed.

(** [string([]rune(s)) = s] for every valid UTF-8 string. *)
Lemma string_of_runes_runes s : ValidString s = true -> string_of_runes (runes s) = s.
Proof.
  intros Hv. unfold string_of_runes, runes.
  rewrite runes_roundtrip_fuel; auto using bytes_of_range, string_of_bytes_of.
Qed.

End Utf8.

(** ** Package strings *)

Module Strings.

Fixpoint HasPrefix (s p : string) : bool :=
  match p, s with
  | EmptyString, _ => true
  | String b p', String a s' => Ascii.eqb a b && HasPrefix s' p'
  | String _ _, EmptyString => false
  end.

(** The slice [s[n:]] for [n <= len(s)]. *)
Fixpoint slice_from (n : nat) (s : string) : string :=
  match n, s with
  | O, _ => s
  | S n', String _ s' => slice_from n' s'
  | S _, EmptyString => EmptyString
  end.

(** The slice [s[:n]] for [n <= len(s)]. *)
Fixpoint slice_to (n : nat) (s : string) : string :=
  match n, s with
  | O, _ => EmptyString
  | S n', String a s' => String a (slice_to n' s')
  | S _, EmptyString => EmptyString
  end.

Definition TrimPrefix (s p : string) : string :=
  if HasPrefix s p then slice_from (String.length p) s else s.

Fixpoint Contains (s sub : string) : bool :=
  HasPrefix s sub || match s with EmptyString => false | String _ s' => Contains s' sub end.

(** [strings.IndexByte]; [None] is -1. *)
Fixpoint IndexByte (s : string) (c : ascii) : option nat :=
  match s with
  | EmptyString => None
  | String a s' => if Ascii.eqb a c then Some 0%nat else S <$> IndexByte s' c
  end.

(** [strings.Split] with a one-byte separator. *)
Fixpoint Split (s : string) (c : ascii) : list string :=
  match s with
  | EmptyString => [EmptyString]
  | String a s' =>
      if Ascii.eqb a c then EmptyString :: Split s' c
      else match Split s' c with
           | x :: l => String a x :: l
           | [] => [String a EmptyString]
           end
  end.

Fixpoint Join (l : list string) (sep : string) : string :=
  match l with
  | [] => EmptyString
  | [x] => x
  | x :: l' => x +:+ sep +:+ Join l' sep
  end.

(** [strings.TrimRight] with a one-byte cutset. *)
Fixpoint TrimRight (s : string) (c : ascii) : string :=
  match s with
  | EmptyString => EmptyString
  | String a s' =>
      match TrimRight s' c with
      | EmptyString => if Ascii.eqb a c then EmptyString else String a EmptyString
      | t => String a t
      end
  end.

(** [unicode.IsSpace]. *)
Definition IsSpace (r : Z) : bool :=
  Utf8.within 9 13 r || (r =? 32) || (r =? 133) || (r =? 160) || (r =? 5760)
  || Utf8.within 8192 8202 r || (r =? 8232) || (r =? 8233) || (r =? 8239)
  || (r =? 8287) || (r =? 12288).

(** The input cut into the byte groups its runes decode from. *)
Fixpoint segments_fuel (fuel : nat) (l : bytes) : list (Z * bytes) :=
  match fuel, l with
  | _, [] => []
  | O, _ => []
  | S f, _ => let '(r, n) := Utf8.DecodeRune l in (r, take n l) :: segments_fuel f (drop n l)
  end.

Fixpoint drop_spaces (l : list (Z * bytes)) : list (Z * bytes) :=
  match l with
  | (r, b) :: l' => if IsSpace r then drop_spaces l' else l
  | [] => []
  end.

Definition TrimSpace (s : string) : string :=
  let b := bytes_of s in
  string_of (concat (map snd
    (rev (drop_spaces (rev (drop_spaces (segments_fuel (length b) b))))))).

(** [strings.ToLower] on the ASCII range; other bytes are kept. *)
Definition lower_byte (b : Z) : Z := if Utf8.within 65 90 b then b + 32 else b.
Definition ToLowerASCII (s : string) : string := string_of (map lower_byte (bytes_of s)).

Lemma HasPrefix_app p t : HasPrefix (p +:+ t) p = true.
Proof. induction p as [|a p IH]; simpl; [by destruct t|]. by rewrite Ascii.eqb_refl. Qed.

Lemma HasPrefix_spec s p : HasPrefix s p = true <-> exists t, s = p +:+ t.
Proof.
  split; [|intros [t ->]; apply HasPrefix_app].
  revert s. induction p as [|b p IH]; intros s H; [by exists s|].
  destruct s as [|a s]; simpl in H; [done|].
  apply andb_true_iff in H as [->%Ascii.eqb_eq [t ->]%IH]. by exists t.
Qed.

Lemma slice_from_app p t : slice_from (String.length p) (p +:+ t) = t.
Proof. induction p as [|a p IH]; simpl; [by destruct t|done]. Qed.

Lemma append_assoc a b c : (a +:+ b) +:+ c = a +:+ (b +:+ c).
Proof.
  induction a as [|x a IH]; [done|].
  change (String x ((a +:+ b) +:+ c) = String x (a +:+ (b +:+ c))). by rewrite IH.
Qed.

Lemma append_nil a : a +:+ EmptyString = a.
Proof. induction a as [|x a IH]; [done|]. change (String x (a +:+ "") = String x a). by rewrite IH. Qed.

(** Splitting at a separator that does not occur in the parts. *)
Lemma Split_none a c : IndexByte a c = None -> Split a c = [a].
Proof.
  induction a as [|x a IH]; simpl; [done|]. destruct (Ascii.eqb x c); [done|].
  destruct (IndexByte a c); [done|]. intros _. by rewrite IH.
Qed.

Lemma Split_sep a c t : IndexByte a c = None -> Split (a +:+ String c t) c = a :: Split t c.
Proof.
  induction a as [|x a IH]; simpl; [by rewrite Ascii.eqb_refl|].
  destruct (Ascii.eqb x c); [done|]. destruct (IndexByte a c); [done|]. intros _. by rewrite IH.
Qed.

Lemma Split_Join l c :
  l <> [] -> Forall (fun s => IndexByte s c = None) l ->
  Split (Join l (String c EmptyString)) c = l.
Proof.
  intros Hne Hl. induction Hl as [|a l Ha Hl IH]; [done|]. destruct l as [|b l].
  - by apply Split_none.
  - change (Join (a :: b :: l) (String c EmptyString))
      with (a +:+ String c (Join (b :: l) (String c EmptyString))).
    rewrite Split_sep by done. f_equal. by apply IH.
Qed.

(** Go's [<] on strings: lexicographic on bytes. *)
Fixpoint lt_bytes (l k : bytes) : bool :=
  match l, k with
  | _, [] => false
  | [], _ :: _ => true
  | a :: l', b :: k' => (a <? b) || ((a =? b) && lt_bytes l' k')
  end.
Definition Less (s t : string) : bool := lt_bytes (bytes_of s) (bytes_of t).

Lemma lt_bytes_trans l k m : lt_bytes l k = true -> lt_bytes k m = true -> lt_bytes l m = true.
Proof.
  revert k m. induction l as [|a l IH]; intros [|b k] [|c m]; simpl; try done.
  intros [?|[? ?]%andb_true_iff]%orb_true_iff [?|[? ?]%andb_true_iff]%orb_true_iff;
    apply orb_true_iff; bool_to_prop; subst.
  - left. apply Z.ltb_lt. lia.
  - left. by apply Z.ltb_lt.
  - left. by apply Z.ltb_lt.
  - right. rewrite Z.eqb_refl. simpl. by eapply IH.
Qed.

Lemma lt_bytes_total l k : lt_bytes l k = false -> lt_bytes k l = false -> l = k.
Proof.
  revert k. induction l as [|a l IH]; intros [|b k]; simpl; try done.
  intros [? Ha]%orb_false_iff [? Hb]%orb_false_iff. bool_to_prop.
  assert (a = b) as -> by lia. rewrite Z.eqb_refl in Ha, Hb. f_equal. by apply IH.
Qed.

Lemma lt_bytes_asym l k : lt_bytes l k = true -> lt_bytes k l = false.
Proof.
  revert k. induction l as [|a l IH]; intros [|b k]; simpl; try done.
  intros [?|[? ?]%andb_true_iff]%orb_true_iff; bool_to_prop; subst; apply orb_false_iff.
  - split; [apply Z.ltb_ge; lia|]. by rewrite (proj2 (Z.eqb_neq b a)) by lia.
  - rewrite Z.ltb_irrefl, Z.eqb_refl. split; [done|]. by apply IH.
Qed.

(** [s <= t] as the negation of [t < s]; a total order. *)
Definition LessEq (s t : string) : Prop := Less t s = false.
#[export] Instance LessEq_dec s t : Decision (LessEq s t) := bool_eq_dec _ _.

#[export] Instance LessEq_total : Total LessEq.
Proof.
  intros s t. unfold LessEq, Less. destruct (lt_bytes (bytes_of t) (bytes_of s)) eqn:E; [right|by left].
  by apply lt_bytes_asym.
Qed.

#[export] Instance LessEq_trans : Transitive LessEq.
Proof.
  intros s t u. unfold LessEq, Less. intros H1 H2.
  destruct (lt_bytes (bytes_of u) (bytes_of s)) eqn:E; [|done].
  destruct (lt_bytes (bytes_of s) (bytes_of t)) eqn:E2.
  - by rewrite (lt_bytes_trans _ _ _ E E2) in H2.
  - assert (bytes_of s = bytes_of t) as Heq by (by apply lt_bytes_total).
    by rewrite <- Heq, E in H2.
Qed.

Lemma LessEq_antisym s t : LessEq s t -> LessEq t s -> s = t.
Proof. intros H1 H2. apply bytes_of_inj. by apply lt_bytes_total. Qed.

End Strings.

(** ** Package strconv *)

Module Strconv.

Definition digit (b : Z) : option Z := if Utf8.within 48 57 b then Some (b - 48) else None.

(** The value of a non-empty run of decimal digits. *)
Fixpoint digits_value (acc : Z) (l : bytes) : option Z :=
  match l with
  | [] => Some acc
  | b :: l' => d ← digit b; digits_value (10 * acc + d) l'
  end.

(** [strconv.Atoi] (and [ParseInt(s, 10, 64)]): [None] is a syntax or range
    error. *)
Definition Atoi (s : string) : option Z :=
  let '(neg, l) := match bytes_of s with
                   | 43 :: t => (false, t)
                   | 45 :: t => (true, t)
                   | l => (false, l)
                   end in
  match l with
  | [] => None
  | _ => v ← digits_value 0 l;
         let z := if neg : bool then - v else v in
         if (min_int64 <=? z) && (z <=? max_int64) then Some z else None
  end.

(** Decimal digits of a non-negative integer, most significant first; [fuel]
    bounds the number of digits. *)
Fixpoint dec_digits (fuel : nat) (z : Z) (acc : bytes) : bytes :=
  match fuel with
  | O => acc
  | S f => let acc' := (48 + z mod 10) :: acc in
           if z <? 10 then acc' else dec_digits f (z / 10) acc'
  end.

(** [strconv.Itoa] and [%d]: an [int64] has at most 19 digits. *)
Definition Itoa (z : Z) : string :=
  if z <? 0 then String (ascii_of_byte 45) (string_of (dec_digits 20 (- z) []))
  else string_of (dec_digits 20 z []).

(** [%0wd] on a non-negative integer. *)
Fixpoint pad_digits (w : nat) (z : Z) : bytes :=
  match w with
  | O => []
  | S w' => pad_digits w' (z / 10) ++ [48 + z mod 10]
  end.

Definition is_digit (b : Z) : Prop := 48 <= b <= 57.

Lemma digits_value_snoc l a v d :
  digits_value a l = Some v -> 0 <= d <= 9 -> digits_value a (l ++ [48 + d]) = Some (10 * v + d).
Proof.
  intros Hl Hd. revert a Hl. induction l as [|b l IH]; simpl; intros a Hl.
  - simplify_eq. unfold digit, Utf8.within.
    rewrite !(proj2 (Z.leb_le _ _)) by lia. simpl. f_equal. lia.
  - destruct (digit b); simpl in *; [by apply IH|done].
Qed.

(** The digits are the value's decimal representation. *)
Lemma dec_digits_spec f z acc :
  0 <= z < 10 ^ Z.of_nat f -> (0 < f)%nat ->
  exists ds, dec_digits f z acc = ds ++ acc /\ ds <> [] /\ Forall is_digit ds /\
    digits_value 0 ds = Some z.
Proof.
  revert z acc. induction f as [|f IH]; intros z acc Hz Hf; [lia|]. simpl dec_digits.
  pose proof (Z.mod_pos_bound z 10 ltac:(lia)) as Hm.
  assert (Hd : is_digit (48 + z mod 10)) by (unfold is_digit; lia).
  destruct (z <? 10) eqn:E; bool_to_prop.
  - exists [48 + z mod 10]. split_and!; [done|done|by constructor|].
    pose proof (digits_value_snoc [] 0 0 (z mod 10) eq_refl ltac:(lia)) as Hs.
    simpl app in Hs. rewrite Hs. f_equal. rewrite Z.mod_small; lia.
  - rewrite Nat2Z.inj_succ, Z.pow_succ_r in Hz by lia.
    destruct (IH (z / 10) ((48 + z mod 10) :: acc)) as (ds & -> & Hne & Hds & Hv).
    + split; [apply Z.div_pos; lia|]. apply Z.div_lt_upper_bound; lia.
    + destruct f; [simpl in Hz; lia|lia].
    + exists (ds ++ [48 + z mod 10]). split_and!.
      * by rewrite <- app_assoc.
      * by destruct ds.
      * apply Forall_app. split; [done|by constructor].
      * rewrite (digits_value_snoc _ _ _ _ Hv) by lia. f_equal.
        rewrite (Z.div_mod z 10) at 3 by lia. done.
Qed.

(** Printing and parsing a machine integer is the identity. *)
Lemma Atoi_Itoa z : in_int64 z -> Atoi (Itoa z) = Some z.
Proof.
  intros Hz. unfold Itoa, Atoi.
  assert (Hrange : (min_int64 <=? z) && (z <=? max_int64) = true).
  { unfold_int64. apply andb_true_iff. rewrite !Z.leb_le. lia. }
  assert (Hb : forall ds, Forall is_digit ds -> bytes_of (string_of ds) = ds).
  { intros ds Hds. apply bytes_of_string_of. revert Hds. apply Forall_impl.
    unfold is_digit, is_byte. lia. }
  destruct (Z.ltb_spec z 0) as [E|E].
  - destruct (dec_digits_spec 20 (- z) []) as (ds & -> & Hne & Hds & Hv);
      [unfold_int64; lia|lia|]. rewrite app_nil_r.
    change (bytes_of (String (ascii_of_byte 45) (string_of ds)))
      with (45 :: bytes_of (string_of ds)).
    rewrite Hb by done. destruct ds; [done|]. rewrite Hv. simpl.
    by rewrite Z.opp_involutive, Hrange.
  - destruct (dec_digits_spec 20 z []) as (ds & -> & Hne & Hds & Hv);
      [unfold_int64; lia|lia|]. rewrite app_nil_r, Hb by done.
    destruct ds as [|d ds]; [done|]. apply Forall_cons_1 in Hds as [Hd _].
    unfold is_digit in Hd.
    assert (Hsel : (match d :: ds with 43 :: t => (false, t) | 45 :: t => (true, t)
                    | l => (false, l) end) = (false, d :: ds)).
    { do 6 (destruct d as [|d|d]; try lia; try done). }
    rewrite Hsel, Hv. simpl. by rewrite Hrange.
Qed.

Example Itoa_neg : Itoa (-1205) = "-1205".
Proof. reflexivity. Qed.
Example Atoi_ok : Atoi "+0042" = Some 42.
Proof. reflexivity. Qed.
Example Atoi_range : Atoi "9223372036854775808" = None.
Proof. reflexivity. Qed.

End Strconv.

(** ** Package path: the glob matcher *)

Module Path.

Definition c_star : Z := 42.
Definition c_quest : Z := 63.
Definition c_open : Z := 91.
Definition c_close : Z := 93.
Definition c_bslash : Z := 92.
Definition c_caret : Z := 94.
Definition c_dash : Z := 45.
Definition c_slash : Z := 47.

Fixpoint skip_stars (p : bytes) : bool * bytes :=
  match p with
  | b :: p' => if b =? c_star then (true, snd (skip_stars p')) else (false, p)
  | [] => (false, [])
  end.

(** The part of a pattern up to the next star outside a class. *)
Fixpoint scan (inrange : bool) (p : bytes) : bytes * bytes :=
  match p with
  | [] => ([], [])
  | b :: p' =>
      if b =? c_bslash then
        match p' with
        | b' :: p'' => let '(c, r) := scan inrange p'' in (b :: b' :: c, r)
        | [] => ([b], [])
        end
      else if b =? c_open then let '(c, r) := scan true p' in (b :: c, r)
      else if b =? c_close then let '(c, r) := scan false p' in (b :: c, r)
      else if (b =? c_star) && negb inrange then ([], p)
      else let '(c, r) := scan inrange p' in (b :: c, r)
  end.

(** [scanChunk]: leading star?, next chunk, rest of the pattern. *)
Definition scanChunk (p : bytes) : bool * bytes * bytes :=
  let '(star, p') := skip_stars p in
  let '(chunk, rest) := scan false p' in (star, chunk, rest).

(** [getEsc]: one possibly escaped rune of a class; [None] is ErrBadPattern. *)
Definition getEsc (chunk : bytes) : option (Z * bytes) :=
  match chunk with
  | [] => None
  | b :: t =>
      if (b =? c_dash) || (b =? c_close) then None
      else
        let body := if b =? c_bslash then t else chunk in
        match body with
        | [] => None
        | _ =>
            let '(r, n) := Utf8.DecodeRune body in
            let rest := drop n body in
            if (r =? Utf8.RuneError) && (n =? 1)%nat then None
            else match rest with [] => None | _ => Some (r, rest) end
        end
  end.

(** The ranges of a class after its opening bracket: does [r] match, and the
    rest of the chunk.  [nrange] counts the ranges read so far. *)
Fixpoint class_ranges (fuel : nat) (r : Z) (nrange : nat) (matched : bool)
    (chunk : bytes) : option (bool * bytes) :=
  match fuel with
  | O => None
  | S f =>
      match chunk with
      | b :: t =>
          if (b =? c_close) && (0 <? nrange)%nat then Some (matched, t)
          else
            '(lo, chunk1) ← getEsc chunk;
            match chunk1 with
            | d :: t1 =>
                '(hi, chunk2) ← (if d =? c_dash then getEsc t1 else Some (lo, chunk1));
                class_ranges f r (S nrange) (matched || ((lo <=? r) && (r <=? hi))) chunk2
            | [] => None
            end
      | [] => None
      end
  end.

(** [matchChunk]: [None] is ErrBadPattern, [Some None] no match, [Some (Some t)]
    a match leaving [t].  [failed] records a mismatch; the rest of the chunk is
    then only checked for well-formedness.  Every step consumes at least one
    byte of the chunk, so its length is enough fuel. *)
Fixpoint matchChunk (fuel : nat) (failed : bool) (chunk s : bytes)
    : option (option bytes) :=
  match chunk with
  | [] => Some (if failed then None else Some s)
  | c :: chunk' =>
      match fuel with
      | O => None
      | S f =>
          let failed := failed || match s with [] => true | _ => false end in
          let literal (ch : bytes) :=
            match ch with
            | [] => None
            | b :: ch' =>
                match failed, s with
                | false, x :: s' => matchChunk f (negb (b =? x)) ch' s'
                | _, _ => matchChunk f true ch' s
                end
            end in
          if c =? c_open then
            let '(r, s') := if failed then (0, s)
                            else let '(r, n) := Utf8.DecodeRune s in (r, drop n s) in
            let '(negated, chunk1) :=
              match chunk' with
              | b :: t => if b =? c_caret then (true, t) else (false, chunk')
              | [] => (false, [])
              end in
            '(m, chunk2) ← class_ranges (S (length chunk1)) r 0 false chunk1;
            matchChunk f (failed || Bool.eqb m negated) chunk2 s'
          else if c =? c_quest then
            match failed, s with
            | false, x :: _ =>
                matchChunk f (x =? c_slash) chunk' (drop (snd (Utf8.DecodeRune s)) s)
            | _, _ => matchChunk f true chunk' s
            end
          else if c =? c_bslash then literal chunk'
          else literal chunk
      end
  end.

Definition match_chunk (chunk s : bytes) : option (option bytes) :=
  matchChunk (length chunk) false chunk s.

(** The retry loop behind a star: skip one more byte of the name at a time,
    never a slash.  [last] says the chunk ends the pattern, so the match must
    exhaust the name. *)
Fixpoint star_search (last : bool) (chunk name : bytes) : option (option bytes) :=
  match name with
  | x :: name' =>
      if x =? c_slash then Some None
      else match match_chunk chunk name' with
           | None => None
           | Some (Some t) =>
               if last && negb (match t with [] => true | _ => false end)
               then star_search last chunk name'
               else Some (Some t)
           | Some None => star_search last chunk name'
           end
  | [] => Some None
  end.

(** Well-formedness of the rest of a pattern that has already failed. *)
Fixpoint check_rest (fuel : nat) (pattern : bytes) : bool :=
  match pattern with
  | [] => true
  | _ => match fuel with
         | O => false
         | S f => let '(_, chunk, rest) := scanChunk pattern in
                  match match_chunk chunk [] with
                  | None => false
                  | Some _ => check_rest f rest
                  end
         end
  end.

Fixpoint match_fuel (fuel : nat) (pattern name : bytes) : option bool :=
  match pattern with
  | [] => Some (match name with [] => true | _ => false end)
  | _ =>
      match fuel with
      | O => None
      | S f =>
          let '(star, chunk, rest) := scanChunk pattern in
          let last := match rest with [] => true | _ => false end in
          let fail := if check_rest f rest then Some false else None in
          if star && match chunk with [] => true | _ => false end
          then Some (negb (existsb (fun b => b =? c_slash) name))
          else match match_chunk chunk name with
               | None => None
               | Some first =>
                   match first with
                   | Some t =>
                       if match t with [] => true | _ => negb last end
                       then match_fuel f rest t
                       else if star then
                         match star_search last chunk name with
                         | None => None
                         | Some (Some t') => match_fuel f rest t'
                         | Some None => fail
                         end
                       else fail
                   | None =>
                       if star then
                         match star_search last chunk name with
                         | None => None
                         | Some (Some t') => match_fuel f rest t'
                         | Some None => fail
                         end
                       else fail
                   end
               end
      end
  end.

(** [path.Match]; [None] is ErrBadPattern. *)
Definition Match (pattern name : string) : option bool :=
  let p := bytes_of pattern in match_fuel (S (length p)) p (bytes_of name).

Example match_glob : Match "claude-*" "claude-3-opus" = Some true.
Proof. reflexivity. Qed.
Example match_slash : Match "*" "a/b" = Some false.
Proof. reflexivity. Qed.
Example match_class : Match "gpt-[0-9]?" "gpt-4o" = Some true.
Proof. reflexivity. Qed.
Example match_neg : Match "a[^b-d]" "ac" = Some false.
Proof. reflexivity. Qed.
Example match_two_stars : Match "*-turbo*" "gpt-3.5-turbo-16k" = Some true.
Proof. reflexivity. Qed.
Example match_bad : Match "gpt-[" "gpt-" = None.
Proof. reflexivity. Qed.
Example match_escape : Match "a\*" "a*" = Some true.
Proof. reflexivity. Qed.

(** *** Patterns without metacharacters match exactly themselves *)

Definition plain (b : Z) : Prop :=
  b <> c_star /\ b <> c_quest /\ b <> c_open /\ b <> c_close /\ b <> c_bslash.

Lemma scan_plain p : Forall plain p -> scan false p = (p, []).
Proof.
  induction 1 as [|b p (H1 & H2 & H3 & H4 & H5) _ IH]; simpl; [done|].
  rewrite IH. by repeat (case_goal; bool_to_prop; try done).
Qed.

Lemma scanChunk_plain p : Forall plain p -> scanChunk p = (false, p, []).
Proof.
  intros Hp. unfold scanChunk. destruct p as [|b p]; [done|].
  pose proof (Forall_inv Hp) as (H1 & _). apply Z.eqb_neq in H1.
  cbn [skip_stars]. rewrite H1. by rewrite scan_plain.
Qed.

Lemma matchChunk_plain_failed f p s :
  Forall plain p -> (length p <= f)%nat -> matchChunk f true p s = Some None.
Proof.
  intros Hp. revert f s.
  induction Hp as [|b p (H1 & H2 & H3 & H4 & H5) _ IH]; intros f s Hf;
    destruct f; simpl in *; try done; try lia.
  repeat (case_goal; bool_to_prop; try done); destruct s; simpl; try (apply IH; lia).
Qed.

Lemma matchChunk_plain f p s :
  Forall plain p -> (length p <= f)%nat ->
  matchChunk f false p s =
    Some (if decide (p `prefix_of` s) then Some (drop (length p) s) else None).
Proof.
  intros Hp. revert f s.
  induction Hp as [|b p Hb Hp IH]; intros f s Hf.
  { case_decide as Hn; [by destruct f|]. destruct Hn. apply prefix_nil. }
  destruct f as [|f]; simpl in Hf; [lia|].
  destruct Hb as (H1 & H2 & H3 & H4 & H5). cbn [matchChunk].
  rewrite (proj2 (Z.eqb_neq _ _) H3), (proj2 (Z.eqb_neq _ _) H2), (proj2 (Z.eqb_neq _ _) H5).
  destruct s as [|x s]; cbn [orb].
  - rewrite matchChunk_plain_failed by (done || lia).
    case_decide as Hn; [by apply prefix_nil_inv in Hn|done].
  - destruct (b =? x) eqn:E; bool_to_prop; cbn [negb].
    + subst x. rewrite IH by lia.
      do 2 case_decide; try done;
        [by exfalso; eauto using prefix_cons | by exfalso; eauto using prefix_cons_inv_2].
    + rewrite matchChunk_plain_failed by (done || lia).
      case_decide as Hn; [|done]. by apply prefix_cons_inv_1 in Hn.
Qed.

(** A pattern free of metacharacters matches a name iff they are equal. *)
Lemma Match_plain pattern name :
  Forall plain (bytes_of pattern) ->
  Match pattern name = Some (bool_decide (pattern = name)).
Proof.
  intros Hp. unfold Match. set (p := bytes_of pattern) in *.
  destruct p as [|b p'] eqn:Ep; unfold p in *.
  { destruct pattern; [|done]. by destruct name. }
  cbn [match_fuel]. rewrite scanChunk_plain by (rewrite <- Ep; by rewrite Ep).
  cbn [andb]. unfold match_chunk. rewrite matchChunk_plain by done.
  case_decide as Hpre.
  - destruct Hpre as [k Hk]. rewrite Hk, drop_app_length.
    destruct k as [|x k]; simpl.
    + rewrite app_nil_r, <- Ep in Hk. apply bytes_of_inj in Hk as ->.
      by rewrite bool_decide_eq_true_2.
    + rewrite bool_decide_eq_false_2; [done|]. intros ->.
      rewrite Ep in Hk. apply (f_equal length) in Hk.
      rewrite length_app in Hk. simpl in Hk. lia.
  - simpl. rewrite bool_decide_eq_false_2; [done|].
    intros ->. apply Hpre. by rewrite Ep.
Qed.

End Path.
