(* ===== verification/Calendar.v ===== *)
(** * Calendar: the civil (UTC) calendar of package time

    Years and months of an instant, as [time.Time.Date], [time.Date] and
    [AddDate(0, 1, 0)] on the first of a month compute them: the proleptic
    Gregorian calendar.  The conversion is Fliegel-van Flandern style integer
    arithmetic on 400-year cycles; its correctness on one cycle is linear
    arithmetic with division, lifted to all days.  [time.Duration]'s [Round] and
    [String] are here too. *)

From S2P Require Import Prelude GoStd.
Local Open Scope Z_scope.

(** Days from 1970-01-01 to the first day of month [m] (1..12) of year [y]. *)
Definition month_start (y m : Z) : Z :=
  let y' := if m <=? 2 then y - 1 else y in
  let mp := if m <=? 2 then m + 9 else m - 3 in
  let era := y' / 400 in
  let yoe := y' mod 400 in
  let doy := (153 * mp + 2) / 5 in
  let doe := yoe * 365 + yoe / 4 - yoe / 100 + doy in
  era * 146097 + doe - 719468.

(** Year and month of a day number. *)
Definition year_month_of_era (doe : Z) : Z * Z :=
  let yoe := (doe - doe / 1460 + doe / 36524 - doe / 146096) / 365 in
  let doy := doe - (365 * yoe + yoe / 4 - yoe / 100) in
  let mp := (5 * doy + 2) / 153 in
  let m := if mp <? 10 then mp + 3 else mp - 9 in
  (if m <=? 2 then yoe + 1 else yoe, m).

Definition year_month (day : Z) : Z * Z :=
  let z := day + 719468 in
  let era := z / 146097 in
  let '(y, m) := year_month_of_era (z mod 146097) in
  (y + era * 400, m).

(** [AddDate(0, 1, 0)] on the first of a month. *)
Definition next_month (ym : Z * Z) : Z * Z :=
  let '(y, m) := ym in if m =? 12 then (y + 1, 1) else (y, m + 1).

Example epoch : year_month 0 = (1970, 1) /\ month_start 1970 1 = 0.
Proof. done. Qed.
Example leap : month_start 2024 3 - month_start 2024 2 = 29 /\
  month_start 2100 3 - month_start 2100 2 = 28 /\ month_start 2000 3 - month_start 2000 2 = 29.
Proof. done. Qed.
Example some_day : year_month 20569 = (2026, 4).
Proof. done. Qed.

(** Days before year [y] of a cycle (years start in March). *)
Definition year_days (y : Z) : Z := y * 365 + y / 4 - y / 100.

Lemma year_of_era doe :
  0 <= doe <= 146096 ->
  let y := (doe - doe / 1460 + doe / 36524 - doe / 146096) / 365 in
  0 <= y <= 399 /\ year_days y <= doe /\ (doe < year_days (y + 1) \/ y = 399).
Proof.
  intros Hd y. unfold y, year_days. clear y. Z.to_euclidean_division_equations. lia.
Qed.

Lemma year_length y : 0 <= y <= 399 -> year_days (y + 1) <= year_days y + 366.
Proof. unfold year_days. intros. Z.to_euclidean_division_equations. lia. Qed.

Lemma month_of_year doy :
  0 <= doy <= 365 ->
  let mp := (5 * doy + 2) / 153 in
  0 <= mp <= 11 /\ (153 * mp + 2) / 5 <= doy < (153 * (mp + 1) + 2) / 5.
Proof. intros Hd mp. unfold mp. clear mp. Z.to_euclidean_division_equations. lia. Qed.

(** The first day of a month within the cycle, counted from March. *)
Lemma month_start_march y mp :
  0 <= y <= 399 -> 0 <= mp <= 11 ->
  month_start (if mp <? 10 then y else y + 1) (if mp <? 10 then mp + 3 else mp - 9) =
  year_days y + (153 * mp + 2) / 5 - 719468.
Proof.
  intros Hy Hm. unfold month_start, year_days. destruct (Z.ltb_spec mp 10).
  - rewrite (proj2 (Z.leb_gt _ _)) by lia. rewrite Z.div_small, Z.mod_small by lia.
    replace (mp + 3 - 3) with mp by lia. lia.
  - rewrite (proj2 (Z.leb_le _ _)) by lia. replace (y + 1 - 1) with y by lia.
    rewrite Z.div_small, Z.mod_small by lia. replace (mp - 9 + 9) with mp by lia. lia.
Qed.

Lemma era_spec doe :
  0 <= doe <= 146096 ->
  let '(y, m) := year_month_of_era doe in
  1 <= m <= 12 /\ month_start y m <= doe - 719468 /\
  doe - 719468 < month_start (next_month (y, m)).1 (next_month (y, m)).2.
Proof.
  intros Hd. unfold year_month_of_era.
  pose proof (year_of_era doe Hd) as (Hy & Hlo & Hhi). cbv zeta in Hy, Hlo, Hhi.
  set (y := (doe - doe / 1460 + doe / 36524 - doe / 146096) / 365) in *.
  pose proof (year_length y Hy) as Hlen.
  replace (365 * y + y / 4 - y / 100) with (year_days y) by (unfold year_days; lia).
  set (doy := doe - year_days y) in *.
  assert (Hdoy : 0 <= doy <= 365).
  { destruct Hhi as [Hhi|Hhi]; [lia|]. unfold doy. rewrite Hhi in *.
    change (year_days 399) with 145731 in *. lia. }
  pose proof (month_of_year doy Hdoy) as (Hm & Hmlo & Hmhi). cbv zeta in Hm, Hmlo, Hmhi.
  set (mp := (5 * doy + 2) / 153) in *.
  pose proof (month_start_march y mp Hy Hm) as Hs.
  assert (Hms : (if (if mp <? 10 then mp + 3 else mp - 9) <=? 2 then y + 1 else y) =
                if mp <? 10 then y else y + 1).
  { destruct (Z.ltb_spec mp 10); [rewrite (proj2 (Z.leb_gt _ _)) by lia|
      rewrite (proj2 (Z.leb_le _ _)) by lia]; done. }
  rewrite Hms. split; [destruct (Z.ltb_spec mp 10); lia|]. split; [rewrite Hs; lia|].
  destruct (Z.eq_dec mp 11) as [He|He].
  - rewrite He in *. simpl next_month. cbn [Z.ltb Z.compare Pos.compare Pos.compare_cont].
    change (11 - 9) with 2. simpl. change (2 + 1) with 3. clear Hs Hms.
    destruct (Z.eq_dec (y + 1) 400) as [Hy4|Hy4].
    + rewrite Hy4. change (month_start 400 3) with (146097 - 719468). lia.
    + pose proof (month_start_march (y + 1) 0 ltac:(lia) ltac:(lia)) as Hs1. simpl in Hs1.
      change (0 + 3) with 3 in Hs1. rewrite Hs1. change ((153 * 0 + 2) / 5) with 0. destruct Hhi as [Hhi|Hhi]; lia.
  - pose proof (month_start_march y (mp + 1) Hy ltac:(lia)) as Hs1.
    assert (Hn : next_month (if mp <? 10 then y else y + 1, if mp <? 10 then mp + 3 else mp - 9) =
      (if mp + 1 <? 10 then y else y + 1, if mp + 1 <? 10 then mp + 1 + 3 else mp + 1 - 9)).
    { unfold next_month. destruct (Z.ltb_spec mp 10), (Z.ltb_spec (mp + 1) 10); try lia.
      - rewrite (proj2 (Z.eqb_neq _ _)) by lia. f_equal; lia.
      - replace mp with 9 by lia. done.
      - rewrite (proj2 (Z.eqb_neq _ _)) by lia. f_equal; lia. }
    rewrite Hn. simpl fst. simpl snd. rewrite Hs1. lia.
Qed.

(** A cycle shifts the calendar by 400 years. *)
Lemma month_start_cycle y m k : month_start (y + k * 400) m = month_start y m + k * 146097.
Proof.
  unfold month_start. destruct (m <=? 2);
    [replace (y + k * 400 - 1) with (y - 1 + k * 400) by lia|];
    rewrite Z.div_add, Z_mod_plus_full by lia; ring.
Qed.

Lemma year_month_spec day :
  let '(y, m) := year_month day in
  1 <= m <= 12 /\ month_start y m <= day /\
  day < month_start (next_month (y, m)).1 (next_month (y, m)).2.
Proof.
  unfold year_month. set (z := day + 719468).
  pose proof (Z.mod_pos_bound z 146097 ltac:(lia)) as Hm.
  pose proof (Z.div_mod z 146097 ltac:(lia)) as Hd.
  pose proof (era_spec (z mod 146097) ltac:(lia)) as Hok.
  destruct (year_month_of_era (z mod 146097)) as [y m].
  destruct Hok as (H12 & Hlo & Hhi). set (k := z / 146097) in *.
  assert (Hn : next_month (y + k * 400, m) =
    ((next_month (y, m)).1 + k * 400, (next_month (y, m)).2)).
  { unfold next_month. destruct (m =? 12); simpl; f_equal; lia. }
  rewrite Hn. cbn [fst snd]. rewrite !month_start_cycle. split_and!; lia.
Qed.

(** ** Durations *)

Module Duration.

(** [Duration.Round]. *)
Definition Round (d m : Z) : Z :=
  if m <=? 0 then d
  else
    let r := Z.rem d m in
    if d <? 0 then
      let r := - r in
      if 2 * r <? m then d + r
      else let d1 := (d -i m +i r)%go in if d1 <? d then d1 else min_int64
    else if 2 * r <? m then d - r
    else let d1 := (d +i m -i r)%go in if d <? d1 then d1 else max_int64.

(** The fraction of [u] in units of [10^prec], without trailing zeros. *)
Definition frac (prec : nat) (u : Z) : string :=
  let f := u mod 10 ^ Z.of_nat prec in
  if f =? 0 then "" else "." +:+ Strings.TrimRight (string_of (Strconv.pad_digits prec f)) (ascii_of_byte 48).

(** [Duration.String]. *)
Definition format (d : Z) : string :=
  let u := Z.abs d in
  (if d <? 0 then "-" else "") +:+
  (if u <? Second then
     if u =? 0 then "0s"
     else if u <? Microsecond then Strconv.Itoa u +:+ "ns"
     else if u <? Millisecond then Strconv.Itoa (u / Microsecond) +:+ frac 3 u +:+ "µs"
     else Strconv.Itoa (u / Millisecond) +:+ frac 6 u +:+ "ms"
   else
     let s := u / Second in
     let secs := Strconv.Itoa (s mod 60) +:+ frac 9 u +:+ "s" in
     let m := s / 60 in
     if m =? 0 then secs
     else let mins := Strconv.Itoa (m mod 60) +:+ "m" +:+ secs in
          let h := m / 60 in
          if h =? 0 then mins else Strconv.Itoa h +:+ "h" +:+ mins).

Example format_minutes : format (90 * Second) = "1m30s".
Proof. reflexivity. Qed.
Example format_max : format max_int64 = "2562047h47m16.854775807s".
Proof. reflexivity. Qed.
Example format_millis : format (1500 * Microsecond) = "1.5ms".
Proof. reflexivity. Qed.

(** Rounding to a positive unit moves a duration by at most half the unit,
    and lands on a multiple of it, unless it would leave the range. *)
Lemma Round_near d m :
  0 < m -> 0 <= d -> d + m <= max_int64 ->
  Z.rem (Round d m) m = 0 /\ 2 * Z.abs (Round d m - d) <= m.
Proof.
  intros Hm Hd Hmax. unfold Round. rewrite (proj2 (Z.leb_gt _ _)), (proj2 (Z.ltb_ge _ _)) by lia.
  pose proof (Z.quot_rem d m ltac:(lia)). pose proof (Z.rem_bound_pos d m Hd Hm).
  set (q := Z.quot d m) in *. set (r := Z.rem d m) in *.
  assert (Hq : forall k, 0 <= k -> Z.rem (m * k) m = 0).
  { intros k Hk. rewrite Z.mul_comm. apply Z.rem_mul. lia. }
  assert (0 <= q) by (apply Z.quot_pos; lia).
  destruct (Z.ltb_spec (2 * r) m).
  - replace (d - r) with (m * q) by lia. rewrite Hq by done. lia.
  - rewrite (wrap64_id (d + m)), wrap64_id by (unfold_int64; lia).
    rewrite (proj2 (Z.ltb_lt _ _)) by lia. replace (d + m - r) with (m * (q + 1)) by lia.
    rewrite Hq by lia. lia.
Qed.

End Duration.
