(* ===== verification/Float64.v ===== *)
(** * IEEE 754 binary64 arithmetic as the sources use it

    [float64] is the Standard Library's executable specification of floating
    point ([SpecFloat]) at precision 53, maximal exponent 1024.  The library
    gives the operations; this file adds the conversions of Go ([float64(n)],
    [int64(f)]), decimal literals, and the facts the components need: rounding
    is monotone with respect to representable bounds ([round_spec]), small
    integers convert exactly ([of_Z_exact]), comparison of canonical floats is
    comparison of their values ([leb_value]). *)

From S2P Require Import Prelude.
From Stdlib Require Import SpecFloat.
Local Open Scope Z_scope.

Abbreviation float64 := spec_float.

Definition prec : Z := 53.
Definition emax : Z := 1024.

Definition f_add (x y : float64) : float64 := SFadd prec emax x y.
Definition f_mul (x y : float64) : float64 := SFmul prec emax x y.
Definition f_div (x y : float64) : float64 := SFdiv prec emax x y.
Definition f_leb (x y : float64) : bool := SFleb x y.
Definition f_ltb (x y : float64) : bool := SFltb x y.
Definition f_zero : float64 := S754_zero false.

(** [float64(n)]: round to nearest, ties to even. *)
Definition of_Z (z : Z) : float64 := binary_normalize prec emax z 0 false.

(** The literal [n/d] (a decimal literal is the correctly rounded quotient of
    its digits and a power of ten, both exact below [2^53]). *)
Definition lit (n d : Z) : float64 := f_div (of_Z n) (of_Z d).

(** Truncation toward zero of the magnitude [m * 2^e]. *)
Definition trunc (m e : Z) : Z := if 0 <=? e then m * 2 ^ e else m / 2 ^ (- e).

(** [int64(f)].  Go leaves the result of an unrepresentable value to the
    implementation; amd64 yields the least [int64]. *)
Definition to_int64 (f : float64) : Z :=
  match f with
  | S754_zero _ => 0
  | S754_finite s m e =>
      let z := if s then - trunc (Zpos m) e else trunc (Zpos m) e in
      if (min_int64 <=? z) && (z <=? max_int64) then z else min_int64
  | S754_infinity _ | S754_nan => min_int64
  end.

(** [math.Ceil] followed by [int64]. *)
Definition ceil_int64 (f : float64) : Z :=
  match f with
  | S754_zero _ => 0
  | S754_finite s m e =>
      let z := if s then - trunc (Zpos m) e
               else if 0 <=? e then Zpos m * 2 ^ e else - ((- Zpos m) / 2 ^ (- e)) in
      if (min_int64 <=? z) && (z <=? max_int64) then z else min_int64
  | S754_infinity _ | S754_nan => min_int64
  end.

Example lit_half : lit 1 2 = S754_finite false 4503599627370496 (-53).
Proof. reflexivity. Qed.
Example to_int64_ex : to_int64 (f_mul (lit 8 10) (of_Z 128000)) = 102400.
Proof. reflexivity. Qed.

(** ** Digits *)

Notation digits := Zdigits2.

Lemma digits_bounds m : 0 < m -> 2 ^ (digits m - 1) <= m < 2 ^ digits m /\ 1 <= digits m.
Proof.
  destruct m as [|p|p]; try lia. intros _. simpl digits.
  induction p as [p IH|p IH|]; [| |simpl; lia];
    cbn [digits2_pos]; rewrite Pos2Z.inj_succ;
    (replace (Z.succ _ - 1) with (Zpos (digits2_pos p) - 1 + 1) by lia);
    rewrite Z.pow_succ_r, Z.pow_add_r by lia; lia.
Qed.

Lemma digits_le m k : 0 < m -> 0 <= k -> m < 2 ^ k -> digits m <= k.
Proof.
  intros Hm Hk H. destruct (digits_bounds m Hm) as [[H1 _] H2].
  destruct (Z.le_gt_cases (digits m) k) as [|Hc]; [done|].
  pose proof (Z.pow_le_mono_r 2 k (digits m - 1)). lia.
Qed.

Lemma digits_ge m k : 0 < m -> 0 <= k -> 2 ^ k <= m -> k < digits m.
Proof.
  intros Hm Hk H. destruct (digits_bounds m Hm) as [[_ H2] H3].
  destruct (Z.lt_ge_cases k (digits m)) as [|Hc]; [done|].
  pose proof (Z.pow_le_mono_r 2 (digits m) k). lia.
Qed.

Lemma digits_eq m k : 0 < m -> 0 < k -> 2 ^ (k - 1) <= m < 2 ^ k -> digits m = k.
Proof.
  intros Hm Hk [H1 H2].
  pose proof (digits_le m k Hm ltac:(lia) H2).
  pose proof (digits_ge m (k - 1) Hm ltac:(lia) H1). lia.
Qed.

(** ** Shifting with rounding information *)

Definition inexact (x : shr_record) : bool := shr_r x || shr_s x.

Lemma shr_1_spec x :
  0 <= shr_m x ->
  shr_m (shr_1 x) = shr_m x / 2 /\
  inexact (shr_1 x) = inexact x || negb (shr_m x mod 2 =? 0).
Proof.
  destruct x as [m r s]. cbn [shr_m]. unfold inexact. intros Hm.
  destruct m as [|[p|p|]|p]; try lia; cbn [shr_1 shr_m shr_r shr_s].
  - by destruct r, s.
  - rewrite Pos2Z.inj_xI. split.
    + symmetry. rewrite Z.add_comm, Z.mul_comm, Z.div_add by lia. done.
    + rewrite Z.add_comm, Z.mul_comm, Z.mod_add by lia. by destruct r, s.
  - rewrite Pos2Z.inj_xO. rewrite Z.mul_comm, Z.div_mul, Z.mod_mul by lia.
    by destruct r, s.
  - by destruct r, s.
Qed.

Lemma iter_pos_nat {A} (f : A -> A) p x : iter_pos f p x = Nat.iter (Pos.to_nat p) f x.
Proof.
  revert x. induction p as [p IH|p IH|]; intros x; simpl iter_pos; [| |done].
  - rewrite !IH, <- Nat.iter_add, <- Nat.iter_succ_r. f_equal. lia.
  - rewrite !IH, <- Nat.iter_add. f_equal. lia.
Qed.

Lemma shr_iter_spec n x :
  0 <= shr_m x ->
  let y := Nat.iter n shr_1 x in
  shr_m y = shr_m x / 2 ^ Z.of_nat n /\
  inexact y = inexact x || negb (shr_m x mod 2 ^ Z.of_nat n =? 0).
Proof.
  intros Hx. induction n as [|n [IH1 IH2]]; cbn zeta.
  { simpl. rewrite Z.div_1_r, Z.mod_1_r. simpl. by rewrite orb_false_r. }
  rewrite Nat.iter_succ. pose proof (Z.pow_pos_nonneg 2 (Z.of_nat n) ltac:(lia) ltac:(lia)).
  destruct (shr_1_spec (Nat.iter n shr_1 x)) as [H1 H2].
  { rewrite IH1. apply Z.div_pos; lia. }
  rewrite H1, H2, IH1, IH2. rewrite Nat2Z.inj_succ, Z.pow_succ_r by lia.
  rewrite (Z.mul_comm 2), Z.div_div by lia. split; [done|].
  rewrite Z.rem_mul_r by lia.
  pose proof (Z.mod_pos_bound (shr_m x) (2 ^ Z.of_nat n) ltac:(lia)).
  pose proof (Z.mod_pos_bound (shr_m x / 2 ^ Z.of_nat n) 2 ltac:(lia)).
  rewrite <- orb_assoc. f_equal.
  destruct (shr_m x mod 2 ^ Z.of_nat n =? 0) eqn:E1,
    ((shr_m x / 2 ^ Z.of_nat n) mod 2 =? 0) eqn:E2; bool_to_prop;
    cbn [negb orb]; symmetry; rewrite ?negb_true_iff, ?negb_false_iff, ?Z.eqb_eq, ?Z.eqb_neq; nia.
Qed.

(** ** Rounding *)

Lemma fexp_eq e : fexp prec emax e = Z.max (e - 53) (-1074).
Proof. reflexivity. Qed.

Definition is_exact (l : location) : bool :=
  match l with loc_Exact => true | loc_Inexact _ => false end.

Lemma shr_fexp_spec m e l :
  0 <= m -> e <= fexp prec emax (digits m + e) ->
  let e1 := fexp prec emax (digits m + e) in
  exists x, shr_fexp prec emax m e l = (x, e1) /\
            shr_m x = m / 2 ^ (e1 - e) /\
            inexact x = negb (is_exact l) || negb (m mod 2 ^ (e1 - e) =? 0).
Proof.
  intros Hm He e1. unfold shr_fexp. fold e1.
  set (x0 := shr_record_of_loc m l).
  assert (Hx0 : shr_m x0 = m /\ inexact x0 = negb (is_exact l)).
  { by destruct l as [|[]]. }
  destruct Hx0 as [Hx1 Hx2].
  destruct (e1 - e) as [|p|p] eqn:Hk; simpl shr; [| |lia].
  - exists x0. rewrite Z.pow_0_r, Z.div_1_r, Z.mod_1_r, Hx2. simpl.
    rewrite orb_false_r. repeat split; [f_equal; lia|done].
  - exists (iter_pos shr_1 p x0). rewrite iter_pos_nat.
    destruct (shr_iter_spec (Pos.to_nat p) x0) as [H1 H2]; [lia|].
    rewrite Hx1, Hx2, positive_nat_Z in *. rewrite H1, H2.
    repeat split. f_equal. lia.
Qed.

Lemma loc_exact_iff x : loc_of_shr_record x = loc_Exact <-> inexact x = false.
Proof. by destruct x as [m [] []]. Qed.

Lemma round_ne_cases m l :
  round_nearest_even m l = m \/ (round_nearest_even m l = m + 1 /\ l <> loc_Exact).
Proof. destruct l as [|[]]; simpl; auto. destruct (Z.even m); auto. Qed.

(** The mantissa kept by the first shift. *)
Lemma quantize m e :
  0 < m -> let e1 := fexp prec emax (digits m + e) in e <= e1 ->
  let m1 := m / 2 ^ (e1 - e) in
  0 <= m1 < 2 ^ 53 /\ m1 * 2 ^ (e1 - e) <= m < (m1 + 1) * 2 ^ (e1 - e) /\
  (-1074 < e1 -> 2 ^ 52 <= m1).
Proof.
  intros Hm e1 He m1. destruct (digits_bounds m Hm) as [[Hd1 Hd2] Hd3].
  assert (Hp : 0 < 2 ^ (e1 - e)) by (apply Z.pow_pos_nonneg; lia).
  assert (Hdiv : m1 * 2 ^ (e1 - e) <= m < (m1 + 1) * 2 ^ (e1 - e)).
  { unfold m1. pose proof (Z.div_mod m (2 ^ (e1 - e)) ltac:(lia)).
    pose proof (Z.mod_pos_bound m (2 ^ (e1 - e)) Hp). nia. }
  assert (H0 : 0 <= m1) by (apply Z.div_pos; lia).
  split; [split; [done|]|split; [done|]].
  - apply Z.div_lt_upper_bound; [lia|].
    eapply Z.lt_le_trans; [exact Hd2|]. rewrite <- Z.pow_add_r by lia.
    apply Z.pow_le_mono_r; [lia|]. unfold e1. rewrite fexp_eq. lia.
  - intros Hn. apply Z.div_le_lower_bound; [lia|].
    etransitivity; [|exact Hd1]. rewrite <- Z.pow_add_r by lia.
    apply Z.pow_le_mono_r; [lia|]. revert Hn. unfold e1. rewrite fexp_eq. lia.
Qed.

(** The second shift only renormalises a mantissa that was rounded up to
    [2^53]; it never loses a bit. *)
Lemma renormalise m e :
  0 <= m <= 2 ^ 53 -> -1074 <= e -> (-1074 < e -> 2 ^ 52 <= m) ->
  exists x e', shr_fexp prec emax m e loc_Exact = (x, e') /\
    0 <= shr_m x /\ e <= e' <= e + 1 /\ shr_m x * 2 ^ (e' - e) = m /\
    (0 < m -> 0 < shr_m x /\ fexp prec emax (digits (shr_m x) + e') = e').
Proof.
  intros Hm He Hn. destruct (Z.eq_dec m 0) as [->|Hm0].
  { assert (e = -1074) as -> by (destruct (Z.eq_dec e (-1074)); lia).
    exists (shr_record_of_loc 0 loc_Exact), (-1074). split_and!; simpl; lia || done. }
  destruct (Z.eq_dec m (2 ^ 53)) as [->|Hm1].
  - assert (Hd : digits (2 ^ 53) = 54) by reflexivity.
    destruct (shr_fexp_spec (2 ^ 53) e loc_Exact) as (x & H1 & H2 & _);
      [lia | rewrite fexp_eq, Hd; lia |].
    assert (He1 : fexp prec emax (digits (2 ^ 53) + e) = e + 1)
      by (rewrite fexp_eq, Hd; lia).
    rewrite He1 in *. replace (e + 1 - e) with 1 in * by lia.
    exists x, (e + 1). change (2 ^ 53 / 2 ^ 1) with (2 ^ 52) in H2.
    rewrite H2. replace (e + 1 - e) with 1 by lia. split_and!; try done; try lia.
    intros _. split; [done|].
    assert (digits (2 ^ 52) = 53) as -> by reflexivity. rewrite fexp_eq. lia.
  - assert (Hd : digits m <= 53) by (apply digits_le; lia).
    assert (He1 : fexp prec emax (digits m + e) = e).
    { rewrite fexp_eq. destruct (Z.eq_dec e (-1074)); [lia|].
      rewrite (digits_eq m 53) by lia. lia. }
    destruct (shr_fexp_spec m e loc_Exact) as (x & H1 & H2 & _); [lia|lia|].
    rewrite He1 in *. rewrite Z.sub_diag, Z.pow_0_r, Z.div_1_r in H2.
    exists x, e. rewrite H2, Z.sub_diag, Z.pow_0_r. split_and!; lia || done.
Qed.

(** What a rounded magnitude looks like. *)
Definition finish (s : bool) (m e : Z) : float64 :=
  match m with
  | Z0 => S754_zero s
  | Zpos p => if e <=? 971 then S754_finite s p e else S754_infinity s
  | Zneg _ => S754_nan
  end.

Definition canonical (m e : Z) : Prop := fexp prec emax (digits m + e) = e.

(** [m * 2^e] (with a fraction of [2^e] on top when [l] is inexact) stays below
    or above a bound [n * 2^t] that is itself a float.  [K] only scales all
    exponents to be non-negative. *)
Definition below (l : location) (m e n t K : Z) : Prop :=
  if is_exact l then m * 2 ^ (e + K) <= n * 2 ^ (t + K)
  else m * 2 ^ (e + K) < n * 2 ^ (t + K).
Definition above (l : location) (m e n t K : Z) : Prop :=
  if is_exact l then n * 2 ^ (t + K) <= m * 2 ^ (e + K)
  else n * 2 ^ (t + K) < (m + 1) * 2 ^ (e + K).

Lemma pow_split a b : 0 <= a -> 0 <= b -> 2 ^ (a + b) = 2 ^ a * 2 ^ b.
Proof. intros. by apply Z.pow_add_r. Qed.

(** Rounding at exponent [e1] against a representable bound. *)
Section Bound.
Context (m e n t K : Z) (l : location).
Context (Hm : 0 < m) (He : e <= fexp prec emax (digits m + e)).
Context (Hn : 0 <= n <= 2 ^ 53) (Ht : -1074 <= t) (HeK : 0 <= e + K) (HtK : 0 <= t + K).

#[local] Abbreviation e1 := (fexp prec emax (digits m + e)).
#[local] Abbreviation m1 := (m / 2 ^ (e1 - e)).

#[local] Lemma scale_e : 2 ^ (e1 + K) = 2 ^ (e1 - e) * 2 ^ (e + K).
Proof. rewrite <- pow_split by lia. f_equal. lia. Qed.

#[local] Lemma bound_fine : e1 <= t ->
  n * 2 ^ (t + K) = n * 2 ^ (t - e1) * (2 ^ (e1 - e) * 2 ^ (e + K)).
Proof.
  intros. rewrite <- scale_e, <- Z.mul_assoc, <- pow_split by lia.
  do 2 f_equal. lia.
Qed.

#[local] Lemma bound_coarse : t < e1 -> n * 2 ^ (t + K) <= m1 * (2 ^ (e1 - e) * 2 ^ (e + K)).
Proof.
  intros Hlt. destruct (quantize m e Hm He) as (_ & _ & Hq).
  rewrite <- scale_e. replace (e1 + K) with ((e1 - 1 - t) + (1 + (t + K))) by lia.
  rewrite (pow_split (e1 - 1 - t)), (pow_split 1) by lia.
  pose proof (Z.pow_pos_nonneg 2 (t + K) ltac:(lia) ltac:(lia)).
  pose proof (Z.pow_pos_nonneg 2 (e1 - 1 - t) ltac:(lia) ltac:(lia)).
  specialize (Hq ltac:(lia)).
  generalize dependent m1. generalize dependent (2 ^ (e1 - 1 - t)).
  generalize dependent (2 ^ (t + K)). intros T HT A HA q Hq.
  assert (2 ^ 52 * 1 <= q * A) by (apply Z.mul_le_mono_nonneg; lia). nia.
Qed.

Lemma round_down_below : below l m e n t K -> m1 * 2 ^ (e1 + K) <= n * 2 ^ (t + K).
Proof.
  intros Hb. destruct (quantize m e Hm He) as (_ & Hq & _).
  assert (m * 2 ^ (e + K) <= n * 2 ^ (t + K)) by (revert Hb; unfold below; case_match; lia).
  pose proof (Z.pow_pos_nonneg 2 (e + K) ltac:(lia) ltac:(lia)).
  rewrite scale_e. nia.
Qed.

Lemma round_up_below :
  below l m e n t K -> negb (is_exact l) || negb (m mod 2 ^ (e1 - e) =? 0) = true ->
  (m1 + 1) * 2 ^ (e1 + K) <= n * 2 ^ (t + K).
Proof.
  intros Hb Hi. destruct (quantize m e Hm He) as (_ & Hq & _).
  pose proof (Z.pow_pos_nonneg 2 (e + K) ltac:(lia) ltac:(lia)) as Hp.
  pose proof (Z.pow_pos_nonneg 2 (e1 - e) ltac:(lia) ltac:(lia)) as Hp1.
  assert (Hs : m1 * 2 ^ (e1 - e) * 2 ^ (e + K) < n * 2 ^ (t + K)).
  { revert Hb. unfold below. destruct (is_exact l); simpl in *; intros Hb; [|nia].
    bool_to_prop. pose proof (Z.div_mod m (2 ^ (e1 - e)) ltac:(lia)).
    pose proof (Z.mod_pos_bound m (2 ^ (e1 - e)) Hp1). nia. }
  rewrite scale_e. destruct (Z.le_gt_cases e1 t) as [Hf|Hc].
  - rewrite bound_fine in Hs |- * by done. rewrite <- Z.mul_assoc in Hs.
    apply Z.mul_lt_mono_pos_r in Hs; [|by apply Z.mul_pos_pos].
    apply Z.mul_le_mono_nonneg_r; lia.
  - pose proof (bound_coarse Hc) as Hco. rewrite Z.mul_assoc in Hco. lia.
Qed.

Lemma round_down_above : above l m e n t K -> n * 2 ^ (t + K) <= m1 * 2 ^ (e1 + K).
Proof.
  intros Ha. destruct (quantize m e Hm He) as (_ & Hq & _).
  pose proof (Z.pow_pos_nonneg 2 (e + K) ltac:(lia) ltac:(lia)) as Hp.
  pose proof (Z.pow_pos_nonneg 2 (e1 - e) ltac:(lia) ltac:(lia)) as Hp1.
  rewrite scale_e. destruct (Z.le_gt_cases e1 t) as [Hf|Hc]; [|by apply bound_coarse].
  rewrite bound_fine by done.
  assert (Hle : n * 2 ^ (t - e1) * 2 ^ (e1 - e) <= m).
  { revert Ha. unfold above. rewrite bound_fine, Z.mul_assoc by done.
    case_match; intros Ha;
      [apply Z.mul_le_mono_pos_r in Ha | apply Z.mul_lt_mono_pos_r in Ha]; lia. }
  apply Z.mul_le_mono_nonneg_r; [lia|]. apply Z.div_le_lower_bound; lia.
Qed.
End Bound.

(** The rounded result: canonical, and on the same side of every representable
    bound as the exact value. *)
Lemma round_spec s m e l :
  0 < m -> e <= fexp prec emax (digits m + e) ->
  exists m' e', binary_round_aux prec emax s m e l = finish s m' e' /\
    0 <= m' /\ -1074 <= e' /\ e <= e' /\ (0 < m' -> canonical m' e') /\
    forall n t K, 0 <= n <= 2 ^ 53 -> -1074 <= t -> 0 <= e + K -> 0 <= t + K ->
      (below l m e n t K -> m' * 2 ^ (e' + K) <= n * 2 ^ (t + K)) /\
      (above l m e n t K -> n * 2 ^ (t + K) <= m' * 2 ^ (e' + K)).
Proof.
  intros Hm He. set (e1 := fexp prec emax (digits m + e)) in *.
  assert (He1 : -1074 <= e1) by (unfold e1; rewrite fexp_eq; lia).
  destruct (quantize m e Hm He) as (Hq1 & Hq2 & Hq3). fold e1 in Hq1, Hq2, Hq3.
  destruct (shr_fexp_spec m e l) as (x & Hx1 & Hx2 & Hx3); [lia|done|].
  fold e1 in Hx1, Hx2, Hx3. set (m2 := round_nearest_even (shr_m x) (loc_of_shr_record x)).
  assert (Hm2 : m2 = m / 2 ^ (e1 - e) \/
    (m2 = m / 2 ^ (e1 - e) + 1 /\ negb (is_exact l) || negb (m mod 2 ^ (e1 - e) =? 0) = true)).
  { unfold m2. rewrite <- Hx2, <- Hx3.
    destruct (round_ne_cases (shr_m x) (loc_of_shr_record x)) as [|[? Hne]]; [by left|].
    right. split; [done|]. destruct (inexact x) eqn:E; [done|]. by apply loc_exact_iff in E. }
  destruct (renormalise m2 e1) as (y & e' & Hy1 & Hy2 & Hy3 & Hy4 & Hy5); [lia|lia| |].
  { intros H. specialize (Hq3 H). lia. }
  exists (shr_m y), e'. split_and!; [|done|lia|lia| |].
  - unfold binary_round_aux. rewrite Hx1. fold m2. rewrite Hy1. done.
  - intros Hpos. apply Hy5. pose proof (Z.pow_pos_nonneg 2 (e' - e1)). nia.
  - intros n t K Hn Ht HeK HtK.
    assert (Hval : shr_m y * 2 ^ (e' + K) = m2 * 2 ^ (e1 + K)).
    { rewrite <- Hy4, <- Z.mul_assoc, <- pow_split by lia. do 2 f_equal. lia. }
    rewrite Hval. pose proof (Z.pow_pos_nonneg 2 (e1 + K) ltac:(lia) ltac:(lia)).
    split; intros Hb.
    + destruct Hm2 as [->|[-> Hi]]; eauto using round_down_below, round_up_below.
    + pose proof (round_down_above m e n t K l Hm He Hn Ht HeK HtK Hb) as Hra.
      fold e1 in Hra.
      destruct Hm2 as [->|[-> _]]; nia.
Qed.

(** ** Non-negative finite values *)

(** [f] is the non-negative finite float [m * 2^e]. *)
Definition repr (f : float64) (m e : Z) : Prop :=
  f = finish false m e /\ 0 <= m /\ -1074 <= e <= 971 /\ (0 < m -> canonical m e).

Lemma canonical_digits m e : 0 < m -> canonical m e -> m < 2 ^ 53 /\ (-1074 < e -> 2 ^ 52 <= m).
Proof.
  unfold canonical. rewrite fexp_eq. intros Hm Hc.
  destruct (digits_bounds m Hm) as [[H1 H2] H3]. split.
  - eapply Z.lt_le_trans; [exact H2|]. apply Z.pow_le_mono_r; lia.
  - intros. assert (digits m = 53) as Hd by lia. rewrite Hd in H1. done.
Qed.

Lemma canonical_lt m1 e1 m2 e2 K :
  0 < m1 -> 0 < m2 -> canonical m1 e1 -> canonical m2 e2 -> -1074 <= e1 < e2 -> 0 <= e1 + K ->
  m1 * 2 ^ (e1 + K) < m2 * 2 ^ (e2 + K).
Proof.
  intros Hm1 Hm2 Hc1 Hc2 He HK.
  destruct (canonical_digits _ _ Hm1 Hc1) as [Hb1 _].
  destruct (canonical_digits _ _ Hm2 Hc2) as [_ Hb2]. specialize (Hb2 ltac:(lia)).
  replace (e2 + K) with ((e2 - e1 - 1) + (1 + (e1 + K))) by lia.
  rewrite (pow_split (e2 - e1 - 1)), (pow_split 1) by lia.
  pose proof (Z.pow_pos_nonneg 2 (e1 + K) ltac:(lia) ltac:(lia)) as HT.
  pose proof (Z.pow_pos_nonneg 2 (e2 - e1 - 1) ltac:(lia) ltac:(lia)) as HA.
  generalize dependent (2 ^ (e1 + K)). generalize dependent (2 ^ (e2 - e1 - 1)).
  intros A HA T HT. assert (2 ^ 52 * 1 <= m2 * A) by (apply Z.mul_le_mono_nonneg; lia). nia.
Qed.

(** Comparison of floats is comparison of values. *)
Lemma leb_value f1 m1 e1 f2 m2 e2 K :
  repr f1 m1 e1 -> repr f2 m2 e2 -> 0 <= e1 + K -> 0 <= e2 + K ->
  f_leb f1 f2 = (m1 * 2 ^ (e1 + K) <=? m2 * 2 ^ (e2 + K)).
Proof.
  intros (-> & Hm1 & He1 & Hc1) (-> & Hm2 & He2 & Hc2) HK1 HK2.
  pose proof (Z.pow_pos_nonneg 2 (e1 + K) ltac:(lia) ltac:(lia)) as Hp1.
  pose proof (Z.pow_pos_nonneg 2 (e2 + K) ltac:(lia) ltac:(lia)) as Hp2.
  unfold finish. rewrite !(proj2 (Z.leb_le _ 971)) by lia.
  destruct m1 as [|p1|p1], m2 as [|p2|p2]; try lia; unfold f_leb, SFleb, SFcompare.
  - symmetry. apply Z.leb_le. lia.
  - symmetry. apply Z.leb_le. lia.
  - symmetry. apply Z.leb_gt. lia.
  - specialize (Hc1 ltac:(lia)). specialize (Hc2 ltac:(lia)).
    destruct (Z.compare_spec e1 e2) as [->|Hlt|Hgt]; symmetry.
    + change (Pos.compare_cont Eq p1 p2) with (Zpos p1 ?= Zpos p2).
      destruct (Z.compare_spec (Zpos p1) (Zpos p2));
        [apply Z.leb_le; nia | apply Z.leb_le; nia | apply Z.leb_gt; nia].
    + apply Z.leb_le, Z.lt_le_incl, canonical_lt; done || lia.
    + apply Z.leb_gt, canonical_lt; done || lia.
Qed.

(** A rounded magnitude below [2^53 * 2^t] with [t <= 900] does not overflow. *)
Lemma finish_repr m e n K :
  0 <= m -> -1074 <= e -> (0 < m -> canonical m e) ->
  0 <= e + K -> 0 <= K -> n <= 2 ^ 53 -> m * 2 ^ (e + K) <= n * 2 ^ K ->
  exists e', repr (finish false m e) m e' /\ (0 < m -> e' = e).
Proof.
  intros Hm He Hc HeK HK Hn Hv. destruct (Z.eq_dec m 0) as [->|Hm0].
  { exists 0. split; [|lia]. unfold repr. split_and!; done || lia. }
  exists e. split; [|done]. split_and!; try done.
  destruct (Z.le_gt_cases e 971) as [|Hgt]; [done|exfalso].
  destruct (canonical_digits m e ltac:(lia) (Hc ltac:(lia))) as [_ Hb].
  specialize (Hb ltac:(lia)).
  assert (2 ^ 971 <= 2 ^ e) by (apply Z.pow_le_mono_r; lia).
  rewrite pow_split in Hv by lia.
  pose proof (Z.pow_pos_nonneg 2 K ltac:(lia) ltac:(lia)) as HT.
  rewrite Z.mul_assoc in Hv. apply Z.mul_le_mono_pos_r in Hv; [|done].
  assert (2 ^ 52 * 2 ^ 971 <= m * 2 ^ e) by (apply Z.mul_le_mono_nonneg; lia).
  assert (2 ^ 53 < 2 ^ 52 * 2 ^ 971) by (vm_compute; reflexivity). lia.
Qed.

Lemma shl_align_spec mx ex ex' :
  ex' <= ex -> exists mz, shl_align mx ex ex' = (mz, ex') /\ Zpos mz = Zpos mx * 2 ^ (ex - ex').
Proof.
  intros H. unfold shl_align. destruct (ex' - ex) as [|d|d] eqn:E; [|lia|].
  - exists mx. replace ex' with ex by lia. rewrite Z.sub_diag. split; [done|lia].
  - exists (Pos.iter xO mx d). split; [done|]. replace (ex - ex') with (Zpos d) by lia. clear.
    induction d as [|d IH] using Pos.peano_ind; [simpl; lia|].
    rewrite Pos.iter_succ, Pos2Z.inj_xO, IH, Pos2Z.inj_succ, Z.pow_succ_r by lia. lia.
Qed.

(** Integers below [2^53] are exact. *)
Lemma of_Z_exact z :
  0 <= z < 2 ^ 53 ->
  exists m e, repr (of_Z z) m e /\ -1074 <= e <= 0 /\ m = z * 2 ^ (- e).
Proof.
  intros Hz. destruct (Z.eq_dec z 0) as [->|Hz0].
  { exists 0, 0. split_and!; done || lia. }
  assert (Hd : 1 <= digits z <= 53).
  { destruct (digits_bounds z ltac:(lia)) as [_ ?].
    pose proof (digits_le z 53 ltac:(lia) ltac:(lia)). lia. }
  destruct z as [|p|p]; try lia. unfold of_Z, binary_normalize, binary_round.
  change (Zpos (digits2_pos p)) with (digits (Zpos p)).
  set (d := digits (Zpos p)) in *.
  assert (Hf : fexp prec emax (d + 0) = d - 53) by (rewrite fexp_eq; lia). rewrite Hf.
  destruct (shl_align_spec p 0 (d - 53) ltac:(lia)) as (mz & -> & Hmz).
  replace (0 - (d - 53)) with (53 - d) in Hmz by lia.
  assert (Hdz : digits (Zpos mz) = 53).
  { destruct (digits_bounds (Zpos p) ltac:(lia)) as [[H1 H2] _]. fold d in H1, H2.
    pose proof (Z.pow_pos_nonneg 2 (53 - d) ltac:(lia) ltac:(lia)).
    apply digits_eq; [lia|lia|]. rewrite Hmz.
    replace (2 ^ 53) with (2 ^ d * 2 ^ (53 - d)) by (rewrite <- pow_split by lia; f_equal; lia).
    replace (2 ^ (53 - 1)) with (2 ^ (d - 1) * 2 ^ (53 - d))
      by (rewrite <- pow_split by lia; f_equal; lia). nia. }
  destruct (round_spec false (Zpos mz) (d - 53) loc_Exact) as (m' & e' & -> & Hm' & He' & Hle & Hc & Hb);
    [lia|rewrite fexp_eq, Hdz; lia|].
  assert (Hv : m' * 2 ^ (e' + 1074) = Zpos p * 2 ^ 1074).
  { destruct (Hb (Zpos p) 0 1074) as [Hu Hl]; try lia.
    unfold below, above in Hu, Hl. simpl in Hu, Hl. rewrite Hmz in Hu, Hl.
    rewrite <- Z.mul_assoc, <- pow_split in Hu, Hl by lia.
    replace (53 - d + (d - 53 + 1074)) with 1074 in Hu, Hl by lia.
    specialize (Hu ltac:(lia)). specialize (Hl ltac:(lia)). rewrite Z.add_0_l in *. lia. }
  assert (Hpos : 0 < m').
  { pose proof (Z.pow_pos_nonneg 2 (e' + 1074) ltac:(lia) ltac:(lia)). nia. }
  specialize (Hc Hpos). destruct (canonical_digits m' e' Hpos Hc) as [Hc1 Hc2].
  assert (He0 : e' <= 0).
  { destruct (Z.le_gt_cases e' 0) as [|Hgt]; [done|exfalso]. specialize (Hc2 ltac:(lia)).
    replace (e' + 1074) with ((e' - 1) + (1 + 1074)) in Hv by lia.
    rewrite (pow_split (e' - 1)), (pow_split 1) in Hv by lia.
    pose proof (Z.pow_pos_nonneg 2 (e' - 1) ltac:(lia) ltac:(lia)) as HA.
    assert (2 ^ 52 * 1 <= m' * 2 ^ (e' - 1)) by (apply Z.mul_le_mono_nonneg; lia).
    assert (m' * 2 ^ (e' - 1) * 2 = Zpos p) by (apply (Z.mul_reg_r _ _ (2 ^ 1074)); lia). lia. }
  exists m', e'. split_and!; [|lia|done|].
  - unfold repr. split_and!; try done; lia.
  - apply (Z.mul_reg_r _ _ (2 ^ (e' + 1074))).
    + pose proof (Z.pow_pos_nonneg 2 (e' + 1074) ltac:(lia) ltac:(lia)). lia.
    + rewrite <- Z.mul_assoc, <- pow_split by lia. rewrite Hv. do 2 f_equal. lia.
Qed.

(** ** Products with and quotients of small integers *)

Lemma of_Z_normal z m e :
  0 < z -> repr (of_Z z) m e -> m = z * 2 ^ (- e) -> -1074 <= e <= 0 -> z < 2 ^ 53 ->
  0 < m /\ -52 <= e /\ 2 ^ 52 <= m < 2 ^ 53 /\ of_Z z = S754_finite false (Z.to_pos m) e.
Proof.
  intros Hz (Hf & Hm & He & Hc) Hv He0 Hz53.
  assert (Hpos : 0 < m).
  { pose proof (Z.pow_pos_nonneg 2 (- e) ltac:(lia) ltac:(lia)). nia. }
  specialize (Hc Hpos). destruct (canonical_digits m e Hpos Hc) as [H1 H2].
  assert (-52 <= e).
  { destruct (Z.le_gt_cases (-52) e); [done|exfalso].
    assert (2 ^ 53 <= 2 ^ (- e)) by (apply Z.pow_le_mono_r; lia). nia. }
  split_and!; try done; [by apply H2; lia|].
  rewrite Hf. destruct m as [|p|p]; try lia. unfold finish.
  by rewrite (proj2 (Z.leb_le e 971)) by lia.
Qed.

Lemma trunc_le m e n K :
  0 <= m -> 0 <= e + K -> 0 <= K -> m * 2 ^ (e + K) <= n * 2 ^ K -> 0 <= trunc m e <= n.
Proof.
  intros Hm HeK HK Hv. unfold trunc.
  pose proof (Z.pow_pos_nonneg 2 K ltac:(lia) ltac:(lia)) as HT.
  destruct (0 <=? e) eqn:E; bool_to_prop.
  - pose proof (Z.pow_pos_nonneg 2 e ltac:(lia) ltac:(lia)).
    rewrite pow_split, Z.mul_assoc in Hv by lia. apply Z.mul_le_mono_pos_r in Hv; [|done].
    split; [nia|done].
  - pose proof (Z.pow_pos_nonneg 2 (- e) ltac:(lia) ltac:(lia)) as HE.
    pose proof (Z.pow_pos_nonneg 2 (e + K) ltac:(lia) ltac:(lia)) as HEK.
    replace (2 ^ K) with (2 ^ (- e) * 2 ^ (e + K)) in Hv
      by (rewrite <- pow_split by lia; f_equal; lia).
    rewrite Z.mul_assoc in Hv. apply Z.mul_le_mono_pos_r in Hv; [|done].
    split; [apply Z.div_pos; lia|]. apply Z.div_le_upper_bound; lia.
Qed.

Lemma to_int64_finish m e n K :
  0 <= m -> 0 <= e + K -> 0 <= K -> n <= max_int64 -> e <= 971 ->
  m * 2 ^ (e + K) <= n * 2 ^ K -> 0 <= to_int64 (finish false m e) <= n.
Proof.
  intros Hm HeK HK Hn He Hv. pose proof (trunc_le m e n K Hm HeK HK Hv).
  unfold finish. destruct m as [|p|p]; simpl; [lia| |lia].
  rewrite (proj2 (Z.leb_le e 971)) by lia. simpl.
  unfold_int64. rewrite (proj2 (Z.leb_le _ _)), (proj2 (Z.leb_le _ _)) by lia. done.
Qed.

(** A factor of at most one never enlarges a small integer. *)
Lemma mul_le_int x m e n :
  repr x m e -> m * 2 ^ (e + 1074) <= 2 ^ 1074 -> 0 <= n < 2 ^ 53 ->
  0 <= to_int64 (f_mul x (of_Z n)) <= n.
Proof.
  intros (-> & Hm & He & Hc) Hle Hn.
  destruct (Z.eq_dec m 0) as [->|Hm0].
  { destruct (of_Z_exact n Hn) as (my & ey & (-> & ? & ? & _) & _ & _).
    unfold finish. rewrite (proj2 (Z.leb_le ey 971)) by lia. destruct my; simpl; lia. }
  destruct (Z.eq_dec n 0) as [->|Hn0].
  { unfold finish. rewrite (proj2 (Z.leb_le e 971)) by lia. destruct m; simpl; lia. }
  destruct (of_Z_exact n Hn) as (my & ey & Hr & Hey & Hv).
  destruct (of_Z_normal n my ey) as (Hy0 & Hy1 & Hy2 & ->); try done || lia.
  destruct m as [|px|px]; try lia.
  assert (finish false (Zpos px) e = S754_finite false px e) as ->
    by (unfold finish; by rewrite (proj2 (Z.leb_le e 971)) by lia).
  unfold f_mul, SFmul. simpl xorb. rewrite Pos2Z.inj_mul, Z2Pos.id by lia.
  assert (Hd : 52 < digits (Zpos px * my)) by (apply digits_ge; nia).
  destruct (round_spec false (Zpos px * my) (e + ey) loc_Exact)
    as (m' & e' & -> & Hm' & He' & Hee & Hc' & Hb); [nia|rewrite fexp_eq; lia|].
  assert (Hup : m' * 2 ^ (e' + 2200) <= n * 2 ^ 2200).
  { apply (Hb n 0 2200); try lia. unfold below. simpl is_exact. cbv iota.
    rewrite Hv, Z.add_0_l.
    replace (e + ey + 2200) with (e + 1074 + (ey + 1126)) by lia.
    replace (Zpos px * (n * 2 ^ (- ey)) * 2 ^ (e + 1074 + (ey + 1126)))
      with (n * (Zpos px * 2 ^ (e + 1074)) * 2 ^ 1126).
    - replace 2200 with (1074 + 1126) by lia. rewrite (pow_split 1074 1126), (Z.mul_assoc n (2 ^ 1074)) by lia.
      apply Z.mul_le_mono_nonneg_r; [apply Z.pow_nonneg; lia|].
      apply Z.mul_le_mono_nonneg_l; lia.
    - rewrite (pow_split (e + 1074)) by lia.
      replace 1126 with (- ey + (ey + 1126)) at 1 by lia. rewrite (pow_split (- ey)) by lia. ring. }
  destruct (finish_repr m' e' n 2200) as (e'' & Hr' & Hee'); try done || lia.
  destruct (Z.eq_dec m' 0) as [->|]; [change (0 <= 0 <= n); lia|].
  specialize (Hee' ltac:(lia)) as ->. destruct Hr' as (_ & _ & ? & _).
  apply to_int64_finish with (K := 2200); unfold_int64; done || lia.
Qed.

(** The correctly rounded quotient of two small positive integers lies on the
    same side of every representable bound as the rational quotient. *)
Lemma new_location_exact d r : is_exact (new_location d r) = (r =? 0).
Proof.
  unfold new_location, new_location_even, new_location_odd.
  destruct (Z.even d), (r =? 0); done.
Qed.

Lemma quotient_scaled a b ex ey K :
  0 < a -> 0 < b -> -52 <= ex <= 0 -> -52 <= ey <= 0 -> 200 <= K ->
  let mx := a * 2 ^ (- ex) in let my := b * 2 ^ (- ey) in
  let q := mx * 2 ^ 53 / my in let r := (mx * 2 ^ 53) mod my in
  let P := 2 ^ (ex - ey - 53 + K) in
  b * (q * P) <= a * 2 ^ K < b * ((q + 1) * P) /\ (r = 0 -> b * (q * P) = a * 2 ^ K) /\
  (r <> 0 -> b * (q * P) < a * 2 ^ K).
Proof.
  intros Ha Hb Hex Hey HK mx my q r P.
  pose proof (Z.pow_pos_nonneg 2 (- ex) ltac:(lia) ltac:(lia)) as HA.
  pose proof (Z.pow_pos_nonneg 2 (- ey) ltac:(lia) ltac:(lia)) as HB.
  assert (HP : 0 < P) by (apply Z.pow_pos_nonneg; lia).
  assert (Hid : P * (2 ^ (- ex) * 2 ^ 53) = 2 ^ K * 2 ^ (- ey)).
  { unfold P. rewrite <- !pow_split by lia. f_equal. lia. }
  assert (Hmy : 0 < my) by (unfold my; nia).
  pose proof (Z.div_mod (mx * 2 ^ 53) my ltac:(lia)) as Hdm. fold q r in Hdm.
  pose proof (Z.mod_pos_bound (mx * 2 ^ 53) my Hmy) as Hr. fold r in Hr.
  assert (Hkey : a * 2 ^ K * 2 ^ (- ey) = b * (q * P) * 2 ^ (- ey) + r * P).
  { replace (a * 2 ^ K * 2 ^ (- ey)) with (a * (2 ^ K * 2 ^ (- ey))) by ring.
    rewrite <- Hid. replace (a * (P * (2 ^ (- ex) * 2 ^ 53))) with (mx * 2 ^ 53 * P)
      by (unfold mx; ring).
    rewrite Hdm. unfold my. ring. }
  assert (Hr2 : 0 <= r * P < b * 2 ^ (- ey) * P).
  { fold my. split; [nia|]. apply Z.mul_lt_mono_pos_r; lia. }
  split_and!.
  - apply (Z.mul_le_mono_pos_r _ _ (2 ^ (- ey))); lia.
  - apply (Z.mul_lt_mono_pos_r (2 ^ (- ey))); [done|]. rewrite Hkey.
    replace (b * ((q + 1) * P) * 2 ^ (- ey))
      with (b * (q * P) * 2 ^ (- ey) + b * 2 ^ (- ey) * P) by ring. lia.
  - intros Hr0. apply (Z.mul_reg_r _ _ (2 ^ (- ey))); [lia|]. rewrite Hkey, Hr0. lia.
  - intros Hr0. apply (Z.mul_lt_mono_pos_r (2 ^ (- ey))); [done|]. rewrite Hkey.
    assert (0 < r * P) by (apply Z.mul_pos_pos; lia). lia.
Qed.

Lemma div_spec a b :
  0 < a < 2 ^ 53 -> 0 < b < 2 ^ 53 ->
  exists m e, repr (f_div (of_Z a) (of_Z b)) m e /\
    forall n t K, 0 <= n <= 2 ^ 53 -> -1074 <= t -> 200 <= K -> 0 <= t + K -> 0 <= e + K ->
      (a * 2 ^ K <= b * (n * 2 ^ (t + K)) -> m * 2 ^ (e + K) <= n * 2 ^ (t + K)) /\
      (b * (n * 2 ^ (t + K)) <= a * 2 ^ K -> n * 2 ^ (t + K) <= m * 2 ^ (e + K)).
Proof.
  intros Ha Hb.
  destruct (of_Z_exact a ltac:(lia)) as (mx & ex & Hrx & Hex & Hvx).
  destruct (of_Z_exact b ltac:(lia)) as (my & ey & Hry & Hey & Hvy).
  destruct (of_Z_normal a mx ex) as (Hx0 & Hx1 & Hx2 & ->); try done || lia.
  destruct (of_Z_normal b my ey) as (Hy0 & Hy1 & Hy2 & ->); try done || lia.
  unfold f_div, SFdiv, SFdiv_core_binary. rewrite !Z2Pos.id by lia.
  change (Zdigits2 mx) with (digits mx). change (Zdigits2 my) with (digits my).
  rewrite (digits_eq mx 53), (digits_eq my 53), fexp_eq by lia.
  replace (Z.min (Z.max (53 + ex - (53 + ey) - 53) (-1074)) (ex - ey)) with (ex - ey - 53) by lia.
  replace (ex - ey - (ex - ey - 53)) with 53 by lia. cbv beta iota zeta.
  rewrite Z.shiftl_mul_pow2 by lia. simpl xorb.
  pose proof (Z.div_mod (mx * 2 ^ 53) my ltac:(lia)) as Hdm.
  pose proof (Z.mod_pos_bound (mx * 2 ^ 53) my Hy0) as Hrm.
  unfold Z.div, Z.modulo in Hdm, Hrm.
  pose proof (quotient_scaled a b ex ey) as Hq. cbv zeta in Hq.
  rewrite <- Hvx, <- Hvy in Hq. unfold Z.div, Z.modulo in Hq.
  destruct (Z.div_eucl (mx * 2 ^ 53) my) as [q r].
  assert (Hq0 : 2 ^ 52 <= q).
  { apply Z.lt_succ_r, (Z.mul_lt_mono_pos_l my); [done|]. nia. }
  pose proof (digits_ge q 52 ltac:(lia) ltac:(lia) Hq0) as Hdq.
  destruct (round_spec false q (ex - ey - 53) (new_location my r))
    as (m' & e' & -> & Hm' & He' & Hee & Hc' & Hbd); [lia|rewrite fexp_eq; lia|].
  assert (Hspec : forall n t K, 0 <= n <= 2 ^ 53 -> -1074 <= t -> 200 <= K -> 0 <= t + K ->
      (a * 2 ^ K <= b * (n * 2 ^ (t + K)) -> m' * 2 ^ (e' + K) <= n * 2 ^ (t + K)) /\
      (b * (n * 2 ^ (t + K)) <= a * 2 ^ K -> n * 2 ^ (t + K) <= m' * 2 ^ (e' + K))).
  { intros n t K Hn Ht HK HtK. destruct (Hbd n t K Hn Ht ltac:(lia) HtK) as [Hu Hl].
    destruct (Hq K) as ((Hq1 & Hq2) & Hq3 & Hq4); try lia.
    unfold below, above in Hu, Hl. rewrite new_location_exact in Hu, Hl.
    set (N := n * 2 ^ (t + K)) in *. clearbody N. clear -Hu Hl Hq1 Hq2 Hq3 Hq4 Hb.
    destruct (Z.eqb_spec r 0) as [Hr|Hr]; split; intros Hh.
    - apply Hu. apply (Z.mul_le_mono_pos_l _ _ b); lia.
    - apply Hl. specialize (Hq3 Hr). apply (Z.mul_le_mono_pos_l _ _ b); lia.
    - apply Hu. specialize (Hq4 Hr). apply (Z.mul_lt_mono_pos_l b); lia.
    - apply Hl. apply (Z.mul_lt_mono_pos_l b); lia. }
  destruct (finish_repr m' e' (2 ^ 53) 2000) as (e'' & Hr' & Hee'); try done || lia.
  { apply (Hspec (2 ^ 53) 0 2000); lia. }
  exists m', e''. split; [done|]. intros n t K Hn Ht HK HtK HeK.
  destruct (Z.eq_dec m' 0) as [->|]; [|rewrite Hee' by lia; by apply Hspec].
  pose proof (Hspec n t K Hn Ht HK HtK). lia.
Qed.

(** Comparing the quotient of two small integers with one half is exact. *)
Lemma half_le_ratio a b :
  0 <= a < 2 ^ 53 -> 0 < b < 2 ^ 53 ->
  f_leb (lit 1 2) (f_div (of_Z a) (of_Z b)) = (b <=? 2 * a).
Proof.
  intros Ha Hb. destruct (Z.eq_dec a 0) as [->|Ha0].
  { destruct (of_Z_exact b ltac:(lia)) as (my & ey & Hry & Hey & Hvy).
    destruct (of_Z_normal b my ey) as (Hy0 & Hy1 & Hy2 & ->); try done || lia.
    symmetry. transitivity false; [apply Z.leb_gt; lia|done]. }
  destruct (div_spec a b) as (m & e & Hr & Hs); [lia|lia|].
  assert (Hh : repr (lit 1 2) 4503599627370496 (-53)).
  { unfold repr. split_and!; reflexivity || lia || (intros _; reflexivity). }
  assert (He : -1074 <= e) by (destruct Hr as (_ & _ & ? & _); lia).
  rewrite (leb_value _ _ _ _ _ _ 2000 Hh Hr) by lia.
  set (V := m * 2 ^ (e + 2000)) in *.
  assert (HT : 4503599627370496 * 2 ^ (-53 + 2000) = 1 * 2 ^ (-1 + 2000)).
  { change 4503599627370496 with (2 ^ 52). rewrite <- pow_split by lia. lia. }
  rewrite HT. destruct (Z.leb_spec b (2 * a)) as [Hle|Hlt].
  - apply Z.leb_le. apply (Hs 1 (-1) 2000); lia.
  - apply Z.leb_gt. apply (Z.le_lt_trans _ ((2 ^ 53 - 1) * 2 ^ (-54 + 2000))).
    + apply (Hs (2 ^ 53 - 1) (-54) 2000); lia.
    + replace (-1 + 2000) with (53 + (-54 + 2000)) by lia.
      rewrite (pow_split 53 (-54 + 2000)) by lia.
      pose proof (Z.pow_pos_nonneg 2 (-54 + 2000) ltac:(lia) ltac:(lia)). lia.
Qed.

(** Converting a small integer to a float and back is the identity. *)
Lemma to_int64_of_Z n : 0 <= n < 2 ^ 53 -> to_int64 (of_Z n) = n.
Proof.
  intros Hn. destruct (Z.eq_dec n 0) as [->|Hn0]; [done|].
  destruct (of_Z_exact n Hn) as (m & e & Hr & He & Hv).
  destruct (of_Z_normal n m e) as (H0 & H1 & H2 & ->); try done || lia.
  unfold to_int64. rewrite Z2Pos.id by lia.
  assert (Ht : trunc m e = n).
  { unfold trunc. destruct (Z.leb_spec 0 e) as [Hc|Hc].
    - replace e with 0 in * by lia. rewrite Hv. simpl. lia.
    - rewrite Hv. apply Z.div_mul.
      pose proof (Z.pow_pos_nonneg 2 (- e) ltac:(lia) ltac:(lia)). lia. }
  rewrite Ht. unfold_int64. rewrite !(proj2 (Z.leb_le _ _)) by lia. done.
Qed.

(** [time.Duration.Seconds]. *)
Definition duration_seconds (d : Z) : float64 :=
  f_add (of_Z (Z.quot d Second)) (f_div (of_Z (Z.rem d Second)) (of_Z 1000000000)).

(** A whole number of seconds is exact. *)
Lemma duration_seconds_whole n :
  0 <= n < 2 ^ 53 -> duration_seconds (n * Second) = of_Z n.
Proof.
  intros Hn. unfold duration_seconds. rewrite Z.quot_mul, Z.rem_mul by done.
  change (f_div (of_Z 0) (of_Z 1000000000)) with (S754_zero false).
  destruct (Z.eq_dec n 0) as [->|Hn0]; [done|].
  destruct (of_Z_exact n Hn) as (m & e & Hr & He & Hv).
  destruct (of_Z_normal n m e) as (H0 & H1 & H2 & ->); done || lia.
Qed.
