(* ===== verification/Rounding.v ===== *)
(** * Rounding: products and sums of positive floats

    Bounds on the results of [f_mul] and [f_add], in the style of [Float64]: a
    rounded result lies on the same side of every representable bound as the
    exact value.  With them, the conversion of a price between micro-units and
    a decimal is exact when it rounds half up, and a scaled token count is
    within one of the exact product. *)

From S2P Require Import Prelude GoStd Float64.
From Stdlib Require Import SpecFloat.
Local Open Scope Z_scope.

(** ** Products and sums of positive values *)

Lemma scaled m a b : 0 <= a -> 0 <= b -> m * 2 ^ a * 2 ^ b = m * 2 ^ (a + b).
Proof. intros. rewrite pow_split by done. ring. Qed.

(** A positive number normalised from an exponent in range. *)
Lemma normalize_spec p e :
  -1074 <= e ->
  exists m' e', binary_normalize prec emax (Zpos p) e false = finish false m' e' /\
    0 <= m' /\ -1074 <= e' /\ (0 < m' -> canonical m' e') /\
    forall n t K, 0 <= n <= 2 ^ 53 -> -1074 <= t -> 2200 <= K ->
      (Zpos p * 2 ^ (e + K) <= n * 2 ^ (t + K) -> m' * 2 ^ (e' + K) <= n * 2 ^ (t + K)) /\
      (n * 2 ^ (t + K) <= Zpos p * 2 ^ (e + K) -> n * 2 ^ (t + K) <= m' * 2 ^ (e' + K)).
Proof.
  intros He. unfold binary_normalize, binary_round. change (Zpos (digits2_pos p)) with (digits (Zpos p)).
  set (f := fexp prec emax (digits (Zpos p) + e)).
  assert (Hf : -1074 <= f) by (unfold f; rewrite fexp_eq; lia).
  assert (exists mz ez, shl_align p e f = (mz, ez) /\ -1074 <= ez <= e /\ Zpos mz = Zpos p * 2 ^ (e - ez) /\
            ez <= fexp prec emax (digits (Zpos mz) + ez)) as (mz & ez & -> & Hez & Hmz & Hle).
  { destruct (Z.le_gt_cases f e) as [Hfe|Hfe].
    - destruct (shl_align_spec p e f Hfe) as (mz & -> & Hmz). exists mz, f. split_and!; try done.
      assert (Hd : digits (Zpos mz) = digits (Zpos p) + (e - f)).
      { destruct (digits_bounds (Zpos p) ltac:(lia)) as [[H1 H2] H3].
        pose proof (Z.pow_pos_nonneg 2 (e - f) ltac:(lia) ltac:(lia)).
        apply digits_eq; [lia|lia|]. rewrite Hmz. rewrite (pow_split (digits (Zpos p)) (e - f)) by lia.
        replace (digits (Zpos p) + (e - f) - 1) with (digits (Zpos p) - 1 + (e - f)) by lia.
        rewrite (pow_split (digits (Zpos p) - 1) (e - f)) by lia. nia. }
      rewrite Hd. replace (digits (Zpos p) + (e - f) + f) with (digits (Zpos p) + e) by lia. done.
    - exists p, e. split_and!; [|done|done|rewrite Z.sub_diag; lia|lia].
      unfold shl_align. destruct (f - e) eqn:E; try lia. done. }
  destruct (round_spec false (Zpos mz) ez loc_Exact) as (m' & e' & -> & Hm' & He' & _ & Hc & Hb); [lia|done|].
  exists m', e'. split_and!; try done. intros n t K Hn Ht HK.
  destruct (Hb n t K Hn Ht ltac:(lia) ltac:(lia)) as [Hu Hl]. unfold below, above in Hu, Hl. cbn [is_exact] in Hu, Hl.
  rewrite Hmz, scaled in Hu, Hl by lia. replace (e - ez + (ez + K)) with (e + K) in Hu, Hl by lia. done.
Qed.

(** What an operation on positive values rounds to: [V] scaled by [2^K]. *)
Definition rounds (V : Z -> Z) (f : float64) : Prop :=
  exists m e, repr f m e /\ forall n t K, 0 <= n <= 2 ^ 53 -> -1074 <= t -> 2200 <= K ->
    (V K <= n * 2 ^ (t + K) -> m * 2 ^ (e + K) <= n * 2 ^ (t + K)) /\
    (n * 2 ^ (t + K) <= V K -> n * 2 ^ (t + K) <= m * 2 ^ (e + K)).

Lemma rounds_finish V m e :
  0 <= m -> -1074 <= e -> (0 < m -> canonical m e) -> V 2200 <= 2 ^ 53 * 2 ^ 2200 ->
  (forall n t K, 0 <= n <= 2 ^ 53 -> -1074 <= t -> 2200 <= K ->
    (V K <= n * 2 ^ (t + K) -> m * 2 ^ (e + K) <= n * 2 ^ (t + K)) /\
    (n * 2 ^ (t + K) <= V K -> n * 2 ^ (t + K) <= m * 2 ^ (e + K))) ->
  rounds V (finish false m e).
Proof.
  intros Hm He Hc HV Hb. destruct (Hb (2 ^ 53) 0 2200) as [Hu _]; [lia..|].
  destruct (finish_repr m e (2 ^ 53) 2200) as (e' & Hr & Hee); try done || lia.
  exists m, e'. split; [done|]. destruct (Z.eq_dec m 0) as [->|]; [|by rewrite Hee by lia].
  intros n t K Hn Ht HK. specialize (Hb n t K Hn Ht HK). lia.
Qed.

Lemma mul_rounds x m e n :
  repr x m e -> 0 < m -> 0 < n < 2 ^ 53 -> n * (m * 2 ^ (e + 2200)) <= 2 ^ 53 * 2 ^ 2200 ->
  rounds (fun K => n * (m * 2 ^ (e + K))) (f_mul x (of_Z n)).
Proof.
  intros (-> & _ & He & Hc) Hm Hn HV.
  destruct (of_Z_exact n ltac:(lia)) as (my & ey & Hr & Hey & Hv).
  destruct (of_Z_normal n my ey) as (Hy0 & Hy1 & Hy2 & ->); try done || lia.
  destruct m as [|px|px]; try lia.
  assert (finish false (Zpos px) e = S754_finite false px e) as ->
    by (unfold finish; by rewrite (proj2 (Z.leb_le e 971)) by lia).
  unfold f_mul, SFmul. simpl xorb. rewrite Pos2Z.inj_mul, Z2Pos.id by lia.
  assert (Hd : 52 < digits (Zpos px * my)) by (apply digits_ge; nia).
  destruct (round_spec false (Zpos px * my) (e + ey) loc_Exact)
    as (m' & e' & -> & Hm' & He' & Hee & Hc' & Hb); [nia|rewrite fexp_eq; lia|].
  apply rounds_finish; try done. intros n' t K Hn' Ht HK.
  destruct (Hb n' t K Hn' Ht ltac:(lia) ltac:(lia)) as [Hu Hl]. unfold below, above in Hu, Hl. cbn [is_exact] in Hu, Hl.
  assert (Heq : Zpos px * my * 2 ^ (e + ey + K) = n * (Zpos px * 2 ^ (e + K))).
  { rewrite Hv. replace (e + K) with (- ey + (e + ey + K)) by lia. rewrite (pow_split (- ey)) by lia. ring. }
  by rewrite Heq in Hu, Hl.
Qed.

Lemma add_rounds x m1 e1 y m2 e2 :
  repr x m1 e1 -> repr y m2 e2 -> 0 < m1 -> 0 < m2 ->
  m1 * 2 ^ (e1 + 2200) + m2 * 2 ^ (e2 + 2200) <= 2 ^ 53 * 2 ^ 2200 ->
  rounds (fun K => m1 * 2 ^ (e1 + K) + m2 * 2 ^ (e2 + K)) (f_add x y).
Proof.
  intros (-> & _ & He1 & _) (-> & _ & He2 & _) H1 H2 HV.
  destruct m1 as [|p1|p1], m2 as [|p2|p2]; try lia.
  unfold finish. rewrite !(proj2 (Z.leb_le _ 971)) by lia. unfold f_add, SFadd.
  set (ez := Z.min e1 e2).
  destruct (shl_align_spec p1 e1 ez ltac:(lia)) as (z1 & -> & Hz1).
  destruct (shl_align_spec p2 e2 ez ltac:(lia)) as (z2 & -> & Hz2). cbn [cond_Zopp fst].
  rewrite <- Pos2Z.inj_add. destruct (normalize_spec (z1 + z2) ez ltac:(lia)) as (m' & e' & -> & Hm' & He' & Hc & Hb).
  apply rounds_finish; try done. intros n t K Hn Ht HK. specialize (Hb n t K Hn Ht HK).
  rewrite Pos2Z.inj_add, Hz1, Hz2, Z.mul_add_distr_r, !scaled in Hb by lia.
  replace (e1 - ez + (ez + K)) with (e1 + K) in Hb by lia.
  by replace (e2 - ez + (ez + K)) with (e2 + K) in Hb by lia.
Qed.

Lemma trunc_eq m e n K :
  0 <= m -> 0 <= e + K -> 0 <= K -> n * 2 ^ K <= m * 2 ^ (e + K) < (n + 1) * 2 ^ K -> trunc m e = n.
Proof.
  intros Hm HeK HK [Hl Hu]. unfold trunc. pose proof (Z.pow_pos_nonneg 2 K ltac:(lia) ltac:(lia)) as HT.
  destruct (Z.leb_spec 0 e) as [He|He].
  - rewrite pow_split, Z.mul_assoc in Hl, Hu by lia.
    apply Z.mul_le_mono_pos_r in Hl; [|done]. apply Z.mul_lt_mono_pos_r in Hu; [|done]. lia.
  - pose proof (Z.pow_pos_nonneg 2 (e + K) ltac:(lia) ltac:(lia)) as HEK.
    replace (2 ^ K) with (2 ^ (- e) * 2 ^ (e + K)) in Hl, Hu by (rewrite <- pow_split by lia; f_equal; lia).
    rewrite Z.mul_assoc in Hl, Hu. apply Z.mul_le_mono_pos_r in Hl; [|done]. apply Z.mul_lt_mono_pos_r in Hu; [|done].
    symmetry. apply (Z.div_unique_pos _ _ _ (m - n * 2 ^ (- e))); lia.
Qed.

Lemma to_int64_rounds f m e n :
  repr f m e -> 0 <= n <= max_int64 -> n * 2 ^ 2200 <= m * 2 ^ (e + 2200) < (n + 1) * 2 ^ 2200 -> to_int64 f = n.
Proof.
  intros (-> & Hm & He & _) Hn Hv. pose proof (trunc_eq m e n 2200 Hm ltac:(lia) ltac:(lia) Hv) as Ht.
  unfold finish. destruct m as [|p|p]; [|rewrite (proj2 (Z.leb_le e 971)) by lia|lia].
  - cbn in *. lia.
  - cbn [to_int64]. rewrite Ht. unfold_int64. by rewrite !(proj2 (Z.leb_le _ _)) by lia.
Qed.

(** The quotient by a million, between two neighbours of 53 bits. *)
Lemma million_neighbours m :
  0 < m < 2 ^ 50 ->
  exists n t, 2 ^ 52 <= n < 2 ^ 53 /\ -80 <= t <= 0 /\
    1000000 * (n * 2 ^ (t + 80)) <= m * 2 ^ 80 <= 1000000 * ((n + 1) * 2 ^ (t + 80)) /\
    1000000 * 2 ^ (t + 80) < 2 ^ 78.
Proof.
  intros Hm. set (Q := m * 2 ^ 80 / 1000000).
  pose proof (Z.div_mod (m * 2 ^ 80) 1000000 ltac:(lia)) as Hdm. fold Q in Hdm.
  pose proof (Z.mod_pos_bound (m * 2 ^ 80) 1000000 ltac:(lia)) as Hr.
  set (r := (m * 2 ^ 80) mod 1000000) in *. clearbody Q r.
  assert (HQ1 : 2 ^ 60 <= Q) by lia. assert (HQ2 : Q < 2 ^ 111) by lia.
  destruct (digits_bounds Q ltac:(lia)) as [[Hd1 Hd2] Hd3].
  pose proof (digits_ge Q 60 ltac:(lia) ltac:(lia) HQ1). pose proof (digits_le Q 111 ltac:(lia) ltac:(lia) HQ2).
  set (d := digits Q) in *. clearbody d.
  pose proof (Z.div_mod Q (2 ^ (d - 53)) ltac:(pose proof (Z.pow_pos_nonneg 2 (d - 53)); lia)) as Hdm2.
  pose proof (Z.mod_pos_bound Q (2 ^ (d - 53)) ltac:(apply Z.pow_pos_nonneg; lia)) as Hr2.
  assert (HP : 0 < 2 ^ (d - 53)) by (apply Z.pow_pos_nonneg; lia).
  replace (2 ^ d) with (2 ^ 53 * 2 ^ (d - 53)) in Hd2 by (rewrite <- pow_split by lia; f_equal; lia).
  replace (2 ^ (d - 1)) with (2 ^ 52 * 2 ^ (d - 53)) in Hd1 by (rewrite <- pow_split by lia; f_equal; lia).
  exists (Q / 2 ^ (d - 53)), (d - 53 - 80). replace (d - 53 - 80 + 80) with (d - 53) by lia.
  set (n := Q / 2 ^ (d - 53)) in *. set (r2 := Q mod 2 ^ (d - 53)) in *. clearbody n r2.
  set (P := 2 ^ (d - 53)) in *. clearbody P.
  assert (Hn : 2 ^ 52 <= n < 2 ^ 53) by (split; nia).
  split_and!; try lia; try nia.
Qed.

(** A quarter of a unit, scaled. *)
Definition quarter : Z := 2 ^ 2198.

Lemma scale_unit : 2 ^ 2200 = 4 * quarter.
Proof. unfold quarter. change 4 with (2 ^ 2). by rewrite <- pow_split by lia. Qed.
Lemma quarter_pos : 0 < quarter.
Proof. by apply Z.pow_pos_nonneg. Qed.

(** [f] is within a quarter of [m / d]. *)
Definition close (d m : Z) (f : float64) : Prop :=
  exists k e, repr f k e /\ 0 < k /\
    (4 * m - 1) * quarter <= d * (k * 2 ^ (e + 2200)) <= (4 * m + 1) * quarter.

Lemma repr_pos f k e c : repr f k e -> 0 < c -> c <= k * 2 ^ (e + 2200) -> 0 < k.
Proof. intros (_ & Hk & _) Hc H. destruct (Z.eq_dec k 0) as [->|]; lia. Qed.

Lemma quotient_close m : 0 < m < 2 ^ 50 -> close 1000000 m (f_div (of_Z m) (of_Z 1000000)).
Proof.
  intros Hm. destruct (div_spec m 1000000) as (mx & ex & Hrx & Hx); [lia..|].
  assert (Hex : -1074 <= ex <= 971) by (destruct Hrx as (_ & _ & ? & _); lia).
  destruct (million_neighbours m) as (n & t & Hn & Ht & Hq & Herr); [lia|].
  set (U := 2 ^ 2120). assert (HU : 0 < U) by (apply Z.pow_pos_nonneg; lia).
  assert (HK80 : 2 ^ 2200 = 2 ^ 80 * U) by (unfold U; rewrite <- pow_split by lia; done).
  assert (HtK : 2 ^ (t + 2200) = 2 ^ (t + 80) * U) by (unfold U; rewrite <- pow_split by lia; f_equal; lia).
  assert (HP : 0 < 2 ^ (t + 80)) by (apply Z.pow_pos_nonneg; lia).
  assert (Hquarter : quarter = 2 ^ 78 * U) by (unfold U; rewrite <- pow_split by lia; done).
  destruct (Hx n t 2200) as [_ Hl]; [lia..|]. destruct (Hx (n + 1) t 2200) as [Hu _]; [lia..|].
  rewrite HtK, HK80 in Hl, Hu. specialize (Hl ltac:(nia)). specialize (Hu ltac:(nia)).
  exists mx, ex. split; [done|]. split; [apply (repr_pos _ _ _ _ Hrx) in Hl; [done|nia]|].
  rewrite Hquarter. generalize dependent (2 ^ (t + 80)). intros P; intros.
  generalize dependent (mx * 2 ^ (ex + 2200)). intros X; intros. split; nia.
Qed.

Lemma product_close m f : 0 < m < 2 ^ 50 -> close 1000000 m f -> close 1 m (f_mul f (of_Z 1000000)).
Proof.
  intros Hm (k & e & Hr & Hk & Hc). pose proof quarter_pos as HQ. pose proof scale_unit as HS.
  destruct (mul_rounds _ _ _ 1000000 Hr Hk) as (k' & e' & Hr' & Hb); [lia|rewrite HS; nia|].
  destruct (Hb (4 * m - 1) (-2) 2200) as [_ Hl]; [lia..|]. destruct (Hb (4 * m + 1) (-2) 2200) as [Hu _]; [lia..|].
  change (2 ^ (-2 + 2200)) with quarter in Hl, Hu.
  specialize (Hl ltac:(lia)). specialize (Hu ltac:(lia)).
  exists k', e'. split; [done|]. split; [apply (repr_pos _ _ _ _ Hr') in Hl; [done|nia]|lia].
Qed.

Lemma half_repr : repr (lit 1 2) (2 ^ 52) (-53).
Proof. unfold repr. split_and!; reflexivity || lia || (intros _; reflexivity). Qed.
Lemma half_units : 2 ^ 52 * 2 ^ (-53 + 2200) = 2 * quarter.
Proof. unfold quarter. change 2 with (2 ^ 1) at 3. by rewrite <- !pow_split by lia. Qed.

Lemma add_half m f : 0 <= m < 2 ^ 50 -> close 1 m f -> to_int64 (f_add f (lit 1 2)) = m.
Proof.
  intros Hm (k & e & Hr & Hk & Hc). pose proof quarter_pos as HQ. pose proof scale_unit as HS.
  pose proof half_repr as Hh. pose proof half_units as Hhalf.
  destruct (add_rounds _ _ _ _ _ _ Hr Hh Hk) as (k' & e' & Hr' & Hb); [lia|rewrite Hhalf, HS; nia|].
  apply (to_int64_rounds _ k' e' m Hr'); [unfold_int64; lia|].
  destruct (Hb (4 * m + 1) (-2) 2200) as [_ Hl]; [lia..|]. destruct (Hb (4 * m + 3) (-2) 2200) as [Hu _]; [lia..|].
  change (2 ^ (-2 + 2200)) with quarter in Hl, Hu. rewrite Hhalf in Hl, Hu.
  specialize (Hl ltac:(lia)). specialize (Hu ltac:(lia)). rewrite HS. lia.
Qed.

(** Dividing by a million, multiplying back and rounding half up returns the
    integer, as long as it has at most 50 bits. *)
Lemma million_roundtrip m :
  0 <= m < 2 ^ 50 ->
  to_int64 (f_add (f_mul (f_div (of_Z m) (of_Z 1000000)) (of_Z 1000000)) (lit 1 2)) = m.
Proof.
  intros Hm. destruct (Z.eq_dec m 0) as [->|Hm0]; [by vm_compute|].
  apply add_half; [done|]. apply product_close; [lia|]. apply quotient_close. lia.
Qed.

(** ** Scaling a count

    [int(float64(n) * factor + 0.5)] for a factor between 1 and 2: the result
    is within three quarters above and half below the exact product, here in
    quarters. *)

Lemma f_mul_comm x y : f_mul x y = f_mul y x.
Proof.
  unfold f_mul, SFmul. destruct x as [s|s| |s m e], y as [s'|s'| |s' m' e']; try done; try (by destruct s, s').
  by rewrite (xorb_comm s s'), (Pos.mul_comm m m'), (Z.add_comm e e').
Qed.

(** The arithmetic of the two roundings, with [Q] a quarter of the unit. *)
Lemma in_quarters U Q D q cn :
  0 < U -> Q = D * U -> D * q <= cn < D * (q + 1) -> q * Q <= cn * U <= (q + 1) * Q.
Proof.
  intros HU -> [Hl Hu]. rewrite !Z.mul_assoc, (Z.mul_comm q), (Z.mul_comm (q + 1)).
  split; apply Z.mul_le_mono_pos_r; [done|done|done|by apply Z.lt_le_incl].
Qed.

Lemma quarters_trunc Q q v r :
  0 < Q -> (q + 2) * Q <= v <= (q + 3) * Q -> r * (4 * Q) <= v < (r + 1) * (4 * Q) -> q - 1 <= 4 * r <= q + 3.
Proof.
  intros HQ [Hl Hu] [Hl' Hu'].
  assert (4 * r <= q + 3) by (apply (Z.mul_le_mono_pos_r _ _ Q HQ); rewrite Z.mul_assoc in Hl'; lia).
  assert (q + 2 < 4 * r + 4) by (apply (Z.mul_lt_mono_pos_r Q _ _ HQ); lia). lia.
Qed.

Lemma quarter_bound q : 0 <= q -> q <= 2 ^ 53 -> q * quarter <= 2 ^ 53 * 2 ^ 2200.
Proof.
  intros H0 H. pose proof quarter_pos as HQ. rewrite scale_unit. apply Z.mul_le_mono_nonneg; [done|done|lia|lia].
Qed.

Lemma quotient_bounds c n :
  2 ^ 52 <= c < 2 ^ 53 -> 0 < n < 2 ^ 48 ->
  2 ^ 50 * (c * n / 2 ^ 50) <= c * n < 2 ^ 50 * (c * n / 2 ^ 50 + 1) /\ 4 <= c * n / 2 ^ 50 < 2 ^ 51.
Proof.
  intros Hc Hn. assert (Hcn : 2 ^ 52 <= c * n < 2 ^ 53 * 2 ^ 48).
  { split; [rewrite <- (Z.mul_1_r (2 ^ 52)); apply Z.mul_le_mono_nonneg; lia|apply Z.mul_lt_mono_nonneg; lia]. }
  split_and!; [apply Z.mul_div_le; lia|rewrite Z.add_1_r; apply Z.mul_succ_div_gt; lia
    |apply Z.div_le_lower_bound; lia|apply Z.div_lt_upper_bound; lia].
Qed.

Lemma count_scaled x c n :
  repr x c (-52) -> 2 ^ 52 <= c < 2 ^ 53 -> 0 < n < 2 ^ 48 ->
  let r := to_int64 (f_add (f_mul (of_Z n) x) (lit 1 2)) in
  c * n / 2 ^ 50 - 1 <= 4 * r <= c * n / 2 ^ 50 + 3.
Proof.
  intros Hx Hc Hn. cbn zeta. rewrite f_mul_comm. pose proof quarter_pos as HQ.
  destruct (quotient_bounds c n Hc Hn) as [Hq [Hq0 Hq1]]. generalize dependent (c * n / 2 ^ 50). intros q Hq Hq0 Hq1.
  assert (HV : n * (c * 2 ^ (-52 + 2200)) = c * n * 2 ^ 2148) by (change (-52 + 2200) with 2148; ring).
  assert (HU : quarter = 2 ^ 50 * 2 ^ 2148) by (unfold quarter; by rewrite <- pow_split by done).
  destruct (in_quarters (2 ^ 2148) quarter (2 ^ 50) q (c * n) ltac:(by apply Z.pow_pos_nonneg) HU Hq) as [Hlow Hup].
  rewrite <- HV in Hlow, Hup. clear HU HV Hq.
  assert (Hbig : forall d, 0 <= d <= 3 -> (q + d) * quarter <= 2 ^ 53 * 2 ^ 2200) by (intros; apply quarter_bound; lia).
  destruct (mul_rounds x c (-52) n Hx) as (k & e & Hr & Hb);
    [lia|lia|by etrans; [exact Hup|apply (Hbig 1)]|].
  destruct (Hb q (-2) 2200) as [_ Hl]; [lia..|]. destruct (Hb (q + 1) (-2) 2200) as [Hu _]; [lia..|].
  specialize (Hl Hlow). specialize (Hu Hup). change (2 ^ (-2 + 2200)) with quarter in Hl, Hu. clear Hb Hlow Hup.
  assert (Hk : 0 < k) by (apply (repr_pos _ _ _ _ Hr) in Hl; [done|by apply Z.mul_pos_pos; [lia|]]).
  pose proof half_units as Hhalf.
  assert (Hsum : (q + 2) * quarter <= k * 2 ^ (e + 2200) + 2 ^ 52 * 2 ^ (-53 + 2200) <= (q + 3) * quarter).
  { rewrite Hhalf. revert Hl Hu. generalize (k * 2 ^ (e + 2200)). clear. intros. lia. }
  destruct (add_rounds _ _ _ _ _ _ Hr half_repr Hk) as (k' & e' & Hr' & Hb);
    [lia|by etrans; [exact (proj2 Hsum)|apply (Hbig 3)]|].
  destruct (Hb (q + 2) (-2) 2200) as [_ Hl']; [lia..|]. destruct (Hb (q + 3) (-2) 2200) as [Hu' _]; [lia..|].
  specialize (Hl' (proj1 Hsum)). specialize (Hu' (proj2 Hsum)).
  change (2 ^ (-2 + 2200)) with quarter in Hl', Hu'. clear Hb Hsum Hl Hu Hhalf Hbig.
  pose proof (Z.mul_div_le (k' * 2 ^ (e' + 2200)) (4 * quarter) ltac:(lia)) as H1.
  pose proof (Z.mul_succ_div_gt (k' * 2 ^ (e' + 2200)) (4 * quarter) ltac:(lia)) as H2.
  rewrite <- Z.add_1_r in H2. set (r := k' * 2 ^ (e' + 2200) / (4 * quarter)) in *.
  rewrite (Z.mul_comm (4 * quarter)) in H1, H2.
  pose proof (quarters_trunc _ _ _ _ HQ (conj Hl' Hu') (conj H1 H2)) as Hfin.
  rewrite <- scale_unit in H1, H2.
  rewrite (to_int64_rounds _ k' e' r Hr'); [done| |by split]. clear -Hfin Hq0 Hq1. unfold_int64. lia.
Qed.
