(* ===== verification/Errors.v ===== *)
(** * Errors: the provider error model and its translations

    [internal/provider/errors.go] (sentinels, [UpstreamError], [IsRetryable]),
    the two adapters' classification of upstream failures
    ([provider/openai/errors.go], [provider/anthropic/errors.go]: Modules
    [openai] and [anthropic]) and the gateway's translation of a provider
    error into a client response ([internal/server/errmap.go]: Module
    [errmap]).  Go's [error] values are the inductive type [error]; [errors.Is]
    and [errors.As] walk it the way the [errors] package does. *)

From S2P Require Import Prelude GoStd Float64.
From Stdlib Require Import Ascii.
Local Open Scope Z_scope.

(** ** Error values *)

(** The named error variables the program compares against. *)
Inductive sentinel :=
  | ErrAuth | ErrRateLimited | ErrContextLength | ErrInvalidRequest
  | ErrUpstream | ErrUnavailable | ErrTimeout
  | ErrUnknownProvider | ErrNoProviderForModel
  | ErrOpenState | ErrTooManyRequests
  | Canceled | DeadlineExceeded
  | ErrBadPattern
  | ErrMissingCredentials | ErrInvalidCredentials | ErrKeyNotFound
  | ErrNoRows | RedisNil
  | ErrMiss
  | ErrLogWindowTooWide | ErrLogWindowInvalid.

#[export] Instance sentinel_eq_dec : EqDecision sentinel.
Proof. solve_decision. Defined.

(** [provider.UpstreamError]; [RetryAfter] is a [time.Duration]. *)
Record UpstreamErrorOf (E : Type) := mkUpstreamError {
  Provider : string;
  StatusCode : Z;
  RetryAfter : Z;
  Message : string;
  Sentinel : E
}.
Arguments mkUpstreamError {E} _ _ _ _ _.
Arguments Provider {E} _.
Arguments StatusCode {E} _.
Arguments RetryAfter {E} _.
Arguments Message {E} _.
Arguments Sentinel {E} _.

(** Operands of [fmt.Errorf] other than the wrapped error. *)
Inductive arg := ArgS (s : string) | ArgD (z : Z).

Inductive error :=
  | Sentinel_ (s : sentinel)
  | Upstream (u : UpstreamErrorOf error)
  | Errorf (format : string) (args : list arg) (wrapped : option error)
  | Join (errs : list error)
  | Foreign (text : string) (targets : list sentinel).

Abbreviation UpstreamError := (UpstreamErrorOf error).
Coercion Sentinel_ : sentinel >-> error.

(** [errors.Is(err, target)] for a named target: the error itself, then
    everything it unwraps to, depth first.  A [Foreign] error comes from code
    outside the repository and carries the targets it answers to. *)
Fixpoint Is (err : error) (target : sentinel) : bool :=
  match err with
  | Sentinel_ s => bool_decide (s = target)
  | Upstream u => match u with mkUpstreamError _ _ _ _ e => Is e target end
  | Errorf _ _ (Some e) => Is e target
  | Errorf _ _ None => false
  | Join errs => existsb (fun e => Is e target) errs
  | Foreign _ targets => bool_decide (target ∈ targets)
  end.

(** [errors.As(err, &ue)] with [ue *UpstreamError]. *)
Fixpoint As (err : error) : option UpstreamError :=
  match err with
  | Upstream u => Some u
  | Errorf _ _ (Some e) => As e
  | Join errs =>
      (fix first (l : list error) : option UpstreamError :=
         match l with
         | [] => None
         | e :: l' => match As e with Some u => Some u | None => first l' end
         end) errs
  | Sentinel_ _ | Errorf _ _ None | Foreign _ _ => None
  end.

(** [provider.NewUpstreamError]. *)
Definition NewUpstreamError (providerName : string) (sentinel : error) (statusCode : Z)
    (message : string) : UpstreamError :=
  {| Provider := providerName; Sentinel := sentinel; StatusCode := statusCode;
     RetryAfter := 0; Message := message |}.

(** [UpstreamError.Unwrap]. *)
Definition Unwrap (e : UpstreamError) : error := e.(Sentinel).

(** [provider.IsRetryable]. *)
Definition IsRetryable (err : error) : bool :=
  Is err ErrRateLimited || Is err ErrUpstream || Is err ErrUnavailable || Is err ErrTimeout.

Definition set_RetryAfter (u : UpstreamError) (d : Z) : UpstreamError :=
  {| Provider := u.(Provider); Sentinel := u.(Sentinel); StatusCode := u.(StatusCode);
     RetryAfter := d; Message := u.(Message) |}.

(** ** Error text *)

Definition sentinel_text (s : sentinel) : string :=
  match s with
  | ErrAuth => "provider: authentication failed"
  | ErrRateLimited => "provider: rate limited"
  | ErrContextLength => "provider: context length exceeded"
  | ErrInvalidRequest => "provider: invalid request"
  | ErrUpstream => "provider: upstream error"
  | ErrUnavailable => "provider: service unavailable"
  | ErrTimeout => "provider: timeout"
  | ErrUnknownProvider => "registry: unknown provider"
  | ErrNoProviderForModel => "registry: no provider matches model"
  | ErrOpenState => "circuit breaker is open"
  | ErrTooManyRequests => "too many requests"
  | Canceled => "context canceled"
  | DeadlineExceeded => "context deadline exceeded"
  | ErrBadPattern => "syntax error in pattern"
  | ErrMissingCredentials => "auth: missing credentials"
  | ErrInvalidCredentials => "auth: invalid credentials"
  | ErrKeyNotFound => "auth: key not found"
  | ErrNoRows => "no rows in result set"
  | RedisNil => "redis: nil"
  | ErrMiss => "cache: miss"
  | ErrLogWindowTooWide => "billing: log window must be <= 7d"
  | ErrLogWindowInvalid => "billing: log window invalid (require start < end, both non-zero)"
  end.

Section ErrorText.
(** [strconv.Quote], the verb [%q]. *)
Context (Quote : string -> string).

(** [fmt.Sprintf] over the verbs the sources use: [%q], [%s], [%d], and [%w]
    for the text of the wrapped error. *)
Fixpoint Sprintf (format : string) (args : list arg) (w : string) : string :=
  match format with
  | String "%"%char (String v rest) =>
      if bool_decide (v = "w"%char) then w +:+ Sprintf rest args w
      else match args with
           | ArgS s :: args' =>
               (if bool_decide (v = "q"%char) then Quote s else s) +:+ Sprintf rest args' w
           | ArgD z :: args' => Strconv.Itoa z +:+ Sprintf rest args' w
           | [] => Sprintf rest [] w
           end
  | String c rest => String c (Sprintf rest args w)
  | EmptyString => EmptyString
  end.

(** [err.Error()]. *)
Fixpoint Error (err : error) : string :=
  match err with
  | Sentinel_ s => sentinel_text s
  | Upstream u =>
      match u with
      | mkUpstreamError p status _ msg s =>
          let t := Error s in
          if (0 <? status) && negb (bool_decide (msg = "")) then
            Sprintf "provider %q: %s (status=%d): %s" [ArgS p; ArgS t; ArgD status; ArgS msg] ""
          else if 0 <? status then
            Sprintf "provider %q: %s (status=%d)" [ArgS p; ArgS t; ArgD status] ""
          else if negb (bool_decide (msg = "")) then
            Sprintf "provider %q: %s: %s" [ArgS p; ArgS t; ArgS msg] ""
          else Sprintf "provider %q: %s" [ArgS p; ArgS t] ""
      end
  | Errorf f args (Some e) => Sprintf f args (Error e)
  | Errorf f args None => Sprintf f args ""
  | Join errs => Strings.Join (map Error errs) (String (GoStd.ascii_of_byte 10) "")
  | Foreign text _ => text
  end.
End ErrorText.

(** ** What both adapters share: Retry-After and transport errors *)

Section Retry.
(** [http.ParseTime] (instants in nanoseconds) and the current time. *)
Context (ParseTime : string -> option Z) (now : Z).

(** [parseRetryAfter], the same text in both adapters. *)
Definition parseRetryAfter (v : string) : Z :=
  let date := match ParseTime v with
              | Some t => let d := time_sub t now in if 0 <? d then d else 0
              | None => 0
              end in
  if bool_decide (v = "") then 0
  else match Strconv.Atoi v with
       | Some secs => if 0 <=? secs then (secs *i Second)%go else date
       | None => date
       end.

(** A delta-seconds header a [time.Duration] can hold is read exactly. *)
Lemma parseRetryAfter_seconds n :
  0 <= n <= 9223372036 -> parseRetryAfter (Strconv.Itoa n) = n * Second.
Proof.
  intros Hn. unfold parseRetryAfter.
  pose proof (Strconv.Atoi_Itoa n ltac:(unfold_int64; lia)) as Ha.
  destruct (bool_decide_reflect (Strconv.Itoa n = "")) as [He|_].
  - rewrite He in Ha. discriminate Ha.
  - rewrite Ha, (proj2 (Z.leb_le 0 n)) by lia.
    apply wrap64_id. unfold Second. unfold_int64. lia.
Qed.
End Retry.

(** [mapRequestError], the same text in both adapters. *)
Definition mapRequestError (Quote : string -> string) (providerName : string) (err : error)
    : error :=
  if Is err Canceled then err
  else if Is err DeadlineExceeded then
    Upstream (NewUpstreamError providerName ErrTimeout 0 "request deadline exceeded")
  else Upstream (NewUpstreamError providerName ErrUnavailable 0 (Error Quote err)).

(** [maxEmbeddedBodyLen] and the fallback message built from a raw body. *)
Definition maxEmbeddedBodyLen : nat := 200.
Definition embedded_message (msg body : string) : string :=
  if bool_decide (msg = "") then
    if (maxEmbeddedBodyLen <? String.length body)%nat
    then Strings.slice_to maxEmbeddedBodyLen body +:+ "..." else body
  else msg.

(** ** OpenAI adapter *)

Module openai.

(** [openaiErrorPayload], the inner object of the error envelope. *)
Record openaiErrorPayload := {
  Message : string; Type_ : string; Code : string; Param : string
}.
Record apiError := { Error : openaiErrorPayload }.

Section Map.
(** Best-effort [json.Unmarshal] of the error envelope. *)
Context (Unmarshal : string -> apiError) (ParseTime : string -> option Z) (now : Z).

Definition mapStatusToSentinel (status : Z) (code : string) : sentinel :=
  if (status =? 401) || (status =? 403) then ErrAuth
  else if status =? 429 then ErrRateLimited
  else if status =? 400 then
    if bool_decide (code = "context_length_exceeded") then ErrContextLength
    else ErrInvalidRequest
  else if (status =? 404) || (status =? 422) then ErrInvalidRequest
  else if status =? 408 then ErrTimeout
  else if status =? 503 then ErrUnavailable
  else if (500 <=? status) && (status <? 600) then ErrUpstream
  else ErrUpstream.

(** [header] is [http.Header.Get]. *)
Definition mapHTTPError (providerName : string) (status : Z) (body : string)
    (header : string -> string) : error :=
  let ae := Unmarshal body in
  let sentinel := mapStatusToSentinel status ae.(Error).(Code) in
  let msg := embedded_message ae.(Error).(Message) body in
  let ue := NewUpstreamError providerName sentinel status msg in
  Upstream (if status =? 429
            then set_RetryAfter ue (parseRetryAfter ParseTime now (header "Retry-After"))
            else ue).
End Map.
End openai.

(** ** Anthropic adapter *)

Module anthropic.

Record apiErrorInner := { Type_ : string; Message : string }.
Record apiError := { EnvelopeType : string; Error : apiErrorInner }.

Section Map.
Context (Unmarshal : string -> apiError) (ParseTime : string -> option Z) (now : Z).

Definition mapToSentinel (status : Z) (errorType : string) : sentinel :=
  let ty t := bool_decide (errorType = t) in
  if ty "authentication_error" || ty "permission_error" then ErrAuth
  else if ty "rate_limit_error" then ErrRateLimited
  else if ty "overloaded_error" then ErrUnavailable
  else if ty "invalid_request_error" || ty "not_found_error" then ErrInvalidRequest
  else if ty "request_too_large" then ErrContextLength
  else if ty "api_error" then ErrUpstream
  else if (status =? 401) || (status =? 403) then ErrAuth
  else if status =? 429 then ErrRateLimited
  else if (status =? 400) || (status =? 404) || (status =? 422) then ErrInvalidRequest
  else if status =? 408 then ErrTimeout
  else if status =? 503 then ErrUnavailable
  else if status =? 529 then ErrUnavailable
  else if (500 <=? status) && (status <? 600) then ErrUpstream
  else ErrUpstream.

Definition mapHTTPError (providerName : string) (status : Z) (body : string)
    (header : string -> string) : error :=
  let ae := Unmarshal body in
  let sentinel := mapToSentinel status ae.(Error).(Type_) in
  let msg := embedded_message ae.(Error).(Message) body in
  let ue := NewUpstreamError providerName sentinel status msg in
  Upstream (if (status =? 429) || bool_decide (ae.(Error).(Type_) = "overloaded_error")
            then set_RetryAfter ue (parseRetryAfter ParseTime now (header "Retry-After"))
            else ue).
End Map.
End anthropic.

(** ** The client-visible response *)

Module errmap.

Record mappedError := {
  Status : Z; Type_ : string; Code : string; Message : string; RetryAfter : Z
}.

Definition messageOrDefault (err : error) (fallback : string) : string :=
  match As err with
  | Some ue => if bool_decide (Errors.Message ue = "") then fallback else Errors.Message ue
  | None => fallback
  end.

Definition mapProviderError (err : error) : mappedError :=
  if Is err ErrAuth then
    {| Status := 502; Type_ := "upstream_error"; Code := "upstream_auth_failed";
       Message := "Upstream provider rejected the gateway's credentials"; RetryAfter := 0 |}
  else if Is err ErrRateLimited then
    let '(ra, msg) :=
      match As err with
      | Some ue =>
          (if 0 <? Errors.RetryAfter ue
           then to_int64 (duration_seconds (Errors.RetryAfter ue)) else 0,
           if bool_decide (Errors.Message ue = "") then "Upstream rate limit exceeded"
           else Errors.Message ue)
      | None => (0, "Upstream rate limit exceeded")
      end in
    {| Status := 429; Type_ := "rate_limit_error"; Code := ""; Message := msg;
       RetryAfter := ra |}
  else if Is err ErrContextLength then
    {| Status := 400; Type_ := "invalid_request_error"; Code := "context_length_exceeded";
       Message := messageOrDefault err "Request exceeds the model's context length";
       RetryAfter := 0 |}
  else if Is err ErrInvalidRequest then
    {| Status := 400; Type_ := "invalid_request_error"; Code := "";
       Message := messageOrDefault err "Invalid request"; RetryAfter := 0 |}
  else if Is err ErrTimeout then
    {| Status := 504; Type_ := "timeout_error"; Code := "";
       Message := messageOrDefault err "Upstream request timed out"; RetryAfter := 0 |}
  else if Is err ErrUnavailable then
    {| Status := 503; Type_ := "service_unavailable"; Code := "";
       Message := messageOrDefault err "Upstream provider is unavailable"; RetryAfter := 0 |}
  else if Is err ErrUpstream then
    {| Status := 502; Type_ := "upstream_error"; Code := "";
       Message := messageOrDefault err "Upstream provider returned an error"; RetryAfter := 0 |}
  else
    {| Status := 500; Type_ := "internal_error"; Code := "";
       Message := "Internal server error"; RetryAfter := 0 |}.

Record errorBody := {
  ebType : string; ebCode : string; ebMessage : string; ebParam : string; ebReqID : string
}.

(** What [writeError] puts on the wire: headers, status line, body object. *)
Record response := { headers : list (string * string); code : Z; body : errorBody }.

Definition writeError (m : mappedError) (reqID : string) : response :=
  {| headers :=
       (if 0 <? m.(RetryAfter) then [("Retry-After", Strconv.Itoa m.(RetryAfter))] else [])
       ++ [("Content-Type", "application/json")];
     code := m.(Status);
     body := {| ebType := m.(Type_); ebCode := m.(Code); ebMessage := m.(Message);
                ebParam := ""; ebReqID := reqID |} |}.

End errmap.

(** ** Classification *)

(** Errors that wrap one thing at a time, which is what every adapter and the
    router build: sentinels, upstream errors and single-[%w] wraps. *)
Fixpoint category (err : error) : option sentinel :=
  match err with
  | Sentinel_ s => Some s
  | Upstream u => match u with mkUpstreamError _ _ _ _ e => category e end
  | Errorf _ _ (Some e) => category e
  | _ => None
  end.

Fixpoint linear (err : error) : bool :=
  match err with
  | Sentinel_ _ => true
  | Upstream u => match u with mkUpstreamError _ _ _ _ e => linear e end
  | Errorf _ _ (Some e) => linear e
  | Errorf _ _ None => true
  | Join _ => false
  | Foreign _ targets => bool_decide (targets = [])
  end.

(** On such errors [errors.Is] compares with the one sentinel underneath. *)
Fixpoint Is_category (err : error) (s : sentinel) {struct err} :
  linear err = true -> Is err s = bool_decide (category err = Some s).
Proof.
  destruct err as [t|[? ? ? ? e]|? ? [e|]|errs|? l]; simpl; intros Hl; try done.
  - by repeat case_bool_decide; simplify_eq.
  - by apply Is_category.
  - by apply Is_category.
  - bool_to_prop. subst. by case_bool_decide as H; [apply elem_of_nil in H|].
Qed.

Definition retryable_sentinel (s : sentinel) : bool :=
  match s with ErrRateLimited | ErrUpstream | ErrUnavailable | ErrTimeout => true | _ => false end.

Lemma IsRetryable_category err :
  linear err = true -> IsRetryable err = from_option retryable_sentinel false (category err).
Proof.
  intros H. unfold IsRetryable. rewrite !Is_category by done.
  by destruct (category err) as [[]|].
Qed.

Lemma openai_category Unmarshal ParseTime now name status body header :
  let err := openai.mapHTTPError Unmarshal ParseTime now name status body header in
  linear err = true /\ category err =
    Some (openai.mapStatusToSentinel status (openai.Code (openai.Error (Unmarshal body)))).
Proof. simpl. unfold openai.mapHTTPError. by destruct (status =? 429). Qed.

Lemma anthropic_category Unmarshal ParseTime now name status body header :
  let err := anthropic.mapHTTPError Unmarshal ParseTime now name status body header in
  linear err = true /\ category err =
    Some (anthropic.mapToSentinel status (anthropic.Type_ (anthropic.Error (Unmarshal body)))).
Proof. simpl. unfold anthropic.mapHTTPError. by destruct (_ || _). Qed.

(** Split every [if] of the goal on its boolean and turn the branches into
    arithmetic facts. *)
Ltac split_ifs :=
  repeat match goal with
  | |- context [if ?b then _ else _] => destruct b eqn:?
  end;
  repeat match goal with
  | H : (_ || _)%bool = true |- _ => apply orb_true_iff in H as [?|?]
  end; bool_to_prop.

Lemma openai_sentinel_retryable status code :
  retryable_sentinel (openai.mapStatusToSentinel status code) =
  negb (bool_decide (status ∈ [400; 401; 403; 404; 422])).
Proof.
  destruct (bool_decide_reflect (status ∈ [400; 401; 403; 404; 422])) as [Hin|Hin];
    unfold openai.mapStatusToSentinel; simpl.
  - repeat (apply elem_of_cons in Hin as [->|Hin]; [simpl; try done; by case_bool_decide|]).
    by apply elem_of_nil in Hin.
  - assert (status <> 400 /\ status <> 401 /\ status <> 403 /\ status <> 404 /\ status <> 422)
      as (? & ? & ? & ? & ?) by (split_and!; intros ->; apply Hin; set_solver).
    split_ifs; simplify_eq; done.
Qed.

(** ** The main facts about the error pipeline *)

(** The client status of an error category. *)
Definition client_status (c : option sentinel) : Z :=
  match c with
  | Some ErrAuth => 502
  | Some ErrRateLimited => 429
  | Some ErrContextLength | Some ErrInvalidRequest => 400
  | Some ErrTimeout => 504
  | Some ErrUnavailable => 503
  | Some ErrUpstream => 502
  | _ => 500
  end.

Lemma mapProviderError_status err :
  linear err = true -> errmap.Status (errmap.mapProviderError err) = client_status (category err).
Proof.
  intros H. unfold errmap.mapProviderError. rewrite !Is_category by done.
  destruct (category err) as [[]|]; simpl; try done. by destruct (As err).
Qed.

(** The client status of an upstream OpenAI-compatible HTTP failure. *)
Definition openai_client_status (status : Z) : Z :=
  if bool_decide (status ∈ [400; 404; 422]) then 400
  else if bool_decide (status = 429) then 429
  else if bool_decide (status = 408) then 504
  else if bool_decide (status = 503) then 503
  else 502.

Lemma openai_client_status_spec status code :
  client_status (Some (openai.mapStatusToSentinel status code)) = openai_client_status status.
Proof.
  unfold openai.mapStatusToSentinel, openai_client_status.
  destruct (bool_decide_reflect (status ∈ [400; 404; 422])) as [Hin|Hin].
  - repeat (apply elem_of_cons in Hin as [->|Hin]; [simpl; try done; by case_bool_decide|]).
    by apply elem_of_nil in Hin.
  - assert (status <> 400 /\ status <> 404 /\ status <> 422) as (? & ? & ?)
      by (split_and!; intros ->; apply Hin; set_solver).
    split_ifs; simplify_eq; done.
Qed.

(** An HTTP failure of an OpenAI-compatible upstream is retried (and fails
    over, and counts against the breaker) exactly when its status is not one
    of 400, 401, 403, 404, 422, whatever the body says; the client sees 400,
    429, 504, 503 or 502 as the table gives, never the upstream's own code for
    anything else and never a success. *)
Theorem openai_error_pipeline Unmarshal ParseTime now name status body header :
  let err := openai.mapHTTPError Unmarshal ParseTime now name status body header in
  IsRetryable err = negb (bool_decide (status ∈ [400; 401; 403; 404; 422])) /\
  errmap.Status (errmap.mapProviderError err) = openai_client_status status.
Proof.
  intros err.
  destruct (openai_category Unmarshal ParseTime now name status body header) as [Hl Hc].
  fold err in Hl, Hc. rewrite IsRetryable_category, mapProviderError_status, Hc by done.
  split; [apply openai_sentinel_retryable|apply openai_client_status_spec].
Qed.

(** What the vendor's error type alone decides. *)
Definition anthropic_type_sentinel (errorType : string) : option sentinel :=
  if bool_decide (errorType ∈ ["authentication_error"; "permission_error"]) then Some ErrAuth
  else if bool_decide (errorType = "rate_limit_error") then Some ErrRateLimited
  else if bool_decide (errorType = "overloaded_error") then Some ErrUnavailable
  else if bool_decide (errorType ∈ ["invalid_request_error"; "not_found_error"])
    then Some ErrInvalidRequest
  else if bool_decide (errorType = "request_too_large") then Some ErrContextLength
  else if bool_decide (errorType = "api_error") then Some ErrUpstream
  else None.

Lemma anthropic_sentinel_spec status ty :
  anthropic.mapToSentinel status ty =
  match anthropic_type_sentinel ty with
  | Some s => s
  | None => if status =? 529 then ErrUnavailable else openai.mapStatusToSentinel status ""
  end.
Proof.
  unfold anthropic_type_sentinel, anthropic.mapToSentinel.
  assert (Hor : forall a b : string,
    bool_decide (ty = a) || bool_decide (ty = b) = bool_decide (ty ∈ [a; b])).
  { intros a b. apply eq_bool_prop_intro. rewrite orb_True, !bool_decide_spec. set_solver. }
  rewrite !Hor. repeat (case_bool_decide; [done|]). unfold openai.mapStatusToSentinel.
  rewrite (bool_decide_eq_false_2 ("" = "context_length_exceeded")) by done.
  destruct (Z.eqb_spec status 529) as [->|]; [done|].
  destruct (status =? 401), (status =? 403), (status =? 429), (status =? 400), (status =? 404),
    (status =? 422); done.
Qed.

(** Anthropic's error type takes precedence over the HTTP status; without a
    known type the adapter classifies every status as the OpenAI adapter does,
    except 529, which is unavailability. *)
Theorem anthropic_error_pipeline Unmarshal ParseTime now name status body header :
  let err := anthropic.mapHTTPError Unmarshal ParseTime now name status body header in
  let ty := anthropic.Type_ (anthropic.Error (Unmarshal body)) in
  category err = Some (match anthropic_type_sentinel ty with
                       | Some s => s
                       | None => if status =? 529 then ErrUnavailable
                                 else openai.mapStatusToSentinel status ""
                       end) /\
  IsRetryable err = from_option retryable_sentinel false (category err) /\
  errmap.Status (errmap.mapProviderError err) = client_status (category err).
Proof.
  intros err ty.
  destruct (anthropic_category Unmarshal ParseTime now name status body header) as [Hl Hc].
  fold err in Hl, Hc. rewrite IsRetryable_category, mapProviderError_status by done.
  split_and!; [|done..]. by rewrite Hc, anthropic_sentinel_spec.
Qed.

(** Whatever error reaches the handler, joined and foreign ones included,
    the client gets one of the six error statuses, and a Retry-After header
    only together with 429. *)
Theorem mapProviderError_total err reqID :
  let r := errmap.writeError (errmap.mapProviderError err) reqID in
  errmap.code r ∈ [400; 429; 500; 502; 503; 504] /\
  (forall v, ("Retry-After", v) ∈ errmap.headers r -> errmap.code r = 429).
Proof.
  unfold errmap.writeError, errmap.mapProviderError. simpl.
  repeat match goal with |- context [if Is err ?s then _ else _] => destruct (Is err s) end;
    simpl; try (split; [set_solver|intros v Hv; set_solver]).
  destruct (As err); simpl; split; done || set_solver.
Qed.

(** A [Retry-After] of [n] seconds sent by a rate-limiting upstream reaches
    the gateway's client unchanged, for every [n] a duration can hold. *)
Theorem retry_after_passthrough Unmarshal ParseTime now name body header reqID n :
  0 < n <= 9223372036 -> header "Retry-After" = Strconv.Itoa n ->
  let err := openai.mapHTTPError Unmarshal ParseTime now name 429 body header in
  ("Retry-After", Strconv.Itoa n) ∈
    errmap.headers (errmap.writeError (errmap.mapProviderError err) reqID).
Proof.
  intros Hn Hh. unfold openai.mapHTTPError, errmap.mapProviderError. simpl.
  rewrite Hh, parseRetryAfter_seconds by lia.
  rewrite (proj2 (Z.ltb_lt 0 (n * Second))) by (unfold Second; lia).
  rewrite duration_seconds_whole, to_int64_of_Z by lia.
  unfold errmap.writeError. simpl. rewrite (proj2 (Z.ltb_lt 0 n)) by lia. set_solver.
Qed.

Definition empty_payload : openai.apiError :=
  openai.Build_apiError (openai.Build_openaiErrorPayload "" "" "" "").

Lemma retry_after_passthrough_witness :
  ("Retry-After", "30") ∈
    errmap.headers (errmap.writeError (errmap.mapProviderError
      (openai.mapHTTPError (fun _ => empty_payload) (fun _ => None) 0 "openai-primary" 429
         "slow down" (fun _ => "30"))) "req-1").
Proof.
  apply (retry_after_passthrough (fun _ => empty_payload) (fun _ => None) 0 "openai-primary"
    "slow down" (fun _ => "30") "req-1" 30); [lia|reflexivity].
Defined.

(** Beyond that range the product of seconds and nanoseconds wraps: a
    [Retry-After] of 18446744074 seconds becomes 0.29 seconds. *)
Theorem parseRetryAfter_wraps ParseTime now :
  parseRetryAfter ParseTime now "18446744074" = 290448384.
Proof. reflexivity. Qed.
