(* ===== verification/Types.v ===== *)
(** * Types: the data shared by every component

    [internal/provider/types.go] and [internal/provider/provider.go]: requests,
    responses, stream events, model descriptions, and the [Provider] interface
    as a type class.  A field [F] of a struct [S] is the projection [s_F], with
    a short prefix for the struct.  [json.RawMessage] is a parsed JSON value:
    the sources only move raw messages around. *)

From S2P Require Import Prelude GoStd Float64 Errors.
Local Open Scope Z_scope.

(** ** JSON values *)

(** Numbers keep their text; an object is its members in textual order. *)
Inductive json :=
  | JNull
  | JBool (b : bool)
  | JNumber (text : string)
  | JString (s : string)
  | JArray (items : list json)
  | JObject (members : list (string * json)).

Abbreviation RawMessage := json (only parsing).

(** ** Chat requests and responses *)

Record Message := {
  msg_Role : string;
  msg_Content : string;
  msg_Name : string;
  msg_ToolCallID : string;
  msg_Extra : gmap string RawMessage
}.

Record ChatRequest := {
  req_Model : string;
  req_Messages : list Message;
  req_MaxTokens : Z;
  req_Temperature : option float64;
  req_TopP : option float64;
  req_N : Z;
  req_Stream : bool;
  req_Stop : list string;
  req_User : string;
  req_Extra : gmap string RawMessage
}.

Record Usage := {
  use_PromptTokens : Z;
  use_CompletionTokens : Z;
  use_TotalTokens : Z;
  use_Extra : gmap string RawMessage
}.

Record Choice := {
  cho_Index : Z;
  cho_Message : Message;
  cho_FinishReason : string;
  cho_Extra : gmap string RawMessage
}.

Record ChatResponse := {
  resp_ID : string;
  resp_Object : string;
  resp_Created : Z;
  resp_Model : string;
  resp_Choices : list Choice;
  resp_Usage : option Usage;
  resp_Provider : string
}.

(** ** Streaming *)

Record MessageDelta := {
  del_Role : string;
  del_Content : string;
  del_Extra : gmap string RawMessage
}.

Record StreamChoice := {
  sch_Index : Z;
  sch_Delta : MessageDelta;
  sch_FinishReason : string
}.

Record ChatStreamChunk := {
  chk_ID : string;
  chk_Object : string;
  chk_Created : Z;
  chk_Model : string;
  chk_Choices : list StreamChoice;
  chk_Usage : option Usage
}.

(** Exactly one of a chunk and an error. *)
Inductive StreamEvent :=
  | Chunk (c : ChatStreamChunk)
  | Err (e : error).

Definition ev_Err (ev : StreamEvent) : option error :=
  match ev with Chunk _ => None | Err e => Some e end.

(** ** Models *)

Record ModelPricing := {
  pri_Prompt : string; pri_Completion : string; pri_Currency : string; pri_Unit : string
}.

Record DataPolicy := { pol_Training : string; pol_RetentionDays : Z }.

Record ModelInfo := {
  mod_ID : string;
  mod_Object : string;
  mod_Created : Z;
  mod_OwnedBy : string;
  mod_Pricing : option ModelPricing;
  mod_ContextLength : Z;
  mod_Capabilities : list string;
  mod_DataPolicy : option DataPolicy;
  mod_Status : string;
  mod_Provider : string
}.

(** A model description with only the four base fields set. *)
Definition base_model (id owner provider : string) : ModelInfo :=
  {| mod_ID := id; mod_Object := "model"; mod_Created := 0; mod_OwnedBy := owner;
     mod_Pricing := None; mod_ContextLength := 0; mod_Capabilities := [];
     mod_DataPolicy := None; mod_Status := ""; mod_Provider := provider |}.

(** ** The Provider interface

    The static half ([Name], [SupportedModels]) is what the registry uses; the
    calls are added where they are made, with the state of the outside world
    threaded through. *)
Class Provider (P : Type) := {
  Name : P -> string;
  SupportedModels : P -> list ModelInfo
}.
Arguments Name {P _} _ : simpl never.
Arguments SupportedModels {P _} _ : simpl never.

(** ** PostgreSQL statements *)

(** Outcome of a writing statement: a reported error may hide a change that
    was applied (a lost acknowledgement). *)
Inductive db_outcome := DbOk | DbErr (applied : bool) (err : error).

Definition applied (o : db_outcome) : bool :=
  match o with DbOk => true | DbErr b _ => b end.
