(* ===== verification/Encoding.v ===== *)
(** * Encoding: hexadecimal, base64url and JSON values

    The encoders of Go's standard library the gateway relies on:
    [hex.EncodeToString], [base64.RawURLEncoding.EncodeToString], and
    [encoding/json] at the level of JSON values ([Types.json]): how an object's
    members are matched to struct fields, how each Go kind accepts a value, and
    how structs and maps are written. *)

From S2P Require Import Prelude GoStd Float64 Errors Types.
From stdpp Require Import sorting.
Local Open Scope Z_scope.

(** ** Hexadecimal *)

Module Hex.

Definition nibble (n : Z) : Z := if n <? 10 then 48 + n else 87 + n.

Definition encode_bytes (l : bytes) : bytes :=
  concat (map (fun b => [nibble (b / 16); nibble (b mod 16)]) l).

Definition EncodeToString (l : bytes) : string := string_of (encode_bytes l).

Lemma nibble_inj m n : 0 <= m < 16 -> 0 <= n < 16 -> nibble m = nibble n -> m = n.
Proof.
  unfold nibble. intros Hm Hn.
  destruct (Z.ltb_spec m 10), (Z.ltb_spec n 10); lia.
Qed.

Lemma nibble_byte n : 0 <= n < 16 -> is_byte (nibble n).
Proof. unfold nibble, is_byte. destruct (Z.ltb_spec n 10); lia. Qed.

Lemma halves b : is_byte b -> 0 <= b / 16 < 16 /\ 0 <= b mod 16 < 16.
Proof. unfold is_byte. intros Hb. Z.to_euclidean_division_equations. lia. Qed.

Lemma encode_bytes_inj l k :
  Forall is_byte l -> Forall is_byte k -> encode_bytes l = encode_bytes k -> l = k.
Proof.
  intros Hl. revert k. induction Hl as [|b l Hb Hl IH]; intros [|c k] Hk; [done|done|done|].
  apply Forall_cons_1 in Hk as [Hc Hk]. unfold encode_bytes. cbn [map concat app].
  intros [= H1 H2 H3]. destruct (halves b Hb), (halves c Hc).
  f_equal; [|by apply IH].
  rewrite (Z.div_mod b 16), (Z.div_mod c 16) by lia.
  apply nibble_inj in H1 as ->; [|done..]. by apply nibble_inj in H2 as ->.
Qed.

Lemma encode_bytes_bytes l : Forall is_byte l -> Forall is_byte (encode_bytes l).
Proof.
  induction 1 as [|b l Hb _ IH]; [constructor|]. destruct (halves b Hb).
  change (Forall is_byte (nibble (b / 16) :: nibble (b mod 16) :: encode_bytes l)).
  constructor; [by apply nibble_byte|]. constructor; [by apply nibble_byte|done].
Qed.

Lemma hex_inj l k :
  Forall is_byte l -> Forall is_byte k -> EncodeToString l = EncodeToString k -> l = k.
Proof.
  intros Hl Hk H. apply encode_bytes_inj; [done..|].
  rewrite <- (bytes_of_string_of (encode_bytes l)), <- (bytes_of_string_of (encode_bytes k))
    by (apply encode_bytes_bytes; done).
  by f_equal.
Qed.

End Hex.

(** ** Unpadded base64 with the URL alphabet *)

Module Base64.

Definition letter (n : Z) : Z :=
  if n <? 26 then 65 + n else if n <? 52 then 71 + n else if n <? 62 then n - 4
  else if n =? 62 then 45 else 95.

Definition value (c : Z) : Z :=
  if Utf8.within 65 90 c then c - 65 else if Utf8.within 97 122 c then c - 71
  else if Utf8.within 48 57 c then c + 4 else if c =? 45 then 62 else 63.

Fixpoint encode_bytes (l : bytes) : bytes :=
  match l with
  | a :: b :: c :: l' =>
      letter (a / 4) :: letter (a mod 4 * 16 + b / 16) :: letter (b mod 16 * 4 + c / 64)
        :: letter (c mod 64) :: encode_bytes l'
  | [a; b] => [letter (a / 4); letter (a mod 4 * 16 + b / 16); letter (b mod 16 * 4)]
  | [a] => [letter (a / 4); letter (a mod 4 * 16)]
  | [] => []
  end.

Definition EncodeToString (l : bytes) : string := string_of (encode_bytes l).

(** The inverse, on the images of [encode_bytes]. *)
Fixpoint decode_bytes (l : bytes) : bytes :=
  match l with
  | w :: x :: y :: z :: l' =>
      (value w * 4 + value x / 16) :: (value x mod 16 * 16 + value y / 4)
        :: (value y mod 4 * 64 + value z) :: decode_bytes l'
  | [w; x; y] => [value w * 4 + value x / 16; value x mod 16 * 16 + value y / 4]
  | [w; x] => [value w * 4 + value x / 16]
  | _ => []
  end.

Lemma value_letter n : 0 <= n < 64 -> value (letter n) = n.
Proof.
  intros Hn. unfold letter.
  destruct (Z.ltb_spec n 26), (Z.ltb_spec n 52), (Z.ltb_spec n 62), (Z.eqb_spec n 62); try lia;
    unfold value, Utf8.within;
    repeat match goal with
    | |- context [(?a <=? ?b)] => destruct (Z.leb_spec a b); try lia
    | |- context [(?a =? ?b)] => destruct (Z.eqb_spec a b); try lia
    end; simpl; lia.
Qed.

Lemma letter_byte n : is_byte (letter n) \/ n < 0 \/ 64 <= n.
Proof.
  unfold letter, is_byte.
  destruct (Z.ltb_spec n 26), (Z.ltb_spec n 52), (Z.ltb_spec n 62), (Z.eqb_spec n 62); lia.
Qed.

(** Induction three elements at a time. *)
Lemma triple_ind (P : bytes -> Prop) :
  P [] -> (forall a, P [a]) -> (forall a b, P [a; b]) ->
  (forall a b c l, P l -> P (a :: b :: c :: l)) -> forall l, P l.
Proof.
  intros H0 H1 H2 H3 l.
  enough (H : forall n l, (length l <= n)%nat -> P l) by by apply (H (length l)).
  clear l. induction n as [|n IH]; intros [|a [|b [|c l]]] Hl; simpl in Hl; auto; try lia.
  apply H3, IH. lia.
Qed.

Ltac byte_arith := unfold is_byte in *; Z.to_euclidean_division_equations; lia.

Lemma decode_encode l : Forall is_byte l -> decode_bytes (encode_bytes l) = l.
Proof.
  induction l as [|a|a b|a b c l IH] using triple_ind; intros Hl; [done|..];
    repeat match goal with H : Forall _ (_ :: _) |- _ => apply Forall_cons_1 in H as [? H] end;
    cbn [encode_bytes decode_bytes]; rewrite !value_letter by byte_arith.
  - f_equal. byte_arith.
  - f_equal; [byte_arith|f_equal]. byte_arith.
  - rewrite IH by done. f_equal; [byte_arith|]. f_equal; [byte_arith|]. f_equal. byte_arith.
Qed.

Lemma encode_is_byte l : Forall is_byte l -> Forall is_byte (encode_bytes l).
Proof.
  assert (HL : forall n, 0 <= n < 64 -> is_byte (letter n))
    by (intros n Hn; destruct (letter_byte n) as [|[]]; [done|lia|lia]).
  induction l as [|a|a b|a b c l IH] using triple_ind; intros Hl; [constructor|..];
    repeat match goal with H : Forall _ (_ :: _) |- _ => apply Forall_cons_1 in H as [? H] end;
    cbn [encode_bytes]; repeat (constructor; [apply HL; byte_arith|]); auto.
Qed.

Lemma base64_inj l k :
  Forall is_byte l -> Forall is_byte k -> EncodeToString l = EncodeToString k -> l = k.
Proof.
  intros Hl Hk H. rewrite <- (decode_encode l Hl), <- (decode_encode k Hk).
  unfold EncodeToString in H. apply (f_equal bytes_of) in H.
  rewrite !bytes_of_string_of in H by (apply encode_is_byte; done). by rewrite H.
Qed.

End Base64.

(** ** JSON values and Go values *)

Module Json.

(** *** Objects *)

Abbreviation members := (list (string * json)).

(** [json.Unmarshal] into a [map[string]json.RawMessage]: the last of several
    members with one name wins. *)
Definition raw_of (ms : members) : gmap string json :=
  fold_left (fun m kv => <[kv.1 := kv.2]> m) ms ∅.

Definition unmarshal_raw (j : json) : option (gmap string json) :=
  match j with
  | JNull => Some ∅
  | JObject ms => Some (raw_of ms)
  | _ => None
  end.

(** [json.Marshal] of a map writes its keys in byte order. *)
Definition key_le (x y : string * json) : Prop := Strings.LessEq x.1 y.1.
#[export] Instance key_le_dec x y : Decision (key_le x y) := Strings.LessEq_dec _ _.

Definition of_map (m : gmap string json) : json :=
  JObject (merge_sort key_le (map_to_list m)).

(** What a reader finds under a name. *)
Definition member (j : json) (k : string) : option json :=
  m ← unmarshal_raw j; m !! k.

(** *** Struct fields

    A member is stored in the field whose name equals the member's up to
    Unicode case folding; only the two non-ASCII runes below fold to letters
    of an ASCII name. *)

Definition foldRune (r : Z) : Z :=
  if Utf8.within 97 122 r then r - 32
  else if r =? 383 then 83
  else if r =? 8490 then 75
  else r.

Definition foldName (s : string) : list Z := map foldRune (Utf8.runes s).

(** How a decoded value updates a Go value; [None] is an
    [UnmarshalTypeError]. *)
Abbreviation setter A := (json -> A -> option A).
Abbreviation field A := (string * setter A)%type.

Fixpoint find_field {A} (fs : list (field A)) (k : string) : option (setter A) :=
  match fs with
  | [] => None
  | (name, set) :: fs' =>
      if bool_decide (foldName name = foldName k) then Some set else find_field fs' k
  end.

Fixpoint store {A} (fs : list (field A)) (ms : members) (a : A) : option A :=
  match ms with
  | [] => Some a
  | (k, v) :: ms' =>
      a' ← match find_field fs k with Some set => set v a | None => Some a end;
      store fs ms' a'
  end.

(** Decoding into a struct: [null] leaves it as it is. *)
Definition set_struct {A} (fs : list (field A)) : setter A := fun j a =>
  match j with
  | JNull => Some a
  | JObject ms => store fs ms a
  | _ => None
  end.

(** Decoding into the basic kinds. *)
Definition set_string : setter string := fun j a =>
  match j with JNull => Some a | JString s => Some s | _ => None end.
Definition set_bool : setter bool := fun j a =>
  match j with JNull => Some a | JBool b => Some b | _ => None end.
Definition set_int : setter Z := fun j a =>
  match j with JNull => Some a | JNumber t => Strconv.Atoi t | _ => None end.
Definition set_float (ParseFloat : string -> option float64) : setter float64 := fun j a =>
  match j with JNull => Some a | JNumber t => ParseFloat t | _ => None end.
Definition set_ptr {A} (zero : A) (set : setter A) : setter (option A) := fun j a =>
  match j with
  | JNull => Some None
  | _ => Some <$> set j (default zero a)
  end.
Definition set_slice {A} (zero : A) (set : setter A) : setter (list A) := fun j _ =>
  match j with
  | JNull => Some []
  | JArray items => mapM (fun i => set i zero) items
  | _ => None
  end.

(** A setter of one field of a record. *)
Definition via {A B} (get : A -> B) (put : B -> A -> A) (set : setter B) : setter A :=
  fun j a => (fun b => put b a) <$> set j (get a).

(** Printing the basic kinds; [omitempty] drops a member. *)
Definition omit (empty : bool) (k : string) (v : json) : members :=
  if empty then [] else [(k, v)].
Definition of_int (z : Z) : json := JNumber (Strconv.Itoa z).

(** *** Facts *)

Lemma raw_of_snoc ms k v : raw_of (ms ++ [(k, v)]) = <[k := v]> (raw_of ms).
Proof. unfold raw_of. by rewrite fold_left_app. Qed.

Lemma raw_of_lookup_None ms k : raw_of ms !! k = None <-> k ∉ ms.*1.
Proof.
  induction ms as [|[k' v] ms IH] using rev_ind; [set_solver|].
  rewrite raw_of_snoc, lookup_insert_None, IH, fmap_app. set_solver.
Qed.

Lemma raw_of_lookup ms k v : NoDup ms.*1 -> (k, v) ∈ ms -> raw_of ms !! k = Some v.
Proof.
  induction ms as [|[k' v'] ms IH] using rev_ind; [set_solver|].
  rewrite fmap_app, NoDup_app. intros (Hnd & Hdis & _) Hin.
  rewrite raw_of_snoc. apply elem_of_app in Hin as [Hin|Hin%list_elem_of_singleton].
  - rewrite lookup_insert_ne; [by apply IH|]. intros ->.
    apply (Hdis k); [|set_solver]. apply list_elem_of_fmap. by exists (k, v).
  - simplify_eq. apply lookup_insert_eq.
Qed.

Lemma raw_of_map_to_list ms m :
  ms ≡ₚ map_to_list m -> raw_of ms = m.
Proof.
  intros Hp. assert (Hnd : NoDup ms.*1) by (rewrite Hp; apply NoDup_fst_map_to_list).
  apply map_eq. intros k. destruct (m !! k) as [v|] eqn:E.
  - apply raw_of_lookup; [done|]. rewrite Hp. by apply elem_of_map_to_list.
  - apply raw_of_lookup_None. rewrite Hp. intros Hin.
    apply list_elem_of_fmap in Hin as ([k' v] & -> & Hin%elem_of_map_to_list).
    cbn in E. by rewrite E in Hin.
Qed.

Lemma member_of_map m k : member (of_map m) k = m !! k.
Proof.
  unfold member, of_map. cbn [unmarshal_raw mbind option_bind].
  by rewrite (raw_of_map_to_list _ m) by apply merge_sort_Permutation.
Qed.

Lemma store_app {A} (fs : list (field A)) ms1 ms2 a :
  store fs (ms1 ++ ms2) a = store fs ms1 a ≫= store fs ms2.
Proof.
  revert a. induction ms1 as [|[k v] ms1 IH]; intros a; [done|]. cbn.
  destruct (find_field fs k) as [set|]; [|apply IH]. destruct (set v a); [apply IH|done].
Qed.

(** Members that match no field are ignored. *)
Definition matches {A} (fs : list (field A)) (kv : string * json) : bool :=
  bool_decide (is_Some (find_field fs kv.1)).

Lemma store_filter {A} (fs : list (field A)) ms a :
  store fs ms a = store fs (List.filter (matches fs) ms) a.
Proof.
  revert a. induction ms as [|[k v] ms IH]; intros a; [done|].
  cbn [List.filter]. replace (matches fs (k, v)) with
    (match find_field fs k with Some _ => true | None => false end)
    by (unfold matches; cbn [fst]; by destruct (find_field fs k)).
  cbn [store]. destruct (find_field fs k) as [set|] eqn:E; cbn [store].
  - rewrite E. destruct (set v a); cbn [mbind option_bind]; [apply IH|done].
  - apply IH.
Qed.

(** Setters of different fields commute, so that members stored in different
    fields can be stored in any order. *)
Definition commute {A} (f g : setter A) : Prop :=
  forall v w a, f v a ≫= g w = g w a ≫= f v.

Definition independent {A} (fs : list (field A)) : Prop :=
  forall i j f g, i <> j -> fs !! i = Some f -> fs !! j = Some g -> commute f.2 g.2.

Lemma find_field_index {A} (fs : list (field A)) k set :
  find_field fs k = Some set ->
  exists i name, fs !! i = Some (name, set) /\ foldName name = foldName k.
Proof.
  induction fs as [|[name s] fs IH]; [done|]. cbn. case_bool_decide as E.
  - intros [= <-]. by exists 0%nat, name.
  - intros (i & n & H & ?)%IH. by exists (S i), n.
Qed.

Lemma store_swap {A} (fs : list (field A)) x y ms a :
  independent fs -> foldName x.1 <> foldName y.1 ->
  store fs (x :: y :: ms) a = store fs (y :: x :: ms) a.
Proof.
  intros Hi Hne. destruct x as [k v], y as [k' v']. cbn in *.
  destruct (find_field fs k) as [f|] eqn:Ef, (find_field fs k') as [g|] eqn:Eg; cbn; try done.
  apply find_field_index in Ef as (i & n & Hf & Hn), Eg as (j & n' & Hg & Hn').
  assert (Hc : commute f g).
  { apply (Hi i j (n, f) (n', g)); [|done..]. intros ->. simplify_eq. by rewrite Hn in Hn'. }
  specialize (Hc v v' a). destruct (f v a) as [b|], (g v' a) as [c|]; cbn in *; try done.
  - by rewrite Hc.
  - by rewrite Hc.
  - by rewrite <- Hc.
Qed.

Lemma store_Permutation {A} (fs : list (field A)) ms ms' a :
  independent fs -> NoDup (map (fun kv => foldName kv.1) ms) -> ms ≡ₚ ms' ->
  store fs ms a = store fs ms' a.
Proof.
  intros Hi Hnd Hp. revert a Hnd. induction Hp as [|[k v] l l' Hp IH|x y l|l1 l2 l3 H1 IH1 H2 IH2];
    intros a Hnd; [done|..].
  - cbn in *. apply NoDup_cons in Hnd as [_ Hnd].
    destruct (find_field fs k) as [f|]; cbn; [destruct (f v a); cbn; [|done]|]; by apply IH.
  - apply store_swap; [done|]. cbn in Hnd. apply NoDup_cons in Hnd as [Hni _]. set_solver.
  - rewrite IH1 by done. apply IH2. by rewrite <- H1.
Qed.

Lemma via_commute {A B C} (g1 : A -> B) p1 (s1 : setter B) (g2 : A -> C) p2 (s2 : setter C) :
  (forall x a, g1 (p2 x a) = g1 a) -> (forall x a, g2 (p1 x a) = g2 a) ->
  (forall x y a, p1 x (p2 y a) = p2 y (p1 x a)) ->
  commute (via g1 p1 s1) (via g2 p2 s2).
Proof.
  intros H1 H2 H3 v w a. unfold via.
  destruct (s1 v (g1 a)) as [b|] eqn:E1, (s2 w (g2 a)) as [c|] eqn:E2; cbn;
    rewrite ?H1, ?H2, ?E1, ?E2; cbn; by rewrite ?H3.
Qed.

Lemma set_string_ok s a : set_string (JString s) a = Some s.
Proof. done. Qed.
Lemma set_int_ok z a : in_int64 z -> set_int (of_int z) a = Some z.
Proof. apply Strconv.Atoi_Itoa. Qed.

Lemma set_slice_ok {A} (zero : A) set (emit : A -> json) xs old :
  Forall (fun x => set (emit x) zero = Some x) xs ->
  set_slice zero set (JArray (map emit xs)) old = Some xs.
Proof.
  intros H. cbn. induction H as [|x xs Hx _ IH]; cbn; [done|]. by rewrite Hx; cbn; rewrite IH.
Qed.

End Json.

(** ** JSON text

    The text of a JSON value ([json.Marshal] below the level of structs) and
    the value of a text; [None] is a syntax error. *)
Class JsonText := print_json : json -> string.
Class JsonParser := parse_json : string -> option json.
