(* ===== verification/JsonSyntax.v ===== *)
(** * JsonSyntax: the text of JSON

    [encoding/json] below the level of values: the scanner with its limit on
    nesting, the unquoting of strings, and the compact printer with its escapes.
    The components use both through the classes [JsonText] and [JsonParser] of
    [Encoding]; [Marshal] and [Unmarshal] here are Go's, and what the components
    assume of a text is proved of them: a printed value reads back as itself,
    with any white space behind it, and is one line. *)

From S2P Require Import Prelude GoStd Float64 Errors Types Encoding.
From stdpp Require Import base list gmap.
Local Open Scope Z_scope.

Module Syntax.

(** ** Printing *)

(** One ASCII character inside a string; [html] is [SetEscapeHTML]. *)
Definition esc_ascii (html : bool) (c : Z) : bytes :=
  if (c =? 34) || (c =? 92) then [92; c]
  else if c =? 8 then [92; 98]
  else if c =? 12 then [92; 102]
  else if c =? 10 then [92; 110]
  else if c =? 13 then [92; 114]
  else if c =? 9 then [92; 116]
  else if (c <? 32) || (html && ((c =? 60) || (c =? 62) || (c =? 38)))
  then [92; 117; 48; 48; Hex.nibble (c / 16); Hex.nibble (c mod 16)]
  else [c].

(** [appendString]: ill-formed bytes become an escaped U+FFFD, the two line
    separators are escaped, other runes are copied. *)
Fixpoint quote (html : bool) (fuel : nat) (l : bytes) : bytes :=
  match fuel, l with
  | S f, c :: t =>
      if c <? 128 then esc_ascii html c ++ quote html f t
      else match Utf8.decode_ok l with
           | None => [92; 117; 102; 102; 102; 100] ++ quote html f t
           | Some (r, n) =>
               (if (r =? 8232) || (r =? 8233) then [92; 117; 50; 48; 50; Hex.nibble (r mod 16)]
                else take n l) ++ quote html f (drop n l)
           end
  | _, _ => []
  end.

Definition print_string (html : bool) (s : string) : bytes :=
  34 :: quote html (length (bytes_of s)) (bytes_of s) ++ [34].

Fixpoint commas (l : list bytes) : bytes :=
  match l with
  | [] => []
  | [x] => x
  | x :: l => x ++ 44 :: commas l
  end.

Fixpoint print (html : bool) (j : json) : bytes :=
  match j with
  | JNull => [110; 117; 108; 108]
  | JBool true => [116; 114; 117; 101]
  | JBool false => [102; 97; 108; 115; 101]
  | JNumber t => bytes_of t
  | JString s => print_string html s
  | JArray items => 91 :: commas (map (print html) items) ++ [93]
  | JObject ms =>
      123 :: commas (map (fun kv => print_string html kv.1 ++ 58 :: print html kv.2) ms) ++ [125]
  end.

(** [json.Marshal]; an encoder with [SetEscapeHTML(false)] is [MarshalRaw]. *)
Definition Marshal : JsonText := fun j => string_of (print true j).
Definition MarshalRaw : JsonText := fun j => string_of (print false j).

(** ** Reading *)

Definition is_space (c : Z) : bool := (c =? 32) || (c =? 9) || (c =? 13) || (c =? 10).

Fixpoint skip_ws (l : bytes) : bytes :=
  match l with
  | c :: t => if is_space c then skip_ws t else l
  | [] => []
  end.

(** A literal word. *)
Fixpoint strip (w l : bytes) : option bytes :=
  match w, l with
  | [], _ => Some l
  | c :: w', x :: l' => if x =? c then strip w' l' else None
  | _ :: _, [] => None
  end.

(** *** Strings *)

Definition unhex (c : Z) : option Z :=
  if Utf8.within 48 57 c then Some (c - 48)
  else if Utf8.within 97 102 c then Some (c - 87)
  else if Utf8.within 65 70 c then Some (c - 55)
  else None.

Definition hex4 (l : bytes) : option (Z * bytes) :=
  match l with
  | a :: b :: c :: d :: t =>
      a ← unhex a; b ← unhex b; c ← unhex c; d ← unhex d;
      Some (a * 4096 + b * 256 + c * 16 + d, t)
  | _ => None
  end.

(** [getu4]. *)
Definition getu4 (l : bytes) : option (Z * bytes) := strip [92; 117] l ≫= hex4.

(** [utf16.DecodeRune]; [None] is U+FFFD. *)
Definition surrogates (r1 r2 : Z) : option Z :=
  if Utf8.within 55296 56319 r1 && Utf8.within 56320 57343 r2
  then Some ((r1 - 55296) * 1024 + (r2 - 56320) + 65536) else None.

Definition escaped (c : Z) : option Z :=
  if (c =? 34) || (c =? 92) || (c =? 47) then Some c
  else if c =? 98 then Some 8
  else if c =? 102 then Some 12
  else if c =? 110 then Some 10
  else if c =? 114 then Some 13
  else if c =? 116 then Some 9
  else None.

(** What follows a backslash: the bytes it stands for and the rest. *)
Definition escape (l : bytes) : option (bytes * bytes) :=
  match l with
  | [] => None
  | c :: t =>
      if c =? 117 then
        '(r, t') ← hex4 t;
        if Utf8.within 55296 57343 r then
          match ('(r1, t'') ← getu4 t'; r ← surrogates r r1; Some (r, t'')) with
          | Some (r, t'') => Some (Utf8.EncodeRune r, t'')
          | None => Some (Utf8.EncodeRune Utf8.RuneError, t')
          end
        else Some (Utf8.EncodeRune r, t')
      else b ← escaped c; Some ([b], t)
  end.

(** One character or escape of a string; control characters are refused. *)
Definition str_char (l : bytes) : option (bytes * bytes) :=
  match l with
  | [] => None
  | c :: t =>
      if c =? 92 then escape t
      else if c <? 32 then None
      else if c <? 128 then Some ([c], t)
      else let '(r, n) := Utf8.DecodeRune l in Some (Utf8.EncodeRune r, drop n l)
  end.

(** A string after its opening quote.  Every step consumes a byte. *)
Fixpoint str (fuel : nat) (l : bytes) : option (bytes * bytes) :=
  match fuel, l with
  | S f, c :: t =>
      if c =? 34 then Some ([], t)
      else '(b, r) ← str_char l; '(s, r') ← str f r; Some (b ++ s, r')
  | _, _ => None
  end.

Definition read_string (l : bytes) : option (string * bytes) :=
  '(s, r) ← str (length l) l; Some (string_of s, r).

(** *** Numbers *)

Fixpoint digits (l : bytes) : bytes * bytes :=
  match l with
  | c :: t => if Utf8.within 48 57 c then let '(ds, r) := digits t in (c :: ds, r) else ([], l)
  | [] => ([], [])
  end.

Definition digits1 (l : bytes) : option (bytes * bytes) :=
  match digits l with ([], _) => None | x => Some x end.

Definition int_part (l : bytes) : option (bytes * bytes) :=
  match l with
  | c :: t => if c =? 48 then Some ([48], t) else digits1 l
  | [] => None
  end.

Definition frac_part (l : bytes) : option (bytes * bytes) :=
  match l with
  | c :: t => if c =? 46 then '(ds, r) ← digits1 t; Some (46 :: ds, r) else Some ([], l)
  | [] => Some ([], [])
  end.

Definition exp_part (l : bytes) : option (bytes * bytes) :=
  match l with
  | c :: t =>
      if (c =? 101) || (c =? 69) then
        match t with
        | s :: t' => if (s =? 43) || (s =? 45) then '(ds, r) ← digits1 t'; Some (c :: s :: ds, r)
                     else '(ds, r) ← digits1 t; Some (c :: ds, r)
        | [] => None
        end
      else Some ([], l)
  | [] => Some ([], [])
  end.

Definition sign_part (l : bytes) : bytes * bytes :=
  match l with
  | c :: t => if c =? 45 then ([45], t) else ([], l)
  | [] => ([], [])
  end.

Definition number (l : bytes) : option (bytes * bytes) :=
  let '(s, l) := sign_part l in
  '(i, l) ← int_part l; '(f, l) ← frac_part l; '(e, l) ← exp_part l;
  Some (s ++ i ++ f ++ e, l).

(** *** Values

    [depth] is what is left of [maxNestingDepth]. *)

Fixpoint value (fuel depth : nat) (l : bytes) : option (json * bytes) :=
  match fuel, skip_ws l with
  | S f, c :: t =>
      if c =? 34 then '(s, r) ← read_string t; Some (JString s, r)
      else if c =? 91 then
        match depth, skip_ws t with
        | S d, x :: r =>
            if x =? 93 then Some (JArray [], r)
            else '(items, r) ← elements f d t; Some (JArray items, r)
        | _, _ => None
        end
      else if c =? 123 then
        match depth, skip_ws t with
        | S d, x :: r =>
            if x =? 125 then Some (JObject [], r)
            else '(ms, r) ← members f d t; Some (JObject ms, r)
        | _, _ => None
        end
      else if c =? 116 then r ← strip [114; 117; 101] t; Some (JBool true, r)
      else if c =? 102 then r ← strip [97; 108; 115; 101] t; Some (JBool false, r)
      else if c =? 110 then r ← strip [117; 108; 108] t; Some (JNull, r)
      else '(n, r) ← number (c :: t); Some (JNumber (string_of n), r)
  | _, _ => None
  end
with elements (fuel depth : nat) (l : bytes) : option (list json * bytes) :=
  match fuel with
  | O => None
  | S f =>
      '(x, r) ← value f depth l;
      match skip_ws r with
      | c :: r =>
          if c =? 93 then Some ([x], r)
          else if c =? 44 then '(xs, r) ← elements f depth r; Some (x :: xs, r)
          else None
      | [] => None
      end
  end
with members (fuel depth : nat) (l : bytes) : option (list (string * json) * bytes) :=
  match fuel, skip_ws l with
  | S f, q :: t =>
      if q =? 34 then
        '(k, r) ← read_string t;
        match skip_ws r with
        | c :: r =>
            if c =? 58 then
              '(x, r) ← value f depth r;
              match skip_ws r with
              | c :: r =>
                  if c =? 125 then Some ([(k, x)], r)
                  else if c =? 44 then '(ms, r) ← members f depth r; Some ((k, x) :: ms, r)
                  else None
              | [] => None
              end
            else None
        | [] => None
        end
      else None
  | _, _ => None
  end.

Definition maxNestingDepth : nat := Z.to_nat 10000.

Definition parse (l : bytes) : option json :=
  match value (2 * length l) maxNestingDepth l with
  | Some (j, r) => match skip_ws r with [] => Some j | _ => None end
  | None => None
  end.

(** [json.Unmarshal] of a text into a value. *)
Definition Unmarshal : JsonParser := fun s => parse (bytes_of s).

(** Texts for the examples, with single quotes for double ones. *)
Definition quoted (s : string) : string :=
  string_of (map (fun c => if c =? 39 then 34 else c) (bytes_of s)).

Example parse_ex :
  Unmarshal (quoted " { 'a' : [1, -2.5e+3, 'x\u00e9\ud83d\ude00\n' ], 'b':null} ") =
  Some (JObject [("a", JArray [JNumber "1"; JNumber "-2.5e+3";
                               JString (string_of [120; 195; 169; 240; 159; 152; 128; 10])]);
                 ("b", JNull)]).
Proof. vm_compute. reflexivity. Qed.
Example parse_bad :
  map (fun s => Unmarshal (quoted s)) ["01"; "1."; "[1,]"; "{'a':1,}"; "tru"; "1 2"; ""; "'\x'"] = replicate 8 None.
Proof. vm_compute. reflexivity. Qed.
Example Marshal_ex :
  Marshal (JObject [("a<b", JArray [JNumber "1"; JBool true]); ("", JString (string_of [10; 226; 128; 168]))]) =
  quoted "{'a\u003cb':[1,true],'':'\n\u2028'}".
Proof. vm_compute. reflexivity. Qed.

(** ** Strings read back *)

Lemma unhex_nibble n : 0 <= n < 16 -> unhex (Hex.nibble n) = Some n.
Proof.
  intros Hn. unfold Hex.nibble, unhex, Utf8.within.
  destruct (Z.ltb_spec n 10);
    repeat match goal with |- context [(?a <=? ?b)] => destruct (Z.leb_spec a b); try lia end;
    cbn; f_equal; lia.
Qed.

Lemma hex4_small r X :
  0 <= r < 256 -> hex4 (48 :: 48 :: Hex.nibble (r / 16) :: Hex.nibble (r mod 16) :: X) = Some (r, X).
Proof.
  intros Hr. unfold hex4. change (unhex 48) with (Some 0). cbn [mbind option_bind].
  rewrite !unhex_nibble by (Z.to_euclidean_division_equations; lia). cbn.
  do 2 f_equal. Z.to_euclidean_division_equations. lia.
Qed.

Lemma EncodeRune_ascii r : 0 <= r < 128 -> Utf8.EncodeRune r = [r].
Proof.
  intros Hr. unfold Utf8.EncodeRune, Utf8.valid_rune, Utf8.encode_valid.
  rewrite (proj2 (Z.leb_le 0 r)), (proj2 (Z.ltb_lt r 55296)) by lia. cbn [andb orb].
  by rewrite (proj2 (Z.ltb_lt r 128)) by lia.
Qed.

Lemma escape_u00 r X :
  0 <= r < 128 ->
  escape (117 :: 48 :: 48 :: Hex.nibble (r / 16) :: Hex.nibble (r mod 16) :: X) = Some ([r], X).
Proof.
  intros Hr. unfold escape. cbn [Z.eqb Pos.eqb]. rewrite hex4_small by lia. cbn [mbind option_bind].
  unfold Utf8.within. rewrite (proj2 (Z.leb_gt 55296 r)) by lia. cbn [andb].
  by rewrite EncodeRune_ascii.
Qed.

(** What the reader makes of a piece of a printed string: it does not start
    with the closing quote, and is read as [b]. *)
Definition piece (e b : bytes) : Prop :=
  forall X, (exists c t, e ++ X = c :: t /\ c <> 34) /\ str_char (e ++ X) = Some (b, X).

Lemma piece_ascii html c : 0 <= c < 128 -> piece (esc_ascii html c) [c].
Proof.
  intros Hc X. unfold esc_ascii.
  repeat match goal with
  | |- context [(c =? ?k)] => destruct (Z.eqb_spec c k) as [->|]; [by split; [eexists _, _|]|]
  end. cbn [orb].
  match goal with |- context [if ?b then _ else _] => destruct b eqn:Hb end.
  - split; [by eexists _, _|]. cbn [app str_char Z.eqb Pos.eqb]. by apply escape_u00.
  - apply orb_false_iff in Hb as [Hb%Z.ltb_ge _]. split; [by exists c, X|]. cbn [app str_char].
    by rewrite (proj2 (Z.eqb_neq c 92)), (proj2 (Z.ltb_ge c 32)), (proj2 (Z.ltb_lt c 128)) by lia.
Qed.

Lemma piece_ill_formed : piece [92; 117; 102; 102; 102; 100] (Utf8.EncodeRune Utf8.RuneError).
Proof. intros X. split; [by eexists _, _|done]. Qed.

Lemma piece_separator r : r = 8232 \/ r = 8233 ->
  piece [92; 117; 50; 48; 50; Hex.nibble (r mod 16)] (Utf8.EncodeRune r).
Proof. intros [-> | ->] X; (split; [by eexists _, _|done]). Qed.

(** A well-formed sequence is decoded alike whatever follows. *)
Lemma decode_ok_take l r n X :
  Utf8.decode_ok l = Some (r, n) -> Utf8.decode_ok (take n l ++ X) = Some (r, n).
Proof.
  intros H. destruct l as [|b0 [|b1 [|b2 [|b3 t]]]]; cbn [Utf8.decode_ok] in H;
    try discriminate H; repeat (case_hyp H; try discriminate H); injection H as <- <-; cbn [take app Utf8.decode_ok];
    repeat match goal with H : ?b = _ |- context [if ?b then _ else _] => rewrite H; clear H end; try reflexivity.
  all: destruct X as [|x1 [|x2 X]]; repeat match goal with H : ?b = _ |- context [if ?b then _ else _] => rewrite H; clear H end; reflexivity.
Qed.

Lemma decode_ok_high l r n :
  Utf8.decode_ok l = Some (r, n) -> (exists c t, l = c :: t /\ 128 <= c) ->
  exists c t, take n l = c :: t /\ 128 <= c /\ length (take n l) = n.
Proof.
  intros Hd (c & t & -> & Hc). destruct (Utf8.decode_ok_size _ _ _ Hd) as [Hn Hl].
  destruct n as [|n]; [lia|]. exists c, (take n t). split_and!; [done..|]. rewrite length_take. lia.
Qed.

Lemma piece_rune l r n :
  Forall is_byte l -> (exists c t, l = c :: t /\ 128 <= c) -> Utf8.decode_ok l = Some (r, n) ->
  piece (take n l) (Utf8.EncodeRune r).
Proof.
  intros Hb Hl Hd X. destruct (decode_ok_high _ _ _ Hd Hl) as (c & t & He & Hc & Hn).
  split; [exists c, (t ++ X); rewrite He; split; [done|lia]|].
  pose proof (decode_ok_take l r n X Hd) as Hd'. rewrite He in *. cbn [app] in *. unfold str_char.
  rewrite (proj2 (Z.eqb_neq c 92)), (proj2 (Z.ltb_ge c 32)), (proj2 (Z.ltb_ge c 128)) by lia.
  unfold Utf8.DecodeRune. rewrite Hd'. f_equal. f_equal. rewrite <- Hn.
  exact (drop_app_length (c :: t) X).
Qed.

Lemma str_piece e b f X :
  piece e b -> str (S f) (e ++ X) = '(s, r) ← str f X; Some (b ++ s, r).
Proof.
  intros He. destruct (He X) as [(c & t & Hh & Hc) Hs]. cbn [str]. rewrite Hh in Hs |- *.
  rewrite (proj2 (Z.eqb_neq c 34)) by done. rewrite Hs. done.
Qed.

(** A printed string is read as the string, its ill-formed bytes replaced. *)
Lemma str_quote html f l g X :
  Forall is_byte l -> (length l <= f)%nat -> (f < g)%nat ->
  str g (quote html f l ++ 34 :: X) = Some (concat (map Utf8.EncodeRune (Utf8.runes_fuel f l)), X).
Proof.
  intros Hb. revert f g Hb. induction l as [l IH] using (induction_ltof1 _ length).
  intros f [|g] Hb Hf Hg; [lia|]. destruct f as [|f]; [by destruct l|].
  destruct l as [|c t]; [done|]. cbn [quote Utf8.runes_fuel Utf8.DecodeRune].
  assert (Hc : is_byte c) by (by inv Hb). unfold is_byte in Hc.
  destruct (Z.ltb_spec c 128) as [Hlt|Hge].
  - unfold Utf8.decode_ok. rewrite (proj2 (Z.ltb_lt c 128)) by done. cbn [drop map concat].
    rewrite <- app_assoc, (str_piece _ _ _ _ (piece_ascii html c ltac:(lia))).
    rewrite IH; [|unfold ltof; cbn; lia|by inv Hb|cbn in Hf; lia|lia]. cbn. by rewrite EncodeRune_ascii by lia.
  - destruct (Utf8.decode_ok (c :: t)) as [[r n]|] eqn:Hd; cbn [map concat].
    + assert (Hp : piece (if (r =? 8232) || (r =? 8233) then [92; 117; 50; 48; 50; Hex.nibble (r mod 16)]
                          else take n (c :: t)) (Utf8.EncodeRune r)).
      { destruct (Z.eqb_spec r 8232) as [->|]; [by apply piece_separator; left|].
        destruct (Z.eqb_spec r 8233) as [->|]; [by apply piece_separator; right|].
        apply piece_rune; [done|by exists c, t|done]. }
      rewrite <- app_assoc, (str_piece _ _ _ _ Hp). destruct (Utf8.decode_ok_size _ _ _ Hd).
      rewrite IH; [done|unfold ltof|by apply Forall_drop|..]; rewrite ?length_drop; cbn [length] in *; lia.
    + rewrite <- app_assoc, (str_piece _ _ _ _ piece_ill_formed). cbn [drop].
      rewrite IH; [done|unfold ltof; cbn; lia|by inv Hb|cbn in Hf; lia|lia].
Qed.

Lemma esc_ascii_length html c : (1 <= length (esc_ascii html c))%nat.
Proof. unfold esc_ascii. repeat case_goal; cbn; lia. Qed.

Lemma decode_ok_four l r n : Utf8.decode_ok l = Some (r, n) -> (n <= 4)%nat.
Proof.
  intros H. destruct l as [|b0 [|b1 [|b2 [|b3 t]]]]; cbn [Utf8.decode_ok] in H;
    try discriminate H; repeat (case_hyp H; try discriminate H); injection H as <- <-; lia.
Qed.

Lemma quote_length html f l : (length l <= f)%nat -> (length l <= length (quote html f l))%nat.
Proof.
  revert f. induction l as [l IH] using (induction_ltof1 _ length). intros [|f] Hf; [by destruct l|].
  destruct l as [|c t]; [done|]. cbn [quote]. cbn [length] in Hf.
  destruct (c <? 128).
  - rewrite length_app. pose proof (esc_ascii_length html c).
    pose proof (IH t ltac:(unfold ltof; cbn; lia) f ltac:(lia)). cbn [length]. lia.
  - destruct (Utf8.decode_ok (c :: t)) as [[r n]|] eqn:Hd.
    + pose proof (Utf8.decode_ok_size _ _ _ Hd). pose proof (decode_ok_four _ _ _ Hd).
      pose proof (IH (drop n (c :: t)) ltac:(unfold ltof; rewrite length_drop; cbn in *; lia) f
                    ltac:(rewrite length_drop; cbn in *; lia)) as HI.
      rewrite length_app, length_drop in *. cbn [length] in *.
      assert (Hpc : forall (b : bool) e, length e = 6%nat -> (n <= length (if b then e else take n (c :: t)))%nat)
        by (intros [] e He; rewrite ?length_take, ?He; cbn [length]; lia).
      specialize (Hpc ((r =? 8232) || (r =? 8233)) [92; 117; 50; 48; 50; Hex.nibble (r mod 16)] eq_refl). lia.
    + rewrite length_app. pose proof (IH t ltac:(unfold ltof; cbn; lia) f ltac:(lia)). cbn [length]. lia.
Qed.

Lemma read_printed html s X :
  read_string (quote html (length (bytes_of s)) (bytes_of s) ++ 34 :: X) =
  Some (Utf8.string_of_runes (Utf8.runes s), X).
Proof.
  unfold read_string. rewrite (str_quote _ _ _ _ X); [done|apply bytes_of_range|done|].
  rewrite length_app. pose proof (quote_length html _ (bytes_of s) (Nat.le_refl _)). cbn [length]. lia.
Qed.

(** ** Numbers read back *)

(** What may follow a number. *)
Definition stop (X : bytes) : Prop :=
  match X with
  | [] => True
  | c :: _ => Utf8.within 48 57 c = false /\ c <> 46 /\ c <> 101 /\ c <> 69
  end.

Lemma digits_app l ds r X : digits l = (ds, r) -> stop X -> digits (l ++ X) = (ds, r ++ X).
Proof.
  intros Hl HX. revert ds r Hl. induction l as [|c t IH]; cbn; intros ds r.
  - intros [= <- <-]. destruct X as [|c X]; [done|]. destruct HX as [HX _]. cbn. by rewrite HX.
  - destruct (Utf8.within 48 57 c); [|by intros [= <- <-]]. destruct (digits t) as [ds' r'].
    intros [= <- <-]. by rewrite (IH _ _ eq_refl).
Qed.

Lemma digits1_app l ds r X : digits1 l = Some (ds, r) -> stop X -> digits1 (l ++ X) = Some (ds, r ++ X).
Proof.
  unfold digits1. destruct (digits l) as [[|d ds'] r'] eqn:E; [done|]. intros [= <- <-] HX.
  by rewrite (digits_app _ _ _ _ E HX).
Qed.

Lemma int_part_app l i r X : int_part l = Some (i, r) -> stop X -> int_part (l ++ X) = Some (i, r ++ X).
Proof.
  destruct l as [|c t]; [done|]. cbn [int_part app]. destruct (c =? 48); [by intros [= <- <-]|].
  apply (digits1_app (c :: t)).
Qed.

Lemma frac_part_app l f r X : frac_part l = Some (f, r) -> stop X -> frac_part (l ++ X) = Some (f, r ++ X).
Proof.
  destruct l as [|c t]; cbn [frac_part app].
  - intros [= <- <-] HX. destruct X as [|c X]; [done|]. cbn.
    by rewrite (proj2 (Z.eqb_neq c 46)) by apply HX.
  - destruct (c =? 46); [|by intros [= <- <-]]. destruct (digits1 t) as [[ds r']|] eqn:E; [|done].
    cbn. intros [= <- <-] HX. by rewrite (digits1_app _ _ _ _ E HX).
Qed.

Lemma exp_part_app l e r X : exp_part l = Some (e, r) -> stop X -> exp_part (l ++ X) = Some (e, r ++ X).
Proof.
  destruct l as [|c t]; cbn [exp_part app].
  - intros [= <- <-] HX. destruct X as [|c X]; [done|]. cbn. destruct HX as (_ & _ & H1 & H2).
    by rewrite (proj2 (Z.eqb_neq c 101)), (proj2 (Z.eqb_neq c 69)).
  - destruct (_ || _); [|by intros [= <- <-]]. destruct t as [|s t]; [done|]. cbn [app].
    destruct (_ || _).
    + destruct (digits1 t) as [[ds r']|] eqn:E; [|done].
      cbn. intros [= <- <-] HX. by rewrite (digits1_app _ _ _ _ E HX).
    + destruct (digits1 (s :: t)) as [[ds r']|] eqn:E; [|done].
      cbn. intros [= <- <-] HX. change (s :: t ++ X) with ((s :: t) ++ X). by rewrite (digits1_app _ _ _ _ E HX).
Qed.

Lemma number_app l n r X : number l = Some (n, r) -> stop X -> number (l ++ X) = Some (n, r ++ X).
Proof.
  unfold number. intros H HX. destruct (sign_part l) as [s l1] eqn:Es.
  destruct (int_part l1) as [[i l2]|] eqn:Ei; [|done]. cbn in H.
  destruct (frac_part l2) as [[f l3]|] eqn:Ef; [|done]. cbn in H.
  destruct (exp_part l3) as [[e l4]|] eqn:Ee; [|done]. injection H as <- <-.
  assert (Hs : sign_part (l ++ X) = (s, l1 ++ X)).
  { destruct l as [|c t]; cbn in Es |- *; [by injection Es as <- <-|].
    destruct (c =? 45); by injection Es as <- <-. }
  rewrite Hs, (int_part_app _ _ _ _ Ei HX). cbn. rewrite (frac_part_app _ _ _ _ Ef HX). cbn.
  by rewrite (exp_part_app _ _ _ _ Ee HX).
Qed.

Lemma number_head l n r : number l = Some (n, r) -> exists c t, l = c :: t /\ (c = 45 \/ 48 <= c <= 57).
Proof.
  unfold number. destruct l as [|c t]; [done|]. cbn [sign_part]. destruct (Z.eqb_spec c 45) as [->|Hc].
  { intros _. exists 45, t. split; [done|by left]. }
  cbn [int_part]. destruct (Z.eqb_spec c 48) as [->|]; [intros _; exists 48, t; split; [done|right; lia]|].
  unfold digits1. cbn [digits]. unfold Utf8.within.
  destruct (Z.leb_spec 48 c), (Z.leb_spec c 57); cbn; try done. intros _. exists c, t. split; [done|by right].
Qed.

(** Decimal integers are numbers. *)
Definition number_text (t : string) : bool := bool_decide (number (bytes_of t) = Some (bytes_of t, [])).

Lemma digits_all l : Forall Strconv.is_digit l -> digits l = (l, []).
Proof.
  induction 1 as [|c l Hc _ IH]; [done|]. cbn. unfold Strconv.is_digit in Hc. unfold Utf8.within.
  rewrite (proj2 (Z.leb_le 48 c)), (proj2 (Z.leb_le c 57)) by lia. cbn. by rewrite IH.
Qed.

Lemma dec_digits_head f z acc :
  0 < z < 10 ^ Z.of_nat f -> (0 < f)%nat ->
  exists d ds, Strconv.dec_digits f z acc = d :: ds /\ 49 <= d <= 57.
Proof.
  revert z acc. induction f as [|f IH]; intros z acc Hz Hf; [lia|]. cbn [Strconv.dec_digits].
  destruct (Z.ltb_spec z 10).
  - exists (48 + z mod 10), acc. split; [done|]. rewrite Z.mod_small; lia.
  - rewrite Nat2Z.inj_succ, Z.pow_succ_r in Hz by lia. destruct f as [|f]; [cbn in Hz; lia|].
    apply IH; [|lia]. split; [apply Z.div_str_pos; lia|apply Z.div_lt_upper_bound; lia].
Qed.

(** The digits of a positive integer are an integer part. *)
Lemma int_part_dec z :
  0 < z < 10 ^ 20 ->
  exists ds, Strconv.dec_digits 20 z [] = ds /\ bytes_of (string_of ds) = ds /\
    int_part ds = Some (ds, []) /\ sign_part ds = ([], ds).
Proof.
  intros Hz. destruct (dec_digits_head 20 z [] ltac:(lia) ltac:(lia)) as (d & ds & Hd & Hr).
  destruct (Strconv.dec_digits_spec 20 z [] ltac:(lia) ltac:(lia)) as (ds' & Hs & _ & Hall & _).
  rewrite app_nil_r in Hs. rewrite Hd in *. subst ds'. exists (d :: ds). split_and!; [done|..].
  - apply bytes_of_string_of. eapply list.Forall_impl; [exact Hall|]. unfold Strconv.is_digit, is_byte. lia.
  - cbn [int_part]. rewrite (proj2 (Z.eqb_neq d 48)) by lia. unfold digits1. by rewrite digits_all.
  - cbn [sign_part]. by rewrite (proj2 (Z.eqb_neq d 45)) by lia.
Qed.

Lemma Itoa_number z : in_int64 z -> number_text (Strconv.Itoa z) = true.
Proof.
  intros Hz. apply bool_decide_eq_true. unfold Strconv.Itoa.
  destruct (Z.ltb_spec z 0) as [Hn|Hn].
  - destruct (int_part_dec (- z)) as (ds & -> & Hb & Hi & _); [unfold_int64; lia|].
    change (bytes_of (String (ascii_of_byte 45) (string_of ds))) with (45 :: bytes_of (string_of ds)).
    rewrite Hb. unfold number. cbn [sign_part Z.eqb Pos.eqb]. rewrite Hi. cbn. by rewrite app_nil_r.
  - destruct (Z.eq_dec z 0) as [->|Hz0]; [by vm_compute|].
    destruct (int_part_dec z) as (ds & -> & Hb & Hi & Hs); [unfold_int64; lia|].
    rewrite Hb. unfold number. rewrite Hs, Hi. cbn. by rewrite app_nil_r.
Qed.

(** ** Values read back *)

(** Induction over a value and everything in it. *)
Section Induction.
Context (P : json -> Prop) (Hnull : P JNull) (Hbool : forall b, P (JBool b))
  (Hnumber : forall t, P (JNumber t)) (Hstring : forall s, P (JString s))
  (Harray : forall items, Forall P items -> P (JArray items))
  (Hobject : forall ms, Forall (fun kv => P kv.2) ms -> P (JObject ms)).

Fixpoint json_nested_ind (j : json) : P j :=
  match j with
  | JNull => Hnull
  | JBool b => Hbool b
  | JNumber t => Hnumber t
  | JString s => Hstring s
  | JArray items => Harray items
      ((fix go l : Forall P l := match l with
        | [] => list.Forall_nil_2 _ | x :: l => list.Forall_cons_2 _ _ _ (json_nested_ind x) (go l) end) items)
  | JObject ms => Hobject ms
      ((fix go l : Forall (fun kv => P kv.2) l := match l with
        | [] => list.Forall_nil_2 _
        | kv :: l => list.Forall_cons_2 (fun kv => P kv.2) kv l (json_nested_ind kv.2) (go l) end) ms)
  end.
End Induction.

(** The values that [json.Marshal] can print and that read back: numbers are
    numbers, strings are UTF-8, and the nesting is within [depth]. *)
Fixpoint json_ok (depth : nat) (j : json) {struct j} : bool :=
  match j with
  | JNull | JBool _ => true
  | JNumber t => number_text t
  | JString s => Utf8.ValidString s
  | JArray items => match depth with O => false | S d => forallb (json_ok d) items end
  | JObject ms =>
      match depth with
      | O => false
      | S d => forallb (fun kv => Utf8.ValidString kv.1 && json_ok d kv.2) ms
      end
  end.

(** The first character of a printed value. *)
Definition starts (l : bytes) : Prop :=
  exists c t, l = c :: t /\ is_space c = false /\ c <> 93 /\ c <> 125.

Lemma starts_skip l X : starts l -> skip_ws (l ++ X) = l ++ X.
Proof. intros (c & t & -> & Hc & _). cbn. by rewrite Hc. Qed.

Lemma print_starts html d j : json_ok d j = true -> starts (print html j).
Proof.
  destruct j as [|[]|t|s|items|ms]; intros Hj; try (eexists _, _; split; [reflexivity|]; split_and!; done).
  cbn in Hj. apply bool_decide_eq_true in Hj. destruct (number_head _ _ _ Hj) as (c & r & Hc & Hr).
  exists c, r. split; [done|]. unfold is_space. rewrite !orb_false_iff, !Z.eqb_neq. lia.
Qed.

Lemma string_ok s : Utf8.ValidString s = true -> Utf8.string_of_runes (Utf8.runes s) = s.
Proof. apply Utf8.string_of_runes_runes. Qed.

(** A value reads back from its text, whatever delimiter follows. *)
Definition reads html (j : json) : Prop := forall d f X,
  json_ok d j = true -> stop X -> (2 * length (print html j) <= f)%nat ->
  value f d (print html j ++ X) = Some (j, X).

Lemma elements_print html items d : forall f X,
  items <> [] -> Forall (reads html) items -> forallb (json_ok d) items = true ->
  (2 * length (commas (map (print html) items)) < f)%nat ->
  elements f d (commas (map (print html) items) ++ 93 :: X) = Some (items, X).
Proof.
  induction items as [|x items IH]; intros f X Hne Hr Hok Hf; [done|].
  apply Forall_cons_1 in Hr as [Hx Hr]. cbn [forallb] in Hok. apply andb_true_iff in Hok as [Hox Hok].
  destruct f as [|f]; [lia|]. cbn [elements].
  destruct items as [|y items].
  - cbn [map commas] in *. rewrite (Hx d f (93 :: X)) by (done || lia). done.
  - cbn [map] in *. change (commas (print html x :: print html y :: map (print html) items))
      with (print html x ++ 44 :: commas (print html y :: map (print html) items)) in *.
    rewrite <- app_assoc. cbn [app]. rewrite length_app in Hf. cbn [length] in Hf.
    rewrite (Hx d f) by (done || lia). cbn [mbind option_bind skip_ws is_space Z.eqb Pos.eqb orb].
    rewrite IH; [done|done|done|done|lia].
Qed.

Definition member_text html (kv : string * json) : bytes :=
  print_string html kv.1 ++ 58 :: print html kv.2.

Lemma members_print html ms d : forall f X,
  ms <> [] -> Forall (fun kv => reads html kv.2) ms ->
  forallb (fun kv => Utf8.ValidString kv.1 && json_ok d kv.2) ms = true ->
  (2 * length (commas (map (member_text html) ms)) < f)%nat ->
  members f d (commas (map (member_text html) ms) ++ 125 :: X) = Some (ms, X).
Proof.
  induction ms as [|[k x] ms IH]; intros f X Hne Hr Hok Hf; [done|].
  apply Forall_cons_1 in Hr as [Hx Hr]. cbn [forallb fst snd] in *.
  apply andb_true_iff in Hok as [[Hk Hox]%andb_true_iff Hok].
  destruct f as [|f]; [lia|].
  assert (Hstep : forall Y, stop Y -> (2 * length (print html x) <= f)%nat ->
    members (S f) d (member_text html (k, x) ++ Y) =
    match skip_ws Y with
    | c :: r => if c =? 125 then Some ([(k, x)], r)
                else if c =? 44 then '(ms, r) ← members f d r; Some ((k, x) :: ms, r) else None
    | [] => None
    end).
  { intros Y HY Hl. unfold member_text, print_string. cbn [fst snd app members skip_ws is_space Z.eqb Pos.eqb orb].
    rewrite <- !app_assoc. cbn [app]. rewrite read_printed, (string_ok k Hk).
    cbn [mbind option_bind skip_ws is_space Z.eqb Pos.eqb orb]. by rewrite (Hx d f Y). }
  destruct ms as [|kv ms].
  - cbn [map commas] in *. rewrite Hstep; [done|done|].
    unfold member_text in Hf. rewrite length_app in Hf. cbn [length snd] in Hf. lia.
  - cbn [map] in *. change (commas (member_text html (k, x) :: member_text html kv :: map (member_text html) ms))
      with (member_text html (k, x) ++ 44 :: commas (member_text html kv :: map (member_text html) ms)) in *.
    rewrite <- app_assoc. cbn [app]. rewrite length_app in Hf. cbn [length] in Hf.
    rewrite Hstep; [|done|unfold member_text in Hf; rewrite length_app in Hf; cbn [length snd] in Hf; lia].
    cbn [skip_ws is_space Z.eqb Pos.eqb orb]. rewrite IH; [done|done|done|done|lia].
Qed.

Lemma commas_starts l : l <> [] -> Forall starts l -> starts (commas l).
Proof.
  destruct l as [|x [|y l]]; [done|by intros _ H; inv H|]. intros _ H. inv H as [|? ? (c & t & -> & Hc) _].
  exists c, (t ++ 44 :: commas (y :: l)). done.
Qed.

Lemma value_number f d l n r :
  number l = Some (n, r) -> value (S f) d l = Some (JNumber (string_of n), r).
Proof.
  intros Hn. destruct (number_head _ _ _ Hn) as (c & t & -> & Hc).
  assert (Hs : skip_ws (c :: t) = c :: t).
  { cbn. unfold is_space. replace (_ || _ || _ || _) with false; [done|].
    symmetry. rewrite !orb_false_iff, !Z.eqb_neq. lia. }
  cbn [value]. rewrite Hs.
  repeat match goal with |- context [(c =? ?k)] => rewrite (proj2 (Z.eqb_neq c k)) by lia end.
  by rewrite Hn.
Qed.

Lemma value_print html j : reads html j.
Proof.
  induction j as [|b|t|s|items IH|ms IH] using json_nested_ind; intros d f X Hj HX Hf;
    destruct (print_starts html d _ Hj) as (c0 & t0 & E0 & _);
    (destruct f as [|f]; [rewrite E0 in Hf; cbn in Hf; lia|]).
  - done.
  - by destruct b.
  - cbn in Hj. apply bool_decide_eq_true in Hj. cbn [print].
    rewrite (value_number _ _ _ _ _ (number_app _ _ _ X Hj HX)). by rewrite string_of_bytes_of.
  - cbn [print]. unfold print_string. cbn [app value skip_ws is_space Z.eqb Pos.eqb orb].
    rewrite <- app_assoc. cbn [app]. by rewrite read_printed, (string_ok s Hj).
  - cbn [json_ok] in Hj. destruct d as [|d]; [done|]. cbn [print] in *.
    destruct items as [|x items]; [done|]. set (xs := x :: items) in *.
    assert (Hst : starts (commas (map (print html) xs))).
    { apply commas_starts; [done|]. apply Forall_fmap, list.Forall_forall. intros y Hy. apply (print_starts html d).
      by apply (proj1 (forallb_forall _ _) Hj), list_elem_of_In. }
    cbn [app value skip_ws is_space Z.eqb Pos.eqb orb]. rewrite <- app_assoc. cbn [app].
    rewrite starts_skip by done. destruct Hst as (c & t & Hc & _ & H93 & _).
    rewrite Hc. cbn [app]. rewrite (proj2 (Z.eqb_neq c 93)) by done. rewrite app_comm_cons, <- Hc.
    cbn [length] in Hf. rewrite length_app in Hf. cbn [length] in Hf.
    by rewrite (elements_print html xs d f X) by (done || lia).
  - cbn [json_ok] in Hj. destruct d as [|d]; [done|]. cbn [print] in *. fold (member_text html) in *.
    destruct ms as [|kv ms]; [done|]. set (xs := kv :: ms) in *.
    change (map _ xs) with (map (member_text html) xs) in *.
    assert (Hst : starts (commas (map (member_text html) xs))).
    { apply commas_starts; [done|]. apply Forall_fmap, list.Forall_forall. intros y Hy.
      by eexists _, _. }
    cbn [app value skip_ws is_space Z.eqb Pos.eqb orb]. rewrite <- app_assoc. cbn [app].
    rewrite starts_skip by done. destruct Hst as (c & t & Hc & _ & _ & H125).
    rewrite Hc. cbn [app]. rewrite (proj2 (Z.eqb_neq c 125)) by done. rewrite app_comm_cons, <- Hc.
    cbn [length] in Hf. rewrite length_app in Hf. cbn [length] in Hf.
    by rewrite (members_print html xs d f X) by (done || lia).
Qed.

Lemma skip_blank W : forallb is_space W = true -> skip_ws W = [].
Proof. induction W as [|c W IH]; [done|]. cbn. by intros [-> HW]%andb_true_iff; auto. Qed.

Lemma stop_blank W : forallb is_space W = true -> stop W.
Proof.
  destruct W as [|c W]; [done|]. cbn. intros [Hc _]%andb_true_iff. revert Hc. unfold is_space, Utf8.within.
  rewrite !orb_true_iff, !Z.eqb_eq. intros [[[-> | ->] | ->] | ->]; (split; [done|lia]).
Qed.

Lemma parse_print html j W :
  json_ok maxNestingDepth j = true -> forallb is_space W = true ->
  parse (print html j ++ W) = Some j.
Proof.
  intros Hj HW. unfold parse. rewrite (value_print html j maxNestingDepth); [|done|by apply stop_blank|].
  - by rewrite skip_blank.
  - rewrite length_app. lia.
Qed.

(** ** The characters of a text *)

(** No control characters, so one line. *)
Definition printable (b : Z) : Prop := 32 <= b < 256.

Lemma nibble_printable n : 0 <= n < 16 -> printable (Hex.nibble n).
Proof. unfold printable, Hex.nibble. intros Hn. destruct (Z.ltb_spec n 10); lia. Qed.

Lemma esc_ascii_printable html c : 0 <= c < 128 -> Forall printable (esc_ascii html c).
Proof.
  intros Hc. unfold esc_ascii.
  assert (Hl : forall l, forallb (Utf8.within 32 255) l = true -> Forall printable l).
  { intros l Hl. apply Forall_forall. intros b Hb%list_elem_of_In.
    apply (proj1 (forallb_forall _ _) Hl) in Hb. unfold Utf8.within in Hb. unfold printable. bool_to_prop. lia. }
  repeat match goal with
  | |- context [(c =? ?k)] => destruct (Z.eqb_spec c k) as [->|]; [by apply Hl|]
  end. cbn [orb].
  match goal with |- context [if ?b then _ else _] => destruct b eqn:Hb end.
  - repeat (constructor; [first [unfold printable; lia
      | apply nibble_printable; Z.to_euclidean_division_equations; lia]|]). constructor.
  - apply orb_false_iff in Hb as [Hb%Z.ltb_ge _]. constructor; [unfold printable; lia|constructor].
Qed.

Lemma decode_ok_printable l r n :
  Forall is_byte l -> (exists c t, l = c :: t /\ 128 <= c) -> Utf8.decode_ok l = Some (r, n) ->
  Forall printable (take n l).
Proof.
  intros Hb (c & t & -> & Hc) H. unfold is_byte in Hb.
  destruct t as [|b1 [|b2 [|b3 t]]]; cbn [Utf8.decode_ok] in H; unfold Utf8.second_ok, Utf8.cont, Utf8.within in H;
    repeat (case_hyp H; try discriminate H); injection H as <- <-; bool_to_prop; try lia;
    cbn [take firstn]; Utf8.inv_bytes; repeat match goal with H : (if ?b then _ else _) = true |- _ => destruct b; bool_to_prop end;
    repeat (constructor; [unfold printable; lia|]); constructor.
Qed.

Lemma quote_printable html f l : Forall is_byte l -> Forall printable (quote html f l).
Proof.
  revert l. induction f as [|f IH]; intros [|c t] Hb; try constructor. cbn [quote].
  pose proof Hb as [Hc Ht]%Forall_cons_1. unfold is_byte in Hc.
  destruct (Z.ltb_spec c 128); [apply Forall_app; split; [apply esc_ascii_printable; lia|by apply IH]|].
  destruct (Utf8.decode_ok (c :: t)) as [[r n]|] eqn:Hd; apply Forall_app; split; try (by apply IH; try apply Forall_drop).
  - destruct (_ || _) eqn:Hr; [|apply (decode_ok_printable _ r); [done|by exists c, t|done]].
    apply orb_true_iff in Hr. rewrite !Z.eqb_eq in Hr.
    destruct Hr as [-> | ->]; repeat (constructor; [done|]); constructor.
  - repeat (constructor; [done|]); constructor.
Qed.

Lemma digits_printable l ds r : digits l = (ds, r) -> Forall printable ds /\ l = ds ++ r.
Proof.
  revert ds r. induction l as [|c t IH]; cbn; intros ds r; [by intros [= <- <-]|].
  destruct (Utf8.within 48 57 c) eqn:Hc; [|by intros [= <- <-]]. destruct (digits t) as [ds' r'].
  intros [= <- <-]. destruct (IH _ _ eq_refl) as [Hp ->]. split; [|done]. constructor; [|done].
  unfold Utf8.within in Hc. unfold printable. bool_to_prop. lia.
Qed.

Lemma digits1_split l ds r : digits1 l = Some (ds, r) -> Forall printable ds /\ l = ds ++ r /\ ds <> [].
Proof.
  unfold digits1. destruct (digits l) as [[|d ds'] r'] eqn:E; [done|]. intros [= <- <-].
  by destruct (digits_printable _ _ _ E).
Qed.

(** What a number consists of. *)
Lemma number_split l n r : number l = Some (n, r) -> Forall printable n /\ l = n ++ r /\ n <> [].
Proof.
  unfold number. destruct (sign_part l) as [s l1] eqn:Es.
  destruct (int_part l1) as [[i l2]|] eqn:Ei; [|done]. cbn.
  destruct (frac_part l2) as [[f l3]|] eqn:Ef; [|done]. cbn.
  destruct (exp_part l3) as [[e l4]|] eqn:Ee; [|done]. cbn. intros [= <- <-].
  assert (Hs : Forall printable s /\ l = s ++ l1).
  { destruct l as [|c t]; cbn in Es; [by injection Es as <- <-|].
    destruct (Z.eqb_spec c 45); injection Es as <- <-; subst; (split; [repeat constructor; done|done]). }
  assert (Hi : Forall printable i /\ l1 = i ++ l2 /\ i <> []).
  { destruct l1 as [|c t]; cbn [int_part] in Ei; [done|].
    destruct (Z.eqb_spec c 48); [|by apply digits1_split]. injection Ei as <- <-. subst c.
    split_and!; [repeat constructor; done|done|done]. }
  assert (Hf : Forall printable f /\ l2 = f ++ l3).
  { destruct l2 as [|c t]; cbn [frac_part] in Ef; [by injection Ef as <- <-|].
    destruct (Z.eqb_spec c 46); [|by injection Ef as <- <-].
    destruct (digits1 t) as [[ds r']|] eqn:E; [|done]. injection Ef as <- <-. subst.
    destruct (digits1_split _ _ _ E) as (? & -> & _). split; [by constructor|done]. }
  assert (He : Forall printable e /\ l3 = e ++ l4).
  { destruct l3 as [|c t]; cbn [exp_part] in Ee; [by injection Ee as <- <-|].
    destruct (_ || _) eqn:Hc; [|by injection Ee as <- <-]. destruct t as [|x t]; [done|].
    assert (printable c) by (apply orb_true_iff in Hc; rewrite !Z.eqb_eq in Hc; unfold printable; lia).
    destruct ((x =? 43) || (x =? 45)) eqn:Hx.
    - destruct (digits1 t) as [[ds r']|] eqn:E; [|done]. injection Ee as <- <-.
      destruct (digits1_split _ _ _ E) as (? & -> & _). split; [|done]. constructor; [done|]. constructor; [|done].
      apply orb_true_iff in Hx. rewrite !Z.eqb_eq in Hx. unfold printable. lia.
    - destruct (digits1 (x :: t)) as [[ds r']|] eqn:E; [|done]. injection Ee as <- <-.
      destruct (digits1_split _ _ _ E) as (? & -> & _). split; [by constructor|done]. }
  destruct Hs as [? ->], Hi as (? & -> & ?), Hf as [? ->], He as [? ->].
  split_and!; [by repeat apply Forall_app_2|by rewrite <- !app_assoc|].
  destruct s; [|done]. by destruct i.
Qed.

Lemma commas_printable l : Forall (Forall printable) l -> Forall printable (commas l).
Proof.
  induction l as [|x [|y l] IH]; [constructor|by intros H; inv H|]. intros [Hx Hl]%Forall_cons_1.
  change (commas (x :: y :: l)) with (x ++ 44 :: commas (y :: l)).
  apply Forall_app_2; [done|]. constructor; [done|by apply IH].
Qed.

Lemma print_string_printable html s : Forall printable (print_string html s).
Proof.
  unfold print_string. constructor; [done|]. apply Forall_app_2; [apply quote_printable, bytes_of_range|].
  repeat constructor; done.
Qed.

Lemma print_printable html j : forall d, json_ok d j = true -> Forall printable (print html j).
Proof.
  induction j as [|b|t|s|items IH|ms IH] using json_nested_ind; intros d Hj; cbn [print].
  - repeat constructor; done.
  - destruct b; repeat constructor; done.
  - cbn in Hj. apply bool_decide_eq_true in Hj. by apply number_split in Hj as [? _].
  - apply print_string_printable.
  - destruct d as [|d]; [done|]. constructor; [done|]. apply Forall_app_2; [|by repeat constructor].
    apply commas_printable, Forall_fmap. rewrite list.Forall_forall in *. intros x Hx. apply (IH x Hx d).
    by apply (proj1 (forallb_forall _ _) Hj), list_elem_of_In.
  - destruct d as [|d]; [done|]. constructor; [done|]. apply Forall_app_2; [|by repeat constructor].
    apply commas_printable, Forall_fmap. rewrite list.Forall_forall in *. intros kv Hx.
    apply Forall_app_2; [apply print_string_printable|]. constructor; [done|]. apply (IH kv Hx d).
    apply list_elem_of_In, (proj1 (forallb_forall _ _) Hj) in Hx. by apply andb_true_iff in Hx as [_ ?].
Qed.

Lemma bytes_of_print html d j : json_ok d j = true -> bytes_of (string_of (print html j)) = print html j.
Proof.
  intros Hj. apply bytes_of_string_of. eapply list.Forall_impl; [by apply (print_printable html j d)|].
  unfold printable, is_byte. lia.
Qed.

(** ** What the components assume of JSON texts *)

(** A printed value reads back as itself, with the newline of an encoder or any
    other white space behind it. *)
Lemma Unmarshal_print html j W :
  json_ok maxNestingDepth j = true -> forallb is_space (bytes_of W) = true ->
  Unmarshal (string_of (print html j) +:+ W) = Some j.
Proof.
  intros Hj HW. unfold Unmarshal. rewrite bytes_of_app, (bytes_of_print html maxNestingDepth) by done.
  by apply parse_print.
Qed.

Lemma Unmarshal_Marshal j : json_ok maxNestingDepth j = true -> Unmarshal (Marshal j) = Some j.
Proof.
  intros Hj. unfold Marshal. rewrite <- (Strings.append_nil (string_of _)). by apply Unmarshal_print.
Qed.

(** A printed value is one line. *)
Lemma IndexByte_bytes s c : byte_of_ascii c ∉ bytes_of s -> Strings.IndexByte s c = None.
Proof.
  induction s as [|a s IH]; [done|]. cbn. intros [Ha Hs]%not_elem_of_cons.
  destruct (Ascii.eqb_spec a c) as [->|]; [done|]. by rewrite IH.
Qed.

Lemma Marshal_one_line j d c :
  json_ok d j = true -> byte_of_ascii c < 32 -> Strings.IndexByte (Marshal j) c = None.
Proof.
  intros Hj Hc. apply IndexByte_bytes. unfold Marshal. rewrite (bytes_of_print _ d) by done.
  intros Hin. apply (proj1 (list.Forall_forall _ _) (print_printable true j d Hj)) in Hin.
  unfold printable in Hin. lia.
Qed.

(** ** The fuel is enough *)

Lemma skip_ws_length l : (length (skip_ws l) <= length l)%nat.
Proof. induction l as [|c t IH]; cbn; [done|]. destruct (is_space c); cbn; lia. Qed.

Lemma strip_length w l r : strip w l = Some r -> (length r <= length l)%nat.
Proof.
  revert l. induction w as [|c w IH]; intros l; cbn; [by intros [= ->]|].
  destruct l as [|x l]; [done|]. destruct (x =? c); [|done]. intros H%IH. cbn. lia.
Qed.

Lemma hex4_length l r t : hex4 l = Some (r, t) -> (length t < length l)%nat.
Proof.
  destruct l as [|a [|b [|c [|d l]]]]; try done. cbn.
  destruct (unhex a), (unhex b), (unhex c), (unhex d); cbn; try done. intros [= _ <-]. lia.
Qed.

Lemma getu4_length l r t : getu4 l = Some (r, t) -> (length t < length l)%nat.
Proof.
  unfold getu4. destruct (strip _ l) as [l'|] eqn:E; cbn; [|done].
  intros H%hex4_length. apply strip_length in E. lia.
Qed.

Ltac rest_is :=
  let H := fresh in
  intros H; apply (f_equal (fmap snd)) in H; cbv [fmap option_fmap option_map snd] in H; injection H as <-.

Lemma str_char_length l b r : str_char l = Some (b, r) -> (length r < length l)%nat.
Proof.
  destruct l as [|c t]; [done|]. cbn [str_char].
  destruct (c =? 92).
  - destruct t as [|x t]; cbn [escape]; [done|]. destruct (x =? 117).
    + destruct (hex4 t) as [[u t']|] eqn:Eh; cbn [mbind option_bind]; [|done]. apply hex4_length in Eh.
      destruct (Utf8.within _ _ _); [|rest_is; cbn; lia].
      destruct (getu4 t') as [[u1 t'']|] eqn:Eg; cbn [mbind option_bind]; [apply getu4_length in Eg|rest_is; cbn; lia].
      destruct (surrogates u u1); cbn [mbind option_bind]; rest_is; cbn; lia.
    + destruct (escaped x); cbn [mbind option_bind]; [|done]. rest_is. cbn; lia.
  - destruct (c <? 32); [done|]. destruct (c <? 128); [rest_is; cbn; lia|].
    destruct (Utf8.DecodeRune (c :: t)) as [u n] eqn:Ed. rest_is. rewrite length_drop.
    assert (n <> 0)%nat; [|cbn; lia]. intros ->. unfold Utf8.DecodeRune in Ed.
    destruct (Utf8.decode_ok (c :: t)) as [[? ?]|] eqn:E; [|done]. injection Ed as -> ->.
    apply Utf8.decode_ok_size in E. lia.
Qed.

Lemma str_fuel f l s r :
  str f l = Some (s, r) -> (length r < length l)%nat /\ forall g, (length l <= g)%nat -> str g l = Some (s, r).
Proof.
  revert l s r. induction f as [|f IH]; [done|]. intros [|c t] s r; [done|]. cbn [str].
  destruct (c =? 34) eqn:Hc.
  { intros [= <- <-]. split; [cbn; lia|]. intros [|g] Hg; cbn in Hg; [lia|]. cbn [str]. by rewrite Hc. }
  destruct (str_char (c :: t)) as [[b l1]|] eqn:Ec; cbn [mbind option_bind]; [|done].
  apply str_char_length in Ec as Hl.
  destruct (str f l1) as [[s' r']|] eqn:Es; cbn; [|done]. intros [= <- <-].
  destruct (IH _ _ _ Es) as [Hr HI]. split; [cbn in *; lia|].
  intros [|g] Hg; cbn in Hg; [lia|]. cbn [str]. rewrite Hc, Ec. cbn [mbind option_bind].
  rewrite HI by (cbn in Hl; lia). done.
Qed.

Lemma read_string_length l s r : read_string l = Some (s, r) -> (length r < length l)%nat.
Proof.
  unfold read_string. destruct (str (length l) l) as [[b t]|] eqn:E; cbn; [|done].
  intros [= _ <-]. by apply str_fuel in E as [? _].
Qed.

Ltac shorten :=
  repeat match goal with
  | H : skip_ws ?l = _ |- _ => let HL := fresh in pose proof (skip_ws_length l) as HL; rewrite H in HL; clear H
  | H : read_string _ = Some _ |- _ => apply read_string_length in H
  end; cbn [length] in *; lia.

(** If any amount of fuel reads something, so does any amount from twice the
    length on: [parse] fails only on texts that are not JSON. *)
Definition settled {A} (run : nat -> bytes -> option (A * bytes)) (extra f : nat) : Prop :=
  forall l x r, run f l = Some (x, r) ->
  (length r < length l)%nat /\ forall g, (2 * length l + extra <= g)%nat -> run g l = Some (x, r).

Definition all_settled (f : nat) : Prop := forall d,
  settled (fun f => value f d) 0 f /\ settled (fun f => elements f d) 1 f /\ settled (fun f => members f d) 1 f.

Lemma settled_value f d : all_settled f -> settled (fun f => value f d) 0 (S f).
Proof.
  intros IH l x r H.
  cbn [value] in H. destruct (skip_ws l) as [|c t] eqn:El; [done|].
  assert (Hgoal : (length r <= length t)%nat /\ (forall g, (2 * length t + 1 <= g)%nat -> value (S g) d l = Some (x, r)) ->
    (length r < length l)%nat /\ forall g, (2 * length l + 0 <= g)%nat -> value g d l = Some (x, r)).
  { intros [Hr Hg]. split; [shorten|]. intros [|g] Hlg; [exfalso; shorten|]. apply Hg. shorten. }
  apply Hgoal. clear Hgoal. cbn [value]. rewrite El. revert H.
  destruct (c =? 34).
  { destruct (read_string t) as [[s r']|] eqn:Es; cbn; [|done]. intros [= <- <-]. split; [shorten|done]. }
  destruct (c =? 91).
  { destruct d as [|d]; [done|]. destruct (skip_ws t) as [|y r0] eqn:Et; [done|].
    destruct (y =? 93); [intros [= <- <-]; split; [shorten|done]|].
    destruct (elements f d t) as [[xs r']|] eqn:Ex; cbn; [|done]. intros [= <- <-].
    destruct (proj1 (proj2 (IH d)) _ _ _ Ex) as [Hr Hg]. split; [lia|]. intros g Hlg. by rewrite Hg. }
  destruct (c =? 123).
  { destruct d as [|d]; [done|]. destruct (skip_ws t) as [|y r0] eqn:Et; [done|].
    destruct (y =? 125); [intros [= <- <-]; split; [shorten|done]|].
    destruct (members f d t) as [[xs r']|] eqn:Ex; cbn; [|done]. intros [= <- <-].
    destruct (proj2 (proj2 (IH d)) _ _ _ Ex) as [Hr Hg]. split; [lia|]. intros g Hlg. by rewrite Hg. }
  assert (Hw : forall w (j : json), (r ← strip w t; Some (j, r)) = Some (x, r) -> (length r <= length t)%nat).
  { intros w j. destruct (strip w t) as [r'|] eqn:Ew; cbn; [|done]. intros [= _ <-]. by apply strip_length in Ew. }
  repeat match goal with |- context [if c =? ?k then _ else _] => destruct (c =? k); [intros H; split; [by apply Hw in H|done]|] end.
  destruct (number (c :: t)) as [[n r']|] eqn:En; cbn [mbind option_bind]; [|done]. intros [= <- <-]. split; [|done].
  destruct (number_split _ _ _ En) as (_ & Hs & Hn). apply (f_equal length) in Hs.
  rewrite length_app in Hs. destruct n; [done|]. cbn [length] in Hs. lia.
Qed.

Lemma settled_elements f d : all_settled f -> settled (fun f => elements f d) 1 (S f).
Proof.
  intros IH l x r H.
  cbn [elements] in H. destruct (value f d l) as [[y r0]|] eqn:Ev; cbn [mbind option_bind] in H; [|done].
  destruct (proj1 (IH d) _ _ _ Ev) as [Hr Hg].
  destruct (skip_ws r0) as [|c r1] eqn:E0; [done|].
  destruct (c =? 93) eqn:H93.
  { injection H as <- <-. split; [shorten|]. intros [|g] Hlg; [lia|]. cbn [elements].
    rewrite Hg by lia. cbn [mbind option_bind]. by rewrite E0, H93. }
  destruct (c =? 44) eqn:H44; [|done].
  destruct (elements f d r1) as [[xs r']|] eqn:Ex; [|done]. cbn in H. injection H as <- <-.
  destruct (proj1 (proj2 (IH d)) _ _ _ Ex) as [Hr' Hg'].
  split; [shorten|]. intros [|g] Hlg; [lia|]. cbn [elements]. rewrite Hg by lia.
  cbn [mbind option_bind]. rewrite E0, H93, H44, Hg' by shorten. done.
Qed.

Lemma settled_members f d : all_settled f -> settled (fun f => members f d) 1 (S f).
Proof.
  intros IH l x r H.
  cbn [members] in H. destruct (skip_ws l) as [|q t] eqn:El; [done|].
  destruct (q =? 34) eqn:Hq; [|done].
  destruct (read_string t) as [[k r0]|] eqn:Es; cbn [mbind option_bind] in H; [|done].
  destruct (skip_ws r0) as [|c r1] eqn:E0; [done|]. destruct (c =? 58) eqn:H58; [|done].
  destruct (value f d r1) as [[y r2]|] eqn:Ev; cbn [mbind option_bind] in H; [|done].
  destruct (proj1 (IH d) _ _ _ Ev) as [Hr Hg].
  destruct (skip_ws r2) as [|c2 r3] eqn:E2; [done|].
  destruct (c2 =? 125) eqn:H125.
  { injection H as <- <-. split; [shorten|]. intros [|g] Hlg; [lia|]. cbn [members].
    rewrite El, Hq, Es. cbn [mbind option_bind]. rewrite E0, H58, Hg by shorten. cbn [mbind option_bind].
    by rewrite E2, H125. }
  destruct (c2 =? 44) eqn:H44; [|done].
  destruct (members f d r3) as [[xs r']|] eqn:Ex; [|done]. cbn in H. injection H as <- <-.
  destruct (proj2 (proj2 (IH d)) _ _ _ Ex) as [Hr' Hg'].
  split; [shorten|]. intros [|g] Hlg; [lia|]. cbn [members].
  rewrite El, Hq, Es. cbn [mbind option_bind]. rewrite E0, H58, Hg by shorten. cbn [mbind option_bind].
  rewrite E2, H125, H44, Hg' by shorten. done.
Qed.

Lemma fuel_enough f : all_settled f.
Proof.
  induction f as [|f IH]; intros d; [done|].
  auto using settled_value, settled_elements, settled_members.
Qed.

(** ** A trailing newline does not matter *)

Definition ext {A} (x : option (A * bytes)) : option (A * bytes) := '(a, r) ← x; Some (a, r ++ [10]).

Lemma skip_ws_newline l :
  skip_ws (l ++ [10]) = match skip_ws l with [] => [] | l' => l' ++ [10] end.
Proof. induction l as [|c t IH]; [done|]. cbn. by destruct (is_space c). Qed.

Lemma strip_newline w l : 10 ∉ w -> strip w (l ++ [10]) = (fun r => r ++ [10]) <$> strip w l.
Proof.
  revert l. induction w as [|c w IH]; intros l; [done|]. intros [Hc Hw]%not_elem_of_cons.
  destruct l as [|x l]; cbn [app strip]; [by rewrite (proj2 (Z.eqb_neq 10 c))|].
  destruct (x =? c); [by apply IH|done].
Qed.

Lemma hex4_newline l : hex4 (l ++ [10]) = ext (hex4 l).
Proof.
  destruct l as [|a [|b [|c [|d l]]]]; try done.
  - cbn. destruct (unhex a), (unhex b), (unhex c); done.
  - cbn. destruct (unhex a), (unhex b), (unhex c), (unhex d); done.
Qed.

Lemma getu4_newline l : getu4 (l ++ [10]) = ext (getu4 l).
Proof.
  unfold getu4. rewrite strip_newline by set_solver. destruct (strip _ l); [apply hex4_newline|done].
Qed.

Lemma escape_newline l : escape (l ++ [10]) = ext (escape l).
Proof.
  destruct l as [|c t]; [done|]. cbn [app escape]. destruct (c =? 117); [|by destruct (escaped c)].
  rewrite hex4_newline. destruct (hex4 t) as [[r t']|]; [|done]. cbn [ext mbind option_bind].
  destruct (Utf8.within _ _ _); [|done]. rewrite getu4_newline.
  destruct (getu4 t') as [[r1 t'']|]; [|done]. cbn [ext mbind option_bind].
  by destruct (surrogates r r1).
Qed.

Lemma decode_ok_newline c t : Utf8.decode_ok ((c :: t) ++ [10]) = Utf8.decode_ok (c :: t).
Proof.
  destruct t as [|b1 [|b2 [|b3 t]]]; cbn [app Utf8.decode_ok];
    change (Utf8.cont 10) with false; rewrite ?andb_false_r; try done.
Qed.

Lemma str_char_newline c t : str_char ((c :: t) ++ [10]) = ext (str_char (c :: t)).
Proof.
  cbn [app str_char]. destruct (c =? 92); [apply escape_newline|].
  destruct (c <? 32); [done|]. destruct (c <? 128); [done|].
  unfold Utf8.DecodeRune. change (c :: t ++ [10]) with ((c :: t) ++ [10]). rewrite decode_ok_newline.
  destruct (Utf8.decode_ok (c :: t)) as [[r n]|] eqn:E; [|done]. cbn [app].
  apply Utf8.decode_ok_size in E. unfold ext. cbn [mbind option_bind]. do 2 f_equal.
  change (c :: t ++ [10]) with ((c :: t) ++ [10]). by rewrite drop_app_le by apply E.
Qed.

Lemma str_newline f l : str f (l ++ [10]) = ext (str f l).
Proof.
  revert l. induction f as [|f IH]; intros l; [done|]. destruct l as [|c t]; [done|].
  cbn [app str]. destruct (c =? 34); [done|].
  change (c :: t ++ [10]) with ((c :: t) ++ [10]). rewrite str_char_newline.
  destruct (str_char (c :: t)) as [[b r]|]; [|done]. cbn [ext mbind option_bind]. rewrite IH.
  by destruct (str f r) as [[s r']|].
Qed.

Lemma str_more f l g : (length l <= f)%nat -> (f <= g)%nat -> str g l = str f l.
Proof.
  intros Hf Hg. destruct (str f l) as [[s r]|] eqn:E; [by apply str_fuel in E as [_ ->]; [|lia]|].
  destruct (str g l) as [[s r]|] eqn:E'; [|done]. apply str_fuel in E' as [_ H]. by rewrite H in E.
Qed.

Lemma read_string_newline l : read_string (l ++ [10]) = ext (read_string l).
Proof.
  unfold read_string. rewrite str_newline, length_app, (str_more (length l)) by (cbn; lia).
  by destruct (str (length l) l) as [[s r]|].
Qed.

Lemma digits_newline l : digits (l ++ [10]) = ((digits l).1, (digits l).2 ++ [10]).
Proof. apply digits_app; [by destruct (digits l)|by split_and!]. Qed.

Lemma digits1_newline l : digits1 (l ++ [10]) = ext (digits1 l).
Proof. unfold digits1. rewrite digits_newline. by destruct (digits l) as [[|d ds] r]. Qed.

Lemma number_newline l : number (l ++ [10]) = ext (number l).
Proof.
  unfold number. assert (Hs : sign_part (l ++ [10]) = ((sign_part l).1, (sign_part l).2 ++ [10])).
  { destruct l as [|c t]; [done|]. cbn. by destruct (c =? 45). }
  rewrite Hs. destruct (sign_part l) as [s l1]. cbn [fst snd].
  assert (Hi : forall l, int_part (l ++ [10]) = ext (int_part l)).
  { intros [|c t]; [done|]. cbn [app int_part]. destruct (c =? 48); [done|apply (digits1_newline (c :: t))]. }
  assert (Hf : forall l, frac_part (l ++ [10]) = ext (frac_part l)).
  { intros [|c t]; [done|]. cbn [app frac_part]. destruct (c =? 46); [|done].
    rewrite digits1_newline. by destruct (digits1 t) as [[]|]. }
  assert (He : forall l, exp_part (l ++ [10]) = ext (exp_part l)).
  { intros [|c t]; [done|]. cbn [app exp_part]. destruct (_ || _); [|done]. destruct t as [|x t]; [done|].
    cbn [app]. destruct (_ || _); [rewrite digits1_newline; by destruct (digits1 t) as [[]|]|].
    change (x :: t ++ [10]) with ((x :: t) ++ [10]). rewrite digits1_newline. by destruct (digits1 (x :: t)) as [[]|]. }
  rewrite Hi. destruct (int_part l1) as [[i l2]|]; [|done]. cbn [ext mbind option_bind].
  rewrite Hf. destruct (frac_part l2) as [[f l3]|]; [|done]. cbn [ext mbind option_bind].
  rewrite He. by destruct (exp_part l3) as [[e l4]|].
Qed.

Lemma values_newline f : forall d l,
  value f d (l ++ [10]) = ext (value f d l) /\ elements f d (l ++ [10]) = ext (elements f d l) /\
  members f d (l ++ [10]) = ext (members f d l).
Proof.
  induction f as [|f IH]; intros d l; [done|]. split_and!.
  - cbn [value]. rewrite skip_ws_newline. destruct (skip_ws l) as [|c t]; [done|]. cbn [app].
    destruct (c =? 34); [rewrite read_string_newline; by destruct (read_string t) as [[]|]|].
    destruct (c =? 91).
    { destruct d as [|d]; [done|]. rewrite skip_ws_newline. destruct (skip_ws t) as [|x r]; [done|].
      cbn [app]. destruct (x =? 93); [done|]. rewrite (proj1 (proj2 (IH d t))).
      by destruct (elements f d t) as [[]|]. }
    destruct (c =? 123).
    { destruct d as [|d]; [done|]. rewrite skip_ws_newline. destruct (skip_ws t) as [|x r]; [done|].
      cbn [app]. destruct (x =? 125); [done|]. rewrite (proj2 (proj2 (IH d t))).
      by destruct (members f d t) as [[]|]. }
    repeat match goal with |- context [if c =? ?k then _ else _] =>
      destruct (c =? k); [rewrite strip_newline by set_solver;
        match goal with |- context [strip ?w t] => by destruct (strip w t) end|] end.
    change (c :: t ++ [10]) with ((c :: t) ++ [10]). rewrite number_newline.
    by destruct (number (c :: t)) as [[]|].
  - cbn [elements]. rewrite (proj1 (IH d l)). destruct (value f d l) as [[x r]|]; [|done].
    cbn [ext mbind option_bind]. rewrite skip_ws_newline. destruct (skip_ws r) as [|c r1]; [done|]. cbn [app].
    destruct (c =? 93); [done|]. destruct (c =? 44); [|done]. rewrite (proj1 (proj2 (IH d r1))).
    by destruct (elements f d r1) as [[]|].
  - cbn [members]. rewrite skip_ws_newline. destruct (skip_ws l) as [|q t]; [done|]. cbn [app].
    destruct (q =? 34); [|done]. rewrite read_string_newline. destruct (read_string t) as [[k r]|]; [|done].
    cbn [ext mbind option_bind]. rewrite skip_ws_newline. destruct (skip_ws r) as [|c r1]; [done|]. cbn [app].
    destruct (c =? 58); [|done]. rewrite (proj1 (IH d r1)). destruct (value f d r1) as [[x r2]|]; [|done].
    cbn [ext mbind option_bind]. rewrite skip_ws_newline. destruct (skip_ws r2) as [|c2 r3]; [done|]. cbn [app].
    destruct (c2 =? 125); [done|]. destruct (c2 =? 44); [|done]. rewrite (proj2 (proj2 (IH d r3))).
    by destruct (members f d r3) as [[]|].
Qed.

Lemma value_more f g d l : (2 * length l <= f)%nat -> (f <= g)%nat -> value g d l = value f d l.
Proof.
  intros Hf Hg. destruct (value f d l) as [[j r]|] eqn:E.
  - destruct (proj1 (fuel_enough f d) l j r E) as [_ ->]; [done|lia].
  - destruct (value g d l) as [[j r]|] eqn:E'; [|done].
    destruct (proj1 (fuel_enough g d) l j r E') as [_ H]. rewrite H in E; [done|lia].
Qed.

(** The newline an encoder writes behind a value changes nothing. *)
Lemma Unmarshal_newline s : Unmarshal (s +:+ String (ascii_of_byte 10) "") = Unmarshal s.
Proof.
  unfold Unmarshal. rewrite bytes_of_app. change (bytes_of (String (ascii_of_byte 10) "")) with [10].
  unfold parse. rewrite (proj1 (values_newline _ _ _)).
  rewrite (value_more (2 * length (bytes_of s))) by (rewrite ?length_app; cbn; lia).
  destruct (value _ _ (bytes_of s)) as [[j r]|]; [|done]. cbn [ext mbind option_bind].
  rewrite skip_ws_newline. by destruct (skip_ws r).
Qed.

Lemma json_ok_more d j : json_ok d j = true -> forall d', (d <= d')%nat -> json_ok d' j = true.
Proof.
  revert d. induction j as [|b|t|s|items IH|ms IH] using json_nested_ind; intros d Hj d' Hd; try done.
  - cbn [json_ok] in *. destruct d as [|d]; [done|]. destruct d' as [|d']; [lia|].
    apply forallb_forall. intros x Hx. pose proof (proj1 (forallb_forall _ _) Hj x Hx) as Hx'.
    apply (proj1 (list.Forall_forall _ _) IH x) with d; [by apply list_elem_of_In|done|lia].
  - cbn [json_ok] in *. destruct d as [|d]; [done|]. destruct d' as [|d']; [lia|].
    apply forallb_forall. intros kv Hx. pose proof (proj1 (forallb_forall _ _) Hj kv Hx) as [Hk Hx']%andb_true_iff.
    apply andb_true_iff. split; [done|].
    apply (proj1 (list.Forall_forall _ _) IH kv) with d; [by apply list_elem_of_In|done|lia].
Qed.

(** An object is printable when its members are. *)
Definition member_ok (d : nat) (kv : string * json) : bool := Utf8.ValidString kv.1 && json_ok d kv.2.

Lemma json_ok_object d ms : Forall (fun kv => member_ok d kv = true) ms -> json_ok (S d) (JObject ms) = true.
Proof. intros H. cbn. apply forallb_forall. intros kv Hkv%list_elem_of_In. by apply (proj1 (list.Forall_forall _ _) H). Qed.

Lemma json_ok_array d items : Forall (fun j => json_ok d j = true) items -> json_ok (S d) (JArray items) = true.
Proof. intros H. cbn. apply forallb_forall. intros j Hj%list_elem_of_In. by apply (proj1 (list.Forall_forall _ _) H). Qed.

End Syntax.
