(* ===== verification/Wire.v ===== *)
(** * Wire: the JSON form of requests, responses and stream chunks

    [internal/provider/types.go].  Five structs keep the members they do not
    model in an [Extra] map and write them back on output; their hand-written
    [UnmarshalJSON]/[MarshalJSON] pairs follow one pattern, which is the class
    [Struct] and the two functions over it, instantiated once per struct.  The
    other structs use the plain codec.  A nil slice and an empty one are the
    same list; strings are written with invalid UTF-8 replaced, as
    [json.Marshal] does. *)

From Stdlib Require Import Ascii.
From S2P Require Import Prelude GoStd Float64 Errors Types Encoding JsonSyntax.
From stdpp Require Import sorting.
Import Json.
Local Open Scope Z_scope.

(** The text form of a [float64]: [strconv.ParseFloat] and the shortest
    decimal that reads back as the same number. *)
Class FloatText := {
  ParseFloat : string -> option float64;
  FormatFloat : float64 -> string
}.

Definition finite (f : float64) : bool :=
  match f with SpecFloat.S754_infinity _ | SpecFloat.S754_nan => false | _ => true end.

Class FloatTextLaws `{!FloatText} : Prop := {
  Parse_Format f : finite f = true -> ParseFloat (FormatFloat f) = Some f;
  Format_number f : finite f = true -> Syntax.number_text (FormatFloat f) = true
}.

(** ** Structs with an [Extra] map *)

Class Struct (A : Type) := {
  zero : A;
  knownKeys : list string;
  fields : list (field A);
  emit : A -> option members;
  Extra : A -> gmap string json;
  with_Extra : gmap string json -> A -> A
}.

Section Codec.
Context {A : Type} `{!Struct A}.

(** The shared body of the five [UnmarshalJSON] methods. *)
Definition UnmarshalJSON (j : json) : option A :=
  a ← set_struct fields j zero;
  raw ← unmarshal_raw j;
  let raw := foldr delete raw knownKeys in
  Some (if bool_decide (raw = ∅) then a else with_Extra raw a).

(** The shared body of the five [MarshalJSON] methods. *)
Definition MarshalJSON (a : A) : option json :=
  base ← emit a;
  if bool_decide (Extra a = ∅) then Some (JObject base)
  else Some (of_map (filter (fun kv => kv.1 ∉ knownKeys) (Extra a) ∪ raw_of base)).

(** Decoding an element or a member of this type calls [UnmarshalJSON], which
    overwrites the target. *)
Definition set_Unmarshal : setter A := fun j _ => UnmarshalJSON j.
End Codec.
Arguments MarshalJSON : simpl never.
Arguments UnmarshalJSON : simpl never.

(** What the codecs need of a struct description; [wf] is what the alias'
    plain round trip needs of a value. *)
Class StructLaws (A : Type) `{!Struct A} (wf : A -> Prop) : Prop := {
  zero_Extra : Extra (A := A) zero = ∅;
  with_Extra_Extra (m : gmap string json) (a : A) : Extra (with_Extra m a) = m;
  with_Extra_id (a : A) : with_Extra (Extra a) a = a;
  with_Extra_twice m m' (a : A) : with_Extra m (with_Extra m' a) = with_Extra m a;
  fields_known : map fst (fields (A := A)) = knownKeys (A := A);
  fields_Extra : Forall (fun f : field A => forall v a b, f.2 v a = Some b -> Extra b = Extra a)
                   (fields (A := A));
  fields_independent : independent (fields (A := A));
  known_distinct : NoDup (map foldName (knownKeys (A := A)));
  emit_keys (a : A) ms : emit a = Some ms -> ms.*1 `sublist_of` knownKeys (A := A);
  emit_store (a : A) : wf a ->
    exists ms, emit a = Some ms /\ store fields ms zero = Some (with_Extra ∅ a)
}.

Section CodecFacts.
Context {A : Type} `{!Struct A} {wf : A -> Prop} `{!StructLaws A wf}.

Lemma store_Extra ms (a b : A) : store fields ms a = Some b -> Extra b = Extra a.
Proof.
  revert a. induction ms as [|[k v] ms IH]; intros a; cbn; [by intros [= <-]|].
  destruct (find_field fields k) as [set|] eqn:E; cbn; [|apply IH].
  destruct (set v a) as [c|] eqn:Ev; cbn; [|done]. intros Hb. rewrite (IH _ Hb).
  apply find_field_index in E as (i & n & Hi & _).
  pose proof (fields_Extra (A := A)) as HF. rewrite Forall_lookup in HF.
  exact (HF i _ Hi v a c Ev).
Qed.

Lemma delete_known_lookup (ks : list string) (m : gmap string json) k :
  foldr delete m ks !! k = if bool_decide (k ∈ ks) then None else m !! k.
Proof.
  induction ks as [|x ks IH]; cbn [foldr].
  - rewrite bool_decide_false by set_solver. done.
  - destruct (decide (k = x)) as [->|Hne].
    + rewrite lookup_delete_eq, bool_decide_true by set_solver. done.
    + rewrite lookup_delete_ne, IH by done. do 2 case_bool_decide; set_solver.
Qed.

Lemma UnmarshalJSON_Extra j (a : A) :
  UnmarshalJSON j = Some a ->
  exists raw, unmarshal_raw j = Some raw /\ Extra a = foldr delete raw knownKeys.
Proof.
  unfold UnmarshalJSON. destruct (set_struct fields j zero) as [b|] eqn:E; cbn; [|done].
  destruct (unmarshal_raw j) as [raw|]; cbn; [|done].
  assert (HE : Extra b = ∅).
  { destruct j; cbn in E; simplify_eq; [apply zero_Extra|].
    by rewrite (store_Extra _ _ _ E), zero_Extra. }
  case_bool_decide as Hr; intros [= <-]; exists raw; (split; [done|]).
  - by rewrite Hr.
  - apply with_Extra_Extra.
Qed.

Lemma raw_emit_unknown (a : A) ms k :
  emit a = Some ms -> k ∉ knownKeys (A := A) -> raw_of ms !! k = None.
Proof.
  intros Hm%emit_keys Hk. apply raw_of_lookup_None. intros Hin. apply Hk.
  by eapply elem_of_sublist.
Qed.

(** Members the struct does not model survive decoding and encoding. *)
Lemma codec_passthrough j (a : A) j' k :
  UnmarshalJSON j = Some a -> MarshalJSON a = Some j' -> k ∉ knownKeys (A := A) ->
  member j' k = member j k.
Proof.
  intros Hu Hm Hk. destruct (UnmarshalJSON_Extra j a Hu) as (raw & Hr & HE).
  unfold member at 2. rewrite Hr. cbn.
  assert (HEk : Extra a !! k = raw !! k).
  { rewrite HE, delete_known_lookup. by rewrite bool_decide_false. }
  unfold MarshalJSON in Hm. destruct (emit a) as [base|] eqn:Eb; cbn in Hm; [|done].
  case_bool_decide as H0; simplify_eq.
  - cbn. rewrite (raw_emit_unknown a) by done. by rewrite <- HEk, H0.
  - rewrite member_of_map, lookup_union, map_lookup_filter, HEk, (raw_emit_unknown a) by done.
    destruct (raw !! k); cbn; [|done]. by rewrite option_guard_True by done.
Qed.

Lemma find_field_None (fs : list (field A)) k :
  find_field fs k = None <-> foldName k ∉ map (fun f => foldName f.1) fs.
Proof.
  induction fs as [|[n set] fs IH]; cbn; [set_solver|]. case_bool_decide as E; [set_solver|].
  rewrite IH. set_solver.
Qed.

Lemma matches_known kv :
  matches (fields (A := A)) kv = bool_decide (foldName kv.1 ∈ map foldName (knownKeys (A := A))).
Proof.
  assert (Hk : map (fun f : field A => foldName f.1) fields = map foldName knownKeys)
    by by rewrite <- fields_known, map_map.
  unfold matches. destruct (find_field fields kv.1) eqn:E.
  - rewrite bool_decide_true by done. symmetry. apply bool_decide_eq_true, dec_stable.
    intros Hn. rewrite <- Hk in Hn. apply find_field_None in Hn. by rewrite Hn in E.
  - apply find_field_None in E. rewrite Hk in E. by rewrite !bool_decide_false by (done || by intros []).
Qed.

(** No member of [Extra] would be stored in a field of the struct. *)
Definition Extra_clean (a : A) : Prop :=
  forall k v, Extra a !! k = Some v -> foldName k ∉ map foldName (knownKeys (A := A)).

Lemma emit_NoDup (a : A) ms : emit a = Some ms -> NoDup ms.*1.
Proof.
  intros Hs%emit_keys. pose proof (known_distinct (A := A)) as Hnd.
  eapply sublist_NoDup; [|exact Hs]. by apply NoDup_fmap_1 in Hnd.
Qed.

Lemma emit_NoDup_fold (a : A) ms :
  emit a = Some ms -> NoDup (map (fun kv : string * json => foldName kv.1) ms).
Proof.
  intros Hs%emit_keys. rewrite <- (map_map fst foldName).
  eapply sublist_NoDup; [apply (known_distinct (A := A))|].
  by apply (fmap_sublist foldName).
Qed.

(** The members of the merged map that belong to fields are the struct's. *)
Lemma merged_fields (a : A) base :
  emit a = Some base -> Extra_clean a ->
  List.filter (matches fields)
    (merge_sort key_le (map_to_list (filter (fun kv => kv.1 ∉ knownKeys (A := A)) (Extra a) ∪ raw_of base)))
  ≡ₚ base.
Proof.
  intros Hb Hc. set (m := _ ∪ _).
  pose proof (merge_sort_Permutation key_le (map_to_list m)) as HP.
  apply NoDup_Permutation.
  - apply NoDup_ListNoDup, List.NoDup_filter, NoDup_ListNoDup. rewrite HP. apply NoDup_map_to_list.
  - by eapply NoDup_fmap_1, emit_NoDup.
  - intros [k v]. rewrite list_elem_of_In, filter_In, <- list_elem_of_In, HP, elem_of_map_to_list.
    rewrite matches_known, bool_decide_eq_true. cbn [fst]. unfold m. split.
    + intros [Hl Hk]. rewrite lookup_union in Hl.
      destruct (filter _ (Extra a) !! k) as [w|] eqn:Ef.
      * apply map_lookup_filter_Some in Ef as [Ew _]. by destruct (Hc k w Ew).
      * rewrite (left_id_L None _) in Hl.
        assert (Hin : k ∈ base.*1).
        { apply dec_stable. intros Hnk. apply raw_of_lookup_None in Hnk. by rewrite Hnk in Hl. }
        apply list_elem_of_fmap in Hin as ([k' v'] & -> & Hin). cbn [fst] in Hl.
        rewrite (raw_of_lookup _ _ _ (emit_NoDup a _ Hb) Hin) in Hl. by simplify_eq.
    + intros Hin. assert (Hk : k ∈ knownKeys (A := A)).
      { eapply elem_of_sublist; [|by apply emit_keys with a]. apply list_elem_of_fmap. by exists (k, v). }
      split; [|apply list_elem_of_fmap; by exists k].
      rewrite lookup_union_r.
      * by apply raw_of_lookup; [by eapply emit_NoDup|].
      * apply map_lookup_filter_None. right. cbn. naive_solver.
Qed.

(** Encoding then decoding is the identity. *)
Lemma codec_roundtrip (a : A) :
  wf a -> Extra_clean a -> exists j, MarshalJSON a = Some j /\ UnmarshalJSON j = Some a.
Proof.
  intros Hwf Hc. destruct (emit_store a Hwf) as (base & Hb & Hs).
  assert (Hdel : foldr delete (raw_of base) (knownKeys (A := A)) = ∅).
  { apply map_empty. intros k. rewrite delete_known_lookup. case_bool_decide; [done|].
    by apply (raw_emit_unknown a). }
  unfold MarshalJSON. rewrite Hb. cbn [mbind option_bind]. case_bool_decide as H0.
  - eexists. split; [done|]. unfold UnmarshalJSON. cbn [set_struct unmarshal_raw mbind option_bind].
    rewrite Hs. cbn [mbind option_bind]. rewrite bool_decide_true by done.
    by rewrite <- H0, with_Extra_id.
  - eexists. split; [done|]. unfold UnmarshalJSON, of_map.
    cbn [set_struct unmarshal_raw mbind option_bind].
    rewrite store_filter, (store_Permutation _ _ base), Hs; cycle 1.
    + apply fields_independent.
    + pose proof (merged_fields a base Hb Hc) as Hp.
      rewrite Hp. by eapply emit_NoDup_fold.
    + by apply merged_fields.
    + cbn [mbind option_bind]. rewrite (raw_of_map_to_list _ _ (merge_sort_Permutation _ _)).
      assert (HE : foldr delete (filter (fun kv => kv.1 ∉ knownKeys (A := A)) (Extra a) ∪ raw_of base)
                     (knownKeys (A := A)) = Extra a).
      { apply map_eq. intros k. rewrite delete_known_lookup. case_bool_decide as Hk.
        - destruct (Extra a !! k) as [v|] eqn:Ev; [|done].
          destruct (Hc k v Ev). apply list_elem_of_fmap. by exists k.
        - rewrite lookup_union, map_lookup_filter, (raw_emit_unknown a) by done.
          destruct (Extra a !! k); cbn; [|done]. by rewrite option_guard_True by done. }
      rewrite HE, bool_decide_false by done. by rewrite with_Extra_twice, with_Extra_id.
Qed.
End CodecFacts.

(** ** The structs *)

Definition of_string (s : string) : json := JString (Utf8.string_of_runes (Utf8.runes s)).
Definition valid_string (s : string) : Prop := Utf8.ValidString s = true.

Lemma set_of_string s a : valid_string s -> set_string (of_string s) a = Some s.
Proof. intros Hs. unfold of_string. by rewrite Utf8.string_of_runes_runes. Qed.

Ltac solve_independent :=
  intros i j f g Hne Hi Hj;
  repeat (destruct i as [|i]; [|try done]); repeat (destruct j as [|j]; [|try done]);
  try done; cbn in Hi, Hj; simplify_eq; cbn; by apply via_commute.

Ltac solve_fields_Extra :=
  repeat constructor; intros v a b; unfold via; cbn [snd];
  match goal with |- _ <$> ?x = _ -> _ => destruct x; cbn; by intros [= <-] end.

Lemma store_via {A B} (fs : list (field A)) k v ms a (get : A -> B) put set b :
  find_field fs k = Some (via get put set) -> set v (get a) = Some b ->
  store fs ((k, v) :: ms) a = store fs ms (put b a).
Proof. intros Hf Hs. cbn. rewrite Hf. cbn. unfold via. by rewrite Hs. Qed.

(** Marshalling and unmarshalling a slice of structs. *)
Lemma slice_roundtrip {A} (wf : A -> Prop) (marshal : A -> option json) (z : A) (set : setter A) xs :
  (forall x, wf x -> exists j, marshal x = Some j /\ set j z = Some x) -> Forall wf xs ->
  exists js, mapM marshal xs = Some js /\ forall old, set_slice z set (JArray js) old = Some xs.
Proof.
  intros Hrt. induction 1 as [|x xs Hx _ (js & Hjs & IH)]; [by exists []|].
  destruct (Hrt x Hx) as (j & Hj & Hu). exists (j :: js). split.
  - cbn. by rewrite Hj; cbn; rewrite Hjs.
  - intros old. specialize (IH old). cbn in IH |- *. rewrite Hu. cbn. by rewrite IH.
Qed.

(** Storing the members a struct writes, one after the other. *)
Ltac store_all solve_value :=
  repeat (erewrite store_via; [|reflexivity|solve_value]); cbn [store].

Module Message.

Definition put_Role x m := Build_Message x m.(msg_Content) m.(msg_Name) m.(msg_ToolCallID) m.(msg_Extra).
Definition put_Content x m := Build_Message m.(msg_Role) x m.(msg_Name) m.(msg_ToolCallID) m.(msg_Extra).
Definition put_Name x m := Build_Message m.(msg_Role) m.(msg_Content) x m.(msg_ToolCallID) m.(msg_Extra).
Definition put_ToolCallID x m := Build_Message m.(msg_Role) m.(msg_Content) m.(msg_Name) x m.(msg_Extra).
Definition put_Extra x m := Build_Message m.(msg_Role) m.(msg_Content) m.(msg_Name) m.(msg_ToolCallID) x.

Definition messageKnownKeys : list string := ["role"; "content"; "name"; "tool_call_id"].

Definition messageAlias : list (field Message) :=
  [("role", via msg_Role put_Role set_string);
   ("content", via msg_Content put_Content set_string);
   ("name", via msg_Name put_Name set_string);
   ("tool_call_id", via msg_ToolCallID put_ToolCallID set_string)].

Definition members (m : Message) : Json.members :=
  [("role", of_string m.(msg_Role)); ("content", of_string m.(msg_Content))]
  ++ omit (bool_decide (m.(msg_Name) = "")) "name" (of_string m.(msg_Name))
  ++ omit (bool_decide (m.(msg_ToolCallID) = "")) "tool_call_id" (of_string m.(msg_ToolCallID)).

#[global] Instance message_struct : Struct Message := {|
  zero := Build_Message "" "" "" "" ∅;
  knownKeys := messageKnownKeys;
  fields := messageAlias;
  emit m := Some (members m);
  Extra := msg_Extra;
  with_Extra := put_Extra
|}.

Definition wf (m : Message) : Prop :=
  valid_string m.(msg_Role) /\ valid_string m.(msg_Content) /\ valid_string m.(msg_Name) /\
  valid_string m.(msg_ToolCallID).

#[global] Instance message_laws : StructLaws Message wf.
Proof.
  split; try done.
  - by intros [].
  - solve_fields_Extra.
  - solve_independent.
  - repeat constructor; vm_compute; set_solver.
  - intros a ms [= <-]. unfold members, omit. do 2 case_bool_decide; cbn; repeat constructor.
  - intros m (H1 & H2 & H3 & H4). eexists. split; [done|]. unfold members, omit.
    do 2 case_bool_decide; cbn [app]; store_all ltac:(by apply set_of_string);
      destruct m; cbn in *; by subst.
Qed.
End Message.

Module Usage.

Definition put_PromptTokens x u := Build_Usage x u.(use_CompletionTokens) u.(use_TotalTokens) u.(use_Extra).
Definition put_CompletionTokens x u := Build_Usage u.(use_PromptTokens) x u.(use_TotalTokens) u.(use_Extra).
Definition put_TotalTokens x u := Build_Usage u.(use_PromptTokens) u.(use_CompletionTokens) x u.(use_Extra).
Definition put_Extra x u := Build_Usage u.(use_PromptTokens) u.(use_CompletionTokens) u.(use_TotalTokens) x.

Definition usageKnownKeys : list string := ["prompt_tokens"; "completion_tokens"; "total_tokens"].

Definition usageAlias : list (field Usage) :=
  [("prompt_tokens", via use_PromptTokens put_PromptTokens set_int);
   ("completion_tokens", via use_CompletionTokens put_CompletionTokens set_int);
   ("total_tokens", via use_TotalTokens put_TotalTokens set_int)].

Definition members (u : Usage) : Json.members :=
  [("prompt_tokens", of_int u.(use_PromptTokens));
   ("completion_tokens", of_int u.(use_CompletionTokens));
   ("total_tokens", of_int u.(use_TotalTokens))].

#[global] Instance usage_struct : Struct Usage := {|
  zero := Build_Usage 0 0 0 ∅;
  knownKeys := usageKnownKeys;
  fields := usageAlias;
  emit u := Some (members u);
  Extra := use_Extra;
  with_Extra := put_Extra
|}.

Definition wf (u : Usage) : Prop :=
  in_int64 u.(use_PromptTokens) /\ in_int64 u.(use_CompletionTokens) /\ in_int64 u.(use_TotalTokens).

#[global] Instance usage_laws : StructLaws Usage wf.
Proof.
  split; try done.
  - by intros [].
  - solve_fields_Extra.
  - solve_independent.
  - repeat constructor; vm_compute; set_solver.
  - intros a ms [= <-]. cbn. repeat constructor.
  - intros u (H1 & H2 & H3). eexists. split; [done|]. unfold members.
    store_all ltac:(by apply set_int_ok). by destruct u.
Qed.
End Usage.

Module MessageDelta.

Definition put_Role x d := Build_MessageDelta x d.(del_Content) d.(del_Extra).
Definition put_Content x d := Build_MessageDelta d.(del_Role) x d.(del_Extra).
Definition put_Extra x d := Build_MessageDelta d.(del_Role) d.(del_Content) x.

Definition messageDeltaKnownKeys : list string := ["role"; "content"].

Definition messageDeltaAlias : list (field MessageDelta) :=
  [("role", via del_Role put_Role set_string);
   ("content", via del_Content put_Content set_string)].

Definition members (d : MessageDelta) : Json.members :=
  omit (bool_decide (d.(del_Role) = "")) "role" (of_string d.(del_Role))
  ++ omit (bool_decide (d.(del_Content) = "")) "content" (of_string d.(del_Content)).

#[global] Instance delta_struct : Struct MessageDelta := {|
  zero := Build_MessageDelta "" "" ∅;
  knownKeys := messageDeltaKnownKeys;
  fields := messageDeltaAlias;
  emit d := Some (members d);
  Extra := del_Extra;
  with_Extra := put_Extra
|}.

Definition wf (d : MessageDelta) : Prop := valid_string d.(del_Role) /\ valid_string d.(del_Content).

#[global] Instance delta_laws : StructLaws MessageDelta wf.
Proof.
  split; try done.
  - by intros [].
  - solve_fields_Extra.
  - solve_independent.
  - repeat constructor; vm_compute; set_solver.
  - intros a ms [= <-]. unfold members, omit. do 2 case_bool_decide; cbn; repeat constructor.
  - intros d (H1 & H2). eexists. split; [done|]. unfold members, omit.
    do 2 case_bool_decide; cbn [app]; store_all ltac:(by apply set_of_string);
      destruct d; cbn in *; by subst.
Qed.
End MessageDelta.

Module Choice.

Definition put_Index x c := Build_Choice x c.(cho_Message) c.(cho_FinishReason) c.(cho_Extra).
Definition put_Message x c := Build_Choice c.(cho_Index) x c.(cho_FinishReason) c.(cho_Extra).
Definition put_FinishReason x c := Build_Choice c.(cho_Index) c.(cho_Message) x c.(cho_Extra).
Definition put_Extra x c := Build_Choice c.(cho_Index) c.(cho_Message) c.(cho_FinishReason) x.

Definition choiceKnownKeys : list string := ["index"; "message"; "finish_reason"].

Definition choiceAlias : list (field Choice) :=
  [("index", via cho_Index put_Index set_int);
   ("message", via cho_Message put_Message set_Unmarshal);
   ("finish_reason", via cho_FinishReason put_FinishReason set_string)].

Definition members (c : Choice) : option Json.members :=
  m ← MarshalJSON c.(cho_Message);
  Some ([("index", of_int c.(cho_Index)); ("message", m)]
        ++ omit (bool_decide (c.(cho_FinishReason) = "")) "finish_reason" (of_string c.(cho_FinishReason))).

#[global] Instance choice_struct : Struct Choice := {|
  zero := Build_Choice 0 zero "" ∅;
  knownKeys := choiceKnownKeys;
  fields := choiceAlias;
  emit := members;
  Extra := cho_Extra;
  with_Extra := put_Extra
|}.

Definition wf (c : Choice) : Prop :=
  in_int64 c.(cho_Index) /\ valid_string c.(cho_FinishReason) /\
  Message.wf c.(cho_Message) /\ Extra_clean c.(cho_Message).

#[global] Instance choice_laws : StructLaws Choice wf.
Proof.
  split; try done.
  - by intros [].
  - solve_fields_Extra.
  - solve_independent.
  - repeat constructor; vm_compute; set_solver.
  - intros a ms Hm. cbn in Hm. unfold members in Hm. apply bind_Some in Hm as (m & _ & [= <-]).
    unfold omit. case_bool_decide; cbn; repeat constructor.
  - intros c (H1 & H2 & H3 & H4). cbn [emit choice_struct]. unfold members.
    destruct (codec_roundtrip c.(cho_Message) H3 H4) as (j & -> & Hj).
    eexists. split; [done|]. unfold omit.
    case_bool_decide; cbn [app];
      store_all ltac:(first [by apply set_int_ok | by apply set_of_string | exact Hj]);
      destruct c; cbn in *; by subst.
Qed.
End Choice.

Module ChatRequest.
Section Codec.
Context `{!FloatText}.

Definition put_Model x r := Build_ChatRequest x r.(req_Messages) r.(req_MaxTokens) r.(req_Temperature)
  r.(req_TopP) r.(req_N) r.(req_Stream) r.(req_Stop) r.(req_User) r.(req_Extra).
Definition put_Messages x r := Build_ChatRequest r.(req_Model) x r.(req_MaxTokens) r.(req_Temperature)
  r.(req_TopP) r.(req_N) r.(req_Stream) r.(req_Stop) r.(req_User) r.(req_Extra).
Definition put_MaxTokens x r := Build_ChatRequest r.(req_Model) r.(req_Messages) x r.(req_Temperature)
  r.(req_TopP) r.(req_N) r.(req_Stream) r.(req_Stop) r.(req_User) r.(req_Extra).
Definition put_Temperature x r := Build_ChatRequest r.(req_Model) r.(req_Messages) r.(req_MaxTokens) x
  r.(req_TopP) r.(req_N) r.(req_Stream) r.(req_Stop) r.(req_User) r.(req_Extra).
Definition put_TopP x r := Build_ChatRequest r.(req_Model) r.(req_Messages) r.(req_MaxTokens)
  r.(req_Temperature) x r.(req_N) r.(req_Stream) r.(req_Stop) r.(req_User) r.(req_Extra).
Definition put_N x r := Build_ChatRequest r.(req_Model) r.(req_Messages) r.(req_MaxTokens)
  r.(req_Temperature) r.(req_TopP) x r.(req_Stream) r.(req_Stop) r.(req_User) r.(req_Extra).
Definition put_Stream x r := Build_ChatRequest r.(req_Model) r.(req_Messages) r.(req_MaxTokens)
  r.(req_Temperature) r.(req_TopP) r.(req_N) x r.(req_Stop) r.(req_User) r.(req_Extra).
Definition put_Stop x r := Build_ChatRequest r.(req_Model) r.(req_Messages) r.(req_MaxTokens)
  r.(req_Temperature) r.(req_TopP) r.(req_N) r.(req_Stream) x r.(req_User) r.(req_Extra).
Definition put_User x r := Build_ChatRequest r.(req_Model) r.(req_Messages) r.(req_MaxTokens)
  r.(req_Temperature) r.(req_TopP) r.(req_N) r.(req_Stream) r.(req_Stop) x r.(req_Extra).
Definition put_Extra x r := Build_ChatRequest r.(req_Model) r.(req_Messages) r.(req_MaxTokens)
  r.(req_Temperature) r.(req_TopP) r.(req_N) r.(req_Stream) r.(req_Stop) r.(req_User) x.

Definition chatRequestKnownKeys : list string :=
  ["model"; "messages"; "max_tokens"; "temperature"; "top_p"; "n"; "stream"; "stop"; "user"].

Definition chatRequestAlias : list (field ChatRequest) :=
  [("model", via req_Model put_Model set_string);
   ("messages", via req_Messages put_Messages (set_slice zero set_Unmarshal));
   ("max_tokens", via req_MaxTokens put_MaxTokens set_int);
   ("temperature", via req_Temperature put_Temperature (set_ptr f_zero (set_float ParseFloat)));
   ("top_p", via req_TopP put_TopP (set_ptr f_zero (set_float ParseFloat)));
   ("n", via req_N put_N set_int);
   ("stream", via req_Stream put_Stream set_bool);
   ("stop", via req_Stop put_Stop (set_slice "" set_string));
   ("user", via req_User put_User set_string)].

(** A float member; [json.Marshal] refuses NaN and the infinities. *)
Definition float_member (k : string) (f : option float64) : option Json.members :=
  match f with
  | None => Some []
  | Some f => if finite f then Some [(k, JNumber (FormatFloat f))] else None
  end.

Definition members (r : ChatRequest) : option Json.members :=
  messages ← mapM MarshalJSON r.(req_Messages);
  temperature ← float_member "temperature" r.(req_Temperature);
  top_p ← float_member "top_p" r.(req_TopP);
  Some ([("model", of_string r.(req_Model)); ("messages", JArray messages)]
        ++ omit (bool_decide (r.(req_MaxTokens) = 0)) "max_tokens" (of_int r.(req_MaxTokens))
        ++ temperature ++ top_p
        ++ omit (bool_decide (r.(req_N) = 0)) "n" (of_int r.(req_N))
        ++ omit (negb r.(req_Stream)) "stream" (JBool r.(req_Stream))
        ++ omit (bool_decide (r.(req_Stop) = [])) "stop" (JArray (map of_string r.(req_Stop)))
        ++ omit (bool_decide (r.(req_User) = "")) "user" (of_string r.(req_User))).

#[global] Instance request_struct : Struct ChatRequest := {|
  zero := Build_ChatRequest "" [] 0 None None 0 false [] "" ∅;
  knownKeys := chatRequestKnownKeys;
  fields := chatRequestAlias;
  emit := members;
  Extra := req_Extra;
  with_Extra := put_Extra
|}.

Definition finite_opt (f : option float64) : Prop :=
  match f with Some f => finite f = true | None => True end.

Definition wf (r : ChatRequest) : Prop :=
  valid_string r.(req_Model) /\ valid_string r.(req_User) /\ Forall valid_string r.(req_Stop) /\
  in_int64 r.(req_MaxTokens) /\ in_int64 r.(req_N) /\
  finite_opt r.(req_Temperature) /\ finite_opt r.(req_TopP) /\
  Forall (fun m => Message.wf m /\ Extra_clean m) r.(req_Messages).

Lemma messages_roundtrip ms :
  Forall (fun m => Message.wf m /\ Extra_clean m) ms ->
  exists js, mapM MarshalJSON ms = Some js /\
    forall old, set_slice zero set_Unmarshal (JArray js) old = Some ms.
Proof. apply slice_roundtrip. intros m [Hw Hc]. by apply codec_roundtrip. Qed.

Lemma stop_roundtrip ss old :
  Forall valid_string ss -> set_slice "" set_string (JArray (map of_string ss)) old = Some ss.
Proof.
  intros Hs. apply set_slice_ok. eapply list.Forall_impl; [exact Hs|].
  intros s. apply set_of_string.
Qed.

Context `{!FloatTextLaws}.

Lemma float_roundtrip f old :
  finite f = true ->
  set_ptr f_zero (set_float ParseFloat) (JNumber (FormatFloat f)) old = Some (Some f).
Proof. intros Hf. cbn. by rewrite Parse_Format. Qed.

#[global] Instance request_laws : StructLaws ChatRequest wf.
Proof.
  split; try done.
  - by intros [].
  - solve_fields_Extra.
  - solve_independent.
  - repeat constructor; vm_compute; set_solver.
  - intros a ms Hm. change (members a = Some ms) in Hm. unfold members in Hm.
    apply bind_Some in Hm as (m & _ & (t & Ht & (p & Hp & [= <-])%bind_Some)%bind_Some).
    assert (Hopt : forall k f l, float_member k f = Some l -> l.*1 `sublist_of` [k]).
    { intros k [f|] l; cbn; [destruct (finite f)|]; intros [= <-]; repeat constructor. }
    assert (Homit : forall b k v, (omit b k v).*1 `sublist_of` [k])
      by (intros [] k v; repeat constructor).
    rewrite !fmap_cons, !fmap_app. do 2 apply sublist_skip.
    change (?x `sublist_of` _) with (x `sublist_of` ["max_tokens"] ++ ["temperature"] ++ ["top_p"]
      ++ ["n"] ++ ["stream"] ++ ["stop"] ++ ["user"]).
    repeat apply sublist_app; eauto.
  - intros r (H1 & H2 & H3 & H4 & H5 & H6 & H7 & H8). cbn [emit request_struct]. unfold members.
    destruct (messages_roundtrip _ H8) as (js & -> & Hj). cbn [mbind option_bind].
    destruct r as [model messages max temp topp n stream stop user extra]; cbn in *.
    unfold omit. destruct temp as [temp|], topp as [topp|]; cbn in H6, H7; unfold float_member;
      rewrite ?H6, ?H7; cbn [mbind option_bind]; eexists; (split; [done|]);
      destruct stream; repeat case_bool_decide; cbn [app negb];
      store_all ltac:(first [by apply set_int_ok | by apply set_of_string | apply Hj | done
                            | by apply stop_roundtrip | by apply float_roundtrip ]);
      by subst.
Qed.
End Codec.
End ChatRequest.

(** ** Structs with the plain codec *)

Module StreamChoice.

Definition put_Index x c := Build_StreamChoice x c.(sch_Delta) c.(sch_FinishReason).
Definition put_Delta x c := Build_StreamChoice c.(sch_Index) x c.(sch_FinishReason).
Definition put_FinishReason x c := Build_StreamChoice c.(sch_Index) c.(sch_Delta) x.

Definition zero : StreamChoice := Build_StreamChoice 0 Wire.zero "".

Definition fields : list (field StreamChoice) :=
  [("index", via sch_Index put_Index set_int);
   ("delta", via sch_Delta put_Delta set_Unmarshal);
   ("finish_reason", via sch_FinishReason put_FinishReason set_string)].

Definition marshal (c : StreamChoice) : option json :=
  d ← MarshalJSON c.(sch_Delta);
  Some (JObject ([("index", of_int c.(sch_Index)); ("delta", d)]
        ++ omit (bool_decide (c.(sch_FinishReason) = "")) "finish_reason" (of_string c.(sch_FinishReason)))).

Definition wf (c : StreamChoice) : Prop :=
  in_int64 c.(sch_Index) /\ valid_string c.(sch_FinishReason) /\
  MessageDelta.wf c.(sch_Delta) /\ Extra_clean c.(sch_Delta).

Lemma choice_roundtrip c : wf c -> exists j, marshal c = Some j /\ set_struct fields j zero = Some c.
Proof.
  intros (H1 & H2 & H3 & H4). unfold marshal.
  destruct (codec_roundtrip c.(sch_Delta) H3 H4) as (j & -> & Hj). eexists. split; [done|].
  cbn [set_struct]. unfold omit. case_bool_decide; cbn [app];
    store_all ltac:(first [by apply set_int_ok | by apply set_of_string | exact Hj]);
    destruct c; cbn in *; by subst.
Qed.
End StreamChoice.

(** An optional pointer member and a slice of structs. *)
Definition usage_member (u : option Usage) : option Json.members :=
  match u with
  | None => Some []
  | Some u => j ← MarshalJSON u; Some [("usage", j)]
  end.

Definition usage_wf (u : option Usage) : Prop :=
  match u with Some u => Usage.wf u /\ Extra_clean u | None => True end.

Lemma MarshalJSON_object {A} `{!Struct A} (a : A) j :
  MarshalJSON a = Some j -> exists ms, j = JObject ms.
Proof.
  unfold MarshalJSON. destruct (emit a); cbn; [|done]. case_bool_decide; intros [= <-]; [by eexists|].
  unfold of_map. by eexists.
Qed.

Lemma usage_roundtrip u :
  usage_wf u -> exists ms, usage_member u = Some ms /\
    (u = None /\ ms = [] \/ exists j, ms = [("usage", j)] /\
       forall old, set_ptr zero set_Unmarshal j old = Some u).
Proof.
  destruct u as [u|]; cbn; [|intros _; exists []; auto].
  intros [Hw Hc]. destruct (codec_roundtrip u Hw Hc) as (j & Hm & Hj). rewrite Hm. cbn.
  destruct (MarshalJSON_object u j Hm) as (ms & ->).
  eexists. split; [done|]. right. eexists. split; [done|]. intros old.
  unfold set_ptr. by rewrite (Hj : set_Unmarshal _ (default zero old) = Some u).
Qed.

Module ChatStreamChunk.

Definition put_ID x c := Build_ChatStreamChunk x c.(chk_Object) c.(chk_Created) c.(chk_Model) c.(chk_Choices) c.(chk_Usage).
Definition put_Object x c := Build_ChatStreamChunk c.(chk_ID) x c.(chk_Created) c.(chk_Model) c.(chk_Choices) c.(chk_Usage).
Definition put_Created x c := Build_ChatStreamChunk c.(chk_ID) c.(chk_Object) x c.(chk_Model) c.(chk_Choices) c.(chk_Usage).
Definition put_Model x c := Build_ChatStreamChunk c.(chk_ID) c.(chk_Object) c.(chk_Created) x c.(chk_Choices) c.(chk_Usage).
Definition put_Choices x c := Build_ChatStreamChunk c.(chk_ID) c.(chk_Object) c.(chk_Created) c.(chk_Model) x c.(chk_Usage).
Definition put_Usage x c := Build_ChatStreamChunk c.(chk_ID) c.(chk_Object) c.(chk_Created) c.(chk_Model) c.(chk_Choices) x.

Definition zero : ChatStreamChunk := Build_ChatStreamChunk "" "" 0 "" [] None.

Definition fields : list (field ChatStreamChunk) :=
  [("id", via chk_ID put_ID set_string);
   ("object", via chk_Object put_Object set_string);
   ("created", via chk_Created put_Created set_int);
   ("model", via chk_Model put_Model set_string);
   ("choices", via chk_Choices put_Choices (set_slice StreamChoice.zero (set_struct StreamChoice.fields)));
   ("usage", via chk_Usage put_Usage (set_ptr Wire.zero set_Unmarshal))].

Definition unmarshal (j : json) : option ChatStreamChunk := set_struct fields j zero.

Definition marshal (c : ChatStreamChunk) : option json :=
  choices ← mapM StreamChoice.marshal c.(chk_Choices);
  usage ← usage_member c.(chk_Usage);
  Some (JObject ([("id", of_string c.(chk_ID)); ("object", of_string c.(chk_Object));
                  ("created", of_int c.(chk_Created)); ("model", of_string c.(chk_Model));
                  ("choices", JArray choices)] ++ usage)).

Definition wf (c : ChatStreamChunk) : Prop :=
  valid_string c.(chk_ID) /\ valid_string c.(chk_Object) /\ in_int64 c.(chk_Created) /\
  valid_string c.(chk_Model) /\ Forall StreamChoice.wf c.(chk_Choices) /\ usage_wf c.(chk_Usage).

Lemma chunk_wire_roundtrip c : wf c -> exists j, marshal c = Some j /\ unmarshal j = Some c.
Proof.
  intros (H1 & H2 & H3 & H4 & H5 & H6). unfold marshal.
  destruct (slice_roundtrip _ StreamChoice.marshal _ (set_struct StreamChoice.fields) _
              StreamChoice.choice_roundtrip H5) as (js & -> & Hj).
  destruct (usage_roundtrip _ H6) as (ms & -> & Hu). cbn [mbind option_bind].
  eexists. split; [done|]. unfold unmarshal. cbn [set_struct].
  destruct Hu as [[Hu ->]|(j & -> & Hu)]; cbn [app];
    store_all ltac:(first [by apply set_int_ok | by apply set_of_string | apply Hj | apply Hu]);
    destruct c; cbn in *; by subst.
Qed.
End ChatStreamChunk.

Module ChatResponse.

Definition put_ID x r := Build_ChatResponse x r.(resp_Object) r.(resp_Created) r.(resp_Model) r.(resp_Choices) r.(resp_Usage) r.(resp_Provider).
Definition put_Object x r := Build_ChatResponse r.(resp_ID) x r.(resp_Created) r.(resp_Model) r.(resp_Choices) r.(resp_Usage) r.(resp_Provider).
Definition put_Created x r := Build_ChatResponse r.(resp_ID) r.(resp_Object) x r.(resp_Model) r.(resp_Choices) r.(resp_Usage) r.(resp_Provider).
Definition put_Model x r := Build_ChatResponse r.(resp_ID) r.(resp_Object) r.(resp_Created) x r.(resp_Choices) r.(resp_Usage) r.(resp_Provider).
Definition put_Choices x r := Build_ChatResponse r.(resp_ID) r.(resp_Object) r.(resp_Created) r.(resp_Model) x r.(resp_Usage) r.(resp_Provider).
Definition put_Usage x r := Build_ChatResponse r.(resp_ID) r.(resp_Object) r.(resp_Created) r.(resp_Model) r.(resp_Choices) x r.(resp_Provider).
Definition put_Provider x r := Build_ChatResponse r.(resp_ID) r.(resp_Object) r.(resp_Created) r.(resp_Model) r.(resp_Choices) r.(resp_Usage) x.

Definition zero : ChatResponse := Build_ChatResponse "" "" 0 "" [] None "".

Definition fields : list (field ChatResponse) :=
  [("id", via resp_ID put_ID set_string);
   ("object", via resp_Object put_Object set_string);
   ("created", via resp_Created put_Created set_int);
   ("model", via resp_Model put_Model set_string);
   ("choices", via resp_Choices put_Choices (set_slice Wire.zero set_Unmarshal));
   ("usage", via resp_Usage put_Usage (set_ptr Wire.zero set_Unmarshal))].

Definition unmarshal (j : json) : option ChatResponse := set_struct fields j zero.

Definition marshal (r : ChatResponse) : option json :=
  choices ← mapM MarshalJSON r.(resp_Choices);
  usage ← usage_member r.(resp_Usage);
  Some (JObject ([("id", of_string r.(resp_ID)); ("object", of_string r.(resp_Object));
                  ("created", of_int r.(resp_Created)); ("model", of_string r.(resp_Model));
                  ("choices", JArray choices)] ++ usage)).

Definition wf (r : ChatResponse) : Prop :=
  valid_string r.(resp_ID) /\ valid_string r.(resp_Object) /\ in_int64 r.(resp_Created) /\
  valid_string r.(resp_Model) /\
  Forall (fun c => Choice.wf c /\ Extra_clean c) r.(resp_Choices) /\ usage_wf r.(resp_Usage).

(** The gateway-internal [Provider] is the only field the wire form drops. *)
Lemma response_wire_roundtrip r :
  wf r -> exists j, marshal r = Some j /\ unmarshal j = Some (put_Provider "" r).
Proof.
  intros (H1 & H2 & H3 & H4 & H5 & H6). unfold marshal.
  destruct (slice_roundtrip _ MarshalJSON Wire.zero set_Unmarshal _
              (fun c H => codec_roundtrip c (proj1 H) (proj2 H)) H5) as (js & -> & Hj).
  destruct (usage_roundtrip _ H6) as (ms & -> & Hu). cbn [mbind option_bind].
  eexists. split; [done|]. unfold unmarshal. cbn [set_struct].
  destruct Hu as [[Hu ->]|(j & -> & Hu)]; cbn [app];
    store_all ltac:(first [by apply set_int_ok | by apply set_of_string | apply Hj | apply Hu]);
    destruct r; cbn in *; by subst.
Qed.
End ChatResponse.

(** ** The wire format's guarantees *)

Section Requests.
Context `{!FloatText, !FloatTextLaws}.

(** Members that do not name [messages] leave the messages alone. *)
Lemma store_keeps_messages ms (a b : ChatRequest) :
  Forall (fun kv => foldName kv.1 <> foldName "messages") ms ->
  store fields ms a = Some b -> b.(req_Messages) = a.(req_Messages).
Proof.
  intros Hms. revert a. induction Hms as [|[k v] ms Hk _ IH]; intros a; cbn [store]; [by intros [= <-]|].
  destruct (find_field fields k) as [set|] eqn:E; cbn; [|apply IH].
  destruct (set v a) as [c|] eqn:Ev; cbn; [|done]. intros Hb. rewrite (IH _ Hb).
  apply find_field_index in E as (i & n & Hi & Hn). cbn in Hk.
  do 9 (destruct i as [|i]; [cbn in Hi; injection Hi as <- <-; first [by rewrite Hn in Hk |
    unfold via in Ev; apply fmap_Some in Ev as (x & _ & ->); done]|]). done.
Qed.

Lemma decoded_messages ms1 items ms2 (r : ChatRequest) :
  Forall (fun kv => foldName kv.1 <> foldName "messages") ms2 ->
  UnmarshalJSON (JObject (ms1 ++ ("messages", JArray items) :: ms2)) = Some r ->
  mapM (fun i => UnmarshalJSON i) items = Some r.(req_Messages).
Proof.
  intros Hms Hu. unfold UnmarshalJSON in Hu. apply bind_Some in Hu as (b & Hb & Hu).
  cbn [set_struct] in Hb. rewrite store_app in Hb. apply bind_Some in Hb as (a & _ & Hb).
  cbn [store] in Hb. apply bind_Some in Hb as (c & Hc & Hb).
  change (via req_Messages ChatRequest.put_Messages (set_slice zero set_Unmarshal) (JArray items) a
          = Some c) in Hc.
  unfold via in Hc. apply fmap_Some in Hc as (xs & Hxs & ->).
  assert (Hr : r.(req_Messages) = b.(req_Messages)).
  { apply bind_Some in Hu as (raw & _ & Hu). case_bool_decide; by simplify_eq. }
  rewrite Hr, (store_keeps_messages _ _ _ Hms Hb). exact Hxs.
Qed.

Lemma messages_passthrough items (ms : list Message) js :
  mapM (fun i => UnmarshalJSON i) items = Some ms -> mapM MarshalJSON ms = Some js ->
  Forall2 (fun i j => forall k, k ∉ Message.messageKnownKeys -> member j k = member i k) items js.
Proof.
  intros H1%mapM_Some_1 H2%mapM_Some_1. revert js H2.
  induction H1 as [|i m items ms Hi _ IH]; intros js H2; inversion H2; subst; constructor; [|by apply IH].
  intros k Hk. by apply (codec_passthrough (A := Message) i m).
Qed.

(** Whatever a client sends beyond the modelled members reaches the
    upstream unchanged.  Decoding a request and encoding it again keeps every
    unknown member (the last one, if a name is repeated) with its exact value;
    and for each element of its [messages] array, in order, every unknown
    member of that message (tool calls, for instance) is kept too. *)
Theorem request_passthrough ms1 items ms2 (r : ChatRequest) j' :
  let j := JObject (ms1 ++ ("messages", JArray items) :: ms2) in
  Forall (fun kv => foldName kv.1 <> foldName "messages") ms2 ->
  UnmarshalJSON j = Some r -> MarshalJSON r = Some j' ->
  (forall k, k ∉ ChatRequest.chatRequestKnownKeys -> member j' k = member j k) /\
  exists items', member j' "messages" = Some (JArray items') /\
    Forall2 (fun i i' => forall k, k ∉ Message.messageKnownKeys -> member i' k = member i k)
      items items'.
Proof.
  intros j Hms Hu Hm. split.
  { intros k Hk. by apply (codec_passthrough j r j' k). }
  pose proof (decoded_messages _ _ _ _ Hms Hu) as Hitems. unfold MarshalJSON in Hm.
  apply bind_Some in Hm as (base & Hb & Hm). change (ChatRequest.members r = Some base) in Hb.
  pose proof (emit_NoDup r base Hb) as Hnd.
  unfold ChatRequest.members in Hb.
  apply bind_Some in Hb as (js & Hjs & (t & _ & (p & _ & [= Hb])%bind_Some)%bind_Some).
  exists js. split; [|by eapply messages_passthrough].
  assert (Hin : raw_of base !! "messages" = Some (JArray js)).
  { apply raw_of_lookup; [done|]. subst base. set_solver. }
  case_bool_decide; injection Hm as <-; [exact Hin|].
  rewrite member_of_map, lookup_union_r; [exact Hin|].
  apply map_lookup_filter_None. right. intros x _ Hx. by apply Hx; cbn; set_solver.
Qed.
End Requests.

(** Encoding a request and decoding it again gives the same request, for
    every request whose integers are in range, whose strings are valid UTF-8
    and whose extra members are not spelled like a modelled one. *)
Lemma request_roundtrip `{!FloatText, !FloatTextLaws} (r : ChatRequest) :
  ChatRequest.wf r -> Extra_clean r ->
  exists j, MarshalJSON r = Some j /\ UnmarshalJSON j = Some r.
Proof. apply codec_roundtrip. Qed.

(** A response survives the wire form (which is also the form the response
    cache stores) with every field and every unmodelled member of its choices,
    messages and usage; only the internal [Provider] name is dropped.  A stream
    chunk survives it completely. *)
Theorem response_roundtrip r c :
  ChatResponse.wf r -> ChatStreamChunk.wf c ->
  (exists j, ChatResponse.marshal r = Some j /\
     ChatResponse.unmarshal j = Some (ChatResponse.put_Provider "" r)) /\
  (exists j, ChatStreamChunk.marshal c = Some j /\ ChatStreamChunk.unmarshal j = Some c).
Proof. split; [by apply ChatResponse.response_wire_roundtrip|by apply ChatStreamChunk.chunk_wire_roundtrip]. Qed.

(** ** A concrete text form for floats, and examples *)

Module Example.
Import SpecFloat.

(** A prefix code of positives in decimal digits, and floats over it: the
    mantissa's code, [e], the exponent's sign and code. *)
Fixpoint pos_text (p : positive) (rest : string) : string :=
  match p with
  | xH => String "1" rest
  | xO p => String "2" (pos_text p rest)
  | xI p => String "3" (pos_text p rest)
  end.

Fixpoint pos_read (s : string) : option (positive * string) :=
  match s with
  | String "1" rest => Some (xH, rest)
  | String "2" s => '(p, rest) ← pos_read s; Some (xO p, rest)
  | String "3" s => '(p, rest) ← pos_read s; Some (xI p, rest)
  | _ => None
  end.

Lemma pos_read_text p rest : pos_read (pos_text p rest) = Some (p, rest).
Proof. revert rest. induction p as [p IH|p IH|]; intros rest; cbn; [by rewrite IH..|done]. Qed.

Definition exp_text (z : Z) : string :=
  match z with Z0 => "e0" | Zpos p => String "e" (String "+" (pos_text p ""))
  | Zneg p => String "e" (String "-" (pos_text p "")) end.

Definition exp_read (s : string) : option Z :=
  match s with
  | String "e" (String "0" _) => Some 0
  | String "e" (String "+" s) => '(p, _) ← pos_read s; Some (Zpos p)
  | String "e" (String "-" s) => '(p, _) ← pos_read s; Some (Zneg p)
  | _ => None
  end.

Lemma exp_read_text z : exp_read (exp_text z) = Some z.
Proof. destruct z; cbn; by rewrite ?pos_read_text. Qed.

Definition sign (b : bool) (rest : string) : string := if b then String "-" rest else rest.

#[local] Instance coded : FloatText := {|
  FormatFloat f :=
    match f with
    | S754_zero b => sign b "0"
    | S754_finite b m e => sign b (pos_text m (exp_text e))
    | _ => ""
    end;
  ParseFloat s :=
    let '(b, t) := match s with String "-" t => (true, t) | _ => (false, s) end in
    match t with
    | String "0" _ => Some (S754_zero b)
    | _ => '(m, t) ← pos_read t; e ← exp_read t; Some (S754_finite b m e)
    end
|}.

Lemma pos_text_digits p rest :
  exists d ds, bytes_of (pos_text p rest) = d :: ds ++ bytes_of rest /\ 49 <= d <= 51 /\ Forall Strconv.is_digit ds.
Proof.
  revert rest. induction p as [p IH|p IH|]; intros rest; cbn [pos_text bytes_of]; [..|by exists 49, []];
    destruct (IH rest) as (d & ds & -> & Hd & Hds); eexists _, (d :: ds); (split; [done|]);
    (split; [vm_compute; split; discriminate|]); (constructor; [unfold Strconv.is_digit; lia|done]).
Qed.

Lemma digits_run d ds X :
  Strconv.is_digit d -> Forall Strconv.is_digit ds -> Syntax.stop X \/ (exists t, X = 101 :: t) ->
  Syntax.digits1 (d :: ds ++ X) = Some (d :: ds, X).
Proof.
  intros Hd Hds HX. unfold Syntax.digits1.
  assert (H : Syntax.digits ((d :: ds) ++ X) = (d :: ds, X)).
  { assert (Hall : Forall Strconv.is_digit (d :: ds)) by by constructor. clear Hd Hds.
    induction Hall as [|c l Hc _ IH]; cbn [app Syntax.digits].
    - destruct X as [|c X]; [done|]. cbn. destruct HX as [[-> _]|[t [= -> _]]]; done.
    - unfold Utf8.within. unfold Strconv.is_digit in Hc.
      rewrite (proj2 (Z.leb_le 48 c)), (proj2 (Z.leb_le c 57)) by lia. cbn [andb]. by rewrite IH. }
  cbn [app] in H. by rewrite H.
Qed.

Lemma exp_text_part e : Syntax.exp_part (bytes_of (exp_text e)) = Some (bytes_of (exp_text e), []).
Proof.
  destruct e as [|p|p]; [done|..];
    destruct (pos_text_digits p "") as (d & ds & Hp & Hd & Hds); cbn [bytes_of] in Hp; rewrite app_nil_r in Hp;
    cbn [exp_text bytes_of]; rewrite Hp;
    pose proof (digits_run d ds [] ltac:(unfold Strconv.is_digit; lia) Hds (or_introl I)) as HD;
    rewrite app_nil_r in HD; cbn -[Syntax.digits1]; by rewrite HD.
Qed.

Lemma coded_number b m e : Syntax.number_text (sign b (pos_text m (exp_text e))) = true.
Proof.
  apply bool_decide_eq_true. destruct (pos_text_digits m (exp_text e)) as (d & ds & Hm & Hd & Hds).
  assert (Hs : forall l, l = bytes_of (pos_text m (exp_text e)) -> Syntax.sign_part l = ([], l) /\
    Syntax.int_part l = Some (d :: ds, bytes_of (exp_text e))).
  { intros l ->. rewrite Hm. cbn [Syntax.sign_part Syntax.int_part].
    rewrite (proj2 (Z.eqb_neq d 45)), (proj2 (Z.eqb_neq d 48)) by lia. split; [done|].
    apply digits_run; [unfold Strconv.is_digit; lia|done|]. right. destruct e; by eexists. }
  assert (Hf : Syntax.frac_part (bytes_of (exp_text e)) = Some ([], bytes_of (exp_text e))) by by destruct e.
  destruct (Hs _ eq_refl) as [H1 H2]. unfold Syntax.number. destruct b; cbn [sign].
  - change (bytes_of (String "-" (pos_text m (exp_text e)))) with (45 :: bytes_of (pos_text m (exp_text e))).
    cbn [Syntax.sign_part Z.eqb Pos.eqb]. rewrite H2. cbn [mbind option_bind]. rewrite Hf. cbn [mbind option_bind].
    rewrite exp_text_part. cbn. by rewrite Hm.
  - rewrite H1, H2. cbn [mbind option_bind]. rewrite Hf. cbn [mbind option_bind].
    rewrite exp_text_part. cbn. by rewrite Hm.
Qed.

#[local] Instance coded_laws : FloatTextLaws.
Proof.
  split; intros [b|b| |b m e] Hf; try done; [by destruct b|..].
  - cbn. assert (Hr : forall s, pos_read s = Some (m, exp_text e) ->
      ('(m, t) ← pos_read s; e ← exp_read t; Some (S754_finite b m e)) = Some (S754_finite b m e)).
    { intros s ->. cbn. by rewrite exp_read_text. }
    specialize (Hr _ (pos_read_text m (exp_text e))). destruct b, m; exact Hr.
  - by destruct b; vm_compute.
  - apply coded_number.
Qed.

Definition msg (role content : string) (extra : gmap string json) : Message :=
  Build_Message role content "" "" extra.

Definition sample : ChatRequest :=
  {| req_Model := "gpt-4o"; req_Messages := [msg "user" "hi" {["tool_calls" := JArray []]}];
     req_MaxTokens := 16; req_Temperature := Some f_zero; req_TopP := None; req_N := 0;
     req_Stream := true; req_Stop := ["a"; "b"]; req_User := "";
     req_Extra := {["seed" := JNumber "7"; "logit_bias" := JObject []]} |}.

Ltac clean :=
  intros k v Hk; apply elem_of_map_to_list in Hk; vm_compute in Hk;
  repeat (apply elem_of_cons in Hk as [Hk|Hk]; [injection Hk as -> ->; vm_compute; set_solver|]);
  by apply elem_of_nil in Hk.

Ltac wf_solve :=
  repeat first [done | apply conj | apply Forall_cons_2 | apply Forall_nil_2 | clean].

Lemma sample_wf : ChatRequest.wf sample.
Proof. unfold ChatRequest.wf, Message.wf, valid_string, in_int64. cbn. wf_solve. Qed.

Definition sample_json : members :=
  [("model", JString "gpt-4o"); ("seed", JNumber "1"); ("seed", JNumber "7")].
Definition sample_items : list json :=
  [JObject [("role", JString "user"); ("content", JString "hi"); ("tool_calls", JArray [])]].

Lemma request_passthrough_witness :
  exists r j', UnmarshalJSON (A := ChatRequest)
                 (JObject (sample_json ++ ("messages", JArray sample_items) :: [])) = Some r /\
    MarshalJSON r = Some j' /\ member j' "seed" = Some (JNumber "7").
Proof.
  assert (H : bool_decide (is_Some (UnmarshalJSON (A := ChatRequest)
      (JObject (sample_json ++ ("messages", JArray sample_items) :: [])) ≫= MarshalJSON)) = true)
    by by vm_compute.
  apply bool_decide_eq_true in H as [j' (r & Hr & Hj')%bind_Some].
  exists r, j'. split_and!; [done|done|].
  destruct (request_passthrough sample_json sample_items [] r j') as [Hk _]; [by constructor|done|done|].
  rewrite Hk; [by vm_compute|]. by apply (bool_decide_eq_true_1 ("seed" ∉ _)).
Defined.

Definition sample_response : ChatResponse :=
  {| resp_ID := "r1"; resp_Object := "chat.completion"; resp_Created := 1700000000;
     resp_Model := "gpt-4o";
     resp_Choices := [Build_Choice 0 (msg "assistant" "yes" ∅) "stop" {["logprobs" := JNull]}];
     resp_Usage := Some (Build_Usage 3 1 4 ∅); resp_Provider := "openai" |}.

Definition sample_chunk : ChatStreamChunk :=
  {| chk_ID := "c1"; chk_Object := "chat.completion.chunk"; chk_Created := 1700000000;
     chk_Model := "gpt-4o";
     chk_Choices := [Build_StreamChoice 0 (Build_MessageDelta "" "ye" {["refusal" := JNull]}) ""];
     chk_Usage := None |}.

Lemma sample_response_wf : ChatResponse.wf sample_response.
Proof.
  unfold ChatResponse.wf, Choice.wf, Message.wf, Usage.wf, valid_string, in_int64. cbn. wf_solve.
Qed.

Lemma sample_chunk_wf : ChatStreamChunk.wf sample_chunk.
Proof.
  unfold ChatStreamChunk.wf, StreamChoice.wf, MessageDelta.wf, valid_string, in_int64. cbn. wf_solve.
Qed.

Lemma response_roundtrip_witness :
  ChatResponse.wf sample_response /\ ChatStreamChunk.wf sample_chunk /\
  exists j, ChatStreamChunk.marshal sample_chunk = Some j /\ ChatStreamChunk.unmarshal j = Some sample_chunk.
Proof.
  split; [exact sample_response_wf|]. split; [exact sample_chunk_wf|].
  destruct (response_roundtrip sample_response sample_chunk sample_response_wf sample_chunk_wf) as [_ H].
  exact H.
Defined.

(** A member spelled [Max_Tokens] is both stored in the field and kept as an
    unknown member, so the upstream receives it twice. *)
Example case_variant_duplicated :
  (r ← UnmarshalJSON (A := ChatRequest) (JObject [("model", JString "m"); ("Max_Tokens", JNumber "5")]);
   MarshalJSON r)
  = Some (JObject [("Max_Tokens", JNumber "5"); ("max_tokens", JNumber "5");
                   ("messages", JArray []); ("model", JString "m")]).
Proof. by vm_compute. Qed.

(** A tool-call message with a null [content] is forwarded with an empty
    string: [content] has no [omitempty]. *)
Example null_content_becomes_empty :
  (m ← UnmarshalJSON (A := Message)
         (JObject [("role", JString "assistant"); ("content", JNull); ("tool_calls", JArray [])]);
   MarshalJSON m)
  = Some (JObject [("content", JString ""); ("role", JString "assistant"); ("tool_calls", JArray [])]).
Proof. by vm_compute. Qed.
End Example.
