(* ===== verification/WireText.v ===== *)
(** * WireText: requests, responses and chunks as JSON text

    [Wire] relates Go structs and JSON values, [JsonSyntax] JSON values and
    their text; here the two are joined: what [json.Marshal] writes for a request,
    a response or a stream chunk is a text that [json.Unmarshal] reads back as
    the same struct. *)

From S2P Require Import Prelude GoStd Float64 Errors Types Encoding JsonSyntax Wire.
From stdpp Require Import base list gmap sorting.
Import Json.
Local Open Scope Z_scope.

(** The unknown members a struct carries are printable. *)
Definition extra_ok (d : nat) (m : gmap string json) : Prop :=
  map_Forall (fun k v => Syntax.member_ok d (k, v) = true) m.

#[export] Instance extra_ok_dec d m : Decision (extra_ok d m).
Proof. apply map_Forall_dec. intros k v. apply bool_eq_dec. Defined.

Create HintDb json_text.

Lemma of_string_ok d s : valid_string s -> Syntax.json_ok d (of_string s) = true.
Proof. intros Hs. cbn. by rewrite Utf8.string_of_runes_runes. Qed.
Lemma of_int_ok d z : in_int64 z -> Syntax.json_ok d (of_int z) = true.
Proof. apply Syntax.Itoa_number. Qed.

(** A member with a name the structs use. *)
Lemma named_ok d k v :
  Utf8.ValidString k = true -> Syntax.json_ok d v = true -> Syntax.member_ok d (k, v) = true.
Proof. intros Hk Hv. unfold Syntax.member_ok. cbn [fst snd]. by rewrite Hk, Hv. Qed.

Lemma omit_ok d b k v :
  Utf8.ValidString k = true -> Syntax.json_ok d v = true ->
  Forall (fun kv => Syntax.member_ok d kv = true) (omit b k v).
Proof. intros Hk Hv. destruct b; repeat constructor. by apply named_ok. Qed.

#[export] Hint Resolve of_string_ok of_int_ok named_ok omit_ok list.Forall_nil_2 list.Forall_cons_2 Forall_app_2 : json_text.
#[export] Hint Extern 1 (Utf8.ValidString _ = true) => vm_compute; reflexivity : json_text.

Section Struct.
Context {A : Type} `{!Struct A}.

(** What a struct with an [Extra] map prints. *)
Lemma MarshalJSON_ok d (a : A) j :
  (forall ms, emit a = Some ms -> Forall (fun kv => Syntax.member_ok d kv = true) ms) -> extra_ok d (Extra a) ->
  MarshalJSON a = Some j -> Syntax.json_ok (S d) j = true.
Proof.
  intros Hms HE. unfold MarshalJSON. destruct (emit a) as [ms|] eqn:He; [|done]. specialize (Hms ms eq_refl).
  cbn [mbind option_bind].
  case_bool_decide; intros [= <-]; [by apply Syntax.json_ok_object|].
  apply Syntax.json_ok_object. rewrite merge_sort_Permutation.
  apply list.Forall_forall. intros [k v] Hin%elem_of_map_to_list. revert Hin.
  intros [Hk|[_ Hk]]%lookup_union_Some_raw.
  - apply map_lookup_filter_Some in Hk as [Hk _]. by apply HE.
  - assert (Hin : (k, v) ∈ ms).
    { clear -Hk. revert v Hk. induction ms as [|[k' v'] ms IH] using rev_ind; intros v Hk; [done|].
      rewrite raw_of_snoc in Hk. apply lookup_insert_Some in Hk as [[<- <-]|[_ Hk]]; set_solver. }
    by apply (proj1 (list.Forall_forall _ _) Hms).
Qed.
End Struct.

(** ** The structs *)

(** A list of values that each print. *)
Lemma mapM_ok {A} (marshal : A -> option json) (P : A -> Prop) d xs js :
  (forall x j, P x -> marshal x = Some j -> Syntax.json_ok d j = true) ->
  Forall P xs -> mapM marshal xs = Some js -> Syntax.json_ok (S d) (JArray js) = true.
Proof.
  intros Hm Hxs Hjs. apply Syntax.json_ok_array. revert js Hjs.
  induction Hxs as [|x xs Hx _ IH]; intros js; cbn; [by intros [= <-]|].
  destruct (marshal x) as [j|] eqn:Ej; cbn; [|done].
  destruct (mapM marshal xs) as [js'|]; cbn; [|done]. intros [= <-]. constructor; [by eapply Hm|by apply IH].
Qed.

Lemma message_text d m j :
  Message.wf m -> extra_ok d m.(msg_Extra) -> MarshalJSON m = Some j -> Syntax.json_ok (S d) j = true.
Proof.
  intros (H1 & H2 & H3 & H4) HE. apply MarshalJSON_ok; [|done]. intros ms [= <-].
  unfold Message.members. auto 10 with json_text.
Qed.

Lemma usage_text d u j :
  Usage.wf u -> extra_ok d u.(use_Extra) -> MarshalJSON u = Some j -> Syntax.json_ok (S d) j = true.
Proof.
  intros (H1 & H2 & H3) HE. apply MarshalJSON_ok; [|done]. intros ms [= <-].
  unfold Usage.members. auto 10 with json_text.
Qed.

Lemma delta_text d m j :
  MessageDelta.wf m -> extra_ok d m.(del_Extra) -> MarshalJSON m = Some j -> Syntax.json_ok (S d) j = true.
Proof.
  intros (H1 & H2) HE. apply MarshalJSON_ok; [|done]. intros ms [= <-].
  unfold MessageDelta.members. auto 10 with json_text.
Qed.

Lemma usage_member_text d u ms :
  usage_wf u -> (forall u', u = Some u' -> extra_ok d u'.(use_Extra)) -> usage_member u = Some ms ->
  Forall (fun kv => Syntax.member_ok (S d) kv = true) ms.
Proof.
  destruct u as [u|]; cbn; [|intros _ _ [= <-]; constructor].
  intros [Hw _] HE. destruct (MarshalJSON u) as [j|] eqn:Ej; cbn; [|done]. intros [= <-].
  pose proof (usage_text d u j Hw (HE u eq_refl) Ej). auto with json_text.
Qed.

(** *** Stream chunks *)

Definition stream_choice_ok (d : nat) (c : StreamChoice) : Prop := extra_ok d c.(sch_Delta).(del_Extra).

Lemma stream_choice_text d c j :
  StreamChoice.wf c -> stream_choice_ok d c -> StreamChoice.marshal c = Some j ->
  Syntax.json_ok (S (S d)) j = true.
Proof.
  intros (H1 & H2 & H3 & _) HE. unfold StreamChoice.marshal.
  destruct (MarshalJSON (sch_Delta c)) as [dj|] eqn:Ed; cbn [mbind option_bind]; [|done]. intros [= <-].
  pose proof (delta_text d _ _ H3 HE Ed). apply Syntax.json_ok_object. auto 10 with json_text.
Qed.

Definition chunk_ok (d : nat) (c : ChatStreamChunk) : Prop :=
  Forall (stream_choice_ok d) c.(chk_Choices) /\
  (forall u, c.(chk_Usage) = Some u -> extra_ok (S (S d)) u.(use_Extra)).

Lemma chunk_text d c j :
  ChatStreamChunk.wf c -> chunk_ok d c -> ChatStreamChunk.marshal c = Some j ->
  Syntax.json_ok (S (S (S (S d)))) j = true.
Proof.
  intros (H1 & H2 & H3 & H4 & H5 & H6) [Hc Hu]. unfold ChatStreamChunk.marshal.
  destruct (mapM _ _) as [js|] eqn:Ej; cbn [mbind option_bind]; [|done].
  destruct (usage_member _) as [ms|] eqn:Eu; cbn [mbind option_bind]; [|done]. intros [= <-].
  pose proof (usage_member_text _ _ _ H6 Hu Eu).
  assert (Syntax.json_ok (S (S (S d))) (JArray js) = true).
  { eapply (mapM_ok _ (fun c => StreamChoice.wf c /\ stream_choice_ok d c)); [|by apply Forall_and|done].
    intros x j [? ?]. by apply stream_choice_text. }
  apply Syntax.json_ok_object. auto 20 with json_text.
Qed.

(** *** Responses *)

Definition choice_ok (d : nat) (c : Choice) : Prop :=
  extra_ok d c.(cho_Message).(msg_Extra) /\ extra_ok (S d) c.(cho_Extra).

Lemma choice_text d c j :
  Choice.wf c -> choice_ok d c -> MarshalJSON c = Some j -> Syntax.json_ok (S (S d)) j = true.
Proof.
  intros (H1 & H2 & H3 & _) [HM HE]. apply MarshalJSON_ok; [|done]. intros ms Em.
  change (Choice.members c = Some ms) in Em. unfold Choice.members in Em.
  destruct (MarshalJSON (cho_Message c)) as [mj|] eqn:Ed; cbn [mbind option_bind] in Em; [|done].
  injection Em as <-. pose proof (message_text d _ _ H3 HM Ed). auto 10 with json_text.
Qed.

Definition response_ok (d : nat) (r : ChatResponse) : Prop :=
  Forall (choice_ok d) r.(resp_Choices) /\
  (forall u, r.(resp_Usage) = Some u -> extra_ok (S (S d)) u.(use_Extra)).

Lemma response_text d r j :
  ChatResponse.wf r -> response_ok d r -> ChatResponse.marshal r = Some j ->
  Syntax.json_ok (S (S (S (S d)))) j = true.
Proof.
  intros (H1 & H2 & H3 & H4 & H5 & H6) [Hc Hu]. unfold ChatResponse.marshal.
  destruct (mapM _ _) as [js|] eqn:Ej; cbn [mbind option_bind]; [|done].
  destruct (usage_member _) as [ms|] eqn:Eu; cbn [mbind option_bind]; [|done]. intros [= <-].
  pose proof (usage_member_text _ _ _ H6 Hu Eu).
  assert (Syntax.json_ok (S (S (S d))) (JArray js) = true).
  { eapply (mapM_ok _ (fun c => (Choice.wf c /\ Extra_clean c) /\ choice_ok d c)); [|by apply Forall_and|done].
    intros x j [[? _] ?]. by apply choice_text. }
  apply Syntax.json_ok_object. auto 20 with json_text.
Qed.

(** *** Requests *)

Definition request_ok (d : nat) (r : ChatRequest) : Prop :=
  extra_ok (S (S d)) r.(req_Extra) /\ Forall (fun m => extra_ok d m.(msg_Extra)) r.(req_Messages).

Section Requests.
Context `{!FloatText, !FloatTextLaws}.

Lemma float_member_text d k f ms :
  Utf8.ValidString k = true -> ChatRequest.float_member k f = Some ms ->
  Forall (fun kv => Syntax.member_ok d kv = true) ms.
Proof.
  intros Hk. destruct f as [f|]; cbn; [|intros [= <-]; constructor].
  destruct (finite f) eqn:Hf; [|done]. intros [= <-]. constructor; [|constructor].
  apply named_ok; [done|by apply Format_number].
Qed.

Lemma request_text d (r : ChatRequest) j :
  ChatRequest.wf r -> request_ok d r -> MarshalJSON r = Some j ->
  Syntax.json_ok (S (S (S d))) j = true.
Proof.
  intros (H1 & H2 & H3 & H4 & H5 & _ & _ & H8) [HE HM]. apply MarshalJSON_ok; [|done]. intros ms Em.
  change (ChatRequest.members r = Some ms) in Em. unfold ChatRequest.members in Em.
  destruct (mapM _ _) as [js|] eqn:Ej; cbn [mbind option_bind] in Em; [|done].
  destruct (ChatRequest.float_member "temperature" _) as [t|] eqn:Et; cbn [mbind option_bind] in Em; [|done].
  destruct (ChatRequest.float_member "top_p" _) as [p|] eqn:Ep; cbn [mbind option_bind] in Em; [|done].
  injection Em as <-.
  apply (float_member_text (S (S d))) in Et, Ep; [|done..].
  assert (Syntax.json_ok (S (S d)) (JArray js) = true).
  { eapply (mapM_ok _ (fun m => (Message.wf m /\ Extra_clean m) /\ extra_ok d m.(msg_Extra)));
      [|by apply Forall_and|done]. intros x j' [[? _] ?]. by apply message_text. }
  assert (Syntax.json_ok (S (S d)) (JArray (map of_string r.(req_Stop))) = true).
  { apply Syntax.json_ok_array, Forall_fmap. eapply list.Forall_impl; [exact H3|]. intros s Hs. by apply of_string_ok. }
  assert (Syntax.json_ok (S (S d)) (JBool r.(req_Stream)) = true) by done.
  auto 20 with json_text.
Qed.

(** A message is three levels below a request's text, a delta four below a
    chunk's. *)
Definition depth_left : nat := (Syntax.maxNestingDepth - 4)%nat.

Lemma request_reads_back (r : ChatRequest) :
  ChatRequest.wf r -> Extra_clean r -> request_ok depth_left r ->
  exists j, MarshalJSON r = Some j /\ Syntax.Unmarshal (Syntax.Marshal j) ≫= UnmarshalJSON = Some r.
Proof.
  intros Hw Hc Hok. destruct (codec_roundtrip r Hw Hc) as (j & Hj & Hu). exists j. split; [done|].
  rewrite Syntax.Unmarshal_Marshal; [done|].
  apply (Syntax.json_ok_more (S (S (S depth_left)))); [by apply (request_text _ r)|].
  unfold depth_left, Syntax.maxNestingDepth. lia.
Qed.

(** C30: What the gateway sends upstream says what the client asked.  The JSON
    text of a request, read by any Go program, is the same request again, with
    every modelled field and every unknown member of the request and of its
    messages, for every request whose strings are UTF-8, whose numbers are in
    range, whose unknown members are JSON values that are not spelled like a
    modelled one, and whose nesting is within the decoder's limit. *)
Theorem request_text_roundtrip (r : ChatRequest) :
  ChatRequest.wf r -> Extra_clean r -> request_ok depth_left r ->
  exists j, MarshalJSON r = Some j /\ Syntax.Unmarshal (Syntax.Marshal j) ≫= UnmarshalJSON = Some r.
Proof. apply request_reads_back. Qed.
End Requests.

Lemma response_text_ok r j :
  ChatResponse.wf r -> response_ok depth_left r -> ChatResponse.marshal r = Some j ->
  Syntax.json_ok Syntax.maxNestingDepth j = true.
Proof.
  intros Hw Hok Hj. apply (Syntax.json_ok_more _ _ (response_text depth_left r j Hw Hok Hj)).
  unfold depth_left, Syntax.maxNestingDepth. lia.
Qed.

Lemma chunk_text_ok c j :
  ChatStreamChunk.wf c -> chunk_ok depth_left c -> ChatStreamChunk.marshal c = Some j ->
  Syntax.json_ok Syntax.maxNestingDepth j = true.
Proof.
  intros Hw Hok Hj. apply (Syntax.json_ok_more _ _ (chunk_text depth_left c j Hw Hok Hj)).
  unfold depth_left, Syntax.maxNestingDepth. lia.
Qed.

Module Example.
#[local] Existing Instance Wire.Example.coded.
#[local] Existing Instance Wire.Example.coded_laws.

Ltac extra := apply (bool_decide_eq_true_1 (extra_ok _ _)); vm_compute; reflexivity.

Lemma request_text_roundtrip_witness :
  exists j, MarshalJSON Wire.Example.sample = Some j /\
    Syntax.Unmarshal (Syntax.Marshal j) ≫= UnmarshalJSON = Some Wire.Example.sample.
Proof.
  apply (request_text_roundtrip Wire.Example.sample).
  - exact Wire.Example.sample_wf.
  - Wire.Example.clean.
  - split; [by extra|]. constructor; [by extra|constructor].
Defined.
End Example.
