(* ===== verification/Config.v ===== *)
(** * Config: placeholder expansion and the gateway configuration

    [internal/envexpand/envexpand.go] and [internal/config/config.go].  The
    regular expression of [Expand] is deterministic, so that matching it is a
    left-to-right scan; viper, which reads the file and merges defaults and
    environment into the [Config], is a parameter of [Load]. *)

From Stdlib Require Import Ascii.
From S2P Require Import Prelude GoStd Float64 Errors.
From stdpp Require Import base list gmap.
Local Open Scope Z_scope.

(** ** Expanding placeholders *)

Module Envexpand.

Definition dollar : ascii := "$"%char.
Definition lbrace : ascii := "{"%char.
Definition rbrace : ascii := "}"%char.

(** The classes of the pattern: [A-Za-z_] and [A-Za-z0-9_]. *)
Definition name_start (c : ascii) : bool :=
  let b := byte_of_ascii c in Utf8.within 65 90 b || Utf8.within 97 122 b || (b =? 95).
Definition name_char (c : ascii) : bool := name_start c || Utf8.within 48 57 (byte_of_ascii c).

(** The longest prefix of characters in a class, and the rest. *)
Fixpoint span (p : ascii -> bool) (s : string) : string * string :=
  match s with
  | String c s' => if p c then let '(a, b) := span p s' in (String c a, b) else ("", s)
  | EmptyString => ("", "")
  end.

(** [envPattern] at the head of the text: the two groups and what follows the
    match. *)
Definition match_here (s : string) : option (string * string * string) :=
  match s with
  | String d (String b (String c _ as t)) =>
      if Ascii.eqb d dollar && Ascii.eqb b lbrace && name_start c then
        let '(name, t) := span name_char t in
        match t with
        | String e rest =>
            if Ascii.eqb e rbrace then Some (name, "", rest)
            else if Strings.HasPrefix t ":-" then
              let '(def, t) := span (fun x => negb (Ascii.eqb x rbrace)) (Strings.slice_from 2 t) in
              match t with String _ rest => Some (name, def, rest) | EmptyString => None end
            else None
        | EmptyString => None
        end
      else None
  | _ => None
  end.

Section Expand.
(** [os.LookupEnv]. *)
Context (LookupEnv : string -> option string).

(** What replaces a match. *)
Definition value_of (name def : string) : string :=
  match LookupEnv name with
  | Some v => if bool_decide (v = "") then def else v
  | None => def
  end.

(** [ReplaceAllStringFunc]: leftmost matches, replaced without rescanning;
    [skip] counts the characters of the last match still to be passed over. *)
Fixpoint expand_from (skip : nat) (s : string) : string :=
  match s with
  | EmptyString => ""
  | String c s' =>
      match skip with
      | S n => expand_from n s'
      | O =>
          match match_here s with
          | Some (name, def, rest) =>
              value_of name def +:+ expand_from (String.length s' - String.length rest) s'
          | None => String c (expand_from 0 s')
          end
      end
  end.

Definition Expand (s : string) : string := expand_from 0 s.
End Expand.

(** *** Templates: the texts the syntax is meant for *)

Inductive piece :=
  | Lit (s : string)
  | Var (name : string) (def : option string).

Definition print_piece (p : piece) : string :=
  match p with
  | Lit s => s
  | Var name None => "${" +:+ name +:+ "}"
  | Var name (Some def) => "${" +:+ name +:+ ":-" +:+ def +:+ "}"
  end.
Definition print_template (t : list piece) : string := foldr (fun p s => print_piece p +:+ s) "" t.

Definition eval_piece (LookupEnv : string -> option string) (p : piece) : string :=
  match p with
  | Lit s => s
  | Var name def => value_of LookupEnv name (default "" def)
  end.
Definition eval_template LookupEnv (t : list piece) : string :=
  foldr (fun p s => eval_piece LookupEnv p +:+ s) "" t.

Fixpoint all_chars (p : ascii -> bool) (s : string) : bool :=
  match s with EmptyString => true | String c s' => p c && all_chars p s' end.

(** A literal has no opening of a placeholder in it, nor half of one at its
    end. *)
Fixpoint literal (s : string) : bool :=
  match s with
  | EmptyString => true
  | String c s' =>
      negb (Ascii.eqb c dollar && match s' with
                                  | EmptyString => true
                                  | String d _ => Ascii.eqb d lbrace
                                  end) && literal s'
  end.

Definition valid_name (s : string) : bool :=
  match s with EmptyString => false | String c s' => name_start c && all_chars name_char s' end.

Definition piece_ok (p : piece) : bool :=
  match p with
  | Lit s => literal s
  | Var name None => valid_name name
  | Var name (Some def) => valid_name name && all_chars (fun x => negb (Ascii.eqb x rbrace)) def
  end.

Lemma span_all p s c t :
  all_chars p s = true -> p c = false -> span p (s +:+ String c t) = (s, String c t).
Proof.
  intros Hs Hc. induction s as [|x s IH]; [simpl; by rewrite Hc|].
  change (String x s +:+ String c t) with (String x (s +:+ String c t)). cbn [all_chars] in Hs.
  apply andb_true_iff in Hs as [Hx Hs]. cbn [span]. by rewrite Hx, IH.
Qed.

Lemma expand_skip env a t : expand_from env (String.length a) (a +:+ t) = expand_from env 0 t.
Proof. induction a as [|c a IH]; [by destruct t|]. exact IH. Qed.

(** A match is replaced, and the text after it expanded on its own. *)
Lemma expand_match env c s' m name def rest :
  match_here (String c s') = Some (name, def, rest) -> s' = m +:+ rest ->
  expand_from env 0 (String c s') = value_of env name def +:+ expand_from env 0 rest.
Proof.
  intros Hm ->. cbn [expand_from]. rewrite Hm. f_equal.
  replace (String.length (m +:+ rest) - String.length rest)%nat with (String.length m); [apply expand_skip|].
  assert (H : String.length (m +:+ rest) = (String.length m + String.length rest)%nat); [|lia].
  clear. induction m as [|x m IH]; simpl; [done|]. f_equal. exact IH.
Qed.

Lemma match_here_var name def t :
  piece_ok (Var name def) = true ->
  match_here (print_piece (Var name def) +:+ t) = Some (name, default "" def, t).
Proof.
  intros Hok. assert (Hn : valid_name name = true) by (destruct def; [by apply andb_true_iff in Hok as []|done]).
  destruct name as [|c name]; [done|]. apply andb_true_iff in Hn as [Hc Hn].
  assert (Hspan : forall e u, name_char e = false ->
    span name_char (String c (name +:+ String e u)) = (String c name, String e u)).
  { intros e u He. apply (span_all name_char (String c name)); [|done]. cbn [all_chars].
    unfold name_char at 1. by rewrite Hc, Hn. }
  destruct def as [def|]; cbn [print_piece].
  - replace (("${" +:+ String c name +:+ ":-" +:+ def +:+ "}") +:+ t)
      with (String dollar (String lbrace (String c (name +:+ String ":"%char (String "-"%char (def +:+ String rbrace t))))))
      by (rewrite ?Strings.append_assoc; reflexivity).
    cbn [match_here]. rewrite !Ascii.eqb_refl, Hc. cbn [andb]. rewrite Hspan by done.
    change (Ascii.eqb ":" rbrace) with false. cbn [Strings.HasPrefix]. rewrite !Ascii.eqb_refl. cbn [andb].
    cbn [Strings.slice_from]. apply andb_true_iff in Hok as [_ Hd]. rewrite span_all by done. by destruct (def +:+ String rbrace t).
  - replace (("${" +:+ String c name +:+ "}") +:+ t)
      with (String dollar (String lbrace (String c (name +:+ String rbrace t))))
      by (rewrite ?Strings.append_assoc; reflexivity).
    cbn [match_here]. rewrite !Ascii.eqb_refl, Hc. cbn [andb]. rewrite Hspan by done.
    by rewrite Ascii.eqb_refl.
Qed.

Lemma literal_no_match c s t : literal (String c s) = true -> match_here (String c s +:+ t) = None.
Proof.
  intros [H _]%andb_true_iff. change (String c s +:+ t) with (String c (s +:+ t)).
  destruct (Ascii.eqb c dollar) eqn:Ec; cbn [andb] in H.
  - destruct s as [|d s]; [done|]. change (String d s +:+ t) with (String d (s +:+ t)). cbn [match_here].
    destruct (Ascii.eqb d lbrace); [done|]. rewrite Ec. cbn [andb]. by destruct (s +:+ t).
  - cbn [match_here]. rewrite Ec. cbn [andb]. destruct (s +:+ t) as [|? [|? ?]]; done.
Qed.

Lemma expand_literal env s t : literal s = true -> expand_from env 0 (s +:+ t) = s +:+ expand_from env 0 t.
Proof.
  induction s as [|c s IH]; intros H; [done|].
  pose proof (literal_no_match c s t H) as Hm. change (String c s +:+ t) with (String c (s +:+ t)) in *.
  cbn [expand_from]. rewrite Hm. apply andb_true_iff in H as [_ H]. by rewrite IH.
Qed.

(** C40: Expansion evaluates templates.  A text made of literals and
    placeholders [${VAR}] and [${VAR:-default}] expands to the literals and
    the variables' values, with the default (or nothing) for a variable that
    is unset or empty; the values are inserted once, so that a value which
    itself looks like a placeholder, or a default, is never expanded again. *)
Theorem expand_template LookupEnv t :
  forallb piece_ok t = true -> Expand LookupEnv (print_template t) = eval_template LookupEnv t.
Proof.
  unfold Expand. induction t as [|p t IH]; [done|]. cbn [forallb]. intros [Hp Ht]%andb_true_iff.
  cbn [print_template eval_template foldr]. fold (print_template t) (eval_template LookupEnv t).
  destruct p as [s|name def]; [cbn; rewrite expand_literal by done; f_equal; by apply IH|].
  pose proof (match_here_var name def (print_template t) Hp) as Hm. rewrite <- IH by done.
  destruct def as [def|]; cbn [print_piece eval_piece] in *.
  - change ("${" +:+ name +:+ ":-" +:+ def +:+ "}") with (String dollar ("{" +:+ name +:+ ":-" +:+ def +:+ "}")) in *.
    by apply (expand_match _ _ _ ("{" +:+ name +:+ ":-" +:+ def +:+ "}")).
  - change ("${" +:+ name +:+ "}") with (String dollar ("{" +:+ name +:+ "}")) in *.
    by apply (expand_match _ _ _ ("{" +:+ name +:+ "}")).
Qed.

Lemma expand_template_witness :
  Expand (fun n => if bool_decide (n = "KEY") then Some "${HOME}" else None) "a $5 ${KEY}/${X_1:-d:e}${Y}"
  = "a $5 ${HOME}/d:e".
Proof.
  exact (expand_template (fun n => if bool_decide (n = "KEY") then Some "${HOME}" else None)
    [Lit "a $5 "; Var "KEY" None; Lit "/"; Var "X_1" (Some "d:e"); Var "Y" None] eq_refl).
Defined.

End Envexpand.

(** ** The configuration *)

Record PromptCompressionConfig := {
  pcc_Enabled : bool; pcc_TriggerRatio : float64; pcc_MinKeepMessages : Z; pcc_DefaultWindow : Z;
  pcc_ModelWindows : gmap string Z
}.
Record RoutingCondition := {
  rcd_MaxTokens : Z; rcd_Model : string; rcd_Weight : float64; rcd_MinTokens : Z;
  rcd_KeywordsAny : list string; rcd_KeywordsNone : list string
}.
Record RoutingRule := { rr_Name : string; rr_RouteTo : string; rr_When : RoutingCondition }.
Record RoutingConfig := { rtc_Enabled : bool; rtc_Rules : list RoutingRule }.
Record BillingWorkerConfig := { bwc_BufferSize : Z; bwc_Workers : Z; bwc_FlushTimeout : Z }.
Record BillingConfig := { bc_Worker : BillingWorkerConfig; bc_PricingReloadInterval : Z }.
Record RouterRetryConfig := {
  rrc_MaxRetries : Z; rrc_MaxTotal : Z; rrc_BaseBackoff : Z; rrc_MaxBackoff : Z
}.
Record RouterBreakerConfig := {
  rbc_MaxRequests : Z; rbc_Interval : Z; rbc_Timeout : Z; rbc_FailureRatio : float64; rbc_MinRequests : Z
}.
Record RouterConfig := { roc_Retry : RouterRetryConfig; roc_Breaker : RouterBreakerConfig }.
Record StaticAuthKey := {
  sak_ID : string; sak_Name : string; sak_Secret : string; sak_Scopes : gmap string (list string)
}.
Record AuthCacheConfig := { acc_PositiveTTL : Z; acc_NegativeTTL : Z }.
Record AuthConfig := { ac_Cache : AuthCacheConfig; ac_StaticKeys : list StaticAuthKey }.
Record ServerConfig := {
  sc_Addr : string; sc_ReadTimeout : Z; sc_WriteTimeout : Z; sc_ShutdownTimeout : Z;
  sc_PreShutdownDelay : Z; sc_AdminCORSOrigins : list string
}.
Record LogConfig := { lc_Level : string; lc_Format : string }.
Record MetricsConfig := { mc_Enabled : bool; mc_Path : string }.
Record TracingConfig := {
  tc_Enabled : bool; tc_Endpoint : string; tc_ServiceName : string; tc_SampleRatio : float64
}.
Record ObservabilityConfig := { oc_Metrics : MetricsConfig; oc_Tracing : TracingConfig }.
Record DatabaseConfig := {
  dc_DSN : string; dc_MaxOpenConns : Z; dc_MaxIdleConns : Z; dc_ConnMaxLifetime : Z
}.
Record RedisConfig := { rdc_Addr : string; rdc_Password : string; rdc_DB : Z; rdc_PoolSize : Z }.
Record ExactCacheConfig := { ec_Enabled : bool; ec_TTL : Z }.
Record RateLimitRule := {
  rlr_Name : string; rlr_Algorithm : string; rlr_Rate : string; rlr_Window : Z; rlr_Limit : Z;
  rlr_Burst : Z; rlr_KeyBy : list string; rlr_Unit : string
}.

Record Config := {
  c_Server : ServerConfig; c_Log : LogConfig; c_Observability : ObservabilityConfig;
  c_Database : DatabaseConfig; c_Redis : RedisConfig; c_ProvidersFile : string; c_Auth : AuthConfig;
  c_RateLimits : list RateLimitRule; c_Router : RouterConfig; c_Routing : RoutingConfig;
  c_Billing : BillingConfig; c_Cache : ExactCacheConfig; c_Prompt : PromptCompressionConfig
}.

(** [setDefaults]: the configuration of an empty file and environment; keys
    without a default are zero. *)
Definition setDefaults : Config := {|
  c_Server := {| sc_Addr := ":8080"; sc_ReadTimeout := 10 * Second; sc_WriteTimeout := 600 * Second;
                 sc_ShutdownTimeout := 30 * Second; sc_PreShutdownDelay := 5 * Second;
                 sc_AdminCORSOrigins := [] |};
  c_Log := {| lc_Level := "info"; lc_Format := "json" |};
  c_Observability := {| oc_Metrics := {| mc_Enabled := true; mc_Path := "/metrics" |};
                        oc_Tracing := {| tc_Enabled := false; tc_Endpoint := ""; tc_ServiceName := "x-beacon";
                                         tc_SampleRatio := lit 1 10 |} |};
  c_Database := {| dc_DSN := ""; dc_MaxOpenConns := 20; dc_MaxIdleConns := 5;
                   dc_ConnMaxLifetime := 30 * Minute |};
  c_Redis := {| rdc_Addr := ""; rdc_Password := ""; rdc_DB := 0; rdc_PoolSize := 50 |};
  c_ProvidersFile := "configs/providers.yaml";
  c_Auth := {| ac_Cache := {| acc_PositiveTTL := 60 * Second; acc_NegativeTTL := 5 * Second |};
               ac_StaticKeys := [] |};
  c_RateLimits := [];
  c_Router := {| roc_Retry := {| rrc_MaxRetries := 2; rrc_MaxTotal := 30 * Second;
                                 rrc_BaseBackoff := 100 * Millisecond; rrc_MaxBackoff := 5 * Second |};
                 roc_Breaker := {| rbc_MaxRequests := 1; rbc_Interval := 60 * Second;
                                   rbc_Timeout := 30 * Second; rbc_FailureRatio := lit 1 2;
                                   rbc_MinRequests := 5 |} |};
  c_Routing := {| rtc_Enabled := false; rtc_Rules := [] |};
  c_Billing := {| bc_Worker := {| bwc_BufferSize := 10000; bwc_Workers := 2; bwc_FlushTimeout := 5 * Second |};
                  bc_PricingReloadInterval := 30 * Minute |};
  c_Cache := {| ec_Enabled := true; ec_TTL := 60 * Minute |};
  c_Prompt := {| pcc_Enabled := false; pcc_TriggerRatio := lit 4 5; pcc_MinKeepMessages := 2;
                 pcc_DefaultWindow := 128000; pcc_ModelWindows := ∅ |}
|}.

Section Validate.
(** [strings.ToLower], and [%v] of a float. *)
Context (ToLower : string -> string) (FormatFloat : float64 -> string).

Definition check (bad : bool) (err : error) : list error := if bad then [err] else [].
Definition msg (s : string) : error := Errorf s [] None.

Definition Validate_errs (c : Config) : list error :=
  let s := c.(c_Server) in
  let t := c.(c_Observability).(oc_Tracing) in
  let p := c.(c_Prompt) in
  check (bool_decide (s.(sc_Addr) = "")) (msg "server.addr is required")
  ++ check (s.(sc_ReadTimeout) <=? 0) (msg "server.read_timeout must be > 0")
  ++ check (s.(sc_WriteTimeout) <=? 0) (msg "server.write_timeout must be > 0")
  ++ check (s.(sc_ShutdownTimeout) <=? 0) (msg "server.shutdown_timeout must be > 0")
  ++ check (s.(sc_PreShutdownDelay) <? 0) (msg "server.pre_shutdown_delay must be >= 0")
  ++ check (negb (bool_decide (ToLower c.(c_Log).(lc_Level) ∈ ["debug"; "info"; "warn"; "error"])))
       (Errorf "log.level %q invalid (allowed: debug|info|warn|error)" [ArgS c.(c_Log).(lc_Level)] None)
  ++ check (negb (bool_decide (ToLower c.(c_Log).(lc_Format) ∈ ["json"; "console"])))
       (Errorf "log.format %q invalid (allowed: json|console)" [ArgS c.(c_Log).(lc_Format)] None)
  ++ check (t.(tc_Enabled) && bool_decide (t.(tc_Endpoint) = ""))
       (msg "observability.tracing.endpoint is required when tracing is enabled")
  ++ check (f_ltb t.(tc_SampleRatio) f_zero || f_ltb (of_Z 1) t.(tc_SampleRatio))
       (Errorf "observability.tracing.sample_ratio %v out of [0,1]" [ArgS (FormatFloat t.(tc_SampleRatio))] None)
  ++ (if p.(pcc_Enabled) then
        check (f_leb p.(pcc_TriggerRatio) f_zero || f_ltb (of_Z 1) p.(pcc_TriggerRatio))
          (Errorf "prompt.compression.trigger_ratio %v out of (0,1]" [ArgS (FormatFloat p.(pcc_TriggerRatio))] None)
        ++ check (p.(pcc_DefaultWindow) <=? 0) (msg "prompt.compression.default_window must be > 0")
        ++ check (p.(pcc_MinKeepMessages) <? 0) (msg "prompt.compression.min_keep_messages must be >= 0")
      else [])
  ++ check (c.(c_Database).(dc_MaxOpenConns) <? 0) (msg "database.max_open_conns must be >= 0")
  ++ check (c.(c_Database).(dc_MaxIdleConns) <? 0) (msg "database.max_idle_conns must be >= 0").

(** [errors.Join] of none is nil. *)
Definition Validate (c : Config) : option error :=
  match Validate_errs c with [] => None | errs => Some (Errors.Join errs) end.

(** viper: reading the file, and decoding file, defaults and environment. *)
Context (ReadInConfig : string -> option error) (Unmarshal : string -> error + Config).

Definition Load (path : string) : error + Config :=
  match (if bool_decide (path = "") then None else ReadInConfig path) with
  | Some err => inl (Errorf "read config %q: %w" [ArgS path] (Some err))
  | None =>
      match Unmarshal path with
      | inl err => inl (Errorf "decode config: %w" [] (Some err))
      | inr cfg =>
          match Validate cfg with
          | Some err => inl (Errorf "validate config: %w" [] (Some err))
          | None => inr cfg
          end
      end
  end.

(** What a validated configuration satisfies. *)
Record valid (c : Config) : Prop := {
  v_addr : c.(c_Server).(sc_Addr) <> "";
  v_timeouts : 0 < c.(c_Server).(sc_ReadTimeout) /\ 0 < c.(c_Server).(sc_WriteTimeout) /\
               0 < c.(c_Server).(sc_ShutdownTimeout) /\ 0 <= c.(c_Server).(sc_PreShutdownDelay);
  v_level : ToLower c.(c_Log).(lc_Level) ∈ ["debug"; "info"; "warn"; "error"];
  v_format : ToLower c.(c_Log).(lc_Format) ∈ ["json"; "console"];
  v_tracing : c.(c_Observability).(oc_Tracing).(tc_Enabled) = true ->
              c.(c_Observability).(oc_Tracing).(tc_Endpoint) <> "";
  v_sample : let r := c.(c_Observability).(oc_Tracing).(tc_SampleRatio) in
             f_ltb r f_zero = false /\ f_ltb (of_Z 1) r = false;
  v_prompt : let p := c.(c_Prompt) in p.(pcc_Enabled) = true ->
             f_leb p.(pcc_TriggerRatio) f_zero = false /\ f_ltb (of_Z 1) p.(pcc_TriggerRatio) = false /\
             0 < p.(pcc_DefaultWindow) /\ 0 <= p.(pcc_MinKeepMessages);
  v_conns : 0 <= c.(c_Database).(dc_MaxOpenConns) /\ 0 <= c.(c_Database).(dc_MaxIdleConns)
}.

Lemma check_nil bad err : check bad err = [] <-> bad = false.
Proof. by destruct bad. Qed.

Lemma Validate_errs_nil c : Validate_errs c = [] <-> valid c.
Proof.
  unfold Validate_errs. rewrite !app_nil, !check_nil, !Z.leb_gt, !Z.ltb_ge, !negb_false_iff.
  rewrite !bool_decide_eq_true, bool_decide_eq_false, andb_false_iff, bool_decide_eq_false, orb_false_iff.
  split.
  - intros (? & ? & ? & ? & ? & ? & ? & Ht & Hs & Hp & ? & ?). constructor; try done.
    + intros He. by destruct Ht as [Ht|Ht]; [rewrite He in Ht|].
    + cbn. intros He. rewrite He in Hp.
      rewrite !app_nil, !check_nil, Z.leb_gt, Z.ltb_ge, orb_false_iff in Hp. tauto.
  - intros [? (? & ? & ? & ?) ? ? Ht Hs Hp (? & ?)]. destruct Hs as [Hs1 Hs2]. split_and!; try done.
    + destruct (tc_Enabled _) eqn:E; [right; by apply Ht|by left].
    + destruct (pcc_Enabled _) eqn:E; [|done]. destruct Hp as (Hp1 & Hp2 & Hp3 & Hp4); [done|].
      by rewrite !app_nil, !check_nil, Z.leb_gt, Z.ltb_ge, orb_false_iff.
Qed.

Lemma Validate_None c : Validate c = None <-> valid c.
Proof. rewrite <- Validate_errs_nil. unfold Validate. by destruct (Validate_errs c). Qed.

(** A configuration is loaded only if it is valid. *)
Lemma Load_valid path c : Load path = inr c -> valid c.
Proof.
  unfold Load. destruct (if bool_decide (path = "") then _ else _); [done|].
  destruct (Unmarshal path) as [|cfg]; [done|]. destruct (Validate cfg) eqn:E; [done|].
  intros [= <-]. by apply Validate_None.
Qed.
End Validate.
