(* ===== verification/Registry.v ===== *)
(** * Registry: adapter construction and model resolution

    The constructors of the three adapters ([provider/openai/openai.go],
    [provider/deepseek/deepseek.go], [provider/anthropic/anthropic.go]) and the
    provider table built from them ([provider/registry/loader.go],
    [provider/registry/registry.go]). *)

From S2P Require Import Prelude GoStd Float64 Errors Types.
From stdpp Require Import sorting.
From Stdlib Require Import Ascii.
Local Open Scope Z_scope.

(** ** Adapters *)

Record Models := { Exact : list string; Glob : list string }.

Definition err_msg (s : string) : error := Errorf s [] None.

Module openai.

Definition defaultEndpoint : string := "https://api.openai.com".
Definition defaultTimeout : Z := 60 * Second.

Record Config := {
  cfg_Name : string; cfg_Endpoint : string; cfg_APIKey : string; cfg_Organization : string;
  cfg_Timeout : Z; cfg_Models : Models; cfg_OwnedBy : string
}.

(** The adapter; the HTTP client is outside the model. *)
Record Provider := { cfg : Config; baseURL : string }.

Definition New (c : Config) : error + Provider :=
  if bool_decide (c.(cfg_Name) = "") then inl (err_msg "openai: Config.Name is required")
  else if bool_decide (c.(cfg_APIKey) = "") then inl (err_msg "openai: Config.APIKey is required")
  else
    let c' := {| cfg_Name := c.(cfg_Name);
                 cfg_Endpoint := if bool_decide (c.(cfg_Endpoint) = "") then defaultEndpoint
                                 else c.(cfg_Endpoint);
                 cfg_APIKey := c.(cfg_APIKey);
                 cfg_Organization := c.(cfg_Organization);
                 cfg_Timeout := if c.(cfg_Timeout) =? 0 then defaultTimeout else c.(cfg_Timeout);
                 cfg_Models := c.(cfg_Models);
                 cfg_OwnedBy := if bool_decide (c.(cfg_OwnedBy) = "") then "openai"
                                else c.(cfg_OwnedBy) |} in
    inr {| cfg := c'; baseURL := Strings.TrimRight c'.(cfg_Endpoint) "/"%char |}.

Definition Name (p : Provider) : string := p.(cfg).(cfg_Name).

Definition SupportedModels (p : Provider) : list ModelInfo :=
  map (fun id => base_model id p.(cfg).(cfg_OwnedBy) p.(cfg).(cfg_Name))
      p.(cfg).(cfg_Models).(Exact).

(** [setHeaders]; [UserAgent] is [version.UserAgent()]. *)
Definition setHeaders (UserAgent : string) (p : Provider) : list (string * string) :=
  [("Authorization", "Bearer " +:+ p.(cfg).(cfg_APIKey));
   ("Content-Type", "application/json"); ("Accept", "application/json");
   ("User-Agent", UserAgent)]
  ++ (if bool_decide (p.(cfg).(cfg_Organization) = "") then []
      else [("OpenAI-Organization", p.(cfg).(cfg_Organization))]).

End openai.

Module deepseek.

Definition defaultEndpoint : string := "https://api.deepseek.com".

Record Config := {
  cfg_Name : string; cfg_Endpoint : string; cfg_APIKey : string; cfg_Timeout : Z;
  cfg_Models : Models
}.

Definition New (c : Config) : error + openai.Provider :=
  openai.New {| openai.cfg_Name := c.(cfg_Name);
                openai.cfg_Endpoint := if bool_decide (c.(cfg_Endpoint) = "") then defaultEndpoint
                                       else c.(cfg_Endpoint);
                openai.cfg_APIKey := c.(cfg_APIKey);
                openai.cfg_Organization := "";
                openai.cfg_Timeout := c.(cfg_Timeout);
                openai.cfg_Models := c.(cfg_Models);
                openai.cfg_OwnedBy := "deepseek" |}.

End deepseek.

Module anthropic.

Definition defaultEndpoint : string := "https://api.anthropic.com".
Definition defaultTimeout : Z := 60 * Second.
Definition defaultAPIVersion : string := "2023-06-01".
Definition defaultMaxTokens : Z := 4096.

Record Config := {
  cfg_Name : string; cfg_Endpoint : string; cfg_APIKey : string; cfg_APIVersion : string;
  cfg_Timeout : Z; cfg_DefaultMaxTokens : Z; cfg_Models : Models
}.

Record Provider := { cfg : Config; baseURL : string; max_tokens : Z }.

Definition New (c : Config) : error + Provider :=
  if bool_decide (c.(cfg_Name) = "") then inl (err_msg "anthropic: Config.Name is required")
  else if bool_decide (c.(cfg_APIKey) = "") then
    inl (err_msg "anthropic: Config.APIKey is required")
  else
    let c' := {| cfg_Name := c.(cfg_Name);
                 cfg_Endpoint := if bool_decide (c.(cfg_Endpoint) = "") then defaultEndpoint
                                 else c.(cfg_Endpoint);
                 cfg_APIKey := c.(cfg_APIKey);
                 cfg_APIVersion := if bool_decide (c.(cfg_APIVersion) = "") then defaultAPIVersion
                                   else c.(cfg_APIVersion);
                 cfg_Timeout := if c.(cfg_Timeout) =? 0 then defaultTimeout else c.(cfg_Timeout);
                 cfg_DefaultMaxTokens := if c.(cfg_DefaultMaxTokens) =? 0 then defaultMaxTokens
                                         else c.(cfg_DefaultMaxTokens);
                 cfg_Models := c.(cfg_Models) |} in
    inr {| cfg := c'; baseURL := Strings.TrimRight c'.(cfg_Endpoint) "/"%char;
           max_tokens := c'.(cfg_DefaultMaxTokens) |}.

Definition Name (p : Provider) : string := p.(cfg).(cfg_Name).

Definition SupportedModels (p : Provider) : list ModelInfo :=
  map (fun id => base_model id "anthropic" p.(cfg).(cfg_Name)) p.(cfg).(cfg_Models).(Exact).

Definition setHeaders (UserAgent : string) (p : Provider) : list (string * string) :=
  [("x-api-key", p.(cfg).(cfg_APIKey)); ("anthropic-version", p.(cfg).(cfg_APIVersion));
   ("content-type", "application/json"); ("accept", "application/json");
   ("user-agent", UserAgent)].

End anthropic.

(** The concrete providers the loader constructs (DeepSeek is an OpenAI
    adapter with its own attribution). *)
Inductive adapter := OpenAI (p : openai.Provider) | Anthropic (p : anthropic.Provider).

#[export] Instance adapter_Provider : Provider adapter := {
  Name p := match p with OpenAI p => openai.Name p | Anthropic p => anthropic.Name p end;
  SupportedModels p :=
    match p with
    | OpenAI p => openai.SupportedModels p
    | Anthropic p => anthropic.SupportedModels p
    end
}.

(** ** providers.yaml *)

Record providerConfig := {
  pc_Name : string; pc_Type : string; pc_Endpoint : string; pc_APIKey : string;
  pc_Organization : string; pc_Timeout : Z; pc_Priority : Z; pc_Models : Models
}.

Record providersFile := { Providers : list providerConfig; DefaultProvider : string }.

Definition constructProvider (pc : providerConfig) : error + adapter :=
  if bool_decide (pc.(pc_Type) = "openai") then
    match openai.New
      {| openai.cfg_Name := pc.(pc_Name); openai.cfg_Endpoint := pc.(pc_Endpoint);
         openai.cfg_APIKey := pc.(pc_APIKey); openai.cfg_Organization := pc.(pc_Organization);
         openai.cfg_Timeout := pc.(pc_Timeout); openai.cfg_Models := pc.(pc_Models);
         openai.cfg_OwnedBy := "" |}
    with inl e => inl e | inr p => inr (OpenAI p) end
  else if bool_decide (pc.(pc_Type) = "deepseek") then
    match deepseek.New
      {| deepseek.cfg_Name := pc.(pc_Name); deepseek.cfg_Endpoint := pc.(pc_Endpoint);
         deepseek.cfg_APIKey := pc.(pc_APIKey); deepseek.cfg_Timeout := pc.(pc_Timeout);
         deepseek.cfg_Models := pc.(pc_Models) |}
    with inl e => inl e | inr p => inr (OpenAI p) end
  else if bool_decide (pc.(pc_Type) = "anthropic") then
    match anthropic.New
      {| anthropic.cfg_Name := pc.(pc_Name); anthropic.cfg_Endpoint := pc.(pc_Endpoint);
         anthropic.cfg_APIKey := pc.(pc_APIKey); anthropic.cfg_APIVersion := "";
         anthropic.cfg_Timeout := pc.(pc_Timeout); anthropic.cfg_DefaultMaxTokens := 0;
         anthropic.cfg_Models := pc.(pc_Models) |}
    with inl e => inl e | inr p => inr (Anthropic p) end
  else inl (Errorf "unknown provider type %q (supported: openai, deepseek, anthropic)"
              [ArgS pc.(pc_Type)] None).

(** ** The provider table *)

Section Table.
Context {P : Type} `{!Provider P}.

Record globRule := { pattern : string; rule_provider : P }.

Record registryState := {
  names : list string;
  byName : gmap string P;
  exactIndex : gmap string P;
  globRules : list globRule;
  defaultProvider : option P
}.

(** [Registry] is one atomic pointer to an immutable table; loads and stores of
    it are explicit in the operations below. *)
Record Registry := { state : registryState }.

Definition newRegistry (st : registryState) : Registry := {| state := st |}.

Definition NewEmpty : Registry :=
  newRegistry {| names := []; byName := ∅; exactIndex := ∅; globRules := [];
                 defaultProvider := None |}.

Definition Swap (r from : Registry) : Registry := {| state := from.(state) |}.

Definition GetByName (r : Registry) (name : string) : error + P :=
  match r.(state).(byName) !! name with
  | Some p => inr p
  | None => inl (Errorf "%w: %q" [ArgS name] (Some (Sentinel_ ErrUnknownProvider)))
  end.

(** The [add] closure of [ResolveChain], on the names seen and the chain. *)
Definition add (p : option P) (acc : gset string * list P) : gset string * list P :=
  let '(seen, chain) := acc in
  match p with
  | None => acc
  | Some p => if bool_decide (Name p ∈ seen) then acc
              else ({[Name p]} ∪ seen, chain ++ [p])
  end.

Definition ResolveChain (r : Registry) (model : string) : list P :=
  let st := r.(state) in
  let acc := add (st.(exactIndex) !! model) (∅, []) in
  let acc := fold_left (fun acc rule =>
      match Path.Match rule.(pattern) model with
      | Some true => add (Some rule.(rule_provider)) acc
      | Some false | None => acc
      end) st.(globRules) acc in
  (add st.(defaultProvider) acc).2.

Definition ResolveModel (r : Registry) (model : string) : error + P :=
  match ResolveChain r model with
  | [] => inl (Errorf "%w: %q" [ArgS model] (Some (Sentinel_ ErrNoProviderForModel)))
  | p :: _ => inr p
  end.

Definition Names (r : Registry) : list string := r.(state).(names).

Definition model_le (m1 m2 : ModelInfo) : Prop :=
  Strings.LessEq m1.(mod_ID) m2.(mod_ID).
#[global] Instance model_le_dec m1 m2 : Decision (model_le m1 m2) := Strings.LessEq_dec _ _.

Definition add_model (acc : gset string * list ModelInfo) (m : ModelInfo)
    : gset string * list ModelInfo :=
  let '(seen, out) := acc in
  if bool_decide (m.(mod_ID) ∈ seen) then acc else ({[m.(mod_ID)]} ∪ seen, out ++ [m]).

(** Names are registered names, so the lookup in [AllModels] never misses; a
    missing one would be a nil dereference in the source. *)
Definition AllModels (r : Registry) : option (list ModelInfo) :=
  let st := r.(state) in
  ps ← mapM (fun n => st.(byName) !! n) st.(names);
  let '(_, out) := fold_left (fun acc p => fold_left add_model (SupportedModels p) acc) ps (∅, []) in
  Some (merge_sort model_le out).
End Table.

Arguments globRule : clear implicits.
Arguments registryState : clear implicits.
Arguments Registry : clear implicits.

(** ** Loading *)

Definition validateProviderConfig (idx : Z) (pc : providerConfig) : list error :=
  (if bool_decide (pc.(pc_Name) = "") then
     [Errorf "providers[%d]: name is required" [ArgD idx] None] else [])
  ++ (if bool_decide (pc.(pc_Type) = "") then
     [Errorf "providers[%d] %q: type is required" [ArgD idx; ArgS pc.(pc_Name)] None] else [])
  ++ (match pc.(pc_Models).(Exact), pc.(pc_Models).(Glob) with
      | [], [] => [Errorf "providers[%d] %q: at least one model (exact or glob) is required"
                     [ArgD idx; ArgS pc.(pc_Name)] None]
      | _, _ => []
      end).

(** The locals of [build]'s loop. *)
Record build_state := {
  b_st : registryState adapter;
  b_owner : gmap string string;
  b_errs : list error
}.

Definition push_err (b : build_state) (e : error) : build_state :=
  {| b_st := b.(b_st); b_owner := b.(b_owner); b_errs := b.(b_errs) ++ [e] |}.

Definition register (b : build_state) (name : string) (p : adapter) : build_state :=
  let st := b.(b_st) in
  {| b_st := {| names := st.(names) ++ [name]; byName := <[name := p]> st.(byName);
                exactIndex := st.(exactIndex); globRules := st.(globRules);
                defaultProvider := st.(defaultProvider) |};
     b_owner := b.(b_owner); b_errs := b.(b_errs) |}.

Definition claim_exact (i : Z) (name : string) (p : adapter) (b : build_state) (m : string)
    : build_state :=
  match b.(b_owner) !! m with
  | Some owner =>
      push_err b (Errorf
        "providers[%d] %q: model %q already claimed by %q (exact matches must be unique across providers)"
        [ArgD i; ArgS name; ArgS m; ArgS owner] None)
  | None =>
      let st := b.(b_st) in
      {| b_st := {| names := st.(names); byName := st.(byName);
                    exactIndex := <[m := p]> st.(exactIndex); globRules := st.(globRules);
                    defaultProvider := st.(defaultProvider) |};
         b_owner := <[m := name]> b.(b_owner); b_errs := b.(b_errs) |}
  end.

Definition claim_glob (i : Z) (name : string) (p : adapter) (b : build_state) (g : string)
    : build_state :=
  match Path.Match g "" with
  | None => push_err b (Errorf "providers[%d] %q: invalid glob %q: %w"
              [ArgD i; ArgS name; ArgS g] (Some (Sentinel_ ErrBadPattern)))
  | Some _ =>
      let st := b.(b_st) in
      {| b_st := {| names := st.(names); byName := st.(byName);
                    exactIndex := st.(exactIndex);
                    globRules := st.(globRules) ++ [{| pattern := g; rule_provider := p |}];
                    defaultProvider := st.(defaultProvider) |};
         b_owner := b.(b_owner); b_errs := b.(b_errs) |}
  end.

Definition build_one (b : build_state) (ipc : Z * providerConfig) : build_state :=
  let '(i, pc) := ipc in
  match validateProviderConfig i pc with
  | _ :: _ as errs => push_err b (Errors.Join errs)
  | [] =>
      match b.(b_st).(byName) !! pc.(pc_Name) with
      | Some _ => push_err b (Errorf "providers[%d]: duplicate name %q"
                    [ArgD i; ArgS pc.(pc_Name)] None)
      | None =>
          match constructProvider pc with
          | inl err => push_err b (Errorf "providers[%d] %q: %w"
                         [ArgD i; ArgS pc.(pc_Name)] (Some err))
          | inr p =>
              let b := register b pc.(pc_Name) p in
              let b := fold_left (claim_exact i pc.(pc_Name) p) pc.(pc_Models).(Exact) b in
              fold_left (claim_glob i pc.(pc_Name) p) pc.(pc_Models).(Glob) b
          end
      end
  end.

Definition indexed {A} (l : list A) : list (Z * A) :=
  imap (fun i x => (Z.of_nat i, x)) l.

Definition build (pf : providersFile) : error + Registry adapter :=
  match pf.(Providers) with
  | [] => inl (err_msg "registry: providers list is empty")
  | _ =>
      let b := fold_left build_one (indexed pf.(Providers))
                 {| b_st := NewEmpty.(state); b_owner := ∅; b_errs := [] |} in
      let b :=
        if bool_decide (pf.(DefaultProvider) = "") then b
        else match b.(b_st).(byName) !! pf.(DefaultProvider) with
             | None => push_err b (Errorf "default_provider %q not registered"
                         [ArgS pf.(DefaultProvider)] None)
             | Some p =>
                 let st := b.(b_st) in
                 {| b_st := {| names := st.(names); byName := st.(byName);
                               exactIndex := st.(exactIndex); globRules := st.(globRules);
                               defaultProvider := Some p |};
                    b_owner := b.(b_owner); b_errs := b.(b_errs) |}
             end in
      match b.(b_errs) with
      | [] => inr (newRegistry b.(b_st))
      | errs => inl (Errorf "registry: load failed: %w" [] (Some (Errors.Join errs)))
      end
  end.

Section Load.
(** [os.ReadFile], the process environment, [yaml.Unmarshal]. *)
Context (ReadFile : string -> error + string) (Expand : string -> string)
        (Unmarshal : string -> error + providersFile).

Definition Load (path : string) : error + Registry adapter :=
  match ReadFile path with
  | inl err => inl (Errorf "registry: read %q: %w" [ArgS path] (Some err))
  | inr raw =>
      match Unmarshal (Expand raw) with
      | inl err => inl (Errorf "registry: parse yaml: %w" [] (Some err))
      | inr pf => build pf
      end
  end.
End Load.

(** ** Resolution *)

Section Resolution.
Context {P : Type} `{!Provider P}.
Implicit Types r : Registry P.

(** Every provider that could serve the model, tier by tier. *)
Definition glob_matches (rule : globRule P) (model : string) : bool :=
  match Path.Match rule.(pattern) model with Some b => b | None => false end.

Definition candidates r (model : string) : list P :=
  option_list (r.(state).(exactIndex) !! model)
  ++ map rule_provider (filter (fun rule => glob_matches rule model = true) r.(state).(globRules))
  ++ option_list r.(state).(defaultProvider).

(** First occurrences by name. *)
Fixpoint dedup_names (seen : gset string) (l : list P) : list P :=
  match l with
  | [] => []
  | p :: l' => if bool_decide (Name p ∈ seen) then dedup_names seen l'
               else p :: dedup_names ({[Name p]} ∪ seen) l'
  end.

Lemma fold_add l seen chain :
  (fold_left (fun acc p => add (Some p) acc) l (seen, chain)).2 = chain ++ dedup_names seen l.
Proof.
  revert seen chain. induction l as [|p l IH]; intros seen chain; simpl; [by rewrite app_nil_r|].
  case_bool_decide; rewrite IH; [done|]. by rewrite <- app_assoc.
Qed.

Lemma fold_add_option o acc :
  add o acc = fold_left (fun acc p => add (Some p) acc) (option_list o) acc.
Proof. by destruct o, acc. Qed.

Lemma fold_globs rules model acc :
  fold_left (fun acc rule =>
      match Path.Match rule.(pattern) model with
      | Some true => add (Some rule.(rule_provider)) acc
      | Some false | None => acc
      end) rules acc =
  fold_left (fun acc p => add (Some p) acc)
    (map rule_provider (filter (fun rule => glob_matches rule model = true) rules)) acc.
Proof.
  revert acc. induction rules as [|rule rules IH]; intros acc; simpl; [done|].
  rewrite IH, filter_cons. unfold glob_matches.
  by destruct (Path.Match (pattern rule) model) as [[]|].
Qed.

(** [ResolveChain] is the candidates without repeated names. *)
Lemma ResolveChain_candidates r model :
  ResolveChain r model = dedup_names ∅ (candidates r model).
Proof.
  unfold ResolveChain, candidates. rewrite fold_globs, !fold_add_option, <- !fold_left_app.
  apply (fold_add _ ∅ []).
Qed.

Lemma dedup_names_elem seen l p :
  p ∈ dedup_names seen l -> p ∈ l /\ Name p ∉ seen.
Proof.
  revert seen. induction l as [|q l IH]; intros seen; simpl; [by intros ?%elem_of_nil|].
  case_bool_decide.
  - intros [? ?]%IH. set_solver.
  - intros [->|[? ?]%IH]%elem_of_cons; set_solver.
Qed.

Lemma dedup_names_NoDup seen l : NoDup (Name <$> dedup_names seen l).
Proof.
  revert seen. induction l as [|q l IH]; intros seen; simpl; [constructor|].
  case_bool_decide; [apply IH|]. simpl. constructor; [|apply IH].
  intros (p & Heq & [_ Hp]%dedup_names_elem)%list_elem_of_fmap. set_solver.
Qed.

Lemma ResolveChain_NoDup r model : NoDup (Name <$> ResolveChain r model).
Proof. rewrite ResolveChain_candidates. apply dedup_names_NoDup. Qed.

Lemma dedup_names_complete seen l p :
  p ∈ l -> Name p ∈ seen \/ Name p ∈ Name <$> dedup_names seen l.
Proof.
  revert seen. induction l as [|q l IH]; intros seen; [by intros ?%elem_of_nil|].
  simpl. intros [->|Hp]%elem_of_cons; case_bool_decide; simpl; [by left|set_solver| |].
  - by apply IH.
  - destruct (IH ({[Name q]} ∪ seen) Hp); set_solver.
Qed.

Lemma dedup_names_sublist seen l : dedup_names seen l `sublist_of` l.
Proof.
  revert seen. induction l as [|q l IH]; intros seen; simpl; [constructor|].
  case_bool_decide; by constructor.
Qed.

Lemma dedup_names_head l : head (dedup_names ∅ l) = head l.
Proof. destruct l; simpl; [done|]. case_bool_decide; [set_solver|done]. Qed.

Lemma dedup_names_app seen l1 l2 :
  dedup_names seen (l1 ++ l2) =
  dedup_names seen l1 ++ dedup_names (list_to_set (Name <$> l1) ∪ seen) l2.
Proof.
  revert seen. induction l1 as [|q l1 IH]; intros seen; simpl.
  - f_equal. apply leibniz_equiv. set_solver.
  - case_bool_decide; rewrite IH; simpl; [|f_equal]; f_equal; f_equal; apply leibniz_equiv; set_solver.
Qed.

(** C31: The fail-over chain of a model lists each provider name once, in tier
    order (exact owner, globs in declaration order, default), has every
    candidate at its highest-priority position (the first candidate of a name,
    with nothing before it but what stands before it among the candidates), and
    starts with the highest-priority candidate. *)
Theorem ResolveChain_spec r model :
  let chain := ResolveChain r model in
  NoDup (Name <$> chain) /\
  chain `sublist_of` candidates r model /\
  (forall p, p ∈ candidates r model -> Name p ∈ Name <$> chain) /\
  (forall l1 p l2, candidates r model = l1 ++ p :: l2 -> Name p ∉ Name <$> l1 ->
     exists k1 k2, chain = k1 ++ p :: k2 /\ k1 `sublist_of` l1) /\
  head chain = head (candidates r model).
Proof.
  intros chain. unfold chain. rewrite ResolveChain_candidates. split_and!.
  - apply dedup_names_NoDup.
  - apply dedup_names_sublist.
  - intros p Hp. destruct (dedup_names_complete ∅ _ _ Hp); set_solver.
  - intros l1 p l2 -> Hp. rewrite dedup_names_app. simpl. rewrite bool_decide_false by set_solver.
    eexists _, _. split; [done|apply dedup_names_sublist].
  - apply dedup_names_head.
Qed.

(** The head of a filtered list. *)
Lemma ResolveModel_head r model :
  ResolveModel r model =
  match head (candidates r model) with
  | Some p => inr p
  | None => inl (Errorf "%w: %q" [ArgS model] (Some (Sentinel_ ErrNoProviderForModel)))
  end.
Proof.
  unfold ResolveModel. rewrite <- dedup_names_head, <- ResolveChain_candidates.
  by destruct (ResolveChain r model).
Qed.

End Resolution.

(** ** The tables [build] produces *)

Record wf_state (st : registryState adapter) : Prop := {
  wf_names : NoDup st.(names);
  wf_dom : forall n, n ∈ st.(names) <-> is_Some (st.(byName) !! n);
  wf_byName : forall n p, st.(byName) !! n = Some p -> Name p = n;
  wf_exact : forall m p, st.(exactIndex) !! m = Some p -> st.(byName) !! Name p = Some p;
  wf_globs : forall rule, rule ∈ st.(globRules) ->
    is_Some (Path.Match rule.(pattern) "") /\
    st.(byName) !! Name rule.(rule_provider) = Some rule.(rule_provider);
  wf_default : forall p, st.(defaultProvider) = Some p -> st.(byName) !! Name p = Some p
}.

Lemma constructProvider_Name pc p : constructProvider pc = inr p -> Name p = pc.(pc_Name).
Proof.
  unfold constructProvider, deepseek.New, openai.New, anthropic.New. simpl.
  intros H. repeat (case_bool_decide; simplify_eq/=; try done).
Qed.

Lemma wf_empty : wf_state NewEmpty.(state).
Proof.
  split; simpl; try done.
  - constructor.
  - intros n. rewrite lookup_empty, is_Some_alt. set_solver.
  - set_solver.
Qed.

(** The loop invariant of [build]: the table is well formed, and the owner map
    records the index. *)
Record build_inv (b : build_state) : Prop := {
  bi_wf : wf_state b.(b_st);
  bi_owner : forall m, b.(b_owner) !! m = Name <$> b.(b_st).(exactIndex) !! m
}.

Lemma push_err_inv b e : build_inv b -> build_inv (push_err b e).
Proof. by intros [? ?]; split. Qed.

Lemma register_inv b name p :
  build_inv b -> Name p = name -> b.(b_st).(byName) !! name = None ->
  build_inv (register b name p).
Proof.
  intros [Hwf How] Hn Hfresh. split; [|done].
  assert (Hne : forall q, b.(b_st).(byName) !! Name q = Some q -> name <> Name q)
    by (intros q Hq ->; congruence).
  destruct Hwf as [H1 H2 H3 H4 H5 H6]. split; simpl.
  - apply NoDup_app. split_and!; [done| |by apply NoDup_singleton].
    intros n Hin ->%list_elem_of_singleton. apply H2 in Hin as [? ?]. congruence.
  - intros n. rewrite elem_of_app, list_elem_of_singleton, H2, lookup_insert_is_Some'.
    naive_solver.
  - intros n q. rewrite lookup_insert_Some. naive_solver.
  - intros m q Hq%H4. rewrite lookup_insert_ne; auto.
  - intros rule [? Hr]%H5. rewrite lookup_insert_ne; auto.
  - intros q Hq%H6. rewrite lookup_insert_ne; auto.
Qed.

Lemma claim_exact_inv i name p b m :
  build_inv b -> Name p = name -> b.(b_st).(byName) !! name = Some p ->
  build_inv (claim_exact i name p b m) /\
  (claim_exact i name p b m).(b_st).(byName) = b.(b_st).(byName).
Proof.
  intros [Hwf How] Hn Hreg. unfold claim_exact.
  destruct (b_owner b !! m) eqn:E; [by split; [apply push_err_inv|]|].
  split; [|done]. destruct Hwf as [H1 H2 H3 H4 H5 H6]. split; [split; simpl; try done|].
  - intros m' q [[<- <-]|[? Hq]]%lookup_insert_Some; [by rewrite Hn|by eapply H4].
  - intros m'. simpl. destruct (decide (m = m')) as [->|Hne].
    + rewrite !lookup_insert_eq. simpl. by rewrite Hn.
    + rewrite !lookup_insert_ne by done. apply How.
Qed.

Lemma claim_glob_inv i name p b g :
  build_inv b -> Name p = name -> b.(b_st).(byName) !! name = Some p ->
  build_inv (claim_glob i name p b g) /\
  (claim_glob i name p b g).(b_st).(byName) = b.(b_st).(byName).
Proof.
  intros [Hwf How] Hn Hreg. unfold claim_glob.
  destruct (Path.Match g "") eqn:E; [|by split; [apply push_err_inv|]].
  split; [|done]. destruct Hwf as [H1 H2 H3 H4 H5 H6]. split; [split; simpl; try done|done].
  intros rule [Hr| ->%list_elem_of_singleton]%elem_of_app; [by apply H5|].
  simpl. rewrite E, Hn. by split.
Qed.

Section Folds.
Context (f : build_state -> string -> build_state) (name : string) (p : adapter).
Context (Hf : forall b x, build_inv b -> b.(b_st).(byName) !! name = Some p ->
  build_inv (f b x) /\ (f b x).(b_st).(byName) = b.(b_st).(byName)).

Lemma fold_inv l b :
  build_inv b -> b.(b_st).(byName) !! name = Some p ->
  build_inv (fold_left f l b) /\ (fold_left f l b).(b_st).(byName) = b.(b_st).(byName).
Proof.
  revert b. induction l as [|x l IH]; intros b Hb Hr; simpl; [done|].
  destruct (Hf b x Hb Hr) as [H1 H2]. rewrite <- H2. apply IH; [done|by rewrite H2].
Qed.
End Folds.

Lemma build_one_inv b ipc : build_inv b -> build_inv (build_one b ipc).
Proof.
  intros Hb. destruct ipc as [i pc]. unfold build_one.
  destruct (validateProviderConfig i pc); [|by apply push_err_inv].
  destruct (byName (b_st b) !! pc_Name pc) eqn:E; [by apply push_err_inv|].
  destruct (constructProvider pc) as [err|p] eqn:Ep; [by apply push_err_inv|].
  apply constructProvider_Name in Ep.
  assert (Hr : (register b (pc_Name pc) p).(b_st).(byName) !! pc_Name pc = Some p)
    by apply lookup_insert_eq.
  destruct (fold_inv (claim_exact i (pc_Name pc) p) (pc_Name pc) p) with
    (l := Exact (pc_Models pc)) (b := register b (pc_Name pc) p) as [H1 H2].
  - intros. by apply claim_exact_inv.
  - by apply register_inv.
  - done.
  - apply (fold_inv (claim_glob i (pc_Name pc) p) (pc_Name pc) p); [|done|by rewrite H2].
    intros. by apply claim_glob_inv.
Qed.

Lemma build_loop_inv l b : build_inv b -> build_inv (fold_left build_one l b).
Proof. revert b. induction l; simpl; intros; auto using build_one_inv. Qed.

Lemma build_inv_init : build_inv {| b_st := NewEmpty.(state); b_owner := ∅; b_errs := [] |}.
Proof. split; [apply wf_empty|]. intros m. simpl. by rewrite !lookup_empty. Qed.

(** What is known of a run of the loop that reported no error: every exact
    model of every processed entry is indexed under that entry's name. *)
Definition owned (b : build_state) (name m : string) : Prop :=
  exists p, b.(b_st).(exactIndex) !! m = Some p /\ Name p = name.

(** [b'] extends [b] when it has no errors of its own and keeps the index. *)
Definition extends (b b' : build_state) : Prop :=
  b'.(b_errs) = [] -> b.(b_errs) = [] /\ forall n m, owned b n m -> owned b' n m.

Lemma extends_refl b : extends b b.
Proof. done. Qed.
Lemma extends_trans b1 b2 b3 : extends b1 b2 -> extends b2 b3 -> extends b1 b3.
Proof. intros H12 H23 H3. destruct (H23 H3) as [H2 ?]. destruct (H12 H2). auto. Qed.

Lemma push_err_extends b e : extends b (push_err b e).
Proof. intros H. simpl in H. by apply app_nil in H as [_ ?]. Qed.

Lemma fold_extends {A} (f : build_state -> A -> build_state) l b :
  (forall b x, extends b (f b x)) -> extends b (fold_left f l b).
Proof.
  intros Hf. revert b. induction l as [|x l IH]; intros b; simpl; [apply extends_refl|].
  eapply extends_trans; [apply Hf|apply IH].
Qed.

Lemma claim_exact_extends i name p b m :
  build_inv b -> Name p = name ->
  extends b (claim_exact i name p b m) /\
  ((claim_exact i name p b m).(b_errs) = [] -> owned (claim_exact i name p b m) name m).
Proof.
  intros [_ How] Hn. unfold claim_exact. specialize (How m).
  destruct (b_owner b !! m) as [o|] eqn:E.
  - split; [apply push_err_extends|]. simpl. intros [_ ?]%app_nil. done.
  - split.
    + intros Herr. split; [done|]. intros n m' (q & Hq & ?). exists q. split; [|done]. simpl.
      rewrite lookup_insert_ne; [done|]. intros ->. rewrite Hq in How. done.
    + intros _. exists p. simpl. by rewrite lookup_insert_eq.
Qed.

Lemma claim_exacts_owned i name p l b :
  build_inv b -> Name p = name -> b.(b_st).(byName) !! name = Some p ->
  let b' := fold_left (claim_exact i name p) l b in
  extends b b' /\ (b'.(b_errs) = [] -> forall m, m ∈ l -> owned b' name m).
Proof.
  intros Hb Hn. revert b Hb. induction l as [|x l IH]; intros b Hb Hr; simpl.
  { split; [apply extends_refl|]. intros _ m Hm. by apply elem_of_nil in Hm. }
  destruct (claim_exact_inv i name p b x Hb Hn Hr) as [Hb1 Hr1].
  destruct (claim_exact_extends i name p b x Hb Hn) as [He Ho].
  destruct (IH _ Hb1) as [He' Ho']; [by rewrite Hr1|].
  split; [by eapply extends_trans|]. intros Herr m [->|Hm]%elem_of_cons; [|by apply Ho'].
  destruct (He' Herr) as [Herr1 Hext]. apply Hext, Ho, Herr1.
Qed.

Lemma claim_glob_extends i name p b g : extends b (claim_glob i name p b g).
Proof.
  unfold claim_glob. destruct (Path.Match g ""); [done|apply push_err_extends].
Qed.

Lemma build_one_owned b i pc :
  build_inv b -> extends b (build_one b (i, pc)) /\
  ((build_one b (i, pc)).(b_errs) = [] ->
   forall m, m ∈ pc.(pc_Models).(Exact) -> owned (build_one b (i, pc)) pc.(pc_Name) m).
Proof.
  assert (Hpush : forall e, extends b (push_err b e) /\
    ((push_err b e).(b_errs) = [] ->
     forall m, m ∈ pc.(pc_Models).(Exact) -> owned (push_err b e) pc.(pc_Name) m)).
  { intros e. split; [apply push_err_extends|]. simpl. by intros [_ ?]%app_nil. }
  intros Hb. unfold build_one. destruct (validateProviderConfig i pc); [|done].
  destruct (byName (b_st b) !! pc_Name pc) eqn:E; [done|].
  destruct (constructProvider pc) as [err|p] eqn:Ep; [done|].
  apply constructProvider_Name in Ep. clear Hpush.
  pose proof (register_inv b _ p Hb Ep E) as Hb1.
  destruct (claim_exacts_owned i (pc_Name pc) p (Exact (pc_Models pc)) _ Hb1 Ep) as [He Ho].
  { apply lookup_insert_eq. }
  set (b2 := fold_left (claim_exact i (pc_Name pc) p) (Exact (pc_Models pc)) _) in *.
  pose proof (fold_extends (claim_glob i (pc_Name pc) p) (Glob (pc_Models pc)) b2
                (claim_glob_extends i _ p)) as He2.
  split.
  - eapply extends_trans; [|exact He2]. eapply extends_trans; [|exact He]. done.
  - intros Herr m Hm. destruct (He2 Herr) as [Herr2 Hext]. by apply Hext, Ho.
Qed.

Lemma build_loop_owned l b :
  build_inv b ->
  extends b (fold_left build_one l b) /\
  ((fold_left build_one l b).(b_errs) = [] ->
   forall i pc m, (i, pc) ∈ l -> m ∈ pc.(pc_Models).(Exact) ->
     owned (fold_left build_one l b) pc.(pc_Name) m).
Proof.
  revert b. induction l as [|[i pc] l IH]; intros b Hb.
  { split; [apply extends_refl|]. intros _ i pc m Hin. by apply elem_of_nil in Hin. }
  destruct (build_one_owned b i pc Hb) as [He Ho].
  destruct (IH (build_one b (i, pc)) (build_one_inv _ _ Hb)) as [He' Ho'].
  split; [by eapply extends_trans|]. simpl. intros Herr j qc m [Heq|Hin]%elem_of_cons Hm.
  - simplify_eq. destruct (He' Herr) as [Herr1 Hext]. by apply Hext, Ho.
  - by eapply Ho'.
Qed.

(** A successful [build] ends in the state of an error-free loop, with the
    default provider filled in. *)
Lemma build_inr pf r :
  build pf = inr r ->
  let b := fold_left build_one (indexed pf.(Providers))
             {| b_st := NewEmpty.(state); b_owner := ∅; b_errs := [] |} in
  b.(b_errs) = [] /\ r.(state).(names) = b.(b_st).(names) /\
  r.(state).(byName) = b.(b_st).(byName) /\ r.(state).(exactIndex) = b.(b_st).(exactIndex) /\
  r.(state).(globRules) = b.(b_st).(globRules) /\
  r.(state).(defaultProvider) =
    (if bool_decide (pf.(DefaultProvider) = "") then b.(b_st).(defaultProvider)
     else b.(b_st).(byName) !! pf.(DefaultProvider)).
Proof.
  unfold build. destruct (Providers pf) as [|pc pcs]; [done|]. cbv zeta.
  set (b := fold_left build_one _ _). case_bool_decide.
  - destruct (b_errs b) eqn:E; [|done]. intros [= <-]. by split_and!.
  - destruct (byName (b_st b) !! DefaultProvider pf) eqn:Ed; simpl.
    + destruct (b_errs b) eqn:E; [|done]. intros [= <-]. by split_and!.
    + by destruct (b_errs b).
Qed.

Lemma build_state_wf pf r : build pf = inr r -> wf_state r.(state).
Proof.
  intros Hbuild. pose proof (build_inr pf r Hbuild) as (_ & Hn & Hb & Hx & Hg & Hd).
  destruct (build_loop_inv (indexed (Providers pf)) _ build_inv_init)
    as [[H1 H2 H3 H4 H5 H6] _].
  split; rewrite ?Hn, ?Hb, ?Hx, ?Hg, ?Hd; try done.
  intros p. case_bool_decide; [apply H6|]. intros Hp. by rewrite (H3 _ _ Hp).
Qed.

(** Every table a successful load produces is well formed: names are unique
    and are exactly the keys of the name index, every provider is filed under
    its own name, every exact, glob and default target is a registered
    provider, and every glob pattern is syntactically valid. *)
Theorem build_wf pf r : build pf = inr r -> wf_state r.(state).
Proof. apply build_state_wf. Qed.

Definition test_pc (name ty : string) (exact glob : list string) : providerConfig :=
  {| pc_Name := name; pc_Type := ty; pc_Endpoint := ""; pc_APIKey := "k"; pc_Organization := "";
     pc_Timeout := 0; pc_Priority := 0; pc_Models := {| Exact := exact; Glob := glob |} |}.

Definition test_file : providersFile :=
  {| Providers := [test_pc "openai-primary" "openai" ["gpt-4o"; "gpt-4o-mini"] ["gpt-*"];
                   test_pc "deepseek" "deepseek" ["deepseek-chat"] ["*"]];
     DefaultProvider := "deepseek" |}.

Definition test_registry : Registry adapter :=
  match build test_file with inr r => r | inl _ => NewEmpty end.

Lemma test_build : build test_file = inr test_registry.
Proof. vm_compute. reflexivity. Qed.

Lemma build_wf_witness : wf_state test_registry.(state).
Proof. apply (build_wf test_file). exact test_build. Defined.

(** The registered owner of an exact model heads its candidates. *)
Lemma exact_head r m p :
  r.(state).(exactIndex) !! m = Some p ->
  head (candidates (P := adapter) r m) = Some p.
Proof. intros H. unfold candidates. by rewrite H. Qed.

(** After a successful load, a model any entry lists as exact resolves to
    that entry's provider (so no model has two owners), and the fail-over
    chain starts there. *)
Theorem build_exact_resolves pf r pc m :
  build pf = inr r -> pc ∈ pf.(Providers) -> m ∈ pc.(pc_Models).(Exact) ->
  exists p rest, ResolveModel r m = inr p /\ ResolveChain r m = p :: rest /\
    Name p = pc.(pc_Name).
Proof.
  intros Hbuild Hpc Hm. pose proof (build_inr pf r Hbuild) as (Herr & _ & _ & Hx & _ & _).
  destruct (build_loop_owned (indexed (Providers pf)) _ build_inv_init) as [_ Ho].
  apply list_elem_of_lookup in Hpc as [i Hi].
  destruct (Ho Herr (Z.of_nat i) pc m) as (p & Hp & Hn); [|done|].
  { apply list_elem_of_lookup. exists i. unfold indexed. by rewrite list_lookup_imap, Hi. }
  rewrite <- Hx in Hp. pose proof (exact_head r m p Hp) as Hh.
  pose proof (ResolveModel_head r m) as HR. rewrite Hh in HR.
  rewrite <- dedup_names_head, <- ResolveChain_candidates in Hh.
  destruct (ResolveChain r m) as [|q rest] eqn:E; [done|]. simpl in Hh. simplify_eq.
  by exists p, rest.
Qed.

Lemma build_exact_resolves_witness :
  exists p rest, ResolveModel test_registry "deepseek-chat" = inr p /\
    ResolveChain test_registry "deepseek-chat" = p :: rest /\ Name p = "deepseek".
Proof.
  apply (build_exact_resolves test_file test_registry
    (test_pc "deepseek" "deepseek" ["deepseek-chat"] ["*"]) "deepseek-chat" test_build).
  - apply list_elem_of_lookup. exists 1%nat. reflexivity.
  - apply list_elem_of_lookup. exists 0%nat. reflexivity.
Defined.

(** The three tiers of [ResolveModel]: the exact owner if there is one,
    otherwise the first matching glob in declaration order, otherwise the
    default provider, otherwise [ErrNoProviderForModel]. *)
Theorem ResolveModel_tiers {P} `{!Provider P} (r : Registry P) model :
  match ResolveModel r model with
  | inr p =>
      r.(state).(exactIndex) !! model = Some p \/
      r.(state).(exactIndex) !! model = None /\
      ((exists l1 rule l2, r.(state).(globRules) = l1 ++ rule :: l2 /\
          rule.(rule_provider) = p /\ glob_matches rule model = true /\
          Forall (fun q => glob_matches q model = false) l1) \/
       (Forall (fun q => glob_matches q model = false) r.(state).(globRules) /\
        r.(state).(defaultProvider) = Some p))
  | inl err =>
      Is err ErrNoProviderForModel = true /\ r.(state).(exactIndex) !! model = None /\
      Forall (fun q => glob_matches q model = false) r.(state).(globRules) /\
      r.(state).(defaultProvider) = None
  end.
Proof.
  rewrite ResolveModel_head. unfold candidates.
  destruct (exactIndex (state r) !! model) as [p|]; simpl; [by left|].
  generalize (globRules (state r)) as rules. intros rules.
  induction rules as [|rule rules IH]; simpl.
  - destruct (defaultProvider (state r)); simpl; [right|done]. split; [done|]. by right.
  - rewrite filter_cons. destruct (glob_matches rule model) eqn:E; simpl.
    + right. split; [done|]. left. by exists [], rule, rules.
    + case_match.
      * destruct IH as (? & ? & ? & ?). split_and!; try done. by constructor.
      * destruct IH as [?|(_ & [(l1 & q & l2 & -> & ? & ? & ?)|[? ?]])]; [done| |].
        -- right. split; [done|]. left. exists (rule :: l1), q, l2. split_and!; try done.
           by constructor.
        -- right. split; [done|]. right. split; [by constructor|done].
Qed.

(** ** The model listing *)

(** The listing before sorting: first occurrences by ID. *)
Record listing (src : list ModelInfo) (acc : gset string * list ModelInfo) : Prop := {
  li_seen : forall id, id ∈ acc.1 <-> id ∈ mod_ID <$> acc.2;
  li_nodup : NoDup (mod_ID <$> acc.2);
  li_sound : forall m, m ∈ acc.2 -> m ∈ src;
  li_complete : forall m, m ∈ src -> mod_ID m ∈ mod_ID <$> acc.2
}.

Lemma add_model_listing src acc m : listing src acc -> listing (src ++ [m]) (add_model acc m).
Proof.
  destruct acc as [seen out]. intros [H1 H2 H3 H4]. simpl in *. unfold add_model.
  case_bool_decide as Hin.
  - split; simpl; try done; [set_solver|].
    intros x [?|?%list_elem_of_singleton]%elem_of_app; [by apply H4|]. subst. by apply H1.
  - split; simpl.
    + intros id. rewrite fmap_app, elem_of_app, elem_of_union, H1. set_solver.
    + rewrite fmap_app. apply NoDup_app. split_and!; [done| |by apply NoDup_singleton].
      intros id Hid ->%list_elem_of_singleton. by apply Hin, H1.
    + set_solver.
    + intros x. rewrite fmap_app, !elem_of_app, list_elem_of_singleton.
      intros [Hx| ->]; [left; by apply H4|right]. simpl. set_solver.
Qed.

Lemma add_models_listing src acc l :
  listing src acc -> listing (src ++ l) (fold_left add_model l acc).
Proof.
  revert src acc. induction l as [|m l IH]; intros src acc H; simpl; [by rewrite app_nil_r|].
  rewrite cons_middle, app_assoc. by apply IH, add_model_listing.
Qed.

Lemma all_models_listing {P} `{!Provider P} (ps : list P) src acc :
  listing src acc ->
  listing (src ++ concat (SupportedModels <$> ps))
    (fold_left (fun acc p => fold_left add_model (SupportedModels p) acc) ps acc).
Proof.
  revert src acc. induction ps as [|p ps IH]; intros src acc H; simpl; [by rewrite app_nil_r|].
  rewrite app_assoc. by apply IH, add_models_listing.
Qed.

#[export] Instance model_le_total : Total model_le.
Proof. intros m1 m2. apply Strings.LessEq_total. Qed.
#[export] Instance model_le_trans : Transitive model_le.
Proof. intros m1 m2 m3. apply Strings.LessEq_trans. Qed.

(** On every well-formed table [/v1/models] lists the union of the
    providers' models: sorted by ID, each ID once, nothing invented and no ID
    dropped (and no nil provider is dereferenced). *)
Theorem AllModels_spec r :
  wf_state r.(state) ->
  exists ps out, mapM (fun n => r.(state).(byName) !! n) r.(state).(names) = Some ps /\
    AllModels r = Some out /\ StronglySorted model_le out /\ NoDup (mod_ID <$> out) /\
    (forall m, m ∈ out -> exists p, p ∈ ps /\ m ∈ SupportedModels p) /\
    (forall p m, p ∈ ps -> m ∈ SupportedModels p -> mod_ID m ∈ mod_ID <$> out).
Proof.
  intros [_ Hdom _ _ _ _]. unfold AllModels.
  destruct (mapM (fun n => byName (state r) !! n) (names (state r))) as [ps|] eqn:E.
  2:{ exfalso. apply eq_None_not_Some in E. apply E, mapM_is_Some, Forall_forall.
      intros n Hn. by apply Hdom. }
  simpl. destruct (fold_left _ ps (∅, [])) as [seen out] eqn:Ef.
  assert (Hl : listing (concat (SupportedModels <$> ps)) (seen, out)).
  { rewrite <- Ef. apply (all_models_listing ps []).
    split; simpl; try set_solver. constructor. }
  destruct Hl as [_ H2 H3 H4]. simpl in *.
  exists ps, (merge_sort model_le out).
  pose proof (merge_sort_Permutation model_le out) as Hperm.
  split_and!; try done.
  - apply StronglySorted_merge_sort; apply _.
  - by rewrite Hperm.
  - intros m. rewrite Hperm. intros Hm%H3.
    apply list_elem_of_In, in_concat in Hm as (l & Hl & Hm).
    apply list_elem_of_In, list_elem_of_fmap in Hl as (p & -> & Hp).
    exists p. split; [done|]. by apply list_elem_of_In.
  - intros p m Hp Hm. rewrite Hperm. apply H4, list_elem_of_In, in_concat.
    exists (SupportedModels p). split; apply list_elem_of_In; [|done].
    by apply list_elem_of_fmap_2.
Qed.

Lemma AllModels_spec_witness :
  exists ps out,
    mapM (fun n => test_registry.(state).(byName) !! n) test_registry.(state).(names) = Some ps /\
    AllModels test_registry = Some out /\ StronglySorted model_le out /\ NoDup (mod_ID <$> out) /\
    (forall m, m ∈ out -> exists p, p ∈ ps /\ m ∈ SupportedModels p) /\
    (forall p m, p ∈ ps -> m ∈ SupportedModels p -> mod_ID m ∈ mod_ID <$> out).
Proof.
  apply (AllModels_spec test_registry), (build_state_wf test_file). exact test_build.
Defined.
