(* ===== verification/Policy.v ===== *)
(** * Policy: retry back-off and the circuit-breaker pool

    [internal/router/policy.go] (Module [Retry]) and
    [internal/router/breaker.go] (Module [Breaker]).  The circuit breaker
    itself is the third-party package gobreaker: the pool is written against
    the class [GoBreaker] of its operations. *)

From S2P Require Import Prelude GoStd Float64 Errors.
From Stdlib Require Import SpecFloat.
Local Open Scope Z_scope.

Module Retry.

Record RetryPolicy := {
  MaxRetries : Z; MaxTotal : Z; BaseBackoff : Z; MaxBackoff : Z
}.

Definition DefaultPolicy : RetryPolicy :=
  {| MaxRetries := 2; MaxTotal := 30 * Second; BaseBackoff := 100 * Millisecond;
     MaxBackoff := 5 * Second |}.

(** The doubling loop: [n] is the number of iterations left. *)
Fixpoint double (n : nat) (MaxBackoff envelope : Z) : Z :=
  match n with
  | O => envelope
  | S n' =>
      let envelope := (envelope *i 2)%go in
      if (envelope <=? 0) || (MaxBackoff <=? envelope) then MaxBackoff
      else double n' MaxBackoff envelope
  end.

Definition envelope (p : RetryPolicy) (attempt : Z) : Z :=
  let e := double (Z.to_nat (attempt - 1)) p.(MaxBackoff) p.(BaseBackoff) in
  if p.(MaxBackoff) <? e then p.(MaxBackoff) else e.

Definition f_one : float64 := of_Z 1.

(** The two clamps on the random sample. *)
Definition clamp (randFloat : float64) : float64 :=
  let r := if f_ltb randFloat f_zero then f_zero else randFloat in
  if f_leb f_one r then lit 999999 1000000 else r.

Definition backoffDuration (p : RetryPolicy) (attempt retryAfter : Z) (randFloat : float64) : Z :=
  if 0 <? retryAfter then retryAfter
  else if attempt <? 1 then 0
  else to_int64 (f_mul (clamp randFloat) (of_Z (envelope p attempt))).

(** ** Lemmas *)

Lemma double_exact n M e :
  0 < e <= max_int64 -> 0 < M <= max_int64 -> (n = O -> e <= M) ->
  Z.min M (double n M e) = Z.min M (e * 2 ^ Z.of_nat n).
Proof.
  revert e. induction n as [|n IH]; intros e He HM H0; simpl double.
  { change (Z.of_nat 0) with 0. f_equal. lia. }
  rewrite Nat2Z.inj_succ, Z.pow_succ_r by lia.
  pose proof (Z.pow_pos_nonneg 2 (Z.of_nat n) ltac:(lia) ltac:(lia)) as Hp.
  destruct (Z.le_gt_cases (e * 2) max_int64) as [Hs|Hb].
  - rewrite wrap64_id by (unfold_int64; lia).
    destruct ((e * 2 <=? 0) || (M <=? e * 2)) eqn:E.
    + rewrite orb_true_iff, !Z.leb_le in E. rewrite !Z.min_l; nia.
    + rewrite orb_false_iff, !Z.leb_gt in E. rewrite IH by lia. f_equal. ring.
  - assert (Hw : wrap64 (e * 2) = e * 2 - two64).
    { unfold wrap64. unfold_int64.
      replace (e * 2 + 2 ^ 63) with ((e * 2 - 2 ^ 63) + 1 * 2 ^ 64) by lia.
      rewrite Z_mod_plus_full, Z.mod_small; lia. }
    rewrite Hw. rewrite (proj2 (Z.leb_le (e * 2 - two64) 0)) by (unfold_int64; lia). simpl orb.
    cbv iota. rewrite !Z.min_l; [done|nia|nia].
Qed.

Lemma envelope_exact p attempt :
  0 < p.(BaseBackoff) <= max_int64 -> 0 < p.(MaxBackoff) <= max_int64 -> 1 <= attempt ->
  envelope p attempt = Z.min p.(MaxBackoff) (p.(BaseBackoff) * 2 ^ (attempt - 1)).
Proof.
  intros HB HM Ha. unfold envelope.
  set (e := double _ _ _).
  assert (Hm : Z.min (MaxBackoff p) e = Z.min (MaxBackoff p) (BaseBackoff p * 2 ^ (attempt - 1))).
  { destruct (Z.le_gt_cases (BaseBackoff p) (MaxBackoff p)) as [Hle|Hgt].
    - unfold e. rewrite double_exact by (done || lia). by rewrite Z2Nat.id by lia.
    - destruct (Z.eq_dec attempt 1) as [->|Hne]; [unfold e; simpl; f_equal; lia|].
      unfold e. rewrite double_exact by (done || lia). by rewrite Z2Nat.id by lia. }
  rewrite <- Hm. destruct (Z.ltb_spec (MaxBackoff p) e); lia.
Qed.

(** Every valid float other than NaN is clamped to a non-negative float of
    value below one. *)
Lemma valid_repr m e :
  bounded prec emax m e = true -> repr (S754_finite false m e) (Zpos m) e.
Proof.
  unfold bounded, canonical_mantissa. intros [Hc He]%andb_true_iff.
  apply Z.eqb_eq in Hc. apply Z.leb_le in He. change (emax - prec) with 971 in He.
  unfold repr, finish, canonical. rewrite (proj2 (Z.leb_le e 971)) by done.
  change (digits (Zpos m)) with (Zpos (digits2_pos m)).
  pose proof Hc as Hc'. rewrite fexp_eq in Hc. split_and!; done || lia.
Qed.

Lemma one_repr : repr f_one 4503599627370496 (-52).
Proof. unfold repr. split_and!; reflexivity || lia || (intros _; reflexivity). Qed.

Lemma clamp_spec f :
  valid_binary prec emax f = true -> f <> S754_nan ->
  clamp f = S754_zero true \/
  exists m e, repr (clamp f) m e /\ m * 2 ^ (e + 1074) <= 2 ^ 1074.
Proof.
  intros Hv Hn. unfold clamp.
  assert (Hlit : exists m e, repr (lit 999999 1000000) m e /\ m * 2 ^ (e + 1074) <= 2 ^ 1074).
  { exists 9007190247541737, (-53). split; [|vm_compute; discriminate].
    unfold repr. split_and!; reflexivity || lia || (intros _; reflexivity). }
  assert (Hzero : exists m e, repr f_zero m e /\ m * 2 ^ (e + 1074) <= 2 ^ 1074).
  { exists 0, 0. split; [|lia]. unfold repr. split_and!; done || lia. }
  destruct f as [[]|[]| |s m e]; try done.
  - by left.
  - by right.
  - by right.
  - by right.
  - destruct s; [by right|]. right. apply valid_repr in Hv.
    change (f_ltb (S754_finite false m e) f_zero) with false. cbv iota zeta.
    destruct (f_leb f_one (S754_finite false m e)) eqn:E; [done|].
    exists (Zpos m), e. split; [done|].
    pose proof Hv as (_ & _ & He & _).
    rewrite (leb_value _ _ _ _ _ _ 1074 one_repr Hv) in E by lia. apply Z.leb_gt in E.
    replace (4503599627370496 * 2 ^ (-52 + 1074)) with (2 ^ 1074) in E; [lia|].
    change 4503599627370496 with (2 ^ 52). rewrite <- pow_split by lia. done.
Qed.

Lemma mul_clamp_bounds f n :
  valid_binary prec emax f = true -> f <> S754_nan -> 0 <= n < 2 ^ 53 ->
  0 <= to_int64 (f_mul (clamp f) (of_Z n)) <= n.
Proof.
  intros Hv Hn Hb. destruct (clamp_spec f Hv Hn) as [->|(m & e & Hr & Hle)].
  - destruct (of_Z_exact n Hb) as (my & ey & (-> & ? & ? & _) & _ & _).
    unfold finish. rewrite (proj2 (Z.leb_le ey 971)) by lia. destruct my; simpl; lia.
  - by eapply mul_le_int.
Qed.

(** C34: The retry delay without a [Retry-After] hint: for every attempt and
    every random sample (out-of-range ones included) the delay lies between
    zero and the envelope [min(MaxBackoff, BaseBackoff * 2^(attempt-1))], the
    doubling never overflowing into a short or negative delay.  [MaxBackoff]
    below [2^53] ns (104 days) keeps the float conversion exact. *)
Theorem backoffDuration_bounds p attempt retryAfter f :
  0 < p.(BaseBackoff) <= max_int64 -> 0 < p.(MaxBackoff) < 2 ^ 53 -> 1 <= attempt ->
  retryAfter <= 0 -> valid_binary prec emax f = true -> f <> S754_nan ->
  0 <= backoffDuration p attempt retryAfter f
    <= Z.min p.(MaxBackoff) (p.(BaseBackoff) * 2 ^ (attempt - 1)).
Proof.
  intros HB HM Ha Hra Hv Hn. unfold backoffDuration.
  rewrite (proj2 (Z.ltb_ge 0 retryAfter)), (proj2 (Z.ltb_ge attempt 1)) by lia.
  rewrite envelope_exact by (done || (unfold_int64; lia)).
  apply mul_clamp_bounds; [done|done|].
  pose proof (Z.pow_pos_nonneg 2 (attempt - 1) ltac:(lia) ltac:(lia)). nia.
Qed.

Lemma backoffDuration_bounds_witness :
  0 <= backoffDuration DefaultPolicy 3 0 (lit 7 10)
    <= Z.min (5 * Second) (100 * Millisecond * 2 ^ (3 - 1)).
Proof.
  apply (backoffDuration_bounds DefaultPolicy 3 0 (lit 7 10));
    try (vm_compute; split; congruence); vm_compute; congruence.
Defined.

Lemma retry_after_verbatim p attempt d f : 0 < d -> backoffDuration p attempt d f = d.
Proof. intros Hd. unfold backoffDuration. by rewrite (proj2 (Z.ltb_lt 0 d)). Qed.

(** With a zero [BaseBackoff] the loop's overflow test fires: the second
    retry may wait up to [MaxBackoff], where the documented envelope is 0. *)
Theorem zero_base_envelope M : 0 < M -> envelope (Build_RetryPolicy 2 0 0 M) 2 = M.
Proof.
  intros HM. unfold envelope. simpl. destruct (Z.ltb_spec M M); lia.
Qed.
Lemma zero_base_envelope_witness : envelope (Build_RetryPolicy 2 0 0 5) 2 = 5.
Proof. apply (zero_base_envelope 5). lia. Defined.

End Retry.

Module Breaker.

Record BreakerSettings := {
  MaxRequests : Z; Interval : Z; Timeout : Z; FailureRatio : float64; MinRequests : Z
}.

Definition DefaultBreakerSettings : BreakerSettings :=
  {| MaxRequests := 1; Interval := 60 * Second; Timeout := 30 * Second;
     FailureRatio := lit 5 10; MinRequests := 5 |}.

Definition applyDefaults (s : BreakerSettings) : BreakerSettings :=
  let def := DefaultBreakerSettings in
  {| MaxRequests := if s.(MaxRequests) =? 0 then def.(MaxRequests) else s.(MaxRequests);
     Interval := if s.(Interval) <=? 0 then def.(Interval) else s.(Interval);
     Timeout := if s.(Timeout) <=? 0 then def.(Timeout) else s.(Timeout);
     FailureRatio := if f_leb s.(FailureRatio) f_zero then def.(FailureRatio)
                     else s.(FailureRatio);
     MinRequests := if s.(MinRequests) =? 0 then def.(MinRequests) else s.(MinRequests) |}.

(** ** gobreaker's interface *)

Inductive State := StateClosed | StateHalfOpen | StateOpen.
Record Counts := { Requests : Z; TotalSuccesses : Z; TotalFailures : Z }.

Record Settings := {
  set_Name : string; set_MaxRequests : Z; set_Interval : Z; set_Timeout : Z;
  set_ReadyToTrip : Counts -> bool
}.

(** Operations of one [TwoStepCircuitBreaker] at an instant of its clock, with
    the state changes each reports to [OnStateChange], oldest first. *)
Class GoBreaker (CB Permit : Type) := {
  NewTwoStepCircuitBreaker : Settings -> CB;
  Allow : Z -> CB -> (error + Permit) * CB * list (State * State);
  Done : Z -> Permit -> option error -> CB -> CB * list (State * State);
  StateOf : Z -> CB -> State * CB * list (State * State)
}.

(** Documented behaviour: a refusal is one of the package's two errors. *)
Class GoBreakerLaws (CB Permit : Type) `{!GoBreaker CB Permit} : Prop :=
  Allow_error : forall now cb e cb' ts, Allow now cb = (inl e, cb', ts) ->
    e = Sentinel_ ErrOpenState \/ e = Sentinel_ ErrTooManyRequests.

(** ** The pool *)

(** The [ReadyToTrip] closure of [get]. *)
Definition readyToTrip (settings : BreakerSettings) (counts : Counts) : bool :=
  if counts.(Requests) <? settings.(MinRequests) then false
  else
    let ratio := f_div (of_Z counts.(TotalFailures)) (of_Z counts.(Requests)) in
    f_leb settings.(FailureRatio) ratio.

Definition breakerStateCode (s : State) : Z :=
  match s with StateClosed => 0 | StateHalfOpen => 1 | StateOpen => 2 end.

Definition isBreakerError (err : error) : bool :=
  Is err ErrOpenState || Is err ErrTooManyRequests.

Definition breakerObservation (callErr : option error) : option error :=
  match callErr with
  | None => None
  | Some e => if IsRetryable e then Some e else None
  end.

Section Pool.
Context {CB Permit : Type} `{!GoBreaker CB Permit}.

(** The pool and the gauge its [OnStateChange] callbacks write
    ([Metrics.SetBreakerState]). *)
Record breakerPool := {
  settings : BreakerSettings; bs : gmap string CB; gauge : gmap string Z
}.

Definition newBreakerPool (s : BreakerSettings) : breakerPool :=
  {| settings := applyDefaults s; bs := ∅; gauge := ∅ |}.

Definition breaker_settings (s : BreakerSettings) (name : string) : Settings :=
  {| set_Name := name; set_MaxRequests := s.(MaxRequests); set_Interval := s.(Interval);
     set_Timeout := s.(Timeout); set_ReadyToTrip := readyToTrip s |}.

Definition get (p : breakerPool) (name : string) : CB * breakerPool :=
  match p.(bs) !! name with
  | Some cb => (cb, p)
  | None =>
      let cb := NewTwoStepCircuitBreaker (breaker_settings p.(settings) name) in
      (cb, {| settings := p.(settings); bs := <[name := cb]> p.(bs); gauge := p.(gauge) |})
  end.

(** [OnStateChange] for each reported transition. *)
Definition onStateChange (name : string) (ts : list (State * State)) (g : gmap string Z)
    : gmap string Z :=
  fold_left (fun g t => <[name := breakerStateCode t.2]> g) ts g.

Definition put (p : breakerPool) (name : string) (cb : CB) (ts : list (State * State))
    : breakerPool :=
  {| settings := p.(settings); bs := <[name := cb]> p.(bs);
     gauge := onStateChange name ts p.(gauge) |}.

Definition allow (now : Z) (name : string) (p : breakerPool) : (error + Permit) * breakerPool :=
  let '(cb, p) := get p name in
  let '(r, cb', ts) := Allow now cb in
  (r, put p name cb' ts).

(** Calling the [done] callback [allow] returned for [name]. *)
Definition run_done (now : Z) (name : string) (permit : Permit) (err : option error)
    (p : breakerPool) : breakerPool :=
  let '(cb, p) := get p name in
  let '(cb', ts) := Done now permit err cb in
  put p name cb' ts.

Definition pool_state (now : Z) (name : string) (p : breakerPool) : State * breakerPool :=
  let '(cb, p) := get p name in
  let '(s, cb', ts) := StateOf now cb in
  (s, put p name cb' ts).

(** Operations on one provider's breaker leave every other breaker and its
    gauge alone. *)
Lemma onStateChange_other name ts g n :
  n <> name -> onStateChange name ts g !! n = g !! n.
Proof.
  intros Hn. unfold onStateChange. revert g. induction ts as [|t ts IH]; intros g; simpl; [done|].
  rewrite IH. by apply lookup_insert_ne.
Qed.

Lemma onStateChange_last name ts g t :
  onStateChange name (ts ++ [t]) g !! name = Some (breakerStateCode t.2).
Proof. unfold onStateChange. rewrite fold_left_app. simpl. apply lookup_insert_eq. Qed.

Lemma get_frame p name n :
  n <> name -> (get p name).2.(bs) !! n = p.(bs) !! n /\ (get p name).2.(gauge) = p.(gauge) /\
  (get p name).2.(settings) = p.(settings).
Proof.
  intros Hn. unfold get. destruct (bs p !! name); simpl; [done|].
  split_and!; [|done..]. by apply lookup_insert_ne.
Qed.

Lemma allow_frame now name p r p' n :
  allow now name p = (r, p') -> n <> name ->
  p'.(bs) !! n = p.(bs) !! n /\ p'.(gauge) !! n = p.(gauge) !! n.
Proof.
  unfold allow. destruct (get p name) as [cb p1] eqn:E. destruct (Allow now cb) as [[? ?] ?].
  intros [= <- <-] Hn. pose proof (get_frame p name n Hn) as (H1 & H2 & _).
  rewrite E in H1, H2. simpl in *. rewrite onStateChange_other by done.
  rewrite lookup_insert_ne by done. by rewrite H1, H2.
Qed.

Lemma run_done_frame now name permit err p n :
  n <> name ->
  (run_done now name permit err p).(bs) !! n = p.(bs) !! n /\
  (run_done now name permit err p).(gauge) !! n = p.(gauge) !! n.
Proof.
  intros Hn. unfold run_done. destruct (get p name) as [cb p1] eqn:E.
  destruct (Done now permit err cb) as [? ?].
  pose proof (get_frame p name n Hn) as (H1 & H2 & _).
  rewrite E in H1, H2. simpl in *. rewrite onStateChange_other by done.
  rewrite lookup_insert_ne by done. by rewrite H1, H2.
Qed.
End Pool.

Arguments breakerPool : clear implicits.

Lemma isBreakerError_allow {CB Permit} `{!GoBreaker CB Permit} `{!GoBreakerLaws CB Permit}
    now name p e p' :
  allow now name p = (inl e, p') -> isBreakerError e = true /\ IsRetryable e = false.
Proof.
  unfold allow. destruct (get p name) as [cb p1]. destruct (Allow now cb) as [[r cb'] ts] eqn:E.
  intros [= -> <-]. by destruct (Allow_error _ _ _ _ _ E) as [-> | ->].
Qed.

(** With the default settings the breaker of a provider trips exactly when
    at least five requests were counted and at least half of them failed: the
    floating-point ratio test is exact for every pair of 32-bit counts. *)
Theorem default_trip_rule counts :
  0 <= counts.(TotalFailures) < 2 ^ 32 -> 0 <= counts.(Requests) < 2 ^ 32 ->
  readyToTrip (applyDefaults DefaultBreakerSettings) counts =
  (5 <=? counts.(Requests)) && (counts.(Requests) <=? 2 * counts.(TotalFailures)).
Proof.
  intros Hf Hr. unfold readyToTrip.
  change (applyDefaults DefaultBreakerSettings) with DefaultBreakerSettings.
  change (MinRequests DefaultBreakerSettings) with 5.
  change (FailureRatio DefaultBreakerSettings) with (lit 1 2).
  destruct (Z.ltb_spec (Requests counts) 5) as [H|H].
  - by rewrite (proj2 (Z.leb_gt _ _)) by lia.
  - rewrite (proj2 (Z.leb_le _ _)) by lia. simpl. apply half_le_ratio; lia.
Qed.

Lemma default_trip_rule_witness :
  readyToTrip (applyDefaults DefaultBreakerSettings) (Build_Counts 7 3 4) = true.
Proof. rewrite (default_trip_rule (Build_Counts 7 3 4)); [reflexivity|simpl; lia|simpl; lia]. Defined.

(** Whatever settings are configured (zero values, negative durations), the
    ones the pool uses satisfy the library's needs: at least one half-open
    probe, positive interval and timeout, at least one request before the
    ratio test, and an explicit setting is kept. *)
Theorem applyDefaults_ok s :
  0 <= s.(MaxRequests) < 2 ^ 32 -> 0 <= s.(MinRequests) < 2 ^ 32 ->
  let s' := applyDefaults s in
  1 <= s'.(MaxRequests) /\ 0 < s'.(Interval) /\ 0 < s'.(Timeout) /\ 1 <= s'.(MinRequests) /\
  f_leb s'.(FailureRatio) f_zero = false /\
  (s.(Timeout) > 0 -> s'.(Timeout) = s.(Timeout)) /\
  (s.(MinRequests) > 0 -> s'.(MinRequests) = s.(MinRequests)) /\
  applyDefaults s' = s'.
Proof.
  intros H1 H2. unfold applyDefaults. simpl.
  destruct (Z.eqb_spec (MaxRequests s) 0), (Z.leb_spec (Interval s) 0),
    (Z.leb_spec (Timeout s) 0), (Z.eqb_spec (MinRequests s) 0),
    (f_leb (FailureRatio s) f_zero) eqn:E; simpl;
    rewrite ?E, ?(proj2 (Z.eqb_neq _ _)), ?(proj2 (Z.leb_gt _ _)) by lia;
    split_and!; try done; try lia; unfold Second; lia.
Qed.
Lemma applyDefaults_ok_witness :
  1 <= (applyDefaults (Build_BreakerSettings 0 0 (-5) f_zero 0)).(MaxRequests).
Proof.
  destruct (applyDefaults_ok (Build_BreakerSettings 0 0 (-5) f_zero 0)) as [H _];
    [simpl; lia|simpl; lia|exact H].
Defined.

End Breaker.
