(* ===== verification/Router.v ===== *)
(** * Router: retry, fail-over and circuit breaking around provider calls

    [internal/router/router.go].  The outside world (clock, random source,
    sleeping, upstream calls, channel operations under a context) is an
    abstract state [E] with the operations of the class [Env]; the router's own
    state is the breaker pool, the fail-over counter and a history of the
    events the code performs.  Every handler is a state-passing function in
    the monad [M]. *)

From S2P Require Import Prelude GoStd Float64 Errors Types Registry Policy.
Import Retry Breaker.
Local Open Scope Z_scope.

(** ** The environment *)

(** [ctx.Err()] of a finished context. *)
Inductive ctx_error := CtxCanceled | CtxDeadlineExceeded.
Definition ctx_Err (e : ctx_error) : error :=
  match e with CtxCanceled => Canceled | CtxDeadlineExceeded => DeadlineExceeded end.

(** What a receive on a provider's channel under [ctx] yields. *)
Inductive recv := RecvOk | RecvCtxDone (err : ctx_error).

(** Operations of the environment in state [E]; [P] are the providers.  A
    provider's stream is the list of events it sends before closing the
    channel. *)
Class Env (E P : Type) := {
  env_now : E -> Z * E;
  env_wall : E -> Z * E;
  env_random : E -> float64 * E;
  env_sleep : Z -> E -> option error * E;
  env_chat : P -> ChatRequest -> E -> (error + ChatResponse) * E;
  env_stream : P -> ChatRequest -> E -> (error + list StreamEvent) * E;
  env_peek : E -> recv * E;
  env_send : E -> bool * E
}.

(** [ModelResolver], the slice of the registry the router depends on: a
    fail-over chain per model, no provider name twice. *)
Class ModelResolver (R P : Type) `{!Provider P} := {
  resolve_chain : R -> string -> list P;
  resolve_chain_NoDup : forall r m, NoDup (Name <$> resolve_chain r m)
}.

(** The registry is one. *)
#[export] Instance registry_resolver {P} `{!Provider P} : ModelResolver (Registry P) P := {
  resolve_chain := ResolveChain;
  resolve_chain_NoDup := ResolveChain_NoDup
}.

(** ** State and history *)

Inductive event :=
  | EvReject (name : string)
  | EvAllow (name : string)
  | EvCall (name : string) (err : option error)
  | EvDone (name : string) (obs : option error)
  | EvSleep (elapsed : option Z) (d : Z)
  | EvBudget (elapsed d : Z)
  | EvAbandoned (elapsed : Z)
  | EvFailover (from to : string).

Section Router.
Context {E P R CB Permit : Type} `{!Env E P} `{!Provider P} `{!ModelResolver R P}
  `{!GoBreaker CB Permit}.

Record Router := { resolver : R; policy : RetryPolicy }.

(** [New] with its options: [opts] are the functional options, applied in order
    to the staged settings; the clock, the sleep and the random source are the
    environment's.  The breakers are built last. *)
Record staged := { st_resolver : R; st_policy : RetryPolicy; st_breakerSettings : BreakerSettings }.
Definition WithBreakerSettings (b : BreakerSettings) (s : staged) : staged :=
  {| st_resolver := s.(st_resolver); st_policy := s.(st_policy); st_breakerSettings := b |}.
Definition New (res : R) (pol : RetryPolicy) (opts : list (staged -> staged)) : Router * breakerPool CB :=
  let s := fold_left (fun s opt => opt s) opts
    {| st_resolver := res; st_policy := pol; st_breakerSettings := DefaultBreakerSettings |} in
  ({| resolver := s.(st_resolver); policy := s.(st_policy) |}, newBreakerPool s.(st_breakerSettings)).

Definition resolve (r : Router) (model : string) : list P := resolve_chain r.(resolver) model.

Record rstate := {
  env : E;
  pool : breakerPool CB;
  history : list event
}.

Definition M (A : Type) : Type := rstate -> A * rstate.
Definition ret {A} (a : A) : M A := fun s => (a, s).
Definition bind {A B} (m : M A) (k : A -> M B) : M B :=
  fun s => let '(a, s') := m s in k a s'.

Definition on_env {A} (f : E -> A * E) : M A := fun s =>
  let '(a, e) := f s.(env) in (a, {| env := e; pool := s.(pool); history := s.(history) |}).
Definition on_pool {A} (f : breakerPool CB -> A * breakerPool CB) : M A := fun s =>
  let '(a, p) := f s.(pool) in (a, {| env := s.(env); pool := p; history := s.(history) |}).
Definition emit (ev : event) : M unit := fun s =>
  (tt, {| env := s.(env); pool := s.(pool); history := s.(history) ++ [ev] |}).

Notation "'let!' x := m 'in' k" := (bind m (fun x => k))
  (at level 200, x name, m at level 100, k at level 200).
Notation "'do!' m 'in' k" := (bind m (fun _ => k)) (at level 200, m at level 100, k at level 200).

Implicit Types (r : Router) (p : P) (req : ChatRequest).

Definition now : M Z := on_env env_now.
Definition random : M float64 := on_env env_random.

(** [r.sleep(ctx, delay)]; [elapsed] is the time budget used when a budget is
    set. *)
Definition sleep (elapsed : option Z) (d : Z) : M (option error) :=
  do! emit (EvSleep elapsed d) in on_env (env_sleep d).

(** [r.breakers.allow(name)]: the history tells a grant from a refusal. *)
Definition breaker_allow (name : string) : M (error + Permit) :=
  let! t := on_env env_wall in
  let! g := on_pool (allow t name) in
  do! emit (match g with inl _ => EvReject name | inr _ => EvAllow name end) in
  ret g.

(** Running the [done] callback. *)
Definition breaker_done (name : string) (permit : Permit) (obs : option error) : M unit :=
  let! t := on_env env_wall in
  do! on_pool (fun pl => (tt, run_done t name permit obs pl)) in
  emit (EvDone name obs).

Definition call_chat p req : M (error + ChatResponse) :=
  let! x := on_env (env_chat p req) in
  do! emit (EvCall (Name p) (match x with inl e => Some e | inr _ => None end)) in
  ret x.

Definition call_stream p req : M (error + list StreamEvent) :=
  let! x := on_env (env_stream p req) in
  do! emit (EvCall (Name p) (match x with inl e => Some e | inr _ => None end)) in
  ret x.

Definition extractRetryAfter (err : error) : Z :=
  match As err with Some ue => Errors.RetryAfter ue | None => 0 end.

(** ** Retrying one provider *)

(** The tail of the loop bodies of [tryProvider] and [tryProviderStream] after
    a retryable failure of attempt [attempt]: [None] leaves the loop with the
    call's error, [Some None] goes round again, [Some (Some err)] is a failed
    sleep. *)
Definition wait_retry r (attempt start : Z) (callErr : error) : M (option (option error)) :=
  if r.(policy).(MaxRetries) <=? attempt then ret None
  else
    let retryAfter := extractRetryAfter callErr in
    let! rnd := random in
    let delay := backoffDuration r.(policy) (attempt + 1) retryAfter rnd in
    if 0 <? r.(policy).(MaxTotal) then
      let! t := now in
      let elapsed := time_sub t start in
      if r.(policy).(MaxTotal) <? (elapsed +i delay)%go then
        do! emit (EvBudget elapsed delay) in ret None
      else let! e := sleep (Some elapsed) delay in ret (Some e)
    else let! e := sleep None delay in ret (Some e).

(** [tryProvider]'s loop from attempt [attempt]; [None] is out of fuel. *)
Fixpoint try_loop (fuel : nat) r p req (start attempt : Z) : M (option (error + ChatResponse)) :=
  match fuel with
  | O => ret None
  | S fuel =>
      let! gate := breaker_allow (Name p) in
      match gate with
      | inl gateErr => ret (Some (inl gateErr))
      | inr permit =>
          let! res := call_chat p req in
          match res with
          | inr resp =>
              do! breaker_done (Name p) permit (breakerObservation None) in
              ret (Some (inr resp))
          | inl callErr =>
              do! breaker_done (Name p) permit (breakerObservation (Some callErr)) in
              if negb (IsRetryable callErr) then ret (Some (inl callErr))
              else
                let! w := wait_retry r attempt start callErr in
                match w with
                | None => ret (Some (inl callErr))
                | Some (Some err) => ret (Some (inl err))
                | Some None => try_loop fuel r p req start (attempt + 1)
                end
          end
      end
  end.

(** Attempts are numbered from 0 and the loop leaves at [MaxRetries]. *)
Definition attempts r : nat := S (Z.to_nat r.(policy).(MaxRetries)).

Definition tryProvider r p req (start : Z) : M (option (error + ChatResponse)) :=
  try_loop (attempts r) r p req start 0.

(** ** The fail-over chain *)

Section Chain.
Context {A : Type} (try : P -> M (option (error + A))).

(** The time budget of the chain is used up. *)
Definition abandoned r (start : Z) : M bool :=
  if 0 <? r.(policy).(MaxTotal) then
    let! t := now in
    let elapsed := time_sub t start in
    if r.(policy).(MaxTotal) <=? elapsed then do! emit (EvAbandoned elapsed) in ret true
    else ret false
  else ret false.

(** The loop over the chain in [ChatCompletion] and [ChatCompletionStream]. *)
Fixpoint chain_loop r (start : Z) (chain : list P) (lastErr : error) : M (option (error + A)) :=
  match chain with
  | [] => ret (Some (inl lastErr))
  | p :: rest =>
      let! res := try p in
      match res with
      | None => ret None
      | Some (inr a) => ret (Some (inr a))
      | Some (inl err) =>
          if negb (isBreakerError err) && negb (IsRetryable err) then ret (Some (inl err))
          else
            let! over := abandoned r start in
            if over : bool then ret (Some (inl err))
            else match rest with
                 | [] => ret (Some (inl err))
                 | q :: _ =>
                     do! emit (EvFailover (Name p) (Name q)) in
                     chain_loop r start rest err
                 end
      end
  end.
End Chain.

Definition no_provider (model : string) : error :=
  Errorf "%w: %q" [ArgS model] (Some (Sentinel_ ErrNoProviderForModel)).

Definition ChatCompletion r req : M (option (error + ChatResponse)) :=
  match resolve r req.(req_Model) with
  | [] => ret (Some (inl (no_provider req.(req_Model))))
  | chain =>
      let! start := now in
      chain_loop (fun p => tryProvider r p req start) r start chain (no_provider req.(req_Model))
  end.

(** ** Streaming *)

(** A committed stream: the first chunk, the rest of the provider's channel,
    and the permit its forwarder will release. *)
Record committed := {
  st_provider : string; st_first : StreamEvent; st_src : list StreamEvent; st_permit : Permit
}.

Definition streamAttemptOnce p req : M (error + committed) :=
  let! gate := breaker_allow (Name p) in
  match gate with
  | inl gateErr => ret (inl gateErr)
  | inr permit =>
      let! res := call_stream p req in
      match res with
      | inl callErr =>
          do! breaker_done (Name p) permit (breakerObservation (Some callErr)) in
          ret (inl callErr)
      | inr ch =>
          let! x := on_env env_peek in
          match x with
          | RecvCtxDone err =>
              do! breaker_done (Name p) permit None in ret (inl (ctx_Err err))
          | RecvOk =>
              match ch with
              | [] =>
                  let ue := Upstream (NewUpstreamError (Name p) ErrUpstream 0
                              "stream closed before first event") in
                  do! breaker_done (Name p) permit (breakerObservation (Some ue)) in
                  ret (inl ue)
              | Err e :: _ =>
                  do! breaker_done (Name p) permit (breakerObservation (Some e)) in
                  ret (inl e)
              | Chunk c :: src =>
                  ret (inr {| st_provider := Name p; st_first := Chunk c; st_src := src;
                              st_permit := permit |})
              end
          end
      end
  end.

Fixpoint stream_loop (fuel : nat) r p req (start attempt : Z) : M (option (error + committed)) :=
  match fuel with
  | O => ret None
  | S fuel =>
      let! res := streamAttemptOnce p req in
      match res with
      | inr out => ret (Some (inr out))
      | inl err =>
          if isBreakerError err then ret (Some (inl err))
          else if negb (IsRetryable err) then ret (Some (inl err))
          else
            let! w := wait_retry r attempt start err in
            match w with
            | None => ret (Some (inl err))
            | Some (Some sleepErr) => ret (Some (inl sleepErr))
            | Some None => stream_loop fuel r p req start (attempt + 1)
            end
      end
  end.

Definition tryProviderStream r p req (start : Z) : M (option (error + committed)) :=
  stream_loop (attempts r) r p req start 0.

Definition ChatCompletionStream r req : M (option (error + committed)) :=
  match resolve r req.(req_Model) with
  | [] => ret (Some (inl (no_provider req.(req_Model))))
  | chain =>
      let! start := now in
      chain_loop (fun p => tryProviderStream r p req start) r start chain
        (no_provider req.(req_Model))
  end.

Definition sendStreamEvent (ev : StreamEvent) : M bool := on_env env_send.

(** [forwardStream]'s loop over the provider's channel: the events sent so far
    and the last error seen. *)
Fixpoint forward_loop (c : committed) (src : list StreamEvent) (sent : list StreamEvent)
    (lastErr : option error) : M (list StreamEvent) :=
  match src with
  | [] => do! breaker_done c.(st_provider) c.(st_permit) (breakerObservation lastErr) in ret sent
  | ev :: src =>
      let! ok := sendStreamEvent ev in
      if ok : bool then
        forward_loop c src (sent ++ [ev]) (match ev_Err ev with Some e => Some e | None => lastErr end)
      else do! breaker_done c.(st_provider) c.(st_permit) None in ret sent
  end.

Definition forwardStream (c : committed) : M (list StreamEvent) :=
  let! ok := sendStreamEvent c.(st_first) in
  if ok : bool then forward_loop c c.(st_src) [c.(st_first)] None
  else do! breaker_done c.(st_provider) c.(st_permit) None in ret [].

(** ** Reasoning about histories *)

(** [runs m Q]: from every state, [m] appends events [tr] to the history and
    returns [a] with [Q a tr]. *)
Definition runs {A} (m : M A) (Q : A -> list event -> Prop) : Prop :=
  forall s, exists tr, (m s).2.(history) = s.(history) ++ tr /\ Q (m s).1 tr.

Lemma runs_ret {A} (a : A) (Q : A -> list event -> Prop) : Q a [] -> runs (ret a) Q.
Proof. intros HQ s. exists []. by rewrite app_nil_r. Qed.

Lemma runs_bind {A B} (m : M A) (k : A -> M B) (Q : B -> list event -> Prop) :
  runs m (fun a tr1 => runs (k a) (fun b tr2 => Q b (tr1 ++ tr2))) -> runs (bind m k) Q.
Proof.
  intros Hm s. unfold bind. destruct (Hm s) as (tr1 & H1 & Hk).
  destruct (m s) as [a s1]. simpl in *. destruct (Hk s1) as (tr2 & H2 & HQ).
  exists (tr1 ++ tr2). split; [|done]. by rewrite H2, H1, app_assoc.
Qed.

Lemma runs_mono {A} (m : M A) (Q Q' : A -> list event -> Prop) :
  runs m Q -> (forall a tr, Q a tr -> Q' a tr) -> runs m Q'.
Proof. intros Hm HQ s. destruct (Hm s) as (tr & ? & ?). exists tr. auto. Qed.

Lemma runs_env {A} (f : E -> A * E) (Q : A -> list event -> Prop) :
  (forall a, Q a []) -> runs (on_env f) Q.
Proof.
  intros HQ s. exists []. unfold on_env. destruct (f (env s)). simpl.
  by rewrite app_nil_r.
Qed.

(** The same, keeping where the answer came from. *)
Lemma runs_env_from {A} (f : E -> A * E) (Q : A -> list event -> Prop) :
  (forall a e, (f e).1 = a -> Q a []) -> runs (on_env f) Q.
Proof.
  intros HQ s. exists []. unfold on_env. specialize (HQ (f (env s)).1 (env s) eq_refl).
  destruct (f (env s)). simpl in *. by rewrite app_nil_r.
Qed.

Lemma runs_emit ev (Q : unit -> list event -> Prop) : Q tt [ev] -> runs (emit ev) Q.
Proof. intros HQ s. by exists [ev]. Qed.

Lemma runs_allow `{!GoBreakerLaws CB Permit} name (Q : error + Permit -> list event -> Prop) :
  (forall e, isBreakerError e = true -> Q (inl e) [EvReject name]) ->
  (forall pm, Q (inr pm) [EvAllow name]) ->
  runs (breaker_allow name) Q.
Proof.
  intros H1 H2 s. unfold breaker_allow, bind, on_env, on_pool, emit, ret.
  destruct (env_wall (env s)) as [t e]. simpl.
  destruct (allow t name (pool s)) as [[err|pm] pl] eqn:Ea; simpl;
    (eexists; split; [reflexivity|]).
  - apply H1. eapply isBreakerError_allow, Ea.
  - apply H2.
Qed.

Lemma runs_done name pm obs (Q : unit -> list event -> Prop) :
  Q tt [EvDone name obs] -> runs (breaker_done name pm obs) Q.
Proof.
  intros HQ s. unfold breaker_done, bind, on_env, on_pool, emit.
  destruct (env_wall (env s)) as [t e]. simpl. by exists [EvDone name obs].
Qed.
End Router.

Arguments rstate : clear implicits.
Arguments Router : clear implicits.
Arguments committed : clear implicits.
