(* ===== verification/RouterSpec.v ===== *)
(** * RouterSpec: what the router does, as a protocol over its event history

    The abstract specification of [Router]: [session] is the language of
    histories one provider may produce, [chain_session] that of a whole
    request.  The refinement lemmas show every run of [ChatCompletion] and
    [ChatCompletionStream] stays inside it, from every state, for every
    environment and every breaker that satisfies [GoBreakerLaws]; the theorems
    about attempts, permits, budgets and errors follow by rule induction. *)

From S2P Require Import Prelude GoStd Float64 Errors Types Registry Policy Router.
Import Retry Breaker.
Local Open Scope Z_scope.

(** ** The protocol *)

Section Protocol.
Context (pol : RetryPolicy).

(** A sleep the retry loop may perform: within the budget when there is one. *)
Definition sleep_ok (elapsed : option Z) (d : Z) : Prop :=
  match elapsed with
  | Some el => 0 < pol.(MaxTotal) /\ wrap64 (el + d) <= pol.(MaxTotal)
  | None => pol.(MaxTotal) <= 0
  end.

(** Why no further attempt is made: with the next delay the budget would be
    exceeded, as the code computes it. *)
Definition over_budget (el d : Z) : Prop := 0 < pol.(MaxTotal) < wrap64 (el + d).

Context {A : Type}.
(** What a successful attempt still leaves in the history, and how the outcome
    of the call relates to the error of a failed attempt (a stream may fail
    after its call succeeded); [good] relates a success to its provider. *)
Context (ok_tail : string -> list event) (call_err : option error -> error -> Prop)
  (good : string -> A -> Prop).

Definition failed (name : string) (co obs : option error) : list event :=
  [EvAllow name; EvCall name co; EvDone name obs].

(** Histories of one provider from attempt [att] on. *)
Inductive session (name : string) : Z -> error + A -> list event -> Prop :=
  | session_reject att e :
      isBreakerError e = true -> session name att (inl e) [EvReject name]
  | session_ok att a :
      good name a ->
      session name att (inr a) ([EvAllow name; EvCall name None] ++ ok_tail name)
  | session_fatal att e co :
      IsRetryable e = false -> call_err co e ->
      session name att (inl e) (failed name co None)
  | session_last att e co :
      IsRetryable e = true -> call_err co e -> pol.(MaxRetries) <= att \/ isBreakerError e = true ->
      session name att (inl e) (failed name co (Some e))
  | session_budget att e co el d :
      IsRetryable e = true -> call_err co e -> att < pol.(MaxRetries) -> over_budget el d ->
      session name att (inl e) (failed name co (Some e) ++ [EvBudget el d])
  | session_woken att e co el d err :
      IsRetryable e = true -> call_err co e -> att < pol.(MaxRetries) -> sleep_ok el d ->
      session name att (inl err) (failed name co (Some e) ++ [EvSleep el d])
  | session_retry att e co el d res tr :
      IsRetryable e = true -> call_err co e -> att < pol.(MaxRetries) -> sleep_ok el d ->
      session name (att + 1) res tr ->
      session name att res (failed name co (Some e) ++ EvSleep el d :: tr).

(** An error after which the next provider of the chain may be tried. *)
Definition eligible (e : error) : bool := isBreakerError e || IsRetryable e.

(** Histories of a request over the names of its chain. *)
Inductive chain_session : list string -> error + A -> list event -> Prop :=
  | chain_ok n rest a tr :
      session n 0 (inr a) tr -> chain_session (n :: rest) (inr a) tr
  | chain_fatal n rest e tr :
      session n 0 (inl e) tr -> eligible e = false -> chain_session (n :: rest) (inl e) tr
  | chain_last n e tr :
      session n 0 (inl e) tr -> eligible e = true -> chain_session [n] (inl e) tr
  | chain_abandoned n rest e tr el :
      session n 0 (inl e) tr -> eligible e = true -> 0 < pol.(MaxTotal) <= el ->
      chain_session (n :: rest) (inl e) (tr ++ [EvAbandoned el])
  | chain_next n m rest e tr res tr' :
      session n 0 (inl e) tr -> eligible e = true -> chain_session (m :: rest) res tr' ->
      chain_session (n :: m :: rest) res (tr ++ EvFailover n m :: tr').
End Protocol.

(** ** Refinement *)

Section Refinement.
Context {E P R CB Permit : Type} `{!Env E P} `{!Provider P} `{!ModelResolver R P}
  `{!GoBreaker CB Permit}
  `{!GoBreakerLaws CB Permit}.
Implicit Types (r : Router R) (req : ChatRequest).

(** The outcomes of [wait_retry]. *)
Lemma runs_wait_retry r attempt start e (Q : option (option error) -> list event -> Prop) :
  (r.(policy).(MaxRetries) <= attempt -> Q None []) ->
  (forall el d, attempt < r.(policy).(MaxRetries) -> over_budget r.(policy) el d ->
     Q None [EvBudget el d]) ->
  (forall el d x, attempt < r.(policy).(MaxRetries) -> sleep_ok r.(policy) el d ->
     Q (Some x) [EvSleep el d]) ->
  runs (E := E) (CB := CB) (wait_retry r attempt start e) Q.
Proof.
  intros HN HB HS. unfold wait_retry.
  destruct (Z.leb_spec (MaxRetries (policy r)) attempt) as [|Hlt]; [by apply runs_ret, HN|].
  apply runs_bind, runs_env. intros rnd.
  destruct (Z.ltb_spec 0 (MaxTotal (policy r))) as [Hb|Hb].
  - apply runs_bind, runs_env. intros t.
    case_goal; bool_to_prop; [apply runs_bind, runs_emit, runs_ret, HB; [done|split; lia]|].
    apply runs_bind, runs_bind, runs_emit, runs_env. intros x. apply runs_ret. by apply HS.
  - apply runs_bind, runs_bind, runs_emit, runs_env. intros x. apply runs_ret. by apply HS.
Qed.

Definition chat_call_err (co : option error) (e : error) : Prop := co = Some e.
(** The response is what the chain's provider of that name returned for the
    request. *)
Definition chat_good r req (name : string) (resp : ChatResponse) : Prop :=
  exists (p : P) (e : E), p ∈ resolve r req.(req_Model) /\ Name p = name /\ (env_chat p req e).1 = inr resp.
Definition chat_ok_tail (name : string) : list event := [EvDone name None].

(** Enough fuel for the attempts left. *)
Definition fuel_ok r (attempt : Z) (fuel : nat) : Prop :=
  Z.max 0 (r.(policy).(MaxRetries) - attempt) < Z.of_nat fuel.

Lemma try_loop_session fuel r (p : P) req start attempt :
  p ∈ resolve r req.(req_Model) -> fuel_ok r attempt fuel ->
  runs (E := E) (CB := CB) (try_loop fuel r p req start attempt) (fun res tr =>
    exists x, res = Some x /\
      session r.(policy) chat_ok_tail chat_call_err (chat_good r req) (Name p) attempt x tr).
Proof.
  intros Hp. revert attempt. induction fuel as [|fuel IH]; intros attempt Hf; [unfold fuel_ok in Hf; lia|].
  simpl. apply runs_bind, runs_allow; [intros e He|intros pm].
  { apply runs_ret. exists (inl e). split; [done|]. by apply session_reject. }
  apply runs_bind, runs_bind, runs_env_from. intros res e0 Hres. apply runs_bind, runs_emit, runs_ret.
  destruct res as [e|resp].
  - apply runs_bind, runs_done. unfold breakerObservation.
    destruct (IsRetryable e) eqn:Er; simpl.
    + apply runs_bind, runs_wait_retry.
      * intros Hm. apply runs_ret. exists (inl e). split; [done|]. apply session_last; auto. done.
      * intros el d Hlt Hb. apply runs_ret. exists (inl e). split; [done|].
        by apply (session_budget _ _ _ _ _ _ e (Some e)).
      * intros el d [err|] Hlt Hs.
        -- apply runs_ret. exists (inl err). split; [done|].
           by apply (session_woken _ _ _ _ _ _ e (Some e)).
        -- eapply runs_mono; [apply IH; unfold fuel_ok in *; lia|].
           intros a tr (x & -> & Hx). exists x. split; [done|].
           by apply (session_retry _ _ _ _ _ _ e (Some e)).
    + apply runs_ret. exists (inl e). split; [done|]. by apply session_fatal.
  - apply runs_bind, runs_done, runs_ret. exists (inr resp). split; [done|].
    apply (session_ok _ chat_ok_tail). by exists p, e0.
Qed.

Definition stream_call_err (co : option error) (e : error) : Prop := co = Some e \/ co = None.
Definition stream_good (name : string) (c : committed Permit) : Prop := c.(st_provider) = name.
Definition stream_ok_tail (name : string) : list event := [].

(** A committed stream carries exactly what one call to one provider produced,
    beginning with a chunk. *)
Definition committed_from (p : P) req (c : committed Permit) : Prop :=
  c.(st_provider) = Name p /\ ev_Err c.(st_first) = None /\
  exists e : E, (env_stream p req e).1 = inr (c.(st_first) :: c.(st_src)).

(** One stream attempt: refused, failed before the first chunk with the permit
    already released, or committed with the permit held. *)
Lemma runs_streamAttemptOnce (p : P) req
    (Q : error + committed Permit -> list event -> Prop) :
  (forall e, isBreakerError e = true -> Q (inl e) [EvReject (Name p)]) ->
  (forall e co, stream_call_err co e ->
     Q (inl e) (failed (Name p) co (breakerObservation (Some e)))) ->
  (forall c, committed_from p req c -> Q (inr c) [EvAllow (Name p); EvCall (Name p) None]) ->
  runs (E := E) (CB := CB) (streamAttemptOnce p req) Q.
Proof.
  intros HR HF HC. unfold streamAttemptOnce. apply runs_bind, runs_allow; [intros e He|intros pm].
  { apply runs_ret. by apply HR. }
  apply runs_bind, runs_bind, runs_env_from. intros res e0 Hres.
  apply runs_bind, runs_emit, runs_ret.
  destruct res as [e|ch].
  { apply runs_bind, runs_done, runs_ret. apply (HF e (Some e)). by left. }
  apply runs_bind, runs_env. intros [|ce].
  - destruct ch as [|[c|e] src]; [apply runs_bind, runs_done, runs_ret..| |].
    + apply (HF _ None). by right.
    + apply runs_ret. apply HC. split_and!; [done|done|by exists e0].
    + apply runs_bind, runs_done, runs_ret. apply (HF _ None). by right.
  - apply runs_bind, runs_done, runs_ret.
    assert (Ho : breakerObservation (Some (ctx_Err ce)) = None) by by destruct ce.
    specialize (HF (ctx_Err ce) None). rewrite Ho in HF. apply HF. by right.
Qed.

Lemma stream_loop_session fuel r (p : P) req start attempt :
  fuel_ok r attempt fuel ->
  runs (E := E) (CB := CB) (stream_loop fuel r p req start attempt) (fun res tr =>
    exists x, res = Some x /\
      session r.(policy) stream_ok_tail stream_call_err stream_good (Name p) attempt x tr /\
      forall c, x = inr c -> committed_from p req c).
Proof.
  revert attempt. induction fuel as [|fuel IH]; intros attempt Hf; [unfold fuel_ok in Hf; lia|].
  simpl. apply runs_bind, runs_streamAttemptOnce.
  - intros e He. rewrite He. apply runs_ret. exists (inl e). split_and!; [done| |done].
    by apply session_reject.
  - intros e co Hco. unfold breakerObservation.
    destruct (isBreakerError e) eqn:Eb; [|destruct (IsRetryable e) eqn:Er; simpl].
    + apply runs_ret. exists (inl e). split_and!; [done| |done].
      destruct (IsRetryable e) eqn:Er; [apply session_last; auto|by apply session_fatal].
    + apply runs_bind, runs_wait_retry.
      * intros Hm. apply runs_ret. exists (inl e). split_and!; [done| |done]. apply session_last; auto.
      * intros el d Hlt Hb. apply runs_ret. exists (inl e). split_and!; [done| |done].
        by apply (session_budget _ _ _ _ _ _ e co).
      * intros el d [err|] Hlt Hs.
        -- apply runs_ret. exists (inl err). split_and!; [done| |done].
           by apply (session_woken _ _ _ _ _ _ e co).
        -- eapply runs_mono; [apply IH; unfold fuel_ok in *; lia|].
           intros a tr (x & -> & Hx & Hc). exists x. split_and!; [done| |done].
           by apply (session_retry _ _ _ _ _ _ e co).
    + apply runs_ret. exists (inl e). split_and!; [done| |done]. by apply session_fatal.
  - intros c Hc. apply runs_ret. exists (inr c). split_and!; [done| |by intros ? [= <-]].
    apply (session_ok _ stream_ok_tail). apply Hc.
Qed.

Section ChainRefinement.
Context {A : Type} (ok_tail : string -> list event) (call_err : option error -> error -> Prop)
  (good : string -> A -> Prop).
Context (try : P -> M (E := E) (CB := CB) (option (error + A))) (G : P -> A -> Prop).
Context (r : Router R).
Context (all : list P).
Context (Htry : forall p, p ∈ all -> runs (try p) (fun res tr =>
  exists x, res = Some x /\ session r.(policy) ok_tail call_err good (Name p) 0 x tr /\
    forall a, x = inr a -> G p a)).

Lemma runs_abandoned start (Q : bool -> list event -> Prop) :
  Q false [] -> (forall el, 0 < r.(policy).(MaxTotal) <= el -> Q true [EvAbandoned el]) ->
  runs (E := E) (CB := CB) (abandoned r start) Q.
Proof.
  intros HF HT. unfold abandoned. destruct (Z.ltb_spec 0 (MaxTotal (policy r))); [|by apply runs_ret].
  apply runs_bind, runs_env. intros t.
  destruct (Z.leb_spec (MaxTotal (policy r)) (time_sub t start)); [|by apply runs_ret].
  apply runs_bind, runs_emit, runs_ret, HT. lia.
Qed.

Lemma eligible_spec e : eligible e = negb (negb (isBreakerError e) && negb (IsRetryable e)).
Proof. unfold eligible. by destruct (isBreakerError e), (IsRetryable e). Qed.

Lemma chain_loop_cons start p rest e0 :
  chain_loop try r start (p :: rest) e0 =
  bind (try p) (fun res =>
    match res with
    | None => ret None
    | Some (inr a) => ret (Some (inr a))
    | Some (inl err) =>
        if negb (isBreakerError err) && negb (IsRetryable err) then ret (Some (inl err))
        else bind (abandoned r start) (fun over =>
             if over : bool then ret (Some (inl err))
             else match rest with
                  | [] => ret (Some (inl err))
                  | q :: _ => bind (emit (EvFailover (Name p) (Name q)))
                                (fun _ => chain_loop try r start rest err)
                  end)
    end).
Proof. done. Qed.

Lemma chain_loop_session start p chain e0 :
  p :: chain ⊆ all ->
  runs (chain_loop try r start (p :: chain) e0) (fun res tr =>
    exists x, res = Some x /\
      chain_session r.(policy) ok_tail call_err good (Name <$> p :: chain) x tr /\
      forall a, x = inr a -> exists q, q ∈ p :: chain /\ G q a).
Proof.
  revert p e0. induction chain as [|q chain IH]; intros p e0 Hall;
    rewrite chain_loop_cons; apply runs_bind; (eapply runs_mono; [apply Htry; set_solver|]);
    intros ? tr (x & -> & Hs & HG); destruct x as [e|a];
    (* success: the stream or response of this provider *)
    try (apply runs_ret; exists (inr a); rewrite app_nil_r; split_and!;
         [done|by apply chain_ok|intros ? [= <-]; exists p; split; [set_solver|auto]]);
    (* a fatal error ends the chain *)
    pose proof (eligible_spec e) as Hel;
    (destruct (negb (isBreakerError e) && negb (IsRetryable e));
      [apply runs_ret; exists (inl e); rewrite app_nil_r; split_and!;
         [done|by apply chain_fatal|done]|]);
    apply runs_bind, runs_abandoned; try (intros el Hel'; apply runs_ret; exists (inl e);
      rewrite app_nil_r; split_and!; [done|by apply chain_abandoned|done]); cbn [app].
  - apply runs_ret. exists (inl e). rewrite app_nil_r. split_and!; [done|by apply chain_last|done].
  - apply runs_bind, runs_emit. eapply runs_mono; [apply IH; set_solver|].
    intros a tr2 (x & -> & Hx & HG'). exists x. split_and!; [done| |].
    + simpl. by eapply chain_next.
    + intros a Ha. destruct (HG' a Ha) as (q' & ? & ?). exists q'. split; [set_solver|done].
Qed.
End ChainRefinement.

Lemma attempts_fuel r : fuel_ok r 0 (attempts r).
Proof. unfold fuel_ok, attempts. lia. Qed.

(** Histories of whole requests. *)
Lemma ChatCompletion_session r req :
  runs (E := E) (CB := CB) (ChatCompletion r req) (fun res tr =>
    exists x, res = Some x /\
      match resolve r req.(req_Model) with
      | [] => x = inl (no_provider req.(req_Model)) /\ tr = []
      | chain => chain_session r.(policy) chat_ok_tail chat_call_err (chat_good r req) (Name <$> chain) x tr
      end).
Proof.
  unfold ChatCompletion. destruct (resolve r (req_Model req)) as [|p chain] eqn:Er.
  { apply runs_ret. by exists (inl (no_provider (req_Model req))). }
  apply runs_bind, runs_env. intros start. cbn [app].
  eapply runs_mono; [apply (chain_loop_session chat_ok_tail chat_call_err (chat_good r req) _ (fun _ _ => True)
    r (p :: chain))|]; [|done|].
  - intros q Hq. eapply runs_mono; [apply try_loop_session, attempts_fuel; by rewrite Er|].
    intros a tr (x & ? & ?). by exists x.
  - intros a tr (x & ? & ? & _). by exists x.
Qed.

Lemma ChatCompletionStream_session r req :
  runs (E := E) (CB := CB) (ChatCompletionStream r req) (fun res tr =>
    exists x, res = Some x /\
      match resolve r req.(req_Model) with
      | [] => x = inl (no_provider req.(req_Model)) /\ tr = []
      | chain =>
          chain_session r.(policy) stream_ok_tail stream_call_err stream_good (Name <$> chain) x tr /\
          forall c, x = inr c -> exists p, p ∈ chain /\ committed_from p req c
      end).
Proof.
  unfold ChatCompletionStream. destruct (resolve r (req_Model req)) as [|p chain].
  { apply runs_ret. by exists (inl (no_provider (req_Model req))). }
  apply runs_bind, runs_env. intros start. cbn [app].
  eapply runs_mono; [apply (chain_loop_session stream_ok_tail stream_call_err stream_good _
    (fun p c => committed_from p req c) r (p :: chain))|]; [|done|].
  - intros q _. apply stream_loop_session, attempts_fuel.
  - intros a tr (x & ? & ? & ?). by exists x.
Qed.
End Refinement.

(** ** Counting events *)

Definition is_call (n : string) (ev : event) : bool :=
  match ev with EvCall m _ => bool_decide (m = n) | _ => false end.
Definition is_allow (n : string) (ev : event) : bool :=
  match ev with EvAllow m => bool_decide (m = n) | _ => false end.
Definition is_done (n : string) (ev : event) : bool :=
  match ev with EvDone m _ => bool_decide (m = n) | _ => false end.
Definition any_call (ev : event) : bool := match ev with EvCall _ _ => true | _ => false end.

Fixpoint count (f : event -> bool) (tr : list event) : Z :=
  match tr with [] => 0 | ev :: tr' => (if f ev then 1 else 0) + count f tr' end.

Lemma count_app f tr1 tr2 : count f (tr1 ++ tr2) = count f tr1 + count f tr2.
Proof. induction tr1 as [|ev tr1 IH]; simpl; lia. Qed.

Lemma count_nonneg f tr : 0 <= count f tr.
Proof. induction tr; simpl; [lia|]. case_match; lia. Qed.

(** Permits of [n] granted and not yet released. *)
Definition held (n : string) (tr : list event) : Z := count (is_allow n) tr - count (is_done n) tr.

Section Consequences.
Context (pol : RetryPolicy) {A : Type}.
Context (ok_tail : string -> list event) (call_err : option error -> error -> Prop)
  (good : string -> A -> Prop).
Context (Htail : forall n f, (forall m o, f (EvDone m o) = false) -> count f (ok_tail n) = 0).

Ltac count_simpl := rewrite ?count_app; simpl; rewrite ?count_app; simpl.

(** Any event kind that occurs at most once per attempt. *)
Definition calls_only (f : event -> bool) : Prop :=
  (forall m o, f (EvDone m o) = false) /\ (forall el d, f (EvSleep el d) = false) /\
  (forall el d, f (EvBudget el d) = false) /\ (forall m, f (EvReject m) = false) /\
  (forall m, f (EvAllow m) = false).

Lemma session_count f name att (res : error + A) tr :
  session pol ok_tail call_err good name att res tr ->
  calls_only f ->
  count f tr <= 1 + Z.max 0 (pol.(MaxRetries) - att).
Proof.
  intros Hs (Hd & Hsl & Hb & Hr & Ha). induction Hs; count_simpl;
    rewrite ?Hd, ?Hsl, ?Hb, ?Hr, ?Ha, ?Htail by done; repeat case_match; lia.
Qed.

Lemma session_count_other f name att (res : error + A) tr :
  session pol ok_tail call_err good name att res tr ->
  (forall o, f (EvCall name o) = false) -> calls_only f -> count f tr = 0.
Proof.
  intros Hs Hc (Hd & Hsl & Hb & Hr & Ha).
  induction Hs; count_simpl; rewrite ?Hc, ?Hd, ?Hsl, ?Hb, ?Hr, ?Ha, ?Htail by done; lia.
Qed.

Lemma is_call_other n m : m <> n -> is_call n (EvCall m None) = false.
Proof. intros. simpl. by rewrite bool_decide_eq_false_2. Qed.

Lemma chain_calls_total chain (res : error + A) tr :
  chain_session pol ok_tail call_err good chain res tr ->
  count any_call tr <= Z.of_nat (length chain) * (1 + Z.max 0 pol.(MaxRetries)).
Proof.
  induction 1 as [n rest a tr Hs|n rest e tr Hs _|n e tr Hs _|n rest e tr el Hs _ _|
      n m rest e tr res tr' Hs _ _ IH];
    pose proof (session_count any_call _ _ _ _ Hs ltac:(by split_and!));
    rewrite ?count_app; simpl length in *; simpl count; nia.
Qed.

Lemma chain_calls_each chain (res : error + A) tr n :
  chain_session pol ok_tail call_err good chain res tr -> NoDup chain ->
  count (is_call n) tr <= 1 + Z.max 0 pol.(MaxRetries) /\
  (n ∉ chain -> count (is_call n) tr = 0).
Proof.
  assert (Hone : forall m att (x : error + A) t, session pol ok_tail call_err good m att x t ->
    m <> n -> count (is_call n) t = 0).
  { intros m att x t Hs Hne. apply (session_count_other _ _ _ _ _ Hs); [|by split_and!].
    intros o. simpl. by rewrite bool_decide_eq_false_2. }
  induction 1 as [m rest a tr Hs|m rest e tr Hs _|m e tr Hs _|m rest e tr el Hs _ _|
      m m' rest e tr res tr' Hs _ Hc IH]; intros Hnd;
    pose proof (session_count (is_call n) _ _ _ _ Hs ltac:(by split_and!)) as Hb.
  1-4: rewrite ?count_app; simpl count; split; [lia|]; intros Hn; rewrite (Hone m 0 _ _ Hs); set_solver.
  inversion Hnd as [|? ? Hm Hnd2]; subst. destruct (IH Hnd2) as [IH1 IH2].
  rewrite count_app; simpl count. split.
  - destruct (decide (m = n)) as [->|Hne]; [rewrite IH2 by done; lia|].
    rewrite (Hone m 0 _ _ Hs) by done. lia.
  - intros Hn. rewrite IH2 by set_solver. rewrite (Hone m 0 _ _ Hs) by set_solver. lia.
Qed.

(** Every sleep was within the budget. *)
Definition sleeps_ok (ev : event) : Prop :=
  match ev with EvSleep el d => sleep_ok pol el d | _ => True end.

(** Only retryable errors count against a breaker. *)
Definition observed_ok (ev : event) : Prop :=
  match ev with EvDone _ (Some e) => IsRetryable e = true | _ => True end.

Lemma session_Forall name att (res : error + A) tr :
  Forall observed_ok (ok_tail name) -> Forall sleeps_ok (ok_tail name) ->
  session pol ok_tail call_err good name att res tr -> Forall sleeps_ok tr /\ Forall observed_ok tr.
Proof.
  intros H1 H2.
  induction 1 as [| | | | | |att e co el d res tr Hr Hc Hlt Hs Hss IH]; try destruct IH;
    unfold failed; rewrite ?Forall_app, ?list.Forall_cons, ?list.Forall_nil; simpl; tauto.
Qed.

Lemma chain_Forall chain (res : error + A) tr :
  (forall n, Forall observed_ok (ok_tail n) /\ Forall sleeps_ok (ok_tail n)) ->
  chain_session pol ok_tail call_err good chain res tr -> Forall sleeps_ok tr /\ Forall observed_ok tr.
Proof.
  intros Ht. induction 1 as [n rest a tr Hs|n rest e tr Hs _|n e tr Hs _|n rest e tr el Hs _ _|
      n m rest e tr res tr' Hs _ _ [IH1 IH2]];
    destruct (session_Forall _ _ _ _ (proj1 (Ht n)) (proj2 (Ht n)) Hs) as [H1 H2]; [done..| |];
    by rewrite !Forall_app, !list.Forall_cons.
Qed.
End Consequences.

(** ** Permits *)

Section Permits.
Context (pol : RetryPolicy) {A : Type}.
Context (ok_tail : string -> list event) (call_err : option error -> error -> Prop)
  (good : string -> A -> Prop).
(** The permits a success leaves held. *)
Context (keep : Z) (Hkeep : forall n m, held n (ok_tail m) =
  if bool_decide (m = n) then keep - 1 else 0).

Definition kept (name n : string) (res : error + A) : Z :=
  match res with inr _ => if bool_decide (name = n) then keep else 0 | inl _ => 0 end.

Lemma held_app n tr1 tr2 : held n (tr1 ++ tr2) = held n tr1 + held n tr2.
Proof. unfold held. rewrite !count_app. lia. Qed.

Lemma held_failed n name co obs : held n (failed name co obs) = 0.
Proof. unfold held, failed. simpl. by case_bool_decide. Qed.

Lemma session_held n name att (res : error + A) tr :
  session pol ok_tail call_err good name att res tr -> held n tr = kept name n res.
Proof.
  induction 1 as [| | | | | |att e co el d res tr ? ? ? ? ? IH]; unfold kept.
  - done.
  - rewrite held_app, Hkeep. unfold held. simpl. case_bool_decide; lia.
  - apply held_failed.
  - apply held_failed.
  - by rewrite held_app, held_failed.
  - by rewrite held_app, held_failed.
  - rewrite held_app, held_failed. unfold held in *. simpl. rewrite <- Z.sub_0_r.
    unfold kept in IH. lia.
Qed.

Lemma session_good name att (res : error + A) tr :
  session pol ok_tail call_err good name att res tr -> forall a, res = inr a -> good name a.
Proof. induction 1; intros ? [=]; subst; auto. Qed.

Lemma chain_held n chain (res : error + A) tr :
  chain_session pol ok_tail call_err good chain res tr ->
  exists m, (forall a, res = inr a -> good m a) /\ held n tr = kept m n res.
Proof.
  induction 1 as [m rest a tr Hs|m rest e tr Hs _|m e tr Hs _|m rest e tr el Hs _ _|
      m m' rest e tr res tr' Hs _ Hc (k & Hk & IH)].
  1-4: exists m; split; [by eapply session_good, Hs|]; apply (session_held n) in Hs; try done.
  { by rewrite held_app, Hs. }
  exists k. split; [done|]. apply (session_held n) in Hs.
  rewrite held_app, Hs. unfold held in *. simpl. lia.
Qed.
End Permits.

(** ** Endings *)

Section Endings.
Context (pol : RetryPolicy) {A : Type} (good : string -> A -> Prop).

Abbreviation chat_session := (session pol (A := A) chat_ok_tail chat_call_err good).
Abbreviation chat_chain := (chain_session pol (A := A) chat_ok_tail chat_call_err good).

(** A call that failed with a non-retryable error ends its session. *)
Lemma session_fatal_last n e name att res tr :
  chat_session name att res tr -> EvCall n (Some e) ∈ tr -> IsRetryable e = false ->
  res = inl e /\ exists tr0, tr = tr0 ++ failed n (Some e) None.
Proof.
  intros Hs Hin He. induction Hs as [| |att e' co Hf Hc|att e' co Hf Hc|att e' co el d Hf Hc|
    att e' co el d err Hf Hc|att e' co el d res tr Hf Hc Hlt Hsl Hs IH]; unfold chat_call_err in *; subst;
    unfold failed, chat_ok_tail in *; cbn [app] in *;
    repeat (apply elem_of_cons in Hin as [Heq|Hin]; [simplify_eq; try congruence|]);
    try by apply elem_of_nil in Hin.
  - split; [done|]. by exists [].
  - destruct (IH Hin) as [-> [tr0 ->]]. split; [done|].
    by exists ([EvAllow name; EvCall name (Some e'); EvDone name (Some e'); EvSleep el d] ++ tr0).
Qed.

Lemma chain_fatal_last n e chain res tr :
  chat_chain chain res tr -> EvCall n (Some e) ∈ tr -> eligible e = false ->
  res = inl e /\ exists tr0, tr = tr0 ++ failed n (Some e) None.
Proof.
  intros Hc Hin He. assert (Hr : IsRetryable e = false)
    by (unfold eligible in He; by apply orb_false_iff in He as [_ ?]).
  induction Hc as [m rest a tr Hs|m rest e' tr Hs _|m e' tr Hs _|m rest e' tr el Hs Hel _|
      m m' rest e' tr res tr' Hs Hel Hc IH].
  1-3: by apply (session_fatal_last n e) in Hs.
  - apply elem_of_app in Hin as [Hin|Hin]; [|set_solver].
    apply (session_fatal_last n e) in Hs as [[= ->] _]; [congruence|done..].
  - apply elem_of_app in Hin as [Hin|Hin].
    + apply (session_fatal_last n e) in Hs as [[= ->] _]; [congruence|done..].
    + apply elem_of_cons in Hin as [?|Hin]; [done|]. destruct (IH Hin) as [-> [tr0 ->]].
      split; [done|]. exists (tr ++ EvFailover m m' :: tr0). by rewrite <- app_assoc.
Qed.

Definition is_success (ev : event) : bool := match ev with EvCall _ None => true | _ => false end.

Lemma session_success name att res tr :
  chat_session name att res tr ->
  count is_success tr = match res with inr _ => 1 | inl _ => 0 end /\
  (forall a, res = inr a -> exists tr0, tr = tr0 ++ [EvAllow name; EvCall name None; EvDone name None]).
Proof.
  induction 1 as [| |att e' co Hf Hc|att e' co Hf Hc|att e' co el d Hf Hc|att e' co el d err Hf Hc|
    att e' co el d res tr Hf Hc Hlt Hsl Hs [IH1 IH2]]; unfold chat_call_err in *; subst;
    try (split; [done|by intros ? [=]]).
  - split; [done|]. intros. by exists [].
  - split; [simpl; lia|]. intros a Ha. destruct (IH2 a Ha) as [tr0 ->].
    by exists (failed name (Some e') (Some e') ++ EvSleep el d :: tr0).
Qed.

Lemma chain_success chain res tr :
  chat_chain chain res tr ->
  count is_success tr = match res with inr _ => 1 | inl _ => 0 end /\
  (forall a, res = inr a -> exists n tr0, n ∈ chain /\ good n a /\
     tr = tr0 ++ [EvAllow n; EvCall n None; EvDone n None]).
Proof.
  induction 1 as [m rest a tr Hs|m rest e' tr Hs _|m e' tr Hs _|m rest e' tr el Hs _ _|
      m m' rest e' tr res tr' Hs Hel Hc [IH1 IH2]];
    pose proof (session_good _ _ _ _ _ _ _ _ Hs) as Hg; apply session_success in Hs as [H1 H2].
  - split; [done|]. intros a' Ha. destruct (H2 a' Ha) as [tr0 ->]. exists m, tr0.
    split_and!; [set_solver|by apply Hg|done].
  - split; [done|]. by intros ? [=].
  - split; [done|]. by intros ? [=].
  - split; [by rewrite count_app, H1|]. by intros ? [=].
  - split; [rewrite count_app; simpl; lia|]. intros a Ha.
    destruct (IH2 a Ha) as (n & tr0 & Hn & Hgood & ->). exists n, (tr ++ EvFailover m m' :: tr0).
    split_and!; [set_solver|done|]. by rewrite <- app_assoc.
Qed.
End Endings.

(** ** The forwarder *)

(** The last error event of a stream. *)
Definition last_err (evs : list StreamEvent) : option error :=
  fold_left (fun acc ev => match ev_Err ev with Some e => Some e | None => acc end) evs None.

Section Forward.
Context {E P R CB Permit : Type} `{!Env E P} `{!Provider P} `{!ModelResolver R P}
  `{!GoBreaker CB Permit}.

Lemma runs_forward_loop (c : committed Permit) src sent err :
  runs (E := E) (CB := CB) (forward_loop (P := P) c src sent err) (fun out tr =>
    (out = sent ++ src /\
     tr = [EvDone c.(st_provider) (breakerObservation
       (fold_left (fun acc ev => match ev_Err ev with Some e => Some e | None => acc end) src err))]) \/
    ((exists k, (k < length src)%nat /\ out = sent ++ take k src) /\
     tr = [EvDone c.(st_provider) None])).
Proof.
  revert sent err. induction src as [|ev src IH]; intros sent err; simpl.
  - apply runs_bind, runs_done, runs_ret. left. by rewrite !app_nil_r.
  - apply runs_bind, runs_env. intros [].
    + eapply runs_mono; [apply IH|]. intros out tr [[-> ->]|[(k & Hk & ->) ->]]; [left|right].
      * by rewrite <- app_assoc.
      * split; [|done]. exists (S k). simpl. split; [lia|]. by rewrite <- app_assoc.
    + apply runs_bind, runs_done, runs_ret. right. split; [|done]. exists 0%nat. simpl.
      rewrite app_nil_r. split; [lia|done].
Qed.

(** The forwarder releases its permit exactly once, and what it hands to the
    client is a prefix of the committed stream. *)
Lemma runs_forwardStream (c : committed Permit) :
  ev_Err c.(st_first) = None ->
  runs (E := E) (CB := CB) (forwardStream (P := P) c) (fun out tr =>
    let all := c.(st_first) :: c.(st_src) in
    out `prefix_of` all /\
    ((out = all /\ tr = [EvDone c.(st_provider) (breakerObservation (last_err all))]) \/
     ((length out < length all)%nat /\ tr = [EvDone c.(st_provider) None]))).
Proof.
  intros Hf. unfold forwardStream. apply runs_bind, runs_env. intros [].
  - eapply runs_mono; [apply runs_forward_loop|].
    intros out tr [[-> ->]|[(k & Hk & ->) ->]]; simpl.
    + split; [done|]. left. split; [done|]. unfold last_err. simpl. by rewrite Hf.
    + split; [apply prefix_cons, prefix_take|]. right. rewrite length_take. split; [lia|done].
  - apply runs_bind, runs_done, runs_ret. simpl. split; [apply prefix_nil|]. right.
    split; [lia|done].
Qed.

(** For a client that stays, the whole stream is handed on. *)
Lemma runs_forwardStream_all (c : committed Permit) :
  (forall e, (env_send (E := E) (P := P) e).1 = true) ->
  runs (E := E) (CB := CB) (forwardStream (P := P) c) (fun out _ => out = c.(st_first) :: c.(st_src)).
Proof.
  intros Hsend. unfold forwardStream. apply runs_bind, runs_env_from. intros b e Hb.
  rewrite Hsend in Hb. subst b. cbn [app].
  assert (Hl : forall src sent err, runs (E := E) (CB := CB) (forward_loop (P := P) c src sent err)
                (fun out _ => out = sent ++ src)); [|apply (Hl _ [st_first c])].
  induction src as [|ev src IH]; intros sent err; simpl.
  - apply runs_bind, runs_done, runs_ret. by rewrite app_nil_r.
  - apply runs_bind, runs_env_from. intros b e' Hb. rewrite Hsend in Hb. subst b.
    eapply runs_mono; [apply IH|]. intros out tr ->. by rewrite <- app_assoc.
Qed.

(** A streaming request followed by its forwarder. *)
Definition serve_stream (r : Router R) (req : ChatRequest)
    : M (E := E) (CB := CB) (option (error + list StreamEvent)) :=
  bind (ChatCompletionStream r req) (fun res =>
    match res with
    | Some (inr c) => bind (forwardStream (P := P) c) (fun out => ret (Some (inr out)))
    | Some (inl e) => ret (Some (inl e))
    | None => ret None
    end).
End Forward.

(** ** The properties of a request *)

Section Properties.
Context {E P R CB Permit : Type} `{!Env E P} `{!Provider P} `{!ModelResolver R P}
  `{!GoBreaker CB Permit}
  `{!GoBreakerLaws CB Permit}.
Implicit Types (r : Router R) (req : ChatRequest).

Lemma chat_tail_count n f :
  (forall m o, f (EvDone m o) = false) -> count f (chat_ok_tail n) = 0.
Proof. intros Hf. simpl. by rewrite Hf. Qed.
Lemma stream_tail_count n f :
  (forall m o, f (EvDone m o) = false) -> count f (stream_ok_tail n) = 0.
Proof. done. Qed.

(** C1: Refinement of the non-streaming router: every run of [ChatCompletion],
    from every state and in every environment, returns (the retry loops need
    no more fuel than [MaxRetries + 1]) and its events are a run of the
    abstract protocol over the model's fail-over chain.  In the protocol a
    provider is given up only when its breaker refuses, on an error that cannot
    be retried, after [MaxRetries] retries, when the next delay would exceed the
    time budget or when the sleep is interrupted; the chain is left only with a
    response (the one its provider returned), with a fatal error, at its end, or
    when the budget is used up. *)
Theorem ChatCompletion_refines r req :
  runs (E := E) (CB := CB) (ChatCompletion r req) (fun res tr =>
    exists x, res = Some x /\
      match resolve r req.(req_Model) with
      | [] => x = inl (no_provider req.(req_Model)) /\ tr = []
      | chain => chain_session r.(policy) chat_ok_tail chat_call_err (chat_good r req) (Name <$> chain) x tr
      end).
Proof. apply ChatCompletion_session. Qed.

(** C19: No provider is called more than [MaxRetries + 1] times for one request,
    providers outside the chain never, and all calls together stay within
    [length chain * (MaxRetries + 1)]. *)
Theorem ChatCompletion_attempts r req :
  runs (E := E) (CB := CB) (ChatCompletion r req) (fun _ tr =>
    (forall n, count (is_call n) tr <= 1 + Z.max 0 r.(policy).(MaxRetries)) /\
    (forall n, n ∉ Name <$> resolve r req.(req_Model) -> count (is_call n) tr = 0) /\
    count any_call tr <=
      Z.of_nat (length (resolve r req.(req_Model))) * (1 + Z.max 0 r.(policy).(MaxRetries))).
Proof.
  assert (Hnd : NoDup (Name <$> resolve r (req_Model req))) by apply resolve_chain_NoDup.
  eapply runs_mono; [apply ChatCompletion_session|]. intros a tr (x & _ & Hx).
  destruct (resolve r (req_Model req)) as [|p chain].
  { destruct Hx as [_ ->]. simpl. split_and!; intros; lia. }
  split_and!.
  - intros n. by apply (chain_calls_each _ _ _ _ chat_tail_count _ _ _ n Hx).
  - intros n Hn. by apply (chain_calls_each _ _ _ _ chat_tail_count _ _ _ n Hx).
  - apply (chain_calls_total _ _ _ _ chat_tail_count) in Hx. by rewrite length_fmap in Hx.
Qed.

(** C18: Permits of the circuit breakers: when [ChatCompletion] returns, every
    permit it was granted has been released, for every provider and on every
    path (success, fatal error, exhausted retries, interrupted sleep). *)
Theorem ChatCompletion_permits r req :
  runs (E := E) (CB := CB) (ChatCompletion r req) (fun _ tr =>
    forall n, count (is_allow n) tr = count (is_done n) tr).
Proof.
  eapply runs_mono; [apply ChatCompletion_session|]. intros a tr (x & _ & Hx) n.
  destruct (resolve r (req_Model req)) as [|p chain]; [by destruct Hx as [_ ->]|].
  assert (Hk : forall n m, held n (chat_ok_tail m) = if bool_decide (m = n) then 0 - 1 else 0)
    by (intros; unfold held; simpl; by case_bool_decide).
  destruct (chain_held _ _ _ _ 0 Hk n _ _ _ Hx) as (m & _ & Hh).
  unfold kept, held in Hh. destruct x; [lia|]. case_bool_decide; lia.
Qed.

(** A served stream never splices providers: what the client receives is a
    prefix of the events of a single call to a single provider of the chain,
    and it begins with a chunk. *)
Theorem stream_no_splice r req :
  runs (E := E) (CB := CB) (serve_stream r req) (fun res _ =>
    exists x, res = Some x /\
    forall out, x = inr out -> exists p (e : E) evs, p ∈ resolve r req.(req_Model) /\
      (env_stream p req e).1 = inr evs /\ out `prefix_of` evs /\
      exists c rest, evs = Chunk c :: rest).
Proof.
  apply runs_bind. eapply runs_mono; [apply ChatCompletionStream_session|].
  intros a tr (x & -> & Hx). destruct x as [err|c].
  { apply runs_ret. exists (inl err). by split. }
  destruct (resolve r (req_Model req)) as [|p0 chain] eqn:Er; [by destruct Hx|].
  destruct Hx as [_ Hc]. destruct (Hc c eq_refl) as (p & Hp & _ & Hf & e & He).
  apply runs_bind. eapply runs_mono; [by apply runs_forwardStream|].
  intros out tr2 [Hpre _]. apply runs_ret. exists (inr out). split; [done|].
  intros ? [= <-]. exists p, e, (st_first c :: st_src c). split_and!; try done.
  destruct (st_first c); [by eauto|done].
Qed.

(** For a client that stays, a served stream is the whole stream of one call. *)
Lemma stream_whole r req :
  (forall e, (env_send (E := E) (P := P) e).1 = true) ->
  runs (E := E) (CB := CB) (serve_stream r req) (fun res _ =>
    exists x, res = Some x /\
    forall out, x = inr out -> exists p (e : E) c rest, p ∈ resolve r req.(req_Model) /\
      (env_stream p req e).1 = inr out /\ out = Chunk c :: rest).
Proof.
  intros Hsend. apply runs_bind. eapply runs_mono; [apply ChatCompletionStream_session|].
  intros a tr (x & -> & Hx). destruct x as [err|c]; [apply runs_ret; exists (inl err); by split|].
  destruct (resolve r (req_Model req)) as [|p0 chain] eqn:Er; [by destruct Hx|].
  destruct Hx as [_ Hc]. destruct (Hc c eq_refl) as (p & Hp & _ & Hf & e & He).
  apply runs_bind. eapply runs_mono; [by apply runs_forwardStream_all|].
  intros out tr2 ->. apply runs_ret. exists (inr (st_first c :: st_src c)). split; [done|].
  intros ? [= <-]. destruct (st_first c) as [c0|] eqn:E0; [|done]. by exists p, e, c0, (st_src c).
Qed.

(** Over a whole streaming request, forwarder included, every breaker permit
    is released exactly once. *)
Theorem stream_permits r req :
  runs (E := E) (CB := CB) (serve_stream r req) (fun _ tr =>
    forall n, count (is_allow n) tr = count (is_done n) tr).
Proof.
  assert (Hk : forall n m, held n (stream_ok_tail m) = if bool_decide (m = n) then 1 - 1 else 0)
    by (intros; by case_bool_decide).
  apply runs_bind. eapply runs_mono; [apply ChatCompletionStream_session|].
  intros a tr (x & -> & Hx). destruct (resolve r (req_Model req)) as [|p0 chain].
  { destruct Hx as [-> ->]. by apply runs_ret. }
  destruct Hx as [Hs Hc]. destruct x as [err|c].
  { apply runs_ret. intros n. rewrite app_nil_r.
    destruct (chain_held _ _ _ _ 1 Hk n _ _ _ Hs) as (m & _ & Hh).
    unfold held in Hh. simpl in Hh. lia. }
  destruct (Hc c eq_refl) as (p & _ & _ & Hf & _). apply runs_bind.
  eapply runs_mono; [by apply runs_forwardStream|]. intros out tr2 [_ Htr]. apply runs_ret. intros n.
  destruct (chain_held _ _ _ _ 1 Hk n _ _ _ Hs) as (m & Hg & Hh).
  specialize (Hg c eq_refl). unfold stream_good in Hg. subst m. unfold held, kept in Hh.
  rewrite app_nil_r, !count_app.
  destruct Htr as [[_ ->]|[_ ->]]; simpl; case_bool_decide; lia.
Qed.
(** A call that fails with an error that is neither retryable nor a breaker
    refusal ends the request at once: that error is returned as it is, and
    after releasing the permit (as a success, so the breaker is not blamed)
    nothing else happens, no retry and no fail-over. *)
Theorem ChatCompletion_fatal r req :
  runs (E := E) (CB := CB) (ChatCompletion r req) (fun res tr =>
    forall n e, EvCall n (Some e) ∈ tr -> eligible e = false ->
      res = Some (inl e) /\ exists tr0, tr = tr0 ++ failed n (Some e) None).
Proof.
  eapply runs_mono; [apply ChatCompletion_session|]. intros a tr (x & -> & Hx) n e Hin He.
  destruct (resolve r (req_Model req)) as [|p chain].
  { destruct Hx as [_ ->]. by apply elem_of_nil in Hin. }
  destruct (chain_fatal_last _ _ n e _ _ _ Hx Hin He) as [-> ?]. done.
Qed.

(** A request succeeds exactly when some call succeeded; then there was
    exactly one successful call, it was the last thing done before its permit
    was released, and its response is the one returned. *)
Theorem ChatCompletion_success r req :
  runs (E := E) (CB := CB) (ChatCompletion r req) (fun res tr =>
    exists x, res = Some x /\
    match x with
    | inr resp => count is_success tr = 1 /\ exists n tr0,
        n ∈ Name <$> resolve r req.(req_Model) /\ chat_good (E := E) (P := P) r req n resp /\
        tr = tr0 ++ [EvAllow n; EvCall n None; EvDone n None]
    | inl _ => count is_success tr = 0
    end).
Proof.
  eapply runs_mono; [apply ChatCompletion_session|]. intros a tr (x & -> & Hx). exists x.
  split; [done|]. destruct (resolve r (req_Model req)) as [|p chain]; [by destruct Hx as [-> ->]|].
  destruct (chain_success _ _ _ _ _ Hx) as [H1 H2]. destruct x as [e|resp]; [done|].
  split; [done|]. by apply (H2 resp).
Qed.

(** Every back-off sleep fits the remaining time budget as the code computes
    it, and a breaker only ever sees retryable errors as failures. *)
Theorem ChatCompletion_budget r req :
  runs (E := E) (CB := CB) (ChatCompletion r req) (fun _ tr =>
    Forall (sleeps_ok r.(policy)) tr /\ Forall observed_ok tr).
Proof.
  eapply runs_mono; [apply ChatCompletion_session|]. intros a tr (x & -> & Hx).
  destruct (resolve r (req_Model req)) as [|p chain].
  { destruct Hx as [_ ->]. split; constructor. }
  apply (chain_Forall _ _ _ _ _ _ _) in Hx; [done|].
  intros n. split; repeat constructor.
Qed.
End Properties.

(** ** A concrete environment *)

Module Example.

(** A breaker that opens on the first reported failure. *)
#[local] Instance toy_breaker : GoBreaker bool unit := {
  NewTwoStepCircuitBreaker _ := false;
  Allow _ cb := (if cb : bool then inl (Sentinel_ ErrOpenState) else inr tt, cb, []);
  Done _ _ err cb := match err with
                     | Some _ => (true, [(StateClosed, StateOpen)])
                     | None => (cb, [])
                     end;
  StateOf _ cb := (if cb : bool then StateOpen else StateClosed, cb, [])
}.
#[local] Instance toy_laws : GoBreakerLaws bool unit.
Proof. intros now [] e cb' ts [= <- <- <-]. by left. Qed.

#[local] Instance name_Provider : Provider string := {
  Name n := n; SupportedModels _ := []
}.

(** A clock that each call and sleep advances, and a script of call results. *)
Record toy := { clock : Z; script : list (error + ChatResponse);
                streams : list (error + list StreamEvent) }.

#[local] Instance toy_env : Env toy string := {
  env_now e := (e.(clock), e);
  env_wall e := (e.(clock), e);
  env_random e := (lit 1 2, e);
  env_sleep d e := (None, {| clock := e.(clock) + Z.max 0 d; script := e.(script);
                             streams := e.(streams) |});
  env_chat _ _ e :=
    match e.(script) with
    | x :: rest => (x, {| clock := e.(clock) + Second; script := rest; streams := e.(streams) |})
    | [] => (inl (Sentinel_ ErrTimeout), e)
    end;
  env_stream _ _ e :=
    match e.(streams) with
    | x :: rest => (x, {| clock := e.(clock) + Second; script := e.(script); streams := rest |})
    | [] => (inl (Sentinel_ ErrTimeout), e)
    end;
  env_peek e := (RecvOk, e);
  env_send e := (true, e)
}.

(** Every model is served by a primary and a backup. *)
Lemma toy_chain_NoDup : NoDup (Name <$> ["primary"; "backup"]).
Proof. apply (bool_decide_unpack _). reflexivity. Qed.

#[local] Instance toy_resolver : ModelResolver unit string := {
  resolve_chain _ _ := ["primary"; "backup"];
  resolve_chain_NoDup _ _ := toy_chain_NoDup
}.

Definition toy_router : Router unit := {| resolver := tt; policy := DefaultPolicy |}.

Definition toy_req : ChatRequest :=
  {| req_Model := "gpt-4o"; req_Messages := []; req_MaxTokens := 0; req_Temperature := None;
     req_TopP := None; req_N := 0; req_Stream := false; req_Stop := []; req_User := "";
     req_Extra := ∅ |}.

Definition toy_resp : ChatResponse :=
  {| resp_ID := "r"; resp_Object := "chat.completion"; resp_Created := 0; resp_Model := "gpt-4o";
     resp_Choices := []; resp_Usage := None; resp_Provider := "backup" |}.

Definition toy_chunk (text : string) : StreamEvent :=
  Chunk {| chk_ID := "c"; chk_Object := "chat.completion.chunk"; chk_Created := 0;
           chk_Model := "gpt-4o";
           chk_Choices := [{| sch_Index := 0; sch_FinishReason := "";
             sch_Delta := {| del_Role := ""; del_Content := text; del_Extra := ∅ |} |}];
           chk_Usage := None |}.

Definition start_state (script : list (error + ChatResponse))
    (streams : list (error + list StreamEvent)) : rstate toy bool :=
  {| env := {| clock := 0; script := script; streams := streams |};
     pool := newBreakerPool DefaultBreakerSettings; history := [] |}.

(** The primary fails and its breaker opens; the backup answers. *)
Example failover_run :
  let '(res, s) := ChatCompletion toy_router toy_req
    (start_state [inl (Sentinel_ ErrUpstream); inr toy_resp] []) in
  res = Some (inr toy_resp) /\
  s.(history) = failed "primary" (Some (Sentinel_ ErrUpstream)) (Some (Sentinel_ ErrUpstream))
    ++ [EvSleep (Some Second) (50 * Millisecond); EvReject "primary";
        EvFailover "primary" "backup"; EvAllow "backup"; EvCall "backup" None;
        EvDone "backup" None].
Proof. vm_compute. done. Qed.

Lemma ChatCompletion_refines_witness :
  runs (E := toy) (CB := bool) (ChatCompletion toy_router toy_req) (fun res tr =>
    exists x, res = Some x /\
      chain_session DefaultPolicy chat_ok_tail chat_call_err (chat_good (E := toy) toy_router toy_req) ["primary"; "backup"] x tr).
Proof. exact (ChatCompletion_refines toy_router toy_req). Defined.

Lemma ChatCompletion_attempts_witness :
  runs (E := toy) (CB := bool) (ChatCompletion toy_router toy_req) (fun _ tr =>
    (forall n, count (is_call n) tr <= 3) /\
    (forall n, n ∉ ["primary"; "backup"] -> count (is_call n) tr = 0) /\ count any_call tr <= 6).
Proof.
  exact (ChatCompletion_attempts toy_router toy_req).
Defined.

Lemma ChatCompletion_permits_witness :
  runs (E := toy) (CB := bool) (ChatCompletion toy_router toy_req) (fun _ tr =>
    forall n, count (is_allow n) tr = count (is_done n) tr).
Proof. exact (ChatCompletion_permits toy_router toy_req). Defined.

Lemma stream_no_splice_witness :
  runs (E := toy) (CB := bool) (serve_stream toy_router toy_req) (fun res _ =>
    exists x, res = Some x /\
    forall out, x = inr out -> exists p (e : toy) evs, p ∈ ["primary"; "backup"] /\
      (env_stream p toy_req e).1 = inr evs /\ out `prefix_of` evs /\
      exists c rest, evs = Chunk c :: rest).
Proof. exact (stream_no_splice toy_router toy_req). Defined.

Lemma stream_permits_witness :
  runs (E := toy) (CB := bool) (serve_stream toy_router toy_req) (fun _ tr =>
    forall n, count (is_allow n) tr = count (is_done n) tr).
Proof. exact (stream_permits toy_router toy_req). Defined.

(** The stream of the primary fails before its first chunk, the backup's is
    served whole. *)
Example stream_run :
  (serve_stream toy_router toy_req
    (start_state [] [inr [Err (Sentinel_ ErrUpstream)]; inr [toy_chunk "a"; toy_chunk "b"]])).1 =
  Some (inr [toy_chunk "a"; toy_chunk "b"]).
Proof. vm_compute. done. Qed.

Lemma ChatCompletion_fatal_witness :
  (ChatCompletion toy_router toy_req (start_state [inl (Sentinel_ ErrAuth)] [])).1 =
  Some (inl (Sentinel_ ErrAuth)).
Proof.
  destruct (ChatCompletion_fatal toy_router toy_req (start_state [inl (Sentinel_ ErrAuth)] []))
    as (tr & Htr & H).
  assert (Ht : tr = failed "primary" (Some (Sentinel_ ErrAuth)) None)
    by (vm_compute in Htr; exact (eq_sym Htr)).
  apply (H "primary" (Sentinel_ ErrAuth)); [|reflexivity].
  rewrite Ht. apply list_elem_of_lookup. exists 1%nat. reflexivity.
Defined.

Lemma ChatCompletion_success_witness :
  runs (E := toy) (CB := bool) (ChatCompletion toy_router toy_req) (fun res tr =>
    exists x, res = Some x /\
    match x with
    | inr resp => count is_success tr = 1 /\ exists n tr0,
        n ∈ ["primary"; "backup"] /\ chat_good (E := toy) toy_router toy_req n resp /\ tr = tr0 ++ [EvAllow n; EvCall n None; EvDone n None]
    | inl _ => count is_success tr = 0
    end).
Proof. exact (ChatCompletion_success toy_router toy_req). Defined.

Lemma ChatCompletion_budget_witness :
  runs (E := toy) (CB := bool) (ChatCompletion toy_router toy_req) (fun _ tr =>
    Forall (sleeps_ok DefaultPolicy) tr /\ Forall observed_ok tr).
Proof. exact (ChatCompletion_budget toy_router toy_req). Defined.

(** An upstream that asks for the largest delay a duration can hold. *)
Definition huge_retry_after : error :=
  Upstream (set_RetryAfter (NewUpstreamError "primary" ErrRateLimited 429 "slow down")
    (parseRetryAfter (fun _ => None) 0 "9223372036")).

(** The budget test adds elapsed time and delay in wrapping 64-bit
    arithmetic: under the default policy of 30 seconds, a rate-limit response
    after one second with [Retry-After: 9223372036] makes the router sleep for
    292 years. *)
Theorem budget_overflow :
  (ChatCompletion toy_router toy_req
     (start_state [inl huge_retry_after; inr toy_resp] [])).2.(history) !! 3%nat =
  Some (EvSleep (Some Second) (9223372036 * Second)).
Proof. vm_compute. reflexivity. Qed.

End Example.
