(* ===== verification/RouterLive.v ===== *)
(** * RouterLive: one healthy provider is enough

    [RouterSpec] says what the answer of the router means; this file says when
    there is one.  A provider of the chain that answers, with a breaker that
    admits calls, is reached whatever the providers before it do, as long as
    their failures are ones that fail-over handles, no wait is interrupted and
    the time budget lasts.  The reasoning is a Hoare logic over the router's
    state monad, with the breaker of that one provider as the invariant. *)

From S2P Require Import Prelude GoStd Float64 Errors Types Registry Policy Router RouterSpec.
Import Retry Breaker.
Local Open Scope Z_scope.

(** ** A breaker that admits *)

Section Admits.
Context {CB Permit : Type} `{!GoBreaker CB Permit}.

(** The breaker of [name] lets the next call through, whenever it comes. *)
Definition admits (name : string) (pl : breakerPool CB) : Prop :=
  forall t, exists pm cb ts, Allow t (get pl name).1 = (inr pm, cb, ts).

Lemma admits_allow name pl t :
  admits name pl -> exists pm pl', allow t name pl = (inr pm, pl').
Proof.
  intros H. destruct (H t) as (pm & cb & ts & Hallow). unfold allow.
  destruct (get pl name) as [cb0 pl0]. cbn in Hallow. rewrite Hallow. by eauto.
Qed.

Lemma admits_ext name (pl pl' : breakerPool CB) :
  pl'.(bs) !! name = pl.(bs) !! name -> pl'.(settings) = pl.(settings) ->
  admits name pl -> admits name pl'.
Proof. unfold admits, get. intros -> ->. by destruct (bs pl !! name). Qed.

Lemma get_settings (pl : breakerPool CB) name : (get pl name).2.(settings) = pl.(settings).
Proof. unfold get. by destruct (bs pl !! name). Qed.

(** What is done with the breakers of others leaves it as it is. *)
Lemma admits_allow_other name n t (pl : breakerPool CB) :
  n <> name -> admits name pl -> admits name (allow t n pl).2.
Proof.
  intros Hn. pose proof (get_settings pl n) as Hs. unfold allow.
  pose proof (allow_frame t n pl _ _ name (surjective_pairing _) (not_eq_sym Hn)) as [Hf _].
  unfold allow in *. destruct (get pl n) as [cb0 pl0]. destruct (Allow t cb0) as [[? ?] ?].
  by apply admits_ext.
Qed.

Lemma admits_done_other name n t pm obs (pl : breakerPool CB) :
  n <> name -> admits name pl -> admits name (run_done t n pm obs pl).
Proof.
  intros Hn. pose proof (get_settings pl n) as Hs.
  destruct (run_done_frame t n pm obs pl name (not_eq_sym Hn)) as [Hf _].
  unfold run_done in *. destruct (get pl n) as [cb0 pl0]. destruct (Done t pm obs cb0) as [? ?].
  by apply admits_ext.
Qed.
End Admits.

(** ** Triples *)

Section Live.
Context {E P R CB Permit : Type} `{!Env E P} `{!Provider P} `{!ModelResolver R P}
  `{!GoBreaker CB Permit} `{!GoBreakerLaws CB Permit}.
Implicit Types (r : Router R) (req : ChatRequest) (s : rstate E CB).

(** [{I} m {Q}]: from a state with [I], [m] returns [a] in a state [s'] with
    [Q a s'], having only added to the history. *)
Definition triple {A} (I : rstate E CB -> Prop) (m : M A) (Q : A -> rstate E CB -> Prop) : Prop :=
  forall s, I s -> Q (m s).1 (m s).2 /\ s.(history) `prefix_of` (m s).2.(history).

Lemma bind_run {A B} (m : M A) (k : A -> M B) s : bind m k s = k (m s).1 (m s).2.
Proof. unfold bind. by destruct (m s). Qed.

Lemma triple_ret {A} (I : _ -> Prop) (a : A) (Q : _ -> _ -> Prop) :
  (forall s, I s -> Q a s) -> triple I (ret a) Q.
Proof. intros HQ s Hs. split; [by apply HQ|done]. Qed.

Lemma triple_bind {A B} I (m : M A) (k : A -> M B) Q' Q :
  triple I m Q' -> (forall a, triple (Q' a) (k a) Q) -> triple I (bind m k) Q.
Proof.
  intros Hm Hk s Hs. unfold bind. destruct (Hm s Hs) as [Ha Hp]. destruct (m s) as [a s1].
  destruct (Hk a s1 Ha) as [Hb Hp']. split; [done|]. by etrans.
Qed.

Lemma triple_mono {A} (I I' : _ -> Prop) (m : M A) (Q Q' : _ -> _ -> Prop) :
  triple I m Q -> (forall s, I' s -> I s) -> (forall a s, Q a s -> Q' a s) -> triple I' m Q'.
Proof. intros Hm HI HQ s Hs. destruct (Hm s (HI s Hs)). auto. Qed.

(** A pure fact of the precondition. *)
Lemma triple_pure {A} (phi : Prop) (I : _ -> Prop) (m : M A) Q :
  (phi -> triple I m Q) -> triple (fun s => phi /\ I s) m Q.
Proof. intros H s [Hphi Hs]. by apply H. Qed.

(** The invariant of the runs below: the breaker of [name] admits. *)
Definition ready (name : string) (s : rstate E CB) : Prop := admits name s.(pool).

Lemma triple_env {A} name (f : E -> A * E) :
  triple (ready name) (on_env f) (fun a s => (exists e, (f e).1 = a) /\ ready name s).
Proof.
  intros s Hs. unfold on_env. destruct (f (env s)) as [a e] eqn:Ef. cbn.
  split; [|done]. split; [|done]. exists (env s). by rewrite Ef.
Qed.

Lemma triple_emit name ev : triple (ready name) (emit ev) (fun _ => ready name).
Proof. intros s Hs. split; [done|]. by exists [ev]. Qed.

(** Leaving out what the environment answered. *)
Lemma triple_env_any {A} name (f : E -> A * E) :
  triple (ready name) (on_env f) (fun _ => ready name).
Proof. eapply triple_mono; [apply triple_env|done|]. by intros a s [_ ?]. Qed.

Lemma triple_pool_other {A} name (f : breakerPool CB -> A * breakerPool CB) (phi : A -> Prop) :
  (forall pl, phi (f pl).1) -> (forall pl, admits name pl -> admits name (f pl).2) ->
  triple (ready name) (on_pool f) (fun a s => phi a /\ ready name s).
Proof.
  intros Hphi Hf s Hs. unfold on_pool. specialize (Hphi (pool s)). specialize (Hf (pool s) Hs).
  by destruct (f (pool s)).
Qed.

Lemma triple_allow_other name n :
  n <> name -> triple (ready name) (breaker_allow n)
    (fun g s => (forall e, g = inl e -> isBreakerError e = true) /\ ready name s).
Proof.
  intros Hn. unfold breaker_allow. eapply triple_bind; [apply triple_env_any|]. intros t. cbn beta.
  eapply triple_bind.
  { apply (triple_pool_other name _ (fun g => forall e, g = inl e -> isBreakerError e = true));
      [|intros pl; by apply admits_allow_other].
    intros pl e He. destruct (allow t n pl) eqn:Ea. cbn in He. subst. by eapply isBreakerError_allow. }
  intros g. apply triple_pure. intros Hg. eapply triple_bind; [apply triple_emit|].
  intros []. by apply triple_ret.
Qed.

Lemma triple_allow_self name :
  triple (ready name) (breaker_allow name) (fun g _ => exists pm, g = inr pm).
Proof.
  intros s Hs. unfold breaker_allow, bind, on_env, on_pool, emit, ret.
  destruct (env_wall (env s)) as [t e]. cbn.
  destruct (admits_allow name (pool s) t Hs) as (pm & pl & ->). cbn. split; [by exists pm|].
  by exists [EvAllow name].
Qed.

Lemma triple_done_other name n pm obs :
  n <> name -> triple (ready name) (breaker_done n pm obs) (fun _ => ready name).
Proof.
  intros Hn. unfold breaker_done. eapply triple_bind; [apply triple_env_any|]. intros t. cbn beta.
  eapply triple_bind; [by apply (triple_pool_other name _ (fun _ => True)); [|intros pl; apply admits_done_other]|].
  intros []. apply triple_pure. intros _. apply triple_emit.
Qed.

(** Whatever the state, when only the answer matters. *)
Lemma triple_any {A} I (m : M A) (phi : A -> Prop) :
  runs m (fun a _ => phi a) -> triple I m (fun a _ => phi a).
Proof. intros Hm s _. destruct (Hm s) as (tr & Htr & Ha). split; [done|]. by exists tr. Qed.

Lemma triple_any_all {A} (m : M A) (phi : A -> Prop) :
  runs m (fun a _ => phi a) -> forall s, phi (m s).1 /\ s.(history) `prefix_of` (m s).2.(history).
Proof. intros Hm s. exact (triple_any (fun _ => True) m phi Hm s I). Qed.

(** ** One provider *)

(** No wait of the retry loop is interrupted: the client stays. *)
Definition undisturbed : Prop := forall d e, (env_sleep (E := E) (P := P) d e).1 = None.

Lemma triple_wait_retry name r attempt start err :
  undisturbed -> triple (ready name) (wait_retry r attempt start err)
    (fun w s => (w = None \/ w = Some None /\ attempt < r.(policy).(MaxRetries)) /\ ready name s).
Proof.
  intros Hu. unfold wait_retry, sleep.
  destruct (Z.leb_spec (MaxRetries (policy r)) attempt); [apply triple_ret; auto|].
  assert (Hsl : forall el d, triple (ready name)
    (bind (bind (emit (EvSleep el d)) (fun _ => on_env (env_sleep d))) (fun e => ret (Some e)))
    (fun w s => (w = None \/ w = Some None /\ attempt < r.(policy).(MaxRetries)) /\ ready name s)).
  { intros el d. eapply triple_bind; [eapply triple_bind; [apply triple_emit|intros []; apply triple_env]|].
    intros e. cbn beta. apply triple_pure. intros [e0 <-]. rewrite Hu. apply triple_ret. auto. }
  eapply triple_bind; [apply triple_env_any|]. intros rnd. cbn beta. case_goal; [|apply Hsl].
  eapply triple_bind; [apply triple_env_any|]. intros t. cbn beta. case_goal; [|apply Hsl].
  eapply triple_bind; [apply triple_emit|]. intros []. apply triple_ret. auto.
Qed.

(** The outcome of a provider that the chain can get past: it answered, or its
    error is one that fail-over handles. *)
Definition passable {A} (x : option (error + A)) : Prop :=
  exists y, x = Some y /\ forall e, y = inl e -> eligible e = true.

Lemma passable_err {A} e : eligible e = true -> passable (Some (inl e : error + A)).
Proof. intros He. exists (inl e). split; [done|]. by intros ? [= <-]. Qed.
Lemma passable_ok {A} (a : A) : passable (Some (inr a : error + A)).
Proof. by exists (inr a). Qed.

Lemma breaker_eligible e : isBreakerError e = true -> eligible e = true.
Proof. unfold eligible. by intros ->. Qed.
Lemma retryable_eligible e : IsRetryable e = true -> eligible e = true.
Proof. unfold eligible. intros ->. by destruct (isBreakerError e). Qed.

#[local] Hint Resolve passable_err passable_ok breaker_eligible retryable_eligible : live.

(** A provider whose failures of this request are transient. *)
Definition transient (q : P) req : Prop :=
  forall e err, (env_chat q req e).1 = inl err -> eligible err = true.
(** A provider that answers it. *)
Definition healthy (p : P) req : Prop := forall e, exists resp, (env_chat p req e).1 = inr resp.

Lemma triple_try_other name r (q : P) req start fuel attempt :
  undisturbed -> transient q req -> Name q <> name -> fuel_ok r attempt fuel ->
  triple (ready name) (try_loop fuel r q req start attempt) (fun x s => passable x /\ ready name s).
Proof.
  intros Hu Ht Hn. revert attempt. induction fuel as [|fuel IH]; intros attempt Hf; [unfold fuel_ok in Hf; lia|].
  cbn [try_loop]. eapply triple_bind; [by apply triple_allow_other|]. intros [e|pm]; apply triple_pure; intros Hg.
  { apply triple_ret. auto with live. }
  eapply triple_bind.
  { eapply triple_bind; [apply triple_env|]. intros x. apply triple_pure. intros Hx.
    eapply (triple_bind _ _ _ _ (fun y s => (exists e, (env_chat q req e).1 = y) /\ ready name s));
      [apply triple_emit|]. intros []. apply triple_ret. auto. }
  intros res. apply triple_pure. intros [e0 He0]. destruct res as [err|resp].
  - eapply triple_bind; [by apply triple_done_other|]. intros [].
    destruct (IsRetryable err) eqn:Er; cbn [negb]; [|apply triple_ret; eauto with live].
    eapply triple_bind; [by apply triple_wait_retry|]. intros w. apply triple_pure.
    intros [-> | [-> ?]]; [apply triple_ret; auto with live|]. apply IH. unfold fuel_ok in *. lia.
  - eapply triple_bind; [by apply triple_done_other|]. intros []. apply triple_ret. auto with live.
Qed.

Lemma triple_try_self r (p : P) req start fuel attempt :
  healthy p req -> triple (ready (Name p)) (try_loop (S fuel) r p req start attempt)
    (fun x _ => exists resp, x = Some (inr resp)).
Proof.
  intros Hh. cbn [try_loop]. eapply triple_bind; [apply triple_allow_self|].
  intros g s [pm ->]. revert s. apply (triple_any_all _ (fun x => exists resp, x = Some (inr resp))).
  apply runs_bind, runs_bind, runs_env_from. intros res e0 <-. apply runs_bind, runs_emit, runs_ret.
  destruct (Hh e0) as [resp ->]. apply runs_bind, runs_done, runs_ret. by exists resp.
Qed.

(** ** Streams *)

(** The same of streaming calls: what the stream fails with before its first
    chunk counts as well. *)
Definition stream_transient (q : P) req : Prop :=
  forall e, match (env_stream q req e).1 with
            | inl err | inr (Err err :: _) => eligible err = true
            | inr _ => True
            end.
Definition stream_healthy (p : P) req : Prop :=
  forall e, exists c rest, (env_stream p req e).1 = inr (Chunk c :: rest).
(** The client has not gone while the first event is awaited. *)
Definition attended : Prop := forall e, (env_peek (E := E) (P := P) e).1 = RecvOk.

Lemma triple_call_stream name (q : P) req :
  triple (ready name) (call_stream q req)
    (fun x s => (exists e, (env_stream q req e).1 = x) /\ ready name s).
Proof.
  eapply triple_bind; [apply triple_env|]. intros x. apply triple_pure. intros Hx.
  eapply triple_bind; [apply triple_emit|]. intros []. by apply triple_ret.
Qed.

Lemma triple_stream_attempt name (q : P) req :
  attended -> stream_transient q req -> Name q <> name ->
  triple (ready name) (streamAttemptOnce q req)
    (fun x s => (forall e, x = inl e -> eligible e = true) /\ ready name s).
Proof.
  intros Ha Ht Hn. unfold streamAttemptOnce. eapply triple_bind; [by apply triple_allow_other|].
  intros [e|pm]; apply triple_pure; intros Hg; [apply triple_ret; split; [|done]; intros ? [= <-]; auto with live|].
  eapply triple_bind; [apply triple_call_stream|]. intros res. apply triple_pure. intros [e0 He0].
  specialize (Ht e0). rewrite He0 in Ht.
  assert (Hfail : forall err, eligible err = true -> triple (ready name)
    (bind (breaker_done (Name q) pm (breakerObservation (Some err))) (fun _ => ret (inl err)))
    (fun (x : error + committed Permit) s => (forall e, x = inl e -> eligible e = true) /\ ready name s)).
  { intros err Herr. eapply triple_bind; [by apply triple_done_other|]. intros [].
    apply triple_ret. split; [|done]. by intros ? [= <-]. }
  destruct res as [err|ch]; [by apply Hfail|].
  eapply triple_bind; [apply triple_env|]. intros x. cbn beta. apply triple_pure. intros [e1 <-]. rewrite Ha.
  destruct ch as [|[c|err] src]; [by apply Hfail|by apply triple_ret|by apply Hfail].
Qed.

Lemma triple_stream_other name r (q : P) req start fuel attempt :
  undisturbed -> attended -> stream_transient q req -> Name q <> name -> fuel_ok r attempt fuel ->
  triple (ready name) (stream_loop fuel r q req start attempt) (fun x s => passable x /\ ready name s).
Proof.
  intros Hu Ha Ht Hn. revert attempt. induction fuel as [|fuel IH]; intros attempt Hf; [unfold fuel_ok in Hf; lia|].
  cbn [stream_loop]. eapply triple_bind; [by apply triple_stream_attempt|].
  intros [err|c]; apply triple_pure; intros He; [|apply triple_ret; auto with live].
  case_goal; [apply triple_ret; auto with live|]. case_goal; [apply triple_ret; auto with live|].
  eapply triple_bind; [by apply triple_wait_retry|]. intros w. apply triple_pure.
  intros [-> | [-> ?]]; [apply triple_ret; auto with live|]. apply IH. unfold fuel_ok in *. lia.
Qed.

Lemma triple_stream_self r (p : P) req start fuel attempt :
  attended -> stream_healthy p req ->
  triple (ready (Name p)) (stream_loop (S fuel) r p req start attempt)
    (fun x _ => exists c, x = Some (inr c)).
Proof.
  intros Ha Hh. cbn [stream_loop].
  assert (Hat : triple (ready (Name p)) (streamAttemptOnce p req) (fun x _ => exists c, x = inr c)).
  { unfold streamAttemptOnce. eapply triple_bind; [apply triple_allow_self|].
    intros g s [pm ->]. revert s. apply (triple_any_all _ (fun x => exists c, x = inr c)).
    apply runs_bind, runs_bind, runs_env_from. intros res e0 <-. apply runs_bind, runs_emit, runs_ret.
    destruct (Hh e0) as (c & rest & ->). apply runs_bind, runs_env_from. intros x e1 <-. rewrite Ha.
    apply runs_ret. by eexists. }
  eapply triple_bind; [exact Hat|]. intros x s [c ->]. split; [by exists c|done].
Qed.

(** ** The chain *)

(** The router gave up because the time budget was used up. *)
Definition out_of_time r (s s' : rstate E CB) : Prop :=
  exists tr el, s'.(history) = s.(history) ++ tr ++ [EvAbandoned el] /\ 0 < r.(policy).(MaxTotal) <= el.

(** What a run from [s] came to: a result, or an error because the budget was
    used up. *)
Definition live_outcome {A} r s (x : option (error + A) * rstate E CB) : Prop :=
  (exists a, x.1 = Some (inr a)) \/ (exists err, x.1 = Some (inl err)) /\ out_of_time r s x.2.

Section Chain.
Context {A : Type} (try : P -> M (E := E) (CB := CB) (option (error + A))) (r : Router R).

Lemma out_of_time_earlier s0 s s' :
  s0.(history) `prefix_of` s.(history) -> out_of_time r s s' -> out_of_time r s0 s'.
Proof. intros [k Hk] (tr & el & Hs' & Hel). exists (k ++ tr), el. by rewrite Hs', Hk, <- !app_assoc. Qed.

(** The test of the budget between two providers. *)
Lemma abandoned_live name start s :
  ready name s ->
  if (abandoned r start s).1 then out_of_time r s (abandoned r start s).2
  else ready name (abandoned r start s).2 /\ s.(history) `prefix_of` (abandoned r start s).2.(history).
Proof.
  intros Hs. unfold abandoned. destruct (Z.ltb_spec 0 (MaxTotal (policy r))); [|done].
  unfold now, bind, on_env. destruct (env_now (env s)) as [t e].
  destruct (Z.leb_spec (MaxTotal (policy r)) (time_sub t start)); [|done].
  cbn. by exists [], (time_sub t start).
Qed.

Lemma chain_loop_live start (p : P) chain e0 s :
  p ∈ chain -> NoDup (Name <$> chain) ->
  (forall q, q ∈ chain -> Name q <> Name p ->
     triple (ready (Name p)) (try q) (fun x s => passable x /\ ready (Name p) s)) ->
  triple (ready (Name p)) (try p) (fun x _ => exists a, x = Some (inr a)) ->
  ready (Name p) s ->
  live_outcome r s (chain_loop try r start chain e0 s).
Proof.
  intros Hp Hnd Hq Hself. revert e0 s. induction chain as [|q chain IH]; intros e0 s Hs; [by apply elem_of_nil in Hp|].
  rewrite (chain_loop_cons try), bind_run.
  apply elem_of_cons in Hp as [<- | Hp].
  { destruct (Hself s Hs) as [[a Ha] _]. destruct (try p s) as [x s1]. cbn in Ha. subst x. left. by exists a. }
  cbn [fmap list_fmap] in Hnd. inversion Hnd as [|? ? Hnq Hnd2]; subst. clear Hnd. rename Hnd2 into Hnd.
  assert (Hne : Name q <> Name p) by (intros Heq; apply Hnq; rewrite Heq; by apply list_elem_of_fmap_2).
  destruct (Hq q (list_elem_of_here _ _) Hne s Hs) as [[(y & Hy & Hel) Hs1] Hpre].
  destruct (try q s) as [x s1]. cbn in Hy, Hs1, Hpre. subst x. destruct y as [err|a]; [|left; by exists a].
  specialize (Hel err eq_refl). rewrite eligible_spec in Hel. apply negb_true_iff in Hel. cbn [fst snd]. rewrite Hel.
  rewrite bind_run. pose proof (abandoned_live (Name p) start s1 Hs1) as Hab.
  destruct (abandoned r start s1) as [over s2]; cbn [fst snd] in Hab.
  destruct over; [right; split; [by exists err|by eapply out_of_time_earlier]|].
  destruct chain as [|q' chain]; [by apply elem_of_nil in Hp|]. destruct Hab as [Hs2 Hpre2].
  destruct (IH Hp Hnd (fun q0 H => Hq q0 (list_elem_of_further _ _ _ H)) err
    {| env := env s2; pool := pool s2; history := history s2 ++ [EvFailover (Name q) (Name q')] |} Hs2)
    as [Hok|[Herr Hout]]; [by left|right; split; [done|]].
  eapply out_of_time_earlier; [|exact Hout]. cbn. etrans; [exact Hpre|]. etrans; [exact Hpre2|]. by apply prefix_app_r.
Qed.
End Chain.

(** ** Requests *)

(** The environment of one plain request: the client stays, every provider's
    failures are transient and [p] of the model's chain is up, with a breaker
    that admits. *)
Record serviceable r req (p : P) s : Prop := {
  sv_chain : p ∈ resolve r req.(req_Model);
  sv_waits : undisturbed;
  sv_others : forall q, q ∈ resolve r req.(req_Model) -> transient q req;
  sv_healthy : healthy p req;
  sv_breaker : admits (Name p) s.(pool)
}.

Record stream_serviceable r req (p : P) s : Prop := {
  ss_chain : p ∈ resolve r req.(req_Model);
  ss_waits : undisturbed;
  ss_attended : attended;
  ss_others : forall q, q ∈ resolve r req.(req_Model) -> stream_transient q req;
  ss_healthy : stream_healthy p req;
  ss_breaker : admits (Name p) s.(pool)
}.

(** One healthy provider is enough: the request is answered, unless the time
    budget runs out before its turn. *)
Theorem ChatCompletion_live r req p s :
  serviceable r req p s ->
  live_outcome r s (ChatCompletion r req s).
Proof.
  intros [Hp Hu Ho Hh Hs]. unfold ChatCompletion.
  pose proof (resolve_chain_NoDup r.(resolver) req.(req_Model) : NoDup (Name <$> resolve r (req_Model req))) as Hnd.
  destruct (resolve r (req_Model req)) as [|p0 chain]; [by apply elem_of_nil in Hp|].
  unfold bind, now, on_env. destruct (env_now (env s)) as [start e].
  apply (chain_loop_live _ r start p (p0 :: chain) _ {| env := e; pool := pool s; history := history s |} Hp Hnd);
    [|by apply triple_try_self|done].
  intros q Hq Hne. apply triple_try_other; auto using attempts_fuel.
Qed.

Theorem ChatCompletionStream_live r req p s :
  stream_serviceable r req p s ->
  live_outcome r s (ChatCompletionStream r req s).
Proof.
  intros [Hp Hu Ha Ho Hh Hs]. unfold ChatCompletionStream.
  pose proof (resolve_chain_NoDup r.(resolver) req.(req_Model) : NoDup (Name <$> resolve r (req_Model req))) as Hnd.
  destruct (resolve r (req_Model req)) as [|p0 chain]; [by apply elem_of_nil in Hp|].
  unfold bind, now, on_env. destruct (env_now (env s)) as [start e].
  apply (chain_loop_live _ r start p (p0 :: chain) _ {| env := e; pool := pool s; history := history s |} Hp Hnd);
    [|by apply triple_stream_self|done].
  intros q Hq Hne. apply triple_stream_other; auto using attempts_fuel.
Qed.

(** Served to its end. *)
Lemma serve_stream_live r req p s :
  stream_serviceable r req p s ->
  live_outcome r s (serve_stream r req s).
Proof.
  intros Hsv. unfold serve_stream. rewrite bind_run.
  destruct (ChatCompletionStream_live r req p s Hsv) as [[c ->]|[[err ->] Hout]].
  - rewrite bind_run. left. by eexists.
  - right. split; [by exists err|done].
Qed.
End Live.
