(* ===== verification/RateLimit.v ===== *)
(** * RateLimit: rules, the aggregate check, the in-memory bucket, loading and
    the HTTP middleware

    [internal/ratelimit/ratelimit.go], [memory.go], [loader.go] and
    [internal/server/middleware/ratelimit.go].  A [Limiter] is an operation on
    a world [W] that holds every backend's state; the Redis backend is in
    [RedisWindow]. *)

From S2P Require Import Prelude GoStd Float64 Errors.
From Stdlib Require Import Ascii.
Local Open Scope Z_scope.

(** ** Decisions, keys, rules *)

(** [Reset] is an instant in nanoseconds; [None] is the zero [time.Time]. *)
Record Decision := {
  Allowed : bool; Limit : Z; Remaining : Z; Reset : option Z; RetryAfter : Z; RuleName : string
}.

Definition zero_decision : Decision :=
  {| Allowed := false; Limit := 0; Remaining := 0; Reset := None; RetryAfter := 0; RuleName := "" |}.

Inductive KeyBy := KeyByAPIKey | KeyByModel.
Record KeyContext := { APIKeyID : string; Model : string }.

Definition value (k : KeyContext) (dim : KeyBy) : string :=
  match dim with KeyByAPIKey => k.(APIKeyID) | KeyByModel => k.(Model) end.

Inductive Unit_ := UnitRequests | UnitTokens.
#[export] Instance Unit_eq_dec : EqDecision Unit_.
Proof. solve_decision. Defined.

(** The [Limiter] interface: key and cost to a decision or a backend error. *)
Definition Limiter (W : Type) : Type := string -> Z -> W -> (error + Decision) * W.

(** [rule_Unit = None] is the empty string, which counts as requests. *)
Record Rule (W : Type) := {
  rule_Name : string; rule_KeyBy : list KeyBy; rule_Limiter : Limiter W;
  rule_Unit : option Unit_
}.
Arguments rule_Name {W} _.
Arguments rule_KeyBy {W} _.
Arguments rule_Limiter {W} _.
Arguments rule_Unit {W} _.
Arguments Build_Rule {W} _ _ _ _.

Definition composeKey_of (name : string) (vals : list string) : string :=
  fold_left (fun b v => b +:+ ":" +:+ v) vals ("ratelimit:" +:+ name).

Section Rules.
Context {W : Type}.

Definition composeKey (r : Rule W) (kctx : KeyContext) : string :=
  composeKey_of r.(rule_Name) (map (value kctx) r.(rule_KeyBy)).

Definition set_Rule (d : Decision) (name : string) : Decision :=
  {| Allowed := d.(Allowed); Limit := d.(Limit); Remaining := d.(Remaining);
     Reset := d.(Reset); RetryAfter := d.(RetryAfter); RuleName := name |}.

(** [Rule.Allow]. *)
Definition rule_Allow (r : Rule W) (kctx : KeyContext) (cost : Z) (w : W)
    : (error + Decision) * W :=
  let '(res, w') := r.(rule_Limiter) (composeKey r kctx) cost w in
  (match res with inl err => inl err | inr d => inr (set_Rule d r.(rule_Name)) end, w').

Definition unit_of (r : Rule W) : Unit_ :=
  match r.(rule_Unit) with None => UnitRequests | Some u => u end.

(** The loop of [Multi.check]. *)
Fixpoint check_loop (rules : list (Rule W)) (kctx : KeyContext) (cost : Z) (unit : Unit_)
    (tightest : Decision) (w : W) : (error + Decision) * W :=
  match rules with
  | [] => (inr tightest, w)
  | r :: rest =>
      if bool_decide (unit_of r = unit) then
        let '(res, w') := rule_Allow r kctx cost w in
        match res with
        | inl err => (inl err, w')
        | inr d =>
            if negb d.(Allowed) then (inr d, w')
            else check_loop rest kctx cost unit
                   (if (tightest.(Remaining) <? 0) || (d.(Remaining) <? tightest.(Remaining))
                    then d else tightest) w'
        end
      else check_loop rest kctx cost unit tightest w
  end.

Definition allowed_decision (remaining : Z) : Decision :=
  {| Allowed := true; Limit := 0; Remaining := remaining; Reset := None; RetryAfter := 0;
     RuleName := "" |}.

Definition check (rules : list (Rule W)) (kctx : KeyContext) (cost : Z) (unit : Unit_) (w : W)
    : (error + Decision) * W :=
  match rules with
  | [] => (inr (allowed_decision 0), w)
  | _ => check_loop rules kctx cost unit (allowed_decision (-1)) w
  end.

Definition Check (rules : list (Rule W)) (kctx : KeyContext) (cost : Z) : W -> (error + Decision) * W :=
  check rules kctx cost UnitRequests.
Definition CheckTokens (rules : list (Rule W)) (kctx : KeyContext) (n : Z)
    : W -> (error + Decision) * W :=
  check rules kctx n UnitTokens.

(** ** What the aggregate promises *)

(** Running a list of rules one after the other as far as all allow. *)
Inductive all_allow (kctx : KeyContext) (cost : Z)
    : list (Rule W) -> W -> list Decision -> W -> Prop :=
  | all_nil w : all_allow kctx cost [] w [] w
  | all_cons r rules w d w1 ds w2 :
      rule_Allow r kctx cost w = (inr d, w1) -> d.(Allowed) = true ->
      all_allow kctx cost rules w1 ds w2 ->
      all_allow kctx cost (r :: rules) w (d :: ds) w2.

Definition of_unit (unit : Unit_) (rules : list (Rule W)) : list (Rule W) :=
  filter (fun r => unit_of r = unit) rules.

(** The tightest of the decisions seen so far, as the loop tracks it. *)
Definition tighten (t d : Decision) : Decision :=
  if (t.(Remaining) <? 0) || (d.(Remaining) <? t.(Remaining)) then d else t.

Lemma check_loop_spec rules kctx cost unit t w res w' :
  check_loop rules kctx cost unit t w = (res, w') ->
  (exists ds, all_allow kctx cost (of_unit unit rules) w ds w' /\
     res = inr (fold_left tighten ds t)) \/
  (exists pre r post ds w1, of_unit unit rules = pre ++ r :: post /\
     all_allow kctx cost pre w ds w1 /\
     match res with
     | inl err => rule_Allow r kctx cost w1 = (inl err, w')
     | inr d => rule_Allow r kctx cost w1 = (inr d, w') /\ d.(Allowed) = false
     end).
Proof.
  unfold of_unit. revert t w. induction rules as [|r rules IH]; intros t w Hc; simpl in Hc.
  { injection Hc as <- <-. left. exists []. split; [constructor|done]. }
  rewrite filter_cons. destruct (bool_decide_reflect (unit_of r = unit)) as [Hu|Hu].
  2:{ rewrite decide_False by done. by eapply IH. }
  rewrite decide_True by done. destruct (rule_Allow r kctx cost w) as [[err|d] w1] eqn:Ea.
  { injection Hc as <- <-. right. exists [], r, (filter (λ r, unit_of r = unit) rules), [], w.
    split; [done|]. split; [apply all_nil|done]. }
  destruct (Allowed d) eqn:Ed; simpl in Hc.
  - apply IH in Hc as [(ds & Ha & ->)|(pre & r' & post & ds & w2 & -> & Ha & Hr)].
    + left. exists (d :: ds). split; [by econstructor|done].
    + right. exists (r :: pre), r', post, (d :: ds), w2. split; [done|]. split; [by econstructor|done].
  - injection Hc as <- <-. right.
    exists [], r, (filter (λ r, unit_of r = unit) rules), [], w. split; [done|].
    split; [apply all_nil|done].
Qed.

Lemma fold_tighten ds t :
  (forall d, d ∈ ds -> 0 <= d.(Remaining)) -> 0 <= t.(Remaining) ->
  let m := fold_left tighten ds t in
  (m = t \/ m ∈ ds) /\ m.(Remaining) <= t.(Remaining) /\
  forall d, d ∈ ds -> m.(Remaining) <= d.(Remaining).
Proof.
  revert t. induction ds as [|d ds IH]; intros t Hds Ht; simpl.
  { split_and!; [by left|lia|]. intros d Hd. by apply elem_of_nil in Hd. }
  assert (Hd : 0 <= Remaining d) by (apply Hds; set_solver).
  assert (Htd : 0 <= (tighten t d).(Remaining) /\ (tighten t d).(Remaining) <= t.(Remaining) /\
    (tighten t d).(Remaining) <= d.(Remaining) /\ (tighten t d = t \/ tighten t d = d)).
  { unfold tighten. destruct (Z.ltb_spec (Remaining t) 0); [lia|]. simpl.
    destruct (Z.ltb_spec (Remaining d) (Remaining t)); split_and!; try lia; auto. }
  destruct Htd as (H1 & H2 & H3 & H4).
  destruct (IH (tighten t d)) as (Hm & Hle & Hall); [set_solver|done|].
  split_and!; [|lia|].
  - destruct Hm as [-> |Hm]; [|right; set_solver]. destruct H4 as [-> | ->]; [by left|right; set_solver].
  - intros d' [-> |Hd']%elem_of_cons; [lia|by apply Hall].
Qed.
End Rules.

(** [Multi] charges the rules of the unit in order.  Either all of them
    allow, and the answer is an allowing decision with the least [Remaining]
    among theirs (the sentinel when the unit has no rule); or the answer is
    that of the first rule that refuses or fails, every rule before it was
    charged and none after it was touched. *)
Theorem Multi_check_spec {W} (rules : list (Rule W)) kctx cost unit w :
  let '(res, w') := check rules kctx cost unit w in
  (exists ds, all_allow kctx cost (of_unit unit rules) w ds w' /\
     exists d, res = inr d /\ d.(Allowed) = true /\
       ((forall x, x ∈ ds -> 0 <= x.(Remaining)) -> ds <> [] ->
        d ∈ ds /\ forall x, x ∈ ds -> d.(Remaining) <= x.(Remaining))) \/
  (exists pre r post ds w1, of_unit unit rules = pre ++ r :: post /\
     all_allow kctx cost pre w ds w1 /\ rule_Allow r kctx cost w1 = (res, w') /\
     match res with inl _ => True | inr d => d.(Allowed) = false end).
Proof.
  destruct rules as [|r0 rules]; [|remember (r0 :: rules) as rs eqn:Hrs].
  { simpl. left. exists []. split; [apply all_nil|]. exists (allowed_decision 0).
    split_and!; done. }
  assert (Hck : check rs kctx cost unit w = check_loop rs kctx cost unit (allowed_decision (-1)) w)
    by (by subst).
  rewrite Hck. destruct (check_loop rs kctx cost unit (allowed_decision (-1)) w) as [res w'] eqn:E.
  apply check_loop_spec in E as [(ds & Ha & ->)|(pre & r & post & ds & w1 & Hr & Ha & Hres)].
  - left. exists ds. split; [done|]. eexists. split; [done|].
    assert (Hall : forall d, d ∈ ds -> Allowed d = true).
    { clear -Ha. induction Ha; set_solver. }
    assert (Hal : forall l t, (forall d, d ∈ l -> Allowed d = true) -> Allowed t = true ->
      Allowed (fold_left tighten l t) = true).
    { clear. induction l as [|d l IH]; intros t Hl Ht; simpl; [done|].
      apply IH; [set_solver|]. unfold tighten. case_match; [apply Hl; set_solver|done]. }
    split; [by apply Hal|]. intros Hpos Hne. destruct ds as [|d ds]; [done|]. simpl.
    change (tighten (allowed_decision (-1)) d) with d.
    destruct (fold_tighten ds d) as (Hm & Hle & Hmin); [set_solver|apply Hpos; set_solver|].
    split; [destruct Hm as [-> |?]; set_solver|].
    intros x [-> |Hx]%elem_of_cons; [done|by apply Hmin].
  - right. exists pre, r, post, ds, w1. destruct res; [done|]. destruct Hres. done.
Qed.

(** ** Keys *)

(** Strings without the separator. *)
Definition colon_free (s : string) : Prop := Strings.IndexByte s ":"%char = None.

Lemma composeKey_Join name vals :
  composeKey_of name vals = Strings.Join ("ratelimit" :: name :: vals) ":".
Proof.
  assert (H : forall b, fold_left (fun b v => b +:+ ":" +:+ v) vals b =
    Strings.Join (b :: vals) ":").
  { induction vals as [|v vals IH]; intros b; [done|]. simpl fold_left. rewrite IH.
    destruct vals; [done|]. cbn [Strings.Join]. by rewrite !Strings.append_assoc. }
  unfold composeKey_of. rewrite H. by destruct vals.
Qed.

(** Two rules never share a bucket key, and one rule never shares it between
    different dimension values, as long as no rule name and no dimension value
    contains the separator. *)
Theorem composeKey_injective {W} (r1 r2 : Rule W) k1 k2 :
  colon_free r1.(rule_Name) -> colon_free r2.(rule_Name) ->
  Forall colon_free (map (value k1) r1.(rule_KeyBy)) ->
  Forall colon_free (map (value k2) r2.(rule_KeyBy)) ->
  composeKey r1 k1 = composeKey r2 k2 ->
  r1.(rule_Name) = r2.(rule_Name) /\
  map (value k1) r1.(rule_KeyBy) = map (value k2) r2.(rule_KeyBy).
Proof.
  intros H1 H2 Hv1 Hv2 Heq. unfold composeKey in Heq. rewrite !composeKey_Join in Heq.
  apply (f_equal (fun s => Strings.Split s ":"%char)) in Heq.
  rewrite !(Strings.Split_Join _ ":"%char) in Heq by (done || by repeat constructor).
  by injection Heq as -> ->.
Qed.

Definition no_limiter : Limiter unit := fun _ _ w => (inr zero_decision, w).

Lemma composeKey_injective_witness :
  composeKey (Build_Rule "per-key" [KeyByAPIKey] no_limiter None) {| APIKeyID := "k1"; Model := "" |}
  <> composeKey (Build_Rule "per-key" [KeyByAPIKey] no_limiter None) {| APIKeyID := "k2"; Model := "" |}.
Proof.
  intros Heq.
  destruct (composeKey_injective
    (Build_Rule "per-key" [KeyByAPIKey] no_limiter None)
    (Build_Rule "per-key" [KeyByAPIKey] no_limiter None)
    {| APIKeyID := "k1"; Model := "" |} {| APIKeyID := "k2"; Model := "" |}) as [_ Hv];
    [reflexivity|reflexivity|repeat constructor|repeat constructor|exact Heq|discriminate Hv].
Defined.

(** The hypothesis matters: a model name may contain the separator, and the
    key of model [m:_seq] is the sequence counter the Redis script keeps for
    model [m] under the same rule. *)
Theorem seq_key_collision {W} (r : Rule W) key m :
  r.(rule_KeyBy) = [KeyByModel] ->
  composeKey r {| APIKeyID := key; Model := m +:+ ":_seq" |} =
  composeKey r {| APIKeyID := key; Model := m |} +:+ ":_seq".
Proof.
  intros Hk. unfold composeKey, composeKey_of. rewrite Hk. cbn [map fold_left value Model].
  by rewrite !Strings.append_assoc.
Qed.

Lemma seq_key_collision_witness :
  composeKey (Build_Rule "tpm" [KeyByModel] no_limiter (Some UnitTokens))
    {| APIKeyID := "k1"; Model := "gpt-4o:_seq" |} =
  composeKey (Build_Rule "tpm" [KeyByModel] no_limiter (Some UnitTokens))
    {| APIKeyID := "k1"; Model := "gpt-4o" |} +:+ ":_seq".
Proof.
  exact (seq_key_collision (Build_Rule "tpm" [KeyByModel] no_limiter (Some UnitTokens))
           "k1" "gpt-4o" eq_refl).
Defined.

(** ** The in-memory bucket *)

(** [golang.org/x/time/rate] and the expirable LRU are outside the repository.
    Limiters are heap objects: the cache holds pointers, and evicting an entry
    does not touch the object a request already holds. *)
Class RateLib (Lim Res : Type) := {
  NewLimiter : float64 -> Z -> Lim;
  AllowN : Z -> Z -> Lim -> bool * Lim;
  TokensAt : Z -> Lim -> float64;
  ReserveN : Z -> Z -> Lim -> Res * Lim;
  DelayFrom : Z -> Res -> Z;
  CancelAt : Z -> Res -> Lim -> Lim
}.

Class LRU (Cache : Type) := {
  NewLRU : Z -> Z -> Cache;
  cache_Get : Z -> string -> Cache -> option nat * Cache;
  cache_Add : Z -> string -> nat -> Cache -> Cache;
  cache_Len : Cache -> Z
}.

(** Documented behaviour of the cache: a key just added is found unless the
    cache holds nothing or the entry has expired. *)
Section Memory.
Context {Lim Res Cache : Type} `{!RateLib Lim Res} `{!LRU Cache}.

Record MemoryBucketConfig := {
  mb_Rate : float64; mb_Burst : Z; mb_MaxKeys : Z; mb_IdleTTL : Z
}.

Record MemoryBucket := {
  rate_ : float64; burst : Z; cache : Cache; heap : gmap nat Lim; next : nat
}.

Definition NewMemoryBucket (cfg : MemoryBucketConfig) : error + MemoryBucket :=
  if f_leb cfg.(mb_Rate) f_zero then
    inl (Errorf "ratelimit: MemoryBucketConfig.Rate must be > 0" [] None)
  else if cfg.(mb_Burst) <? 1 then
    inl (Errorf "ratelimit: MemoryBucketConfig.Burst must be >= 1" [] None)
  else
    let maxKeys := if cfg.(mb_MaxKeys) =? 0 then 100000 else cfg.(mb_MaxKeys) in
    let idleTTL := if cfg.(mb_IdleTTL) =? 0 then Hour else cfg.(mb_IdleTTL) in
    inr {| rate_ := cfg.(mb_Rate); burst := cfg.(mb_Burst);
           cache := NewLRU maxKeys idleTTL; heap := ∅; next := 0%nat |}.

Definition set_lim (m : MemoryBucket) (c : Cache) (ptr : nat) (l : Lim) : MemoryBucket :=
  {| rate_ := m.(rate_); burst := m.(burst); cache := c; heap := <[ptr := l]> m.(heap);
     next := m.(next) |}.

(** Look the key's limiter up, creating and caching it when absent.  A cached
    pointer always points to an object; the fresh object is the fallback. *)
Definition find_limiter (now : Z) (key : string) (m : MemoryBucket)
    : nat * Lim * MemoryBucket :=
  let '(hit, c) := cache_Get now key m.(cache) in
  match hit with
  | Some ptr =>
      let l := match m.(heap) !! ptr with Some l => l | None => NewLimiter m.(rate_) m.(burst) end in
      (ptr, l, set_lim m c ptr l)
  | None =>
      let l := NewLimiter m.(rate_) m.(burst) in
      let ptr := m.(next) in
      (ptr, l, {| rate_ := m.(rate_); burst := m.(burst);
                  cache := cache_Add now key ptr c; heap := <[ptr := l]> m.(heap);
                  next := S ptr |})
  end.

(** [time.Duration(float64(deficit)/float64(rate)) * time.Second]. *)
Definition reset_delay (deficit : Z) (r : float64) : Z :=
  (to_int64 (f_div (of_Z deficit) r) *i Second)%go.

Definition MemoryBucket_Allow (now : Z) (key : string) (cost : Z) (m : MemoryBucket)
    : Decision * MemoryBucket :=
  let cost := if cost <? 1 then 1 else cost in
  let '(ptr, l, m) := find_limiter now key m in
  let '(ok, l) := AllowN now cost l in
  if ok : bool then
    let tokensLeft := to_int64 (TokensAt now l) in
    let deficit := (m.(burst) -i tokensLeft)%go in
    let reset := if (0 <? deficit) && f_ltb f_zero m.(rate_)
                 then now + reset_delay deficit m.(rate_) else now in
    ({| Allowed := true; Limit := m.(burst); Remaining := tokensLeft; Reset := Some reset;
        RetryAfter := 0; RuleName := "" |}, set_lim m m.(cache) ptr l)
  else
    let '(res, l) := ReserveN now cost l in
    let delay := DelayFrom now res in
    let l := CancelAt now res l in
    ({| Allowed := false; Limit := m.(burst); Remaining := to_int64 (TokensAt now l);
        Reset := Some (now + delay); RetryAfter := delay; RuleName := "" |},
     set_lim m m.(cache) ptr l).

Definition MemoryBucket_Len (m : MemoryBucket) : Z := cache_Len m.(cache).

(** Limiter objects of other keys are never touched: only the pointer the key
    resolves to changes. *)
Lemma MemoryBucket_frame now key cost m d m' ptr :
  MemoryBucket_Allow now key cost m = (d, m') ->
  (cache_Get now key m.(cache)).1 <> Some ptr -> ptr <> m.(next) ->
  m'.(heap) !! ptr = m.(heap) !! ptr.
Proof.
  unfold MemoryBucket_Allow, find_limiter. destruct (cache_Get now key (cache m)) as [[q|] c]; simpl.
  all: destruct (AllowN _ _ _) as [[] l1]; [|destruct (ReserveN _ _ _) as [res l2]];
    intros [= <- <-] H1 H2; simpl; by rewrite !lookup_insert_ne by congruence.
Qed.
End Memory.

(** The projected reset of the in-memory bucket is rounded down to whole
    seconds before it becomes a duration: at 100 requests per second, with 1 of
    100 tokens used, the bucket is reported as already full again (the refill
    takes 10 ms), and with 99 of 10 per second used as 9 instead of 9.9 s. *)
Theorem reset_truncates :
  reset_delay 1 (of_Z 100) = 0 /\ reset_delay 99 (of_Z 10) = 9 * Second.
Proof. split; vm_compute; reflexivity. Qed.

(** ** Loading *)

Record RuleConfig := {
  rc_Name : string; rc_Algorithm : string; rc_Rate : string; rc_Burst : Z; rc_Window : Z;
  rc_Limit : Z; rc_KeyBy : list string; rc_Unit : string
}.

Definition parseUnit (s : string) : error + Unit_ :=
  if bool_decide (s = "") || bool_decide (s = "requests") then inr UnitRequests
  else if bool_decide (s = "tokens") then inr UnitTokens
  else inl (Errorf "unknown unit %q (want requests | tokens | empty)" [ArgS s] None).

Fixpoint parseKeyBys (l : list string) : error + list KeyBy :=
  match l with
  | [] => inr []
  | s :: l' =>
      if bool_decide (s = "api_key") then
        match parseKeyBys l' with inl e => inl e | inr ks => inr (KeyByAPIKey :: ks) end
      else if bool_decide (s = "model") then
        match parseKeyBys l' with inl e => inl e | inr ks => inr (KeyByModel :: ks) end
      else inl (Errorf "unknown key_by %q (want api_key | model | empty for global)" [ArgS s] None)
  end.

(** [per.Seconds()] of the three units is exact. *)
Definition parseRate (s : string) : error + float64 :=
  match Strings.Split s "/"%char with
  | [num; unit] =>
      match Strconv.Atoi (Strings.TrimSpace num) with
      | Some n =>
          if n <=? 0 then
            inl (Errorf "rate %q: numerator must be a positive integer" [ArgS s] None)
          else
            let per := let u := Strings.TrimSpace unit in
              if bool_decide (u = "s") then Some Second
              else if bool_decide (u = "m") then Some Minute
              else if bool_decide (u = "h") then Some Hour
              else None in
            match per with
            | Some d => inr (f_div (of_Z n) (duration_seconds d))
            | None => inl (Errorf "rate %q: unit must be s | m | h" [ArgS s] None)
            end
      | None => inl (Errorf "rate %q: numerator must be a positive integer" [ArgS s] None)
      end
  | _ => inl (Errorf "rate %q: expected form <n>/<s|m|h>" [ArgS s] None)
  end.

(** The limiter a rule asks for; the back ends are built from it. *)
Inductive limiter_spec :=
  | SpecMemory (rate : float64) (burst : Z)
  | SpecRedis (limit window : Z).

Definition buildMemoryBucket (rc : RuleConfig) : error + limiter_spec :=
  match parseRate rc.(rc_Rate) with
  | inl e => inl e
  | inr r =>
      let burst := if rc.(rc_Burst) =? 0
                   then let b := to_int64 r in if b <? 1 then 1 else b
                   else rc.(rc_Burst) in
      if f_leb r f_zero then inl (Errorf "ratelimit: MemoryBucketConfig.Rate must be > 0" [] None)
      else if burst <? 1 then
        inl (Errorf "ratelimit: MemoryBucketConfig.Burst must be >= 1" [] None)
      else inr (SpecMemory r burst)
  end.

Definition buildRedisWindow (has_rdb : bool) (rc : RuleConfig) : error + limiter_spec :=
  if negb has_rdb then
    inl (Errorf "redis_window requires Redis (set redis.addr in config.yaml)" [] None)
  else if rc.(rc_Limit) <? 1 then inl (Errorf "redis_window: limit must be >= 1" [] None)
  else if rc.(rc_Window) <=? 0 then inl (Errorf "redis_window: window must be > 0" [] None)
  else inr (SpecRedis rc.(rc_Limit) rc.(rc_Window)).

Record BuiltRule := {
  br_Name : string; br_KeyBy : list KeyBy; br_Limiter : limiter_spec; br_Unit : Unit_
}.

Definition build_rule (has_rdb : bool) (i : Z) (rc : RuleConfig) : error + BuiltRule :=
  let wrap e := Errorf "rules[%d] %q: %w" [ArgD i; ArgS rc.(rc_Name)] (Some e) in
  match parseKeyBys rc.(rc_KeyBy) with
  | inl e => inl (wrap e)
  | inr kbs =>
      match parseUnit rc.(rc_Unit) with
      | inl e => inl (wrap e)
      | inr unit =>
          let lim :=
            if bool_decide (rc.(rc_Algorithm) = "memory_bucket") then buildMemoryBucket rc
            else if bool_decide (rc.(rc_Algorithm) = "redis_window") then
              buildRedisWindow has_rdb rc
            else inl (Errorf "unknown algorithm %q (want memory_bucket | redis_window)"
                        [ArgS rc.(rc_Algorithm)] None) in
          match lim with
          | inl e => inl (wrap e)
          | inr l => inr {| br_Name := rc.(rc_Name); br_KeyBy := kbs; br_Limiter := l;
                            br_Unit := unit |}
          end
      end
  end.

(** The loop of [Build]: rules built, names seen, errors. *)
Fixpoint build_loop (has_rdb : bool) (i : Z) (configs : list RuleConfig) (seen : gset string)
    (out : list BuiltRule) (errs : list error) : list BuiltRule * list error :=
  match configs with
  | [] => (out, errs)
  | rc :: rest =>
      if bool_decide (rc.(rc_Name) = "") then
        build_loop has_rdb (i + 1) rest seen out
          (errs ++ [Errorf "rules[%d]: name is required" [ArgD i] None])
      else if bool_decide (rc.(rc_Name) ∈ seen) then
        build_loop has_rdb (i + 1) rest seen out
          (errs ++ [Errorf "rules[%d]: duplicate name %q" [ArgD i; ArgS rc.(rc_Name)] None])
      else
        let seen := {[rc.(rc_Name)]} ∪ seen in
        match build_rule has_rdb i rc with
        | inl e => build_loop has_rdb (i + 1) rest seen out (errs ++ [e])
        | inr r => build_loop has_rdb (i + 1) rest seen (out ++ [r]) errs
        end
  end.

Definition Build (has_rdb : bool) (configs : list RuleConfig) : error + list BuiltRule :=
  match configs with
  | [] => inr []
  | _ =>
      let '(out, errs) := build_loop has_rdb 0 configs ∅ [] [] in
      match errs with
      | [] => inr out
      | _ => inl (Errorf "ratelimit: build failed: %w" [] (Some (Errors.Join errs)))
      end
  end.

(** ** What loading guarantees *)

Definition spec_ok (has_rdb : bool) (l : limiter_spec) : Prop :=
  match l with
  | SpecMemory r b => f_leb r f_zero = false /\ 1 <= b
  | SpecRedis limit window => has_rdb = true /\ 1 <= limit /\ 0 < window
  end.

Definition built_from (has_rdb : bool) (rc : RuleConfig) (r : BuiltRule) : Prop :=
  r.(br_Name) = rc.(rc_Name) /\ r.(br_Name) <> "" /\
  parseKeyBys rc.(rc_KeyBy) = inr r.(br_KeyBy) /\ parseUnit rc.(rc_Unit) = inr r.(br_Unit) /\
  spec_ok has_rdb r.(br_Limiter).

Lemma buildMemoryBucket_ok has_rdb rc l : buildMemoryBucket rc = inr l -> spec_ok has_rdb l.
Proof.
  unfold buildMemoryBucket. destruct (parseRate (rc_Rate rc)) as [|r]; [done|].
  set (b := if rc_Burst rc =? 0 then _ else _). destruct (f_leb r f_zero) eqn:E; [done|].
  destruct (Z.ltb_spec b 1); [done|]. intros [= <-]. done.
Qed.

Lemma buildRedisWindow_ok has_rdb rc l : buildRedisWindow has_rdb rc = inr l -> spec_ok has_rdb l.
Proof.
  unfold buildRedisWindow. destruct has_rdb; [|done]. simpl.
  destruct (Z.ltb_spec (rc_Limit rc) 1); [done|].
  destruct (Z.leb_spec (rc_Window rc) 0); [done|]. intros [= <-]. done.
Qed.

Lemma build_rule_ok has_rdb i rc r :
  build_rule has_rdb i rc = inr r -> rc.(rc_Name) <> "" -> built_from has_rdb rc r.
Proof.
  unfold build_rule. intros H Hn. destruct (parseKeyBys (rc_KeyBy rc)) eqn:Ek; [done|].
  destruct (parseUnit (rc_Unit rc)) eqn:Eu; [done|].
  case_match eqn:El; [done|]. injection H as <-. unfold built_from. simpl.
  split_and!; try done. revert El. case_bool_decide; [apply buildMemoryBucket_ok|].
  case_bool_decide; [apply buildRedisWindow_ok|done].
Qed.

Lemma build_loop_ok has_rdb i configs seen out errs out' :
  build_loop has_rdb i configs seen out errs = (out', []) ->
  errs = [] /\ exists new, out' = out ++ new /\ Forall2 (built_from has_rdb) configs new /\
    NoDup (br_Name <$> new) /\ forall r, r ∈ new -> r.(br_Name) ∉ seen.
Proof.
  revert i seen out errs. induction configs as [|rc configs IH]; intros i seen out errs Hb; simpl in Hb.
  { injection Hb as <- ->. split; [done|]. exists []. rewrite app_nil_r.
    split_and!; [done|constructor|constructor|]. set_solver. }
  destruct (bool_decide_reflect (rc_Name rc = "")) as [|Hn].
  { apply IH in Hb as [[? ?]%app_nil _]. done. }
  destruct (bool_decide_reflect (rc_Name rc ∈ seen)) as [|Hs].
  { apply IH in Hb as [[? ?]%app_nil _]. done. }
  destruct (build_rule has_rdb i rc) as [e|r] eqn:Er.
  { apply IH in Hb as [[? ?]%app_nil _]. done. }
  apply IH in Hb as (-> & new & -> & Hf & Hnd & Hseen). split; [done|].
  pose proof (build_rule_ok _ _ _ _ Er Hn) as Hr. exists (r :: new).
  assert (Hname : br_Name r = rc_Name rc) by apply Hr.
  split_and!.
  - by rewrite <- app_assoc.
  - by constructor.
  - simpl. constructor; [|done]. intros (r' & Heq & Hr')%list_elem_of_fmap.
    apply Hseen in Hr'. apply Hr'. rewrite <- Heq, Hname. by apply elem_of_union_l, elem_of_singleton.
  - intros r' [-> |Hr']%elem_of_cons; [by rewrite Hname|]. apply Hseen in Hr'.
    intros Hin. by apply Hr', elem_of_union_r.
Qed.

(** Rules that load are usable: one rule per configuration entry in order,
    with its name (non-empty and unique), its dimensions and its unit, a
    memory bucket with a positive rate and a burst of at least one, a Redis
    window only with Redis configured, a limit of at least one and a positive
    window. *)
Theorem Build_ok has_rdb configs out :
  Build has_rdb configs = inr out ->
  Forall2 (built_from has_rdb) configs out /\ NoDup (br_Name <$> out).
Proof.
  unfold Build. destruct configs as [|rc configs]; [by intros [= <-]; repeat constructor|].
  destruct (build_loop _ _ _ _ _ _) as [out' errs] eqn:E. destruct errs; [|done].
  intros [= <-]. apply build_loop_ok in E as (_ & new & -> & Hf & Hnd & _). done.
Qed.

Definition test_rules : list RuleConfig :=
  [{| rc_Name := "per-key"; rc_Algorithm := "memory_bucket"; rc_Rate := "600/m"; rc_Burst := 0;
      rc_Window := 0; rc_Limit := 0; rc_KeyBy := ["api_key"]; rc_Unit := "" |};
   {| rc_Name := "tpm"; rc_Algorithm := "redis_window"; rc_Rate := ""; rc_Burst := 0;
      rc_Window := Minute; rc_Limit := 90000; rc_KeyBy := ["api_key"; "model"];
      rc_Unit := "tokens" |}].

Lemma Build_ok_witness :
  exists out, Build true test_rules = inr out /\
    Forall2 (built_from true) test_rules out /\ NoDup (br_Name <$> out).
Proof.
  eexists. split; [vm_compute; reflexivity|]. apply Build_ok. vm_compute. reflexivity.
Defined.

(** ** The middleware *)

Definition retryAfterSeconds (d : Z) : Z :=
  if d <=? 0 then 0
  else
    let s := Z.quot d Second in
    let s := if 0 <? Z.rem d Second then s + 1 else s in
    if s <? 1 then 1 else s.

(** Headers as a map, [Set] overwrites. *)
Definition writeRateLimitHeaders (d : Decision) (h : gmap string string) : gmap string string :=
  let h := if 0 <? d.(Limit)
           then <["X-RateLimit-Remaining" := Strconv.Itoa d.(Remaining)]>
                  (<["X-RateLimit-Limit" := Strconv.Itoa d.(Limit)]> h) else h in
  match d.(Reset) with
  | Some t => <["X-RateLimit-Reset" := Strconv.Itoa (t / Second)]> h
  | None => h
  end.

(** What the middleware does with a request: hand it on, or answer 429. *)
Inductive outcome :=
  | Next (headers : gmap string string)
  | Denied (headers : gmap string string) (rule : string) (reqID : string).

Definition writeRateLimitDenied (d : Decision) (h : gmap string string) (reqID : string) : outcome :=
  let h := if 0 <? d.(RetryAfter)
           then <["Retry-After" := Strconv.Itoa (retryAfterSeconds d.(RetryAfter))]> h else h in
  Denied (<["Content-Type" := "application/json"]> h) d.(RuleName) reqID.

(** [principal] is the authenticated caller's ID, if any. *)
Definition buildKeyContext (principal : option string) : KeyContext :=
  {| APIKeyID := match principal with Some id => id | None => "" end; Model := "" |}.

(** The handler for one request, with the count of rejections per rule
    ([Metrics.IncRatelimitReject]). *)
Definition RateLimit_middleware {W} (rules : list (Rule W)) (principal : option string)
    (reqID : string) (h : gmap string string) (w : W) : outcome * W :=
  match rules with
  | [] => (Next h, w)
  | _ =>
      let '(res, w') := Check rules (buildKeyContext principal) 1 w in
      match res with
      | inl _ => (Next h, w')
      | inr d =>
          let h := writeRateLimitHeaders d h in
          if negb d.(Allowed) then (writeRateLimitDenied d h reqID, w') else (Next h, w')
      end
  end.

Lemma retryAfterSeconds_ceil d :
  0 < d -> d <= retryAfterSeconds d * Second < d + Second.
Proof.
  intros Hd. unfold retryAfterSeconds. rewrite (proj2 (Z.leb_gt d 0)) by done.
  pose proof (Z.quot_rem d Second ltac:(done)) as Hq.
  pose proof (Z.rem_bound_pos d Second ltac:(lia) ltac:(done)) as Hr.
  assert (0 <= Z.quot d Second) by (apply Z.quot_pos; unfold Second; lia).
  cbv zeta. destruct (Z.ltb_spec 0 (Z.rem d Second));
    match goal with |- context [?a <? 1] => destruct (Z.ltb_spec a 1) end;
    unfold Second in *; lia.
Qed.

(** The middleware forwards a request exactly when the request-unit rules
    do not refuse it (a backend failure included: it fails open); a refusal is
    answered with a [Retry-After] of the rule's delay rounded up to whole
    seconds, never down and never zero. *)
Theorem RateLimit_middleware_spec {W} (rules : list (Rule W)) principal reqID h w :
  let '(res, w1) := Check rules (buildKeyContext principal) 1 w in
  let '(o, w2) := RateLimit_middleware rules principal reqID h w in
  w2 = w1 /\
  match o with
  | Next _ => match res with inl _ => True | inr d => d.(Allowed) = true end
  | Denied hd rule _ => exists d, res = inr d /\ d.(Allowed) = false /\ rule = d.(RuleName) /\
      (0 < d.(RetryAfter) -> exists s, hd !! "Retry-After" = Some (Strconv.Itoa s) /\
         d.(RetryAfter) <= s * Second < d.(RetryAfter) + Second)
  end.
Proof.
  destruct rules as [|r rules]; [done|]. unfold RateLimit_middleware.
  destruct (Check (r :: rules) (buildKeyContext principal) 1 w) as [[err|d] w1]; [done|].
  destruct (Allowed d) eqn:E; simpl; [done|]. split; [done|]. exists d. split_and!; try done.
  intros Hr. exists (retryAfterSeconds (RetryAfter d)).
  rewrite (proj2 (Z.ltb_lt _ _) Hr). rewrite lookup_insert_ne, lookup_insert_eq by done.
  split; [done|]. by apply retryAfterSeconds_ceil.
Qed.
