(* ===== verification/RedisWindow.v ===== *)
(** * RedisWindow: the sliding-window limiter and its Lua script

    [internal/ratelimit/redis_window.go].  The script runs inside Redis, whose
    keys, sorted sets, counters and expiry are modelled by [rdb]; a script is
    atomic, so concurrent requests are a sequence of calls.  Lua numbers are
    doubles: every number of the script but one quotient is an integer, so a
    Lua number is a [Z] and each conversion and operation rounds to 53
    significant bits ([rnd]); nanosecond timestamps exceed [2^53], which makes
    the rounding visible. *)

From S2P Require Import Prelude GoStd Float64 Errors RateLimit.
Local Open Scope Z_scope.

(** ** Integer-valued doubles *)

(** Nearest multiple of [u], ties to the even multiple. *)
Definition to_multiple (u a : Z) : Z :=
  let q := a / u in
  let r := a mod u in
  u * (if 2 * r <? u then q else if u <? 2 * r then q + 1 else if Z.even q then q else q + 1).

Definition rnd_abs (a : Z) : Z :=
  if a <? 2 ^ 53 then a else to_multiple (2 ^ (Z.log2 a - 52)) a.

(** The double nearest to an integer. *)
Definition rnd (z : Z) : Z := if z <? 0 then - rnd_abs (- z) else rnd_abs z.

(** It is the conversion of [Float64], as far as converting back goes. *)
Example rnd_of_Z :
  rnd 1700000000123456789 = to_int64 (of_Z 1700000000123456789) /\
  rnd 9007199254740993 = to_int64 (of_Z 9007199254740993).
Proof. split; vm_compute; reflexivity. Qed.

Lemma to_multiple_mono u a b : 0 < u -> a <= b -> to_multiple u a <= to_multiple u b.
Proof.
  intros Hu Hab. unfold to_multiple. apply Z.mul_le_mono_nonneg_l; [lia|].
  pose proof (Z.div_mod a u ltac:(lia)) as Ha. pose proof (Z.div_mod b u ltac:(lia)) as Hb.
  pose proof (Z.mod_pos_bound a u Hu) as Hra. pose proof (Z.mod_pos_bound b u Hu) as Hrb.
  pose proof (Z.div_le_mono a b u Hu Hab) as Hq.
  destruct (Z.eq_dec (a / u) (b / u)) as [Heq|Hne].
  - rewrite Heq in *. assert (a mod u <= b mod u) by lia.
    repeat match goal with |- context [?x <? ?y] => destruct (Z.ltb_spec x y) end;
      try destruct (Z.even (b / u)); lia.
  - repeat case_match; lia.
Qed.

Lemma to_multiple_error u a : 0 < u -> Z.abs (2 * (to_multiple u a - a)) <= u.
Proof.
  intros Hu. unfold to_multiple.
  pose proof (Z.div_mod a u ltac:(lia)) as Ha. pose proof (Z.mod_pos_bound a u Hu) as Hra.
  destruct (Z.ltb_spec (2 * (a mod u)) u) as [H1|H1]; [nia|].
  destruct (Z.ltb_spec u (2 * (a mod u))) as [H2|H2]; [nia|].
  destruct (Z.even (a / u)); nia.
Qed.

Lemma to_multiple_id u q : 0 < u -> to_multiple u (u * q) = u * q.
Proof.
  intros Hu. unfold to_multiple. rewrite (Z.mul_comm u q), Z.div_mul, Z.mod_mul by lia.
  rewrite (proj2 (Z.ltb_lt _ _)) by lia. ring.
Qed.

(** The rounded value stays within the binade's closed bounds. *)
Lemma rnd_abs_binade a :
  2 ^ 53 <= a -> 2 ^ Z.log2 a <= rnd_abs a <= 2 ^ (Z.log2 a + 1).
Proof.
  intros Ha. unfold rnd_abs. rewrite (proj2 (Z.ltb_ge _ _)) by done.
  pose proof (Z.log2_spec a ltac:(lia)) as [Hl Hh].
  assert (Hk : 53 <= Z.log2 a) by (apply Z.log2_le_pow2; lia).
  set (k := Z.log2 a) in *.
  assert (H0 : 0 < 2 ^ (k - 52)) by (apply Z.pow_pos_nonneg; lia).
  assert (H1 : 2 ^ k = 2 ^ (k - 52) * 2 ^ 52) by (rewrite <- Z.pow_add_r by lia; f_equal; lia).
  assert (H2 : 2 ^ (k + 1) = 2 ^ (k - 52) * 2 ^ 53)
    by (rewrite <- Z.pow_add_r by lia; f_equal; lia).
  split.
  - transitivity (to_multiple (2 ^ (k - 52)) (2 ^ (k - 52) * 2 ^ 52)).
    + rewrite to_multiple_id by done. lia.
    + apply to_multiple_mono; lia.
  - transitivity (to_multiple (2 ^ (k - 52)) (2 ^ (k - 52) * 2 ^ 53)).
    + apply to_multiple_mono; [done|]. unfold Z.succ in Hh. lia.
    + rewrite to_multiple_id by done. lia.
Qed.

Lemma rnd_abs_mono a b : 0 <= a <= b -> rnd_abs a <= rnd_abs b.
Proof.
  intros [Ha Hab]. destruct (Z.lt_ge_cases b (2 ^ 53)) as [Hb|Hb].
  { unfold rnd_abs. rewrite !(proj2 (Z.ltb_lt _ _)) by lia. done. }
  pose proof (rnd_abs_binade b Hb) as [Hlb Hub].
  destruct (Z.lt_ge_cases a (2 ^ 53)) as [Ha'|Ha'].
  { assert (2 ^ 53 <= 2 ^ Z.log2 b)
      by (apply Z.pow_le_mono_r; [lia|]; apply Z.log2_le_pow2; lia).
    unfold rnd_abs at 1. rewrite (proj2 (Z.ltb_lt _ _)) by lia. lia. }
  pose proof (rnd_abs_binade a Ha') as [Hla Hua].
  pose proof (Z.log2_le_mono a b Hab) as Hlog.
  destruct (Z.eq_dec (Z.log2 a) (Z.log2 b)) as [Heq|Hne].
  - unfold rnd_abs. rewrite !(proj2 (Z.ltb_ge _ _)) by lia. rewrite Heq.
    apply to_multiple_mono; [|done]. apply Z.pow_pos_nonneg; [lia|].
    assert (53 <= Z.log2 b) by (apply Z.log2_le_pow2; lia). lia.
  - assert (2 ^ (Z.log2 a + 1) <= 2 ^ Z.log2 b) by (apply Z.pow_le_mono_r; lia). lia.
Qed.

Lemma rnd_abs_nonneg a : 0 <= a -> 0 <= rnd_abs a.
Proof. intros Ha. by apply (rnd_abs_mono 0 a). Qed.

Lemma rnd_mono a b : a <= b -> rnd a <= rnd b.
Proof.
  intros Hab. unfold rnd. destruct (Z.ltb_spec a 0), (Z.ltb_spec b 0); try lia.
  - pose proof (rnd_abs_mono (- b) (- a)). lia.
  - pose proof (rnd_abs_nonneg (- a)). pose proof (rnd_abs_nonneg b). lia.
  - apply rnd_abs_mono. lia.
Qed.

Lemma rnd_small z : - 2 ^ 53 < z < 2 ^ 53 -> rnd z = z.
Proof.
  intros Hz. unfold rnd, rnd_abs. destruct (Z.ltb_spec z 0);
    rewrite (proj2 (Z.ltb_lt _ _)) by lia; lia.
Qed.

Lemma rnd_error z : - 2 ^ 63 < z < 2 ^ 63 -> Z.abs (rnd z - z) <= 512.
Proof.
  assert (H : forall a, 0 <= a < 2 ^ 63 -> Z.abs (rnd_abs a - a) <= 512).
  { intros a Ha. unfold rnd_abs. destruct (Z.ltb_spec a (2 ^ 53)); [lia|].
    assert (Hk : 53 <= Z.log2 a) by (apply Z.log2_le_pow2; lia).
    assert (Z.log2 a < 63) by (apply Z.log2_lt_pow2; lia).
    assert (Hu : 0 < 2 ^ (Z.log2 a - 52)) by (apply Z.pow_pos_nonneg; lia).
    assert (2 ^ (Z.log2 a - 52) <= 2 ^ 10) by (apply Z.pow_le_mono_r; lia).
    pose proof (to_multiple_error _ a Hu). lia. }
  intros Hz. unfold rnd. destruct (Z.ltb_spec z 0).
  - pose proof (H (- z)). lia.
  - apply H. lia.
Qed.

(** ** Redis *)

(** Values: a sorted set (member to score) or an integer string.  Members are
    the integers [INCR] returned. *)
Inductive rval := RZSet (z : gmap Z Z) | RInt (n : Z).

(** Keys with a deadline are dropped when the server's clock reaches it. *)
Record rdb := { data : gmap string rval; ttl : gmap string Z }.

Definition live (db : rdb) (t : Z) (k : string) : option rval :=
  match db.(ttl) !! k with
  | Some dl => if dl <=? t then None else db.(data) !! k
  | None => db.(data) !! k
  end.

Definition put (k : string) (v : rval) (db : rdb) : rdb :=
  {| data := <[k := v]> db.(data); ttl := db.(ttl) |}.
Definition del (k : string) (db : rdb) : rdb :=
  {| data := delete k db.(data); ttl := delete k db.(ttl) |}.
(** A lookup at time [t] evicts an expired key. *)
Definition evict (t : Z) (k : string) (db : rdb) : rdb :=
  match db.(ttl) !! k with
  | Some dl => if dl <=? t then del k db else db
  | None => db
  end.
(** [EXPIRE]. *)
Definition expire_at (k : string) (dl : Z) (db : rdb) : rdb :=
  {| data := db.(data); ttl := <[k := dl]> db.(ttl) |}.

Definition above (x : Z) (z : gmap Z Z) : gmap Z Z := filter (fun ms => x < ms.2) z.
Definition zcard (z : gmap Z Z) : Z := Z.of_nat (size z).

(** The score [ZRANGE key 0 0 WITHSCORES] reports. *)
Definition oldest (z : gmap Z Z) : option Z :=
  map_fold (fun _ s acc => Some (match acc with Some o => Z.min o s | None => s end)) None z.

Definition WRONGTYPE : error :=
  Foreign "WRONGTYPE Operation against a key holding the wrong kind of value" [].

(** ** The script *)

Definition seq_key (key : string) : string := key +:+ ":_seq".

(** [ZADD key now (INCR seq_key)], [n] times. *)
Fixpoint add_members (n : nat) (score : Z) (z : gmap Z Z) (seq : Z) : gmap Z Z * Z :=
  match n with
  | O => (z, seq)
  | S n' => let seq := seq + 1 in add_members n' score (<[rnd seq := score]> z) seq
  end.

(** [t] is the server's clock, used for expiry only; the reply is
    [{allowed, remaining, retry_after_ms}]. *)
Definition slidingWindowScript (t : Z) (key : string) (now window limit cost expire : Z)
    (db : rdb) : (error + Z * Z * Z) * rdb :=
  let now := rnd now in
  let window := rnd window in
  let limit := rnd limit in
  let cost := rnd cost in
  let db := evict t (seq_key key) (evict t key db) in
  match db.(data) !! key with
  | Some (RInt _) => (inl WRONGTYPE, db)
  | existing =>
      let z := match existing with Some (RZSet z) => z | _ => ∅ end in
      let z := above (rnd (now - window)) z in
      let db := match existing with
                | None => db
                | Some _ => if bool_decide (z = ∅) then del key db else put key (RZSet z) db
                end in
      let current := rnd (zcard z) in
      if limit <? rnd (current + cost) then
        let retry_ms :=
          match oldest z with
          | Some o => Z.max 0 (ceil_int64 (f_div (of_Z (rnd (rnd (o + window) - now)))
                                                 (of_Z 1000000)))
          | None => 0
          end in
        (inr (0, Z.max 0 (rnd (limit - current)), retry_ms), db)
      else
        match db.(data) !! seq_key key with
        | Some (RZSet _) => (inl WRONGTYPE, db)
        | counter =>
            let seq := match counter with Some (RInt n) => n | _ => 0 end in
            let '(z, seq) := add_members (Z.to_nat cost) now z seq in
            let db := put key (RZSet z) (put (seq_key key) (RInt seq) db) in
            let db := expire_at (seq_key key) (t + expire * Second)
                        (expire_at key (t + expire * Second) db) in
            (inr (1, Z.max 0 (rnd (limit - rnd (current + cost))), 0), db)
        end
  end.

Record RedisWindow := { rw_limit : Z; rw_window : Z }.

Definition NewRedisWindow (has_client : bool) (limit window : Z) : error + RedisWindow :=
  if negb has_client then inl (Errorf "ratelimit: RedisWindowConfig.Client is required" [] None)
  else if limit <? 1 then inl (Errorf "ratelimit: RedisWindowConfig.Limit must be >= 1" [] None)
  else if window <=? 0 then inl (Errorf "ratelimit: RedisWindowConfig.Window must be > 0" [] None)
  else inr {| rw_limit := limit; rw_window := window |}.

Definition expireSeconds (r : RedisWindow) : Z := (Z.quot r.(rw_window) Second +i 5)%go.

Definition at_least_one (cost : Z) : Z := if cost <? 1 then 1 else cost.

(** [RedisWindow.Allow] at time [now] of the gateway, [t] of the server. *)
Definition Allow (r : RedisWindow) (t now : Z) (key : string) (cost : Z) (db : rdb)
    : (error + Decision) * rdb :=
  let cost := at_least_one cost in
  let '(res, db') := slidingWindowScript t key now r.(rw_window) r.(rw_limit) cost
                       (expireSeconds r) db in
  match res with
  | inl err => (inl (Errorf "ratelimit: redis script: %w" [] (Some err)), db')
  | inr (allowed, remaining, retryMs) =>
      if allowed =? 1 then
        (inr {| Allowed := true; Limit := r.(rw_limit); Remaining := remaining;
                Reset := Some (now + r.(rw_window)); RetryAfter := 0; RuleName := "" |}, db')
      else
        let ra := (retryMs *i Millisecond)%go in
        (inr {| Allowed := false; Limit := r.(rw_limit); Remaining := remaining;
                Reset := Some (now + ra); RetryAfter := ra; RuleName := "" |}, db')
  end.

(** ** Sorted sets *)

Lemma above_above x y z : y <= x -> above x (above y z) = above x z.
Proof.
  intros Hxy. apply map_eq. intros m. unfold above.
  apply option_eq. intros s. rewrite !map_lookup_filter_Some. simpl.
  split; [intros ((? & ?) & ?)|intros (? & ?)]; split_and!; auto; lia.
Qed.

Lemma above_insert x m s z :
  z !! m = None ->
  zcard (above x (<[m := s]> z)) = zcard (above x z) + (if x <? s then 1 else 0).
Proof.
  intros Hm. unfold zcard, above. destruct (Z.ltb_spec x s).
  - rewrite map_filter_insert_True by done. rewrite map_size_insert_None; [lia|].
    apply map_lookup_filter_None. by left.
  - rewrite map_filter_insert_False by (simpl; lia). rewrite delete_id by done. lia.
Qed.

(** Fresh members raise the population by their number. *)
Lemma add_members_spec n score z seq :
  0 <= seq -> seq + Z.of_nat n < 2 ^ 53 -> (forall m, is_Some (z !! m) -> m <= seq) ->
  let '(z', seq') := add_members n score z seq in
  seq' = seq + Z.of_nat n /\ (forall m, is_Some (z' !! m) -> m <= seq') /\
  forall x, zcard (above x z') = zcard (above x z) + (if x <? score then Z.of_nat n else 0).
Proof.
  revert z seq. induction n as [|n IH]; intros z seq Hs Hb Hm; simpl add_members.
  { split_and!; [lia|done|]. intros x. case_match; lia. }
  rewrite rnd_small by lia.
  assert (Hfresh : z !! (seq + 1) = None).
  { apply eq_None_not_Some. intros Hsome%Hm. lia. }
  specialize (IH (<[seq + 1 := score]> z) (seq + 1)).
  destruct (add_members n score (<[seq + 1 := score]> z) (seq + 1)) as [z' seq'].
  destruct IH as (-> & Hm' & Hc); [lia|lia| |].
  { intros m [<-|[? ?%Hm]]%lookup_insert_is_Some; lia. }
  split_and!; [lia|intros m ?%Hm'; lia|].
  intros x. rewrite Hc, above_insert by done. case_match; lia.
Qed.

(** ** One limiter on one key *)

(** Units admitted later than [x], on the rounded clock. *)
Fixpoint total (x : Z) (log : list (Z * Z)) : Z :=
  match log with
  | [] => 0
  | (t, c) :: log' => (if x <? rnd t then c else 0) + total x log'
  end.

Fixpoint sum_costs (log : list (Z * Z)) : Z :=
  match log with [] => 0 | (_, c) :: log' => c + sum_costs log' end.

Lemma total_app x l1 l2 : total x (l1 ++ l2) = total x l1 + total x l2.
Proof. induction l1 as [|[t c] l1 IH]; simpl; [done|]. rewrite IH. lia. Qed.
Lemma sum_costs_app l1 l2 : sum_costs (l1 ++ l2) = sum_costs l1 + sum_costs l2.
Proof. induction l1 as [|[t c] l1 IH]; simpl; [done|]. rewrite IH. lia. Qed.

Lemma total_bound x log :
  (forall t c, (t, c) ∈ log -> 0 < c) -> 0 <= total x log <= sum_costs log.
Proof.
  induction log as [|[t c] log IH]; intros Hc; simpl; [lia|].
  assert (0 < c) by (apply (Hc t); set_solver).
  destruct IH; [intros t' c' ?; apply (Hc t'); set_solver|]. case_match; lia.
Qed.

Lemma total_zero x log : (forall t c, (t, c) ∈ log -> rnd t <= x) -> total x log = 0.
Proof.
  induction log as [|[t c] log IH]; intros Ht; simpl; [done|].
  rewrite IH by (intros t' c' ?; apply (Ht t' c'); set_solver).
  rewrite (proj2 (Z.ltb_ge _ _)); [lia|]. apply (Ht t c). set_solver.
Qed.

Section OneKey.
Context (r : RedisWindow) (key : string).
Context (HL : 1 <= r.(rw_limit) < 2 ^ 53) (HW : 0 < r.(rw_window) < 2 ^ 62).
Notation W := (r.(rw_window)).

(** Instants the window still counts at time [T] have a larger rounded clock. *)
Definition threshold (T : Z) : Z := rnd (rnd T - rnd W).

Lemma threshold_mono T T' : T <= T' -> threshold T <= threshold T'.
Proof. intros H. apply rnd_mono. pose proof (rnd_mono T T' H). lia. Qed.

Definition clock_ok (T : Z) : Prop := 0 <= T < 2 ^ 62.

Lemma threshold_old t T : clock_ok t -> clock_ok T -> t + W + 1024 <= T -> rnd t <= threshold T.
Proof.
  unfold clock_ok. intros Ht HT Hle. apply rnd_mono.
  pose proof (rnd_error T ltac:(lia)). pose proof (rnd_error W ltac:(lia)). lia.
Qed.

Lemma threshold_recent t T : clock_ok t -> clock_ok T -> T - W + 2048 < t -> threshold T < rnd t.
Proof.
  unfold clock_ok, threshold. intros Ht HT Hle.
  pose proof (rnd_error T ltac:(lia)). pose proof (rnd_error W ltac:(lia)).
  pose proof (rnd_error t ltac:(lia)). pose proof (rnd_error (rnd T - rnd W) ltac:(lia)). lia.
Qed.

Definition zset_of (db : rdb) : gmap Z Z :=
  match db.(data) !! key with Some (RZSet z) => z | _ => ∅ end.

(** The invariant at time [T] with the units admitted so far: the sorted set
    and the log agree on every window that may still be asked about, members
    are below the counter, and no key expires while it matters. *)
Record Inv (log : list (Z * Z)) (T : Z) (db : rdb) : Prop := {
  i_times : forall t c, (t, c) ∈ log -> clock_ok t /\ t <= T /\ 0 < c;
  i_count : forall x, threshold T <= x -> zcard (above x (zset_of db)) = total x log;
  i_key : forall n, db.(data) !! key <> Some (RInt n);
  i_seq : forall z, db.(data) !! seq_key key <> Some (RZSet z);
  i_mem : forall m, is_Some (zset_of db !! m) ->
    exists n, db.(data) !! seq_key key = Some (RInt n) /\ m <= n;
  i_bound : forall n, db.(data) !! seq_key key = Some (RInt n) -> 0 <= n <= sum_costs log;
  i_ttl : forall v, db.(data) !! key = Some v -> exists dl,
    db.(ttl) !! key = Some dl /\ db.(ttl) !! seq_key key = Some dl /\
    forall t c, (t, c) ∈ log -> t + W + 4 * Second <= dl
}.

Lemma seq_key_ne : seq_key key <> key.
Proof.
  unfold seq_key. intros H. apply (f_equal String.length) in H.
  assert (Hl : forall a b, String.length (a +:+ b) = (String.length a + String.length b)%nat).
  { intros a b. induction a as [|c a IH]; [done|].
    change (S (String.length (a +:+ b)) = S (String.length a + String.length b)%nat). by rewrite IH. }
  rewrite Hl in H. simpl in H. lia.
Qed.

Lemma Inv_later log T T' db : Inv log T db -> T <= T' -> Inv log T' db.
Proof.
  intros [H1 H2 H3 H4 H5 H6 H7] Hle. split; try done.
  - intros t c Hin. destruct (H1 t c Hin) as (? & ? & ?). split_and!; [done|lia|done].
  - intros x Hx. apply H2. pose proof (threshold_mono T T' Hle). lia.
Qed.

Lemma evict_other t k db k' : k' <> k ->
  (evict t k db).(data) !! k' = db.(data) !! k' /\ (evict t k db).(ttl) !! k' = db.(ttl) !! k'.
Proof.
  intros Hne. unfold evict. destruct (ttl db !! k); [|done]. case_match; [|done].
  simpl. by rewrite !lookup_delete_ne.
Qed.

Lemma evict_same t k db dl :
  db.(ttl) !! k = Some dl ->
  evict t k db = if dl <=? t then del k db else db.
Proof. unfold evict. by intros ->. Qed.

Lemma zset_of_data db db' : db'.(data) !! key = db.(data) !! key -> zset_of db' = zset_of db.
Proof. unfold zset_of. by intros ->. Qed.

Lemma zset_absent db : db.(data) !! key = None -> zset_of db = ∅.
Proof. unfold zset_of. by intros ->. Qed.

Lemma zcard_empty x : zcard (above x ∅) = 0.
Proof. unfold zcard, above. by rewrite map_filter_empty. Qed.

(** Without a sorted set only the counter's type and bound matter. *)
Lemma Inv_absent log T db :
  (forall t c, (t, c) ∈ log -> clock_ok t /\ t <= T /\ 0 < c) ->
  (forall x, threshold T <= x -> total x log = 0) ->
  db.(data) !! key = None -> (forall z, db.(data) !! seq_key key <> Some (RZSet z)) ->
  (forall n, db.(data) !! seq_key key = Some (RInt n) -> 0 <= n <= sum_costs log) ->
  Inv log T db.
Proof.
  intros H1 H2 Hk H4 H6. pose proof (zset_absent db Hk) as Hz. split; try done.
  - intros x Hx. rewrite Hz, zcard_empty. symmetry. by apply H2.
  - intros n. congruence.
  - intros m. rewrite Hz, lookup_empty. by intros [? ?].
  - intros v. congruence.
Qed.

Lemma Inv_evict log T db :
  Inv log T db -> clock_ok T -> Inv log T (evict T (seq_key key) (evict T key db)).
Proof.
  intros HI HT. pose proof HI as [H1 H2 H3 H4 H5 H6 H7]. pose proof seq_key_ne as Hne.
  destruct (evict_other T key db (seq_key key) Hne) as [Ed1 Et1].
  destruct (evict_other T (seq_key key) (evict T key db) key (not_eq_sym Hne)) as [Ed2 Et2].
  set (db1 := evict T key db) in *. set (db2 := evict T (seq_key key) db1) in *.
  assert (Hseq : db2.(data) !! seq_key key = None \/
                 db2.(data) !! seq_key key = db.(data) !! seq_key key).
  { rewrite <- Ed1. unfold db2, evict. destruct (ttl db1 !! seq_key key); [|by right].
    case_match; [left; simpl; apply lookup_delete_eq|by right]. }
  assert (Hseq4 : forall z, db2.(data) !! seq_key key <> Some (RZSet z))
    by (intros z; destruct Hseq as [-> | ->]; [done|apply H4]).
  assert (Hseq6 : forall n, db2.(data) !! seq_key key = Some (RInt n) -> 0 <= n <= sum_costs log)
    by (intros n; destruct Hseq as [-> | ->]; [done|apply H6]).
  destruct (data db !! key) as [v|] eqn:Hk.
  - destruct (H7 v eq_refl) as (dl & Hdl & Hdls & Hlate).
    pose proof (evict_same T key db dl Hdl) as Hev. destruct (Z.leb_spec dl T) as [Hexp|Hlive].
    + apply Inv_absent; try done.
      * intros x Hx. apply total_zero. intros t c Hin.
        destruct (H1 t c Hin) as (Ht & _ & _). pose proof (Hlate t c Hin).
        pose proof (threshold_old t T Ht HT). unfold Second in *. lia.
      * rewrite Ed2. fold db1 in Hev. rewrite Hev. simpl. apply lookup_delete_eq.
    + fold db1 in Hev. assert (db2 = db) as ->; [|done].
      unfold db2. rewrite Hev, (evict_same T (seq_key key) db dl Hdls).
      by rewrite (proj2 (Z.leb_gt dl T)).
  - apply Inv_absent; try done.
    + intros x Hx. rewrite <- H2 by done. by rewrite zset_absent, zcard_empty.
    + rewrite Ed2. unfold db1, evict. destruct (ttl db !! key); [|done]. case_match; [|done].
      simpl. apply lookup_delete_eq.
Qed.

(** What the script leaves after dropping old entries. *)
Definition trimmed (T : Z) (db : rdb) : rdb :=
  match db.(data) !! key with
  | None => db
  | Some _ => let z := above (threshold T) (zset_of db) in
              if bool_decide (z = ∅) then del key db else put key (RZSet z) db
  end.

Lemma trimmed_zset log T db :
  Inv log T db -> zset_of (trimmed T db) = above (threshold T) (zset_of db).
Proof.
  intros HI. unfold trimmed. destruct (data db !! key) eqn:Hk.
  - case_bool_decide as Hz.
    + rewrite zset_absent; [done|]. simpl. apply lookup_delete_eq.
    + unfold zset_of at 1. simpl. by rewrite lookup_insert_eq.
  - rewrite zset_absent by done. unfold above. by rewrite map_filter_empty.
Qed.

Lemma Inv_trim log T db : Inv log T db -> Inv log T (trimmed T db).
Proof.
  intros HI. pose proof (trimmed_zset log T db HI) as Hz. pose proof HI as [H1 H2 H3 H4 H5 H6 H7].
  pose proof seq_key_ne as Hne.
  assert (Hseq : (trimmed T db).(data) !! seq_key key = db.(data) !! seq_key key).
  { unfold trimmed. destruct (data db !! key); [|done].
    case_bool_decide; simpl; [by apply lookup_delete_ne|by apply lookup_insert_ne]. }
  split; try done.
  - intros x Hx. rewrite Hz, above_above by done. by apply H2.
  - intros n. unfold trimmed. destruct (data db !! key) eqn:Hk; [|congruence].
    case_bool_decide; simpl; [by rewrite lookup_delete_eq|by rewrite lookup_insert_eq].
  - intros z. rewrite Hseq. apply H4.
  - intros m. rewrite Hz, Hseq. intros [s Hs]. apply map_lookup_filter_Some in Hs as [Hs _].
    apply H5. by exists s.
  - intros n. rewrite Hseq. apply H6.
  - intros v Hv. unfold trimmed in *. destruct (data db !! key) eqn:Hk; [|congruence].
    case_bool_decide; simpl in *; [by rewrite lookup_delete_eq in Hv|]. by eapply H7.
Qed.

Definition admit_db (T c expire : Z) (db : rdb) : rdb :=
  let seq := match db.(data) !! seq_key key with Some (RInt n) => n | _ => 0 end in
  let '(z, seq) := add_members (Z.to_nat c) (rnd T) (zset_of db) seq in
  expire_at (seq_key key) (T + expire * Second)
    (expire_at key (T + expire * Second)
      (put key (RZSet z) (put (seq_key key) (RInt seq) db))).

Lemma Inv_admit log T db c expire :
  Inv log T db -> clock_ok T -> 1 <= c -> sum_costs log + c < 2 ^ 53 ->
  W + 4 * Second <= expire * Second ->
  Inv (log ++ [(T, c)]) T (admit_db T c expire db).
Proof.
  intros [H1 H2 H3 H4 H5 H6 H7] HT Hc Hsum Hexp. pose proof seq_key_ne as Hne. unfold admit_db.
  set (seq := match data db !! seq_key key with Some (RInt n) => n | _ => 0 end).
  assert (Hseq : 0 <= seq <= sum_costs log).
  { pose proof (total_bound 0 log (fun t c Hin => proj2 (proj2 (H1 t c Hin)))).
    unfold seq. destruct (data db !! seq_key key) as [[z|n]|] eqn:E; [lia|by apply H6|lia]. }
  pose proof (add_members_spec (Z.to_nat c) (rnd T) (zset_of db) seq) as Ha.
  destruct (add_members (Z.to_nat c) (rnd T) (zset_of db) seq) as [z' seq'].
  rewrite Z2Nat.id in Ha by lia. destruct Ha as (-> & Hm & Hcount); [lia|lia| |].
  { intros m (n & Hn & Hle)%H5. unfold seq. by rewrite Hn. }
  assert (Hin' : forall t c', (t, c') ∈ log ++ [(T, c)] -> clock_ok t /\ t <= T /\ 0 < c').
  { intros t c' [Hin|Heq%list_elem_of_singleton]%elem_of_app; [by apply H1|].
    simplify_eq. split_and!; [done|lia|lia]. }
  match goal with |- Inv _ _ ?d => set (db' := d) end.
  assert (Hdk : db'.(data) !! key = Some (RZSet z')) by apply lookup_insert_eq.
  assert (Hds : db'.(data) !! seq_key key = Some (RInt (seq + c))).
  { simpl. rewrite lookup_insert_ne by done. apply lookup_insert_eq. }
  assert (Hz : zset_of db' = z') by (unfold zset_of; by rewrite Hdk).
  split; try done.
  - intros x Hx. rewrite Hz, Hcount, total_app, H2 by done. simpl. case_match; lia.
  - intros n. congruence.
  - intros z. congruence.
  - intros m. rewrite Hz. intros ?%Hm. exists (seq + c). done.
  - intros n. rewrite Hds, sum_costs_app. intros [= <-]. simpl. lia.
  - intros v _. exists (T + expire * Second). simpl.
    rewrite lookup_insert_ne, !lookup_insert_eq by done. split_and!; [done|done|].
    intros t c' Hin. destruct (Hin' t c' Hin) as (_ & ? & _). lia.
Qed.

Lemma expire_long : W + 4 * Second <= expireSeconds r * Second.
Proof.
  unfold expireSeconds. pose proof (Z.quot_rem W Second ltac:(done)) as Hq.
  pose proof (Z.rem_bound_pos W Second ltac:(lia) ltac:(done)) as Hr.
  assert (0 <= Z.quot W Second <= W).
  { split; [apply Z.quot_pos; unfold Second; lia|]. apply Z.quot_le_upper_bound; unfold Second; lia. }
  rewrite wrap64_id by (unfold_int64; lia). unfold Second in *. lia.
Qed.

(** One call: it admits exactly when the units of the current window and the
    cost fit the limit, and keeps the invariant either way. *)
Lemma script_step log T db c :
  Inv log T db -> clock_ok T -> 1 <= c -> sum_costs log + c < 2 ^ 53 ->
  let '(res, db') := slidingWindowScript T key T W r.(rw_limit) c (expireSeconds r) db in
  (exists rem, res = inr (1, rem, 0) /\ Inv (log ++ [(T, c)]) T db' /\
     total (threshold T) log + c <= r.(rw_limit)) \/
  (exists rem ms, res = inr (0, rem, ms) /\ Inv log T db' /\
     r.(rw_limit) < total (threshold T) log + c).
Proof.
  intros HI HT Hc Hsum. unfold slidingWindowScript. cbv zeta.
  apply Inv_evict in HI; [|done]. set (db1 := evict T (seq_key key) (evict T key db)) in *.
  pose proof (Inv_trim _ _ _ HI) as HIt. pose proof (trimmed_zset _ _ _ HI) as Hzt.
  assert (Hlog : forall t c', (t, c') ∈ log -> 0 < c') by (intros t c' Hin; by apply (i_times _ _ _ HI t c')).
  pose proof (total_bound (threshold T) log Hlog) as Htb.
  assert (Hcard : zcard (above (threshold T) (zset_of db1)) = total (threshold T) log)
    by (apply (i_count _ _ _ HI); lia).
  rewrite (rnd_small (rw_limit r)), (rnd_small c) by lia.
  fold (threshold T).
  (* the data base after trimming, as the script writes it *)
  assert (Htrim : forall ex, db1.(data) !! key = ex -> (forall n, ex <> Some (RInt n)) ->
    let z := above (threshold T) (match ex with Some (RZSet z) => z | _ => ∅ end) in
    z = zset_of (trimmed T db1) /\
    match ex with
    | None => db1
    | Some _ => if bool_decide (z = ∅) then del key db1 else put key (RZSet z) db1
    end = trimmed T db1).
  { intros ex Hex Hn. unfold trimmed at 2. rewrite Hzt. unfold zset_of. rewrite Hex.
    destruct ex as [[z|n]|]; [done|by destruct (Hn n)|done]. }
  destruct (data db1 !! key) as [[z|n]|] eqn:Hk; [|by destruct (i_key _ _ _ HI n)|];
    destruct (Htrim _ eq_refl ltac:(congruence)) as [Ez Edb]; cbv zeta in Ez, Edb; clear Htrim;
    rewrite Edb, Ez; clear Ez Edb; rewrite Hzt; rewrite Hcard, (rnd_small (total _ _)) by lia;
    rewrite (rnd_small (total _ _ + c)) by lia;
    (destruct (Z.ltb_spec (rw_limit r) (total (threshold T) log + c)) as [Hd|Ha];
     [right; do 2 eexists; split; [reflexivity|split; [exact HIt|exact Hd]]|]);
    pose proof (Inv_admit log T (trimmed T db1) c (expireSeconds r) HIt HT Hc Hsum expire_long) as HA;
    unfold admit_db in HA; rewrite Hzt in HA;
    (destruct (data (trimmed T db1) !! seq_key key) as [[zz|n']|] eqn:Es;
      [by destruct (i_seq _ _ _ HIt zz)| |]);
    (destruct (add_members _ _ _ _) as [z' seq']; left; eexists; split; [reflexivity|split; [exact HA|lia]]).
Qed.
End OneKey.

(** ** Interleaved calls *)

Lemma script_frame t k now window limit cost expire db k0 :
  k0 <> k -> k0 <> seq_key k ->
  let db' := (slidingWindowScript t k now window limit cost expire db).2 in
  db'.(data) !! k0 = db.(data) !! k0 /\ db'.(ttl) !! k0 = db.(ttl) !! k0.
Proof.
  intros H1 H2. unfold slidingWindowScript. cbv zeta.
  destruct (evict_other t k db k0 H1) as [Ed1 Et1].
  destruct (evict_other t (seq_key k) (evict t k db) k0 H2) as [Ed2 Et2].
  rewrite Ed1 in Ed2. rewrite Et1 in Et2.
  set (db1 := evict t (seq_key k) (evict t k db)) in *. clearbody db1. clear Ed1 Et1.
  repeat first [case_match | progress simpl];
    rewrite ?lookup_insert_ne, ?lookup_delete_ne by done; done.
Qed.

Lemma Inv_frame r key log T db db' :
  Inv r key log T db ->
  (forall k, k = key \/ k = seq_key key ->
     db'.(data) !! k = db.(data) !! k /\ db'.(ttl) !! k = db.(ttl) !! k) ->
  Inv r key log T db'.
Proof.
  intros [H1 H2 H3 H4 H5 H6 H7] Hf.
  destruct (Hf key) as [Hd Ht]; [by left|]. destruct (Hf (seq_key key)) as [Hds Hts]; [by right|].
  assert (Hz : zset_of key db' = zset_of key db) by (unfold zset_of; by rewrite Hd).
  split; rewrite ?Hz, ?Hd, ?Ht, ?Hds, ?Hts; done.
Qed.

Record call := { c_lim : RedisWindow; c_key : string; c_now : Z; c_cost : Z }.

(** The units a sequence of calls admits on one key, with their instants; the
    server's clock agrees with the callers'. *)
Fixpoint admitted (key : string) (calls : list call) (db : rdb) : list (Z * Z) :=
  match calls with
  | [] => []
  | c :: rest =>
      let '(res, db') := Allow c.(c_lim) c.(c_now) c.(c_now) c.(c_key) c.(c_cost) db in
      (match res with
       | inr d => if bool_decide (c.(c_key) = key) && d.(Allowed)
                  then [(c.(c_now), at_least_one c.(c_cost))] else []
       | inl _ => []
       end) ++ admitted key rest db'
  end.

(** The data base after a sequence of calls, and the instant of the last. *)
Definition after (calls : list call) (db : rdb) : rdb :=
  fold_left (fun db c => (Allow c.(c_lim) c.(c_now) c.(c_now) c.(c_key) c.(c_cost) db).2) calls db.
Definition last_time (T : Z) (calls : list call) : Z :=
  fold_left (fun _ c => c.(c_now)) calls T.

(** Keys whose script runs touch disjoint Redis keys. *)
Definition separate (k1 k2 : string) : Prop :=
  k1 <> k2 /\ k1 <> seq_key k2 /\ seq_key k1 <> k2 /\ seq_key k1 <> seq_key k2.

Fixpoint cost_on (key : string) (calls : list call) : Z :=
  match calls with
  | [] => 0
  | c :: rest => (if bool_decide (c.(c_key) = key) then at_least_one c.(c_cost) else 0)
                 + cost_on key rest
  end.

(** Calls from instant [T] on, in clock order, with one limiter per key. *)
Fixpoint schedule (r : RedisWindow) (key : string) (T : Z) (calls : list call) : Prop :=
  match calls with
  | [] => True
  | c :: rest =>
      T <= c.(c_now) /\ clock_ok c.(c_now) /\
      (c.(c_key) = key /\ c.(c_lim) = r \/ separate c.(c_key) key) /\
      schedule r key c.(c_now) rest
  end.

Section Safety.
Context (r : RedisWindow) (key : string).
Context (HL : 1 <= r.(rw_limit) < 2 ^ 53) (HW : 0 < r.(rw_window) < 2 ^ 62).

(** Every admission of a log keeps its window within the limit. *)
Definition windows_ok (log : list (Z * Z)) : Prop :=
  forall l1 T c l2, log = l1 ++ (T, c) :: l2 ->
    total (threshold r T) l1 + c <= r.(rw_limit) /\ clock_ok T /\
    forall t c', (t, c') ∈ l1 -> clock_ok t /\ t <= T /\ 0 < c'.

Lemma at_least_one_pos c : 1 <= at_least_one c.
Proof. unfold at_least_one. destruct (Z.ltb_spec c 1); lia. Qed.

Lemma cost_on_nonneg calls : 0 <= cost_on key calls.
Proof.
  induction calls as [|c calls IH]; simpl; [lia|].
  pose proof (at_least_one_pos (c_cost c)). case_match; lia.
Qed.

Lemma windows_ok_snoc log T c :
  windows_ok log -> total (threshold r T) log + c <= r.(rw_limit) -> clock_ok T ->
  (forall t c', (t, c') ∈ log -> clock_ok t /\ t <= T /\ 0 < c') ->
  windows_ok (log ++ [(T, c)]).
Proof.
  intros Hw Ht HT Hin l1 T' c' l2 Heq.
  destruct l2 as [|x l2 _] using rev_ind.
  - apply app_inj_tail in Heq as [-> [= -> ->]]. done.
  - rewrite app_comm_cons, app_assoc in Heq. apply app_inj_tail in Heq as [-> _].
    by apply (Hw l1 T' c' l2).
Qed.

Lemma Allow_step log T db c :
  Inv r key log T db -> clock_ok T -> sum_costs log + at_least_one c < 2 ^ 53 ->
  exists d db', Allow r T T key c db = (inr d, db') /\
    (if d.(Allowed)
     then Inv r key (log ++ [(T, at_least_one c)]) T db' /\
          total (threshold r T) log + at_least_one c <= r.(rw_limit)
     else Inv r key log T db' /\
          r.(rw_limit) < total (threshold r T) log + at_least_one c).
Proof.
  intros HI HT Hs. unfold Allow.
  pose proof (script_step r key HL HW log T db _ HI HT (at_least_one_pos c) Hs) as Hst.
  destruct (slidingWindowScript _ _ _ _ _ _ _ _) as [res db'].
  destruct Hst as [(rem & -> & H1 & H2)|(rem & ms & -> & H1 & H2)]; simpl;
    do 2 eexists; (split; [reflexivity|]); done.
Qed.

Lemma admitted_windows calls log T db :
  Inv r key log T db -> schedule r key T calls -> sum_costs log + cost_on key calls < 2 ^ 53 ->
  windows_ok log -> windows_ok (log ++ admitted key calls db) /\
  Inv r key (log ++ admitted key calls db) (last_time T calls) (after calls db) /\
  sum_costs (log ++ admitted key calls db) <= sum_costs log + cost_on key calls.
Proof.
  revert log T db. induction calls as [|c calls IH]; intros log T db HI Hsch Hsum Hw.
  { simpl. rewrite app_nil_r. split_and!; [done|done|lia]. }
  destruct Hsch as (HT & Hck & Hkey & Hsch). simpl in Hsum.
  simpl admitted. simpl after. simpl last_time. simpl cost_on.
  pose proof (cost_on_nonneg calls) as Hnn.
  apply (Inv_later _ _ _ _ (c_now c)) in HI; [|done].
  pose proof (at_least_one_pos (c_cost c)) as Hone.
  destruct Hkey as [[Hk Hl]|Hsep].
  - rewrite Hk, Hl in *. assert (Hb : bool_decide (key = key) = true) by by apply bool_decide_eq_true_2.
    rewrite Hb in Hsum |- *. simpl andb. cbv iota in Hsum |- *.
    destruct (Allow_step log (c_now c) db (c_cost c) HI Hck ltac:(lia)) as (d & db' & Ea & Hd).
    rewrite Ea. simpl. destruct (Allowed d).
    + destruct Hd as [HI' Hfit]. rewrite app_assoc.
      destruct (IH (log ++ [(c_now c, at_least_one (c_cost c))]) (c_now c) db')
        as (H1 & H2 & H3); try done.
      * rewrite sum_costs_app. simpl. lia.
      * apply windows_ok_snoc; try done. apply (i_times _ _ _ _ _ HI).
      * split_and!; [done|done|]. rewrite (sum_costs_app log [_]) in H3. simpl in H3. lia.
    + destruct Hd as [HI' _]. cbn [app].
      destruct (IH log (c_now c) db') as (H1 & H2 & H3); [done|done|lia|done|].
      split_and!; [done|done|lia].
  - destruct Hsep as (S1 & S2 & S3 & S4).
    assert (Hb : bool_decide (c_key c = key) = false) by by apply bool_decide_eq_false_2.
    rewrite Hb in Hsum |- *. cbv iota in Hsum |- *.
    destruct (Allow (c_lim c) (c_now c) (c_now c) (c_key c) (c_cost c) db) as [res db'] eqn:Ea.
    assert (HI' : Inv r key log (c_now c) db').
    { apply (Inv_frame _ _ _ _ db); [done|]. intros k Hk.
      pose proof (script_frame (c_now c) (c_key c) (c_now c) (rw_window (c_lim c))
        (rw_limit (c_lim c)) (at_least_one (c_cost c)) (expireSeconds (c_lim c)) db k) as Hf.
      unfold Allow in Ea. destruct (slidingWindowScript _ _ _ _ _ _ _ _) as [x db1].
      assert (db' = db1) as ->.
      { destruct x as [|[[? ?] ?]]; [|case_match]; by injection Ea. }
      apply Hf; destruct Hk as [-> | ->]; congruence. }
    assert ((match res with inr d => if false && Allowed d then
      [(c_now c, at_least_one (c_cost c))] else [] | inl _ => [] end) = []) as -> by by destruct res.
    simpl. destruct (IH log (c_now c) db') as (H1 & H2 & H3); [done|done|lia|done|].
    split_and!; [done|done|lia].
Qed.
End Safety.

(** ** The sliding-window guarantee *)

(** Units admitted after instant [y], on the exact clock. *)
Fixpoint units_after (y : Z) (log : list (Z * Z)) : Z :=
  match log with
  | [] => 0
  | (t, c) :: log' => (if y <? t then c else 0) + units_after y log'
  end.

Lemma units_after_total r T log :
  0 < r.(rw_window) < 2 ^ 62 -> clock_ok T ->
  (forall t c, (t, c) ∈ log -> clock_ok t /\ t <= T /\ 0 < c) ->
  units_after (T - r.(rw_window) + 2048) log <= total (threshold r T) log.
Proof.
  intros HW HT. induction log as [|[t c] log IH]; intros Hin; simpl; [lia|].
  destruct (Hin t c) as (Ht & _ & Hc); [set_solver|].
  specialize (IH (fun t' c' H => Hin t' c' (list_elem_of_further _ _ _ H))).
  destruct (Z.ltb_spec (T - rw_window r + 2048) t) as [Hy|Hy].
  - pose proof (threshold_recent r HW t T Ht HT Hy). rewrite (proj2 (Z.ltb_lt _ _)) by done. lia.
  - case_match; lia.
Qed.

(** A data base without the key's entries. *)
Definition fresh (key : string) (db : rdb) : Prop :=
  db.(data) !! key = None /\ db.(data) !! seq_key key = None.

Lemma Inv_fresh r key db : fresh key db -> Inv r key [] 0 db.
Proof.
  intros [H1 H2]. apply Inv_absent; try done.
  - intros t c Hin. by apply elem_of_nil in Hin.
  - intros z. congruence.
  - intros n. congruence.
Qed.

Lemma windows_ok_nil r : windows_ok r [].
Proof. intros l1 T c l2 H. by destruct l1. Qed.

(** C14: The Redis limiter never over-admits.  Take any sequence of calls in
    clock order on any keys (other keys' calls interleaved freely), starting
    without entries for the key: at every admission, the units admitted on the
    key during the last [window] (short of the 2 microseconds by which
    nanosecond timestamps round in Lua's doubles), the new ones included, are
    at most [limit].  Key expiry never forgets a unit that still counts. *)
Theorem sliding_window_safe r key calls db l1 T c l2 :
  1 <= r.(rw_limit) < 2 ^ 53 -> 0 < r.(rw_window) < 2 ^ 62 ->
  fresh key db -> schedule r key 0 calls -> cost_on key calls < 2 ^ 53 ->
  admitted key calls db = l1 ++ (T, c) :: l2 ->
  units_after (T - r.(rw_window) + 2048) l1 + c <= r.(rw_limit).
Proof.
  intros HL HW Hf Hs Hc Heq.
  destruct (admitted_windows r key HL HW calls [] 0 db) as [Hw _]; try done.
  { by apply Inv_fresh. }
  { apply windows_ok_nil. }
  destruct (Hw l1 T c l2 Heq) as (Hle & HT & Hin).
  pose proof (units_after_total r T l1 HW HT Hin). lia.
Qed.

(** C15: Nor does it refuse early: after any such sequence a further call is
    refused exactly when the units its window still holds and its own cost
    exceed the limit (and the script never fails). *)
Theorem sliding_window_precise r key calls db T cost :
  1 <= r.(rw_limit) < 2 ^ 53 -> 0 < r.(rw_window) < 2 ^ 62 ->
  fresh key db -> schedule r key 0 calls ->
  cost_on key calls + at_least_one cost < 2 ^ 53 ->
  last_time 0 calls <= T -> clock_ok T ->
  exists d db', Allow r T T key cost (after calls db) = (inr d, db') /\
    d.(Allowed) = (total (threshold r T) (admitted key calls db) + at_least_one cost
                   <=? r.(rw_limit)).
Proof.
  intros HL HW Hf Hs Hc HT Hck. pose proof (at_least_one_pos cost).
  destruct (admitted_windows r key HL HW calls [] 0 db) as (_ & HI & Hsum); try done.
  { by apply Inv_fresh. }
  { simpl. lia. }
  { apply windows_ok_nil. }
  simpl in HI, Hsum. apply (Inv_later _ _ _ _ T) in HI; [|done].
  destruct (Allow_step r key HL HW _ T _ cost HI Hck ltac:(lia)) as (d & db' & Ha & Hd).
  exists d, db'. split; [done|]. destruct (Allowed d); symmetry.
  - apply Z.leb_le. apply Hd.
  - apply Z.leb_gt. apply Hd.
Qed.

(** *** A run *)

Definition test_window : RedisWindow := {| rw_limit := 3; rw_window := 10 * Second |}.
Definition empty_db : rdb := {| data := ∅; ttl := ∅ |}.
Definition test_calls : list call :=
  [ {| c_lim := test_window; c_key := "ratelimit:rpm:k1"; c_now := 1700000000000000000; c_cost := 2 |};
    {| c_lim := test_window; c_key := "ratelimit:rpm:k2"; c_now := 1700000001000000000; c_cost := 3 |};
    {| c_lim := test_window; c_key := "ratelimit:rpm:k1"; c_now := 1700000002000000000; c_cost := 2 |};
    {| c_lim := test_window; c_key := "ratelimit:rpm:k1"; c_now := 1700000003000000000; c_cost := 1 |};
    {| c_lim := test_window; c_key := "ratelimit:rpm:k1"; c_now := 1700000010000000000; c_cost := 2 |} ].

Example test_admitted :
  admitted "ratelimit:rpm:k1" test_calls empty_db =
  [(1700000000000000000, 2); (1700000003000000000, 1); (1700000010000000000, 2)].
Proof. vm_compute. reflexivity. Qed.

Lemma test_schedule : schedule test_window "ratelimit:rpm:k1" 0 test_calls.
Proof.
  unfold test_calls. simpl. unfold clock_ok, separate, seq_key.
  split_and!; try lia; try done; try (left; split; reflexivity);
    right; split_and!; discriminate.
Qed.

Lemma sliding_window_safe_witness :
  units_after (1700000003000000000 - 10 * Second + 2048) [(1700000000000000000, 2)] + 1 <= 3.
Proof.
  apply (sliding_window_safe test_window "ratelimit:rpm:k1" test_calls empty_db
    [(1700000000000000000, 2)] 1700000003000000000 1 [(1700000010000000000, 2)]);
    [simpl; lia|simpl; unfold Second; lia|split; reflexivity|exact test_schedule
    |vm_compute; reflexivity|vm_compute; reflexivity].
Defined.

Lemma sliding_window_precise_witness :
  exists d db', Allow test_window 1700000011000000000 1700000011000000000 "ratelimit:rpm:k1" 1
      (after test_calls empty_db) = (inr d, db') /\
    d.(Allowed) = (total (threshold test_window 1700000011000000000)
      (admitted "ratelimit:rpm:k1" test_calls empty_db) + 1 <=? 3).
Proof.
  apply (sliding_window_precise test_window "ratelimit:rpm:k1" test_calls empty_db
    1700000011000000000 1);
    [simpl; lia|simpl; unfold Second; lia|split; reflexivity|exact test_schedule
    |vm_compute; reflexivity|vm_compute; congruence|unfold clock_ok; lia].
Defined.

(** The counter of a key is itself addressable as a key (see the collision of
    composed keys in [RateLimit]): a request whose composed key ends in
    [:_seq] makes the script fail with WRONGTYPE, a backend error, on which
    the callers let the request through unlimited. *)
Theorem seq_collision_fails_open :
  let db := (Allow test_window 1700000000000000000 1700000000000000000 "ratelimit:tpm:m" 1
               empty_db).2 in
  exists err db', Allow test_window 1700000001000000000 1700000001000000000
    "ratelimit:tpm:m:_seq" 1000000 db = (inl err, db').
Proof. eexists _, _. vm_compute. reflexivity. Qed.
