(* ===== verification/Billing.v ===== *)
(** * Billing: prices, costs, and the asynchronous usage writer

    [internal/billing/pricing.go] (Module [Pricing]), [worker.go] (Module
    [Worker]) and [logs_query.go] (Module [Logs]).  PostgreSQL is the tables it
    holds and, per statement, whether it succeeded. *)

From S2P Require Import Prelude GoStd Calendar Float64 Errors Types.
From stdpp Require Import sorting.
From Stdlib Require Import Ascii.
Local Open Scope Z_scope.

Module Pricing.

Record Rate := {
  Model : string; Currency : string; InputPer1kMicro : Z; OutputPer1kMicro : Z; UpdatedAt : Z
}.

(** The cache and the [model_pricing] table it mirrors.  [reloadMu] makes each
    operation atomic; readers see the snapshot pointer. *)
Record state := {
  pool : bool;
  table : gmap string Rate;
  snapshot : gmap string Rate;
  size_gauge : Z
}.

Definition NewPricingCache (pool : bool) (table : gmap string Rate) : state :=
  {| pool := pool; table := table; snapshot := ∅; size_gauge := 0 |}.

Definition SetMetrics (s : state) : state :=
  {| pool := s.(pool); table := s.(table); snapshot := s.(snapshot);
     size_gauge := Z.of_nat (size s.(snapshot)) |}.

Definition Lookup (s : state) (model : string) : option Rate := s.(snapshot) !! model.

Definition All (s : state) : list Rate := (map_to_list s.(snapshot)).*2.

(** The rows of a query or scan error; a row overwrites an earlier one of the
    same model. *)
Definition rows (t : gmap string Rate) : list Rate := (map_to_list t).*2.
Definition from_rows (rs : list Rate) : gmap string Rate :=
  fold_left (fun m r => <[r.(Model) := r]> m) rs ∅.

Definition Reload (dbErr : option error) (s : state) : option error * state :=
  if negb s.(pool) then
    (Some (Errorf "billing: cache has no pool; cannot reload" [] None), s)
  else match dbErr with
  | Some e => (Some (Errorf "billing: query model_pricing: %w" [] (Some e)), s)
  | None =>
      let next := from_rows (rows s.(table)) in
      (None, {| pool := s.(pool); table := s.(table); snapshot := next;
                size_gauge := Z.of_nat (size next) |})
  end.

Definition replaceOne (r : Rate) (s : state) : state :=
  let next := <[r.(Model) := r]> s.(snapshot) in
  {| pool := s.(pool); table := s.(table); snapshot := next;
     size_gauge := Z.of_nat (size next) |}.

Definition removeOne (model : string) (s : state) : state :=
  match s.(snapshot) !! model with
  | None => s
  | Some _ =>
      let next := delete model s.(snapshot) in
      {| pool := s.(pool); table := s.(table); snapshot := next;
         size_gauge := Z.of_nat (size next) |}
  end.

Definition set_table (t : gmap string Rate) (s : state) : state :=
  {| pool := s.(pool); table := t; snapshot := s.(snapshot); size_gauge := s.(size_gauge) |}.

(** [now] is the data base's clock. *)
Definition Set_ (o : db_outcome) (now : Z) (r : Rate) (s : state) : option error * state :=
  if negb s.(pool) then (Some (Errorf "billing: cache has no pool; cannot set" [] None), s)
  else if bool_decide (r.(Model) = "") then
    (Some (Errorf "billing: model is required" [] None), s)
  else
    let currency := if bool_decide (r.(Currency) = "") then "USD" else r.(Currency) in
    if (r.(InputPer1kMicro) <? 0) || (r.(OutputPer1kMicro) <? 0) then
      (Some (Errorf "billing: rates must be >= 0" [] None), s)
    else
      let row := {| Model := r.(Model); Currency := currency;
                    InputPer1kMicro := r.(InputPer1kMicro);
                    OutputPer1kMicro := r.(OutputPer1kMicro); UpdatedAt := now |} in
      let s := if applied o then set_table (<[r.(Model) := row]> s.(table)) s else s in
      match o with
      | DbErr _ e => (Some (Errorf "billing: upsert model_pricing: %w" [] (Some e)), s)
      | DbOk => (None, replaceOne row s)
      end.

Definition Delete_ (o : db_outcome) (model : string) (s : state) : (error + bool) * state :=
  if negb s.(pool) then (inl (Errorf "billing: cache has no pool; cannot delete" [] None), s)
  else
    let affected := bool_decide (is_Some (s.(table) !! model)) in
    let s := if applied o then set_table (delete model s.(table)) s else s in
    match o with
    | DbErr _ e => (inl (Errorf "billing: delete model_pricing: %w" [] (Some e)), s)
    | DbOk => if affected then (inr true, removeOne model s) else (inr false, s)
    end.

(** [int64] products and sums wrap, division truncates. *)
Definition Cost (rate : Rate) (promptTokens completionTokens : Z) : Z :=
  if bool_decide (rate.(Model) = "") then 0
  else (promptTokens *i rate.(InputPer1kMicro) /i 1000
        +i completionTokens *i rate.(OutputPer1kMicro) /i 1000)%go.

(** ** Coherence of the cache *)

(** A well-formed table files each row under its model, with non-negative
    rates (the schema's primary key and checks). *)
Definition wf_table (t : gmap string Rate) : Prop :=
  forall m r, t !! m = Some r -> r.(Model) = m /\ 0 <= r.(InputPer1kMicro) /\ 0 <= r.(OutputPer1kMicro).

Lemma from_rows_table t :
  (forall m r, t !! m = Some r -> r.(Model) = m) -> from_rows (rows t) = t.
Proof.
  intros Hwf. unfold from_rows, rows.
  assert (H : forall (l : list (string * Rate)) (m : gmap string Rate),
    (forall k r, (k, r) ∈ l -> r.(Model) = k) ->
    fold_left (fun m r => <[r.(Model) := r]> m) l.*2 m =
    fold_left (fun m kr => <[kr.1 := kr.2]> m) l m).
  { induction l as [|[k r] l IH]; intros m Hl; simpl; [done|].
    rewrite (Hl k r) by set_solver. apply IH. set_solver. }
  rewrite H by (intros k r Hk%elem_of_map_to_list; by apply Hwf).
  assert (Hf : forall (l : list (string * Rate)) (m : gmap string Rate), NoDup l.*1 ->
    (forall k, k ∈ l.*1 -> m !! k = None) ->
    fold_left (fun m kr => <[kr.1 := kr.2]> m) l m = list_to_map l ∪ m).
  { induction l as [|[k r] l IH]; intros m Hnd Hm; simpl; [by rewrite (left_id_L ∅ (∪))|].
    inversion Hnd as [|? ? Hk Hnd']; subst.
    rewrite IH; [|done|].
    - rewrite <- insert_union_l, insert_union_r; [done|]. by apply not_elem_of_list_to_map.
    - intros k' Hk'. rewrite lookup_insert_ne by (intros ->; done). apply Hm. set_solver. }
  rewrite Hf; [|apply NoDup_fst_map_to_list|intros; apply lookup_empty].
  rewrite (right_id_L ∅ (∪)). apply list_to_map_to_list.
Qed.

(** What can happen to the cache: its own operations, and writes to the table
    by another instance. *)
Inductive op :=
  | OpReload (dbErr : option error)
  | OpSet (o : db_outcome) (now : Z) (r : Rate)
  | OpDelete (o : db_outcome) (model : string)
  | OpExternal (model : string) (r : option Rate).

Definition step (s : state) (x : op) : state :=
  match x with
  | OpReload e => (Reload e s).2
  | OpSet o now r => (Set_ o now r s).2
  | OpDelete o m => (Delete_ o m s).2
  | OpExternal m r => set_table (match r with Some r => <[m := r]> s.(table)
                                 | None => delete m s.(table) end) s
  end.

Definition run (s : state) (ops : list op) : state := fold_left step ops s.

(** The goroutine of [PeriodicReload], from its eager first reload to the end of
    the context: each turn is what happened to the cache and the table before a
    reload (none before the first, which does not wait for a tick), and how the
    reload fared; a failed one is logged and the loop goes on. *)
Fixpoint reload_loop (turns : list (list op * option error)) (s : state) : state :=
  match turns with
  | [] => s
  | (ops, dbErr) :: turns => reload_loop turns (Reload dbErr (run s ops)).2
  end.
Definition PeriodicReload (interval : Z) (turns : list (list op * option error)) (s : state) : state :=
  if interval <=? 0 then s else reload_loop turns s.

(** Operations after which cache and table may differ: another instance's
    write, or a change the data base applied but reported as failed. *)
Definition quiet (x : op) : Prop :=
  match x with
  | OpReload _ => True
  | OpSet o _ _ | OpDelete o _ => forall e, o <> DbErr true e
  | OpExternal _ _ => False
  end.

Definition legal (x : op) : Prop :=
  match x with
  | OpExternal m (Some r) =>
      r.(Model) = m /\ 0 <= r.(InputPer1kMicro) /\ 0 <= r.(OutputPer1kMicro)
  | _ => True
  end.

Lemma wf_insert t m r :
  wf_table t -> r.(Model) = m -> 0 <= r.(InputPer1kMicro) -> 0 <= r.(OutputPer1kMicro) ->
  wf_table (<[m := r]> t).
Proof. intros Ht ? ? ? k r' [[<- <-]|[? ?]]%lookup_insert_Some; [done|by apply Ht]. Qed.

Lemma wf_delete t m : wf_table t -> wf_table (delete m t).
Proof. intros Ht k r [? ?]%lookup_delete_Some. by apply Ht. Qed.

(** The invariant: both views are well formed and the gauge counts the
    snapshot. *)
Record wf (s : state) : Prop := {
  wf_tab : wf_table s.(table);
  wf_snap : wf_table s.(snapshot);
  wf_gauge : s.(size_gauge) = Z.of_nat (size s.(snapshot))
}.

Lemma step_wf s x : wf s -> legal x -> wf (step s x).
Proof.
  intros [H1 H2 H3] Hl. destruct x as [e|o now r|o m|m [r|]]; simpl.
  - unfold Reload. destruct (negb (pool s)); [done|]. destruct e; [done|]. simpl.
    rewrite from_rows_table by (intros; by apply H1). done.
  - unfold Set_. destruct (negb (pool s)); [done|]. case_bool_decide; [done|].
    destruct (_ || _) eqn:E; [done|]. apply orb_false_iff in E as [E1%Z.ltb_ge E2%Z.ltb_ge].
    destruct o as [|[] e]; simpl; [|split; simpl; try done; by apply wf_insert|done].
    split; simpl; [by apply wf_insert|by apply wf_insert|done].
  - unfold Delete_. destruct (negb (pool s)); [done|].
    destruct o as [|[] e]; simpl; [|split; simpl; try done; by apply wf_delete|done].
    case_bool_decide; simpl; [|split; simpl; try done; by apply wf_delete].
    unfold removeOne. simpl. destruct (snapshot s !! m); split; simpl; try done;
      by apply wf_delete.
  - destruct Hl as (? & ? & ?). split; simpl; try done. by apply wf_insert.
  - split; simpl; try done. by apply wf_delete.
Qed.

Lemma step_coherent s x :
  wf s -> s.(snapshot) = s.(table) -> quiet x -> (step s x).(snapshot) = (step s x).(table).
Proof.
  intros [H1 H2 H3] Hc Hq. destruct x as [e|o now r|o m|m r]; simpl in *; [| | |done].
  - unfold Reload. destruct (negb (pool s)); [done|]. destruct e; [done|]. simpl.
    apply from_rows_table. intros; by apply H1.
  - unfold Set_. destruct (negb (pool s)); [done|]. case_bool_decide; [done|].
    destruct (_ || _); [done|]. destruct o as [|[] e]; simpl; [by rewrite Hc|by destruct (Hq e)|done].
  - unfold Delete_. destruct (negb (pool s)); [done|].
    destruct o as [|[] e]; simpl; [|by destruct (Hq e)|done]. unfold removeOne. simpl.
    case_bool_decide as Hm.
    + destruct Hm as [r Hr]. rewrite Hc, Hr. done.
    + simpl. rewrite Hc. apply eq_None_not_Some in Hm. by rewrite delete_id.
Qed.

Lemma run_wf s ops : wf s -> Forall legal ops -> wf (run s ops).
Proof.
  revert s. induction ops as [|x ops IH]; intros s Hs Hl; simpl; [done|].
  apply Forall_cons_1 in Hl as [? ?]. apply IH; [by apply step_wf|done].
Qed.

Lemma run_coherent s ops :
  wf s -> Forall legal ops -> Forall quiet ops -> s.(snapshot) = s.(table) ->
  (run s ops).(snapshot) = (run s ops).(table).
Proof.
  revert s. induction ops as [|x ops IH]; intros s Hs Hl Hq Hc; simpl; [done|].
  apply Forall_cons_1 in Hl as [? ?]. apply Forall_cons_1 in Hq as [? ?].
  apply IH; try done; [by apply step_wf|by apply step_coherent].
Qed.

Lemma pool_run s ops : (run s ops).(pool) = s.(pool).
Proof.
  revert s. induction ops as [|x ops IH]; intros s; simpl; [done|]. rewrite IH. clear IH.
  destruct x as [e|o now r|o m|m r]; simpl; unfold Reload, Set_, Delete_, removeOne;
    repeat (case_match; simplify_eq/=; try done); done.
Qed.

(** The reload loop is a run of the operations it interleaves with. *)
Definition turn_ops (turn : list op * option error) : list op := turn.1 ++ [OpReload turn.2].

Lemma reload_loop_run turns : forall s,
  reload_loop turns s = run s (concat (map turn_ops turns)).
Proof.
  induction turns as [|[ops dbErr] turns IH]; intros s; [done|].
  cbn [map concat reload_loop]. rewrite IH. unfold turn_ops, run. cbn [fst snd].
  by rewrite !fold_left_app.
Qed.

Lemma PeriodicReload_last interval turns ops dbErr s :
  0 < interval ->
  PeriodicReload interval (turns ++ [(ops, dbErr)]) s =
  (Reload dbErr (run s (concat (map turn_ops turns) ++ ops))).2.
Proof.
  intros Hi. unfold PeriodicReload. rewrite (proj2 (Z.leb_gt interval 0)) by done.
  rewrite reload_loop_run, map_app, concat_app. unfold turn_ops at 2. simpl.
  rewrite app_nil_r, app_assoc. unfold run. by rewrite !fold_left_app.
Qed.

Lemma turn_ops_legal turns :
  Forall (fun turn => Forall legal turn.1) turns -> Forall legal (concat (map turn_ops turns)).
Proof.
  induction 1 as [|turn turns Ht _ IH]; [constructor|].
  cbn [map concat]. unfold turn_ops. repeat apply Forall_app_2; try done. by repeat constructor.
Qed.

Lemma Reload_coherent s :
  wf s -> s.(pool) = true -> (Reload None s).2.(snapshot) = (Reload None s).2.(table).
Proof. intros Hs Hp. unfold Reload. rewrite Hp. simpl. apply from_rows_table. intros; by apply Hs. Qed.

(** C36: Whatever happened before (failed statements, lost acknowledgements,
    other instances' writes, failed reloads), one turn of [PeriodicReload]
    whose reload succeeds makes the cache equal to the table, and it stays equal through every later operation of this
    instance that the data base answers truthfully, failing ones included. *)
Theorem pricing_coherent s interval turns ops after :
  wf s -> s.(pool) = true -> 0 < interval ->
  Forall (fun turn => Forall legal turn.1) turns -> Forall legal ops ->
  Forall legal after -> Forall quiet after ->
  let s' := run (PeriodicReload interval (turns ++ [(ops, None)]) s) after in
  forall model, Lookup s' model = s'.(table) !! model.
Proof.
  intros Hs Hp Hi Ht Ho Ha Hq s' model. unfold Lookup, s'.
  rewrite PeriodicReload_last by done. set (before := concat _ ++ ops).
  assert (Hb : Forall legal before) by (apply Forall_app_2; [by apply turn_ops_legal|done]).
  assert (Hs1 : wf (run s before)) by by apply run_wf.
  rewrite (run_coherent _ after); try done.
  - apply (step_wf _ (OpReload None)); done.
  - apply Reload_coherent; [done|by rewrite pool_run].
Qed.

Definition test_rate (model : string) : Rate :=
  {| Model := model; Currency := "USD"; InputPer1kMicro := 2500; OutputPer1kMicro := 10000;
     UpdatedAt := 0 |}.

Definition test_before : list op := [OpExternal "gpt-4o" (Some (test_rate "gpt-4o"))].
Definition test_after : list op :=
  [OpSet DbOk 7 (test_rate "deepseek-chat"); OpDelete DbOk "gpt-4o"].

Lemma pricing_coherent_witness :
  let s' := run (PeriodicReload 300 [([], Some (Foreign "connection refused" [])); (test_before, None)]
                   (NewPricingCache true ∅)) test_after in
  Lookup s' "deepseek-chat" = s'.(table) !! "deepseek-chat".
Proof.
  apply (pricing_coherent (NewPricingCache true ∅) 300 [([], Some (Foreign "connection refused" []))] test_before).
  - split; simpl; [by intros m r ?%lookup_empty_Some..|reflexivity].
  - reflexivity.
  - reflexivity.
  - repeat constructor.
  - repeat constructor; simpl; lia.
  - repeat constructor.
  - repeat constructor; discriminate.
Defined.

(** Wrapping arithmetic is exact in range. *)
Lemma Cost_exact rate p c :
  rate.(Model) <> "" -> 0 <= p -> 0 <= c ->
  0 <= rate.(InputPer1kMicro) -> 0 <= rate.(OutputPer1kMicro) ->
  p * rate.(InputPer1kMicro) <= max_int64 -> c * rate.(OutputPer1kMicro) <= max_int64 ->
  p * rate.(InputPer1kMicro) / 1000 + c * rate.(OutputPer1kMicro) / 1000 <= max_int64 ->
  Cost rate p c = p * rate.(InputPer1kMicro) / 1000 + c * rate.(OutputPer1kMicro) / 1000.
Proof.
  intros Hm Hp Hc Hi Ho H1 H2 H3. unfold Cost. rewrite bool_decide_eq_false_2 by done.
  set (x := p * InputPer1kMicro rate) in *. set (y := c * OutputPer1kMicro rate) in *.
  assert (0 <= x /\ 0 <= y) as [Hx Hy] by (unfold x, y; split; apply Z.mul_nonneg_nonneg; done).
  rewrite (wrap64_id x), (wrap64_id y) by (unfold_int64; lia).
  rewrite !Z.quot_div_nonneg by lia.
  assert (0 <= x / 1000 <= x) by (split; [apply Z.div_pos; lia|apply Z.div_le_upper_bound; lia]).
  assert (0 <= y / 1000 <= y) by (split; [apply Z.div_pos; lia|apply Z.div_le_upper_bound; lia]).
  rewrite (wrap64_id (x / 1000)), (wrap64_id (y / 1000)), wrap64_id by (unfold_int64; lia). done.
Qed.

(** A request is charged its two token counts at the model's rates, each
    half rounded down to a whole micro-unit: the charge is never above the
    exact price and less than two micro-units below it, as long as the
    products fit 64 bits. *)
Theorem Cost_rounding rate p c :
  rate.(Model) <> "" -> 0 <= p -> 0 <= c ->
  0 <= rate.(InputPer1kMicro) -> 0 <= rate.(OutputPer1kMicro) ->
  p * rate.(InputPer1kMicro) <= max_int64 -> c * rate.(OutputPer1kMicro) <= max_int64 ->
  p * rate.(InputPer1kMicro) + c * rate.(OutputPer1kMicro) <= max_int64 ->
  let exact := p * rate.(InputPer1kMicro) + c * rate.(OutputPer1kMicro) in
  0 <= exact - 1000 * Cost rate p c < 2000.
Proof.
  intros Hm Hp Hc Hi Ho H1 H2 H3 exact.
  set (x := p * InputPer1kMicro rate) in *. set (y := c * OutputPer1kMicro rate) in *.
  pose proof (Z.div_mod x 1000 ltac:(lia)). pose proof (Z.mod_pos_bound x 1000 ltac:(lia)).
  pose proof (Z.div_mod y 1000 ltac:(lia)). pose proof (Z.mod_pos_bound y 1000 ltac:(lia)).
  assert (0 <= x /\ 0 <= y) as [Hx Hy] by (unfold x, y; split; apply Z.mul_nonneg_nonneg; done).
  rewrite Cost_exact by (done || (unfold x, y in *; lia)). fold x y. unfold exact. lia.
Qed.

Lemma Cost_rounding_witness :
  0 <= 1234 * 2500 + 57 * 10000 - 1000 * Cost (test_rate "gpt-4o") 1234 57 < 2000.
Proof.
  apply (Cost_rounding (test_rate "gpt-4o") 1234 57); simpl; discriminate || unfold_int64; lia.
Defined.
End Pricing.

(** ** The usage writer *)

Module Worker.

Record Event := {
  StartedAt : option Z;  (** [None] is the zero time *)
  RequestID : string; APIKeyID : string; Provider : string; Model : string;
  PromptTokens : Z; CompletionTokens : Z; LatencyMs : Z; Status : Z; Streamed : bool;
  ErrorCode : string
}.

Record WorkerConfig := { BufferSize : Z; Workers : Z; FlushTimeout : Z }.

Definition DefaultWorkerConfig : WorkerConfig :=
  {| BufferSize := 10000; Workers := 2; FlushTimeout := 5 * Second |}.

(** One row of [request_logs]; [None] is NULL. *)
Record row := {
  r_started_at : option Z; r_request_id : string; r_api_key_id : option string;
  r_provider : string; r_model : string; r_prompt_tokens : Z; r_completion_tokens : Z;
  r_total_tokens : Z; r_latency_ms : Z; r_status : Z; r_streamed : bool;
  r_input_micro : Z; r_output_micro : Z; r_total_micro : Z; r_currency : string;
  r_error_code : option string
}.

(** The worker, its goroutines and the rows it wrote.  [idle] consumers wait on
    the channel, [busy] ones hold the event they took, [exited] ones returned;
    [accepted], [failed] and [lost] record what became of each event. *)
Record Worker := {
  cfg : WorkerConfig;
  ch : list Event;
  closed : bool;
  started : bool;
  canceled : bool;
  idle : nat;
  busy : list Event;
  exited : nat;
  dropped : Z;
  written : Z;
  partOK : gset (Z * Z);
  rows : list (Event * row);
  accepted : list Event;
  failed : list Event;
  lost : list Event
}.

Definition NewWorker (has_pool : bool) (c : WorkerConfig) : error + Worker :=
  if negb has_pool then inl (Errorf "billing: worker requires a non-nil pool" [] None)
  else inr
    {| cfg := {| BufferSize := if c.(BufferSize) <=? 0 then DefaultWorkerConfig.(BufferSize)
                               else c.(BufferSize);
                 Workers := if c.(Workers) <=? 0 then DefaultWorkerConfig.(Workers)
                            else c.(Workers);
                 FlushTimeout := if c.(FlushTimeout) <=? 0 then DefaultWorkerConfig.(FlushTimeout)
                                 else c.(FlushTimeout) |};
       ch := []; closed := false; started := false; canceled := false; idle := 0; busy := [];
       exited := 0; dropped := 0; written := 0; partOK := ∅; rows := []; accepted := [];
       failed := []; lost := [] |}.

(** Updates of the mutable parts. *)
Definition set_ch (q : list Event) (w : Worker) : Worker :=
  {| cfg := w.(cfg); ch := q; closed := w.(closed); started := w.(started);
     canceled := w.(canceled); idle := w.(idle); busy := w.(busy); exited := w.(exited);
     dropped := w.(dropped); written := w.(written); partOK := w.(partOK); rows := w.(rows);
     accepted := w.(accepted); failed := w.(failed); lost := w.(lost) |}.
Definition set_flags (cl st ca : bool) (w : Worker) : Worker :=
  {| cfg := w.(cfg); ch := w.(ch); closed := cl; started := st; canceled := ca;
     idle := w.(idle); busy := w.(busy); exited := w.(exited); dropped := w.(dropped);
     written := w.(written); partOK := w.(partOK); rows := w.(rows);
     accepted := w.(accepted); failed := w.(failed); lost := w.(lost) |}.
Definition set_goroutines (i : nat) (b : list Event) (e : nat) (w : Worker) : Worker :=
  {| cfg := w.(cfg); ch := w.(ch); closed := w.(closed); started := w.(started);
     canceled := w.(canceled); idle := i; busy := b; exited := e; dropped := w.(dropped);
     written := w.(written); partOK := w.(partOK); rows := w.(rows);
     accepted := w.(accepted); failed := w.(failed); lost := w.(lost) |}.
Definition set_counts (d wr : Z) (w : Worker) : Worker :=
  {| cfg := w.(cfg); ch := w.(ch); closed := w.(closed); started := w.(started);
     canceled := w.(canceled); idle := w.(idle); busy := w.(busy); exited := w.(exited);
     dropped := d; written := wr; partOK := w.(partOK); rows := w.(rows);
     accepted := w.(accepted); failed := w.(failed); lost := w.(lost) |}.
Definition set_log (rs : list (Event * row)) (a f l : list Event) (w : Worker) : Worker :=
  {| cfg := w.(cfg); ch := w.(ch); closed := w.(closed); started := w.(started);
     canceled := w.(canceled); idle := w.(idle); busy := w.(busy); exited := w.(exited);
     dropped := w.(dropped); written := w.(written); partOK := w.(partOK); rows := rs;
     accepted := a; failed := f; lost := l |}.
Definition set_parts (p : gset (Z * Z)) (w : Worker) : Worker :=
  {| cfg := w.(cfg); ch := w.(ch); closed := w.(closed); started := w.(started);
     canceled := w.(canceled); idle := w.(idle); busy := w.(busy); exited := w.(exited);
     dropped := w.(dropped); written := w.(written); partOK := p; rows := w.(rows);
     accepted := w.(accepted); failed := w.(failed); lost := w.(lost) |}.

(** [Start], once. *)
Definition Start (w : Worker) : Worker :=
  if w.(started) then w
  else set_flags w.(closed) true w.(canceled)
         (set_goroutines (Z.to_nat w.(cfg).(Workers)) w.(busy) w.(exited) w).

Definition stamp (now : Z) (e : Event) : Event :=
  {| StartedAt := Some (match e.(StartedAt) with Some t => t | None => now end);
     RequestID := e.(RequestID); APIKeyID := e.(APIKeyID); Provider := e.(Provider);
     Model := e.(Model); PromptTokens := e.(PromptTokens);
     CompletionTokens := e.(CompletionTokens); LatencyMs := e.(LatencyMs);
     Status := e.(Status); Streamed := e.(Streamed); ErrorCode := e.(ErrorCode) |}.

(** [Enqueue]: [None] is the panic of a send on a closed channel.  A waiting
    consumer takes the event from the buffer in a step of its own. *)
Definition Enqueue (now : Z) (e : Event) (w : Worker) : option (bool * Worker) :=
  let e := stamp now e in
  if w.(closed) then None
  else if Z.of_nat (length w.(ch)) <? w.(cfg).(BufferSize) then
    Some (true, set_log w.(rows) (w.(accepted) ++ [e]) w.(failed) w.(lost)
                  (set_ch (w.(ch) ++ [e]) w))
  else Some (false, set_counts (w.(dropped) + 1) w.(written) w).

(** [Stop] closes the channel, once; the wait for the drain is the steps of
    the consumers. *)
Definition Stop (w : Worker) : Worker := set_flags true w.(started) w.(canceled) w.

(** The month partition of an instant: its key and its bounds in
    nanoseconds. *)
Definition day_ns : Z := 24 * Hour.
Definition partition (ts : Z) : (Z * Z) * (Z * Z) :=
  let ym := year_month (ts / day_ns) in
  let n := next_month ym in
  (ym, (month_start ym.1 ym.2 * day_ns, month_start n.1 n.2 * day_ns)).

(** [ensurePartition]: the statement issued, if any, and its outcome. *)
Definition ensurePartition (ddl : option error) (ts : Z) (w : Worker) : option error * Worker :=
  let '(key, _) := partition ts in
  if bool_decide (key ∈ w.(partOK)) then (None, w)
  else match ddl with
       | Some e => (Some (Errorf "create partition %s: %w" [] (Some e)), w)
       | None => (None, set_parts ({[key]} ∪ w.(partOK)) w)
       end.

Definition nullableString (s : string) : option string :=
  if bool_decide (s = "") then None else Some s.

(** The row [persist] inserts. *)
Definition make_row (rate : option Pricing.Rate) (ev : Event) : row :=
  let '(input, output, total, currency) :=
    match rate with
    | Some r =>
        let i := (ev.(PromptTokens) *i r.(Pricing.InputPer1kMicro) /i 1000)%go in
        let o := (ev.(CompletionTokens) *i r.(Pricing.OutputPer1kMicro) /i 1000)%go in
        (i, o, (i +i o)%go,
         if bool_decide (r.(Pricing.Currency) = "") then "USD" else r.(Pricing.Currency))
    | None => (0, 0, 0, "USD")
    end in
  {| r_started_at := ev.(StartedAt); r_request_id := ev.(RequestID);
     r_api_key_id := nullableString ev.(APIKeyID); r_provider := ev.(Provider);
     r_model := ev.(Model); r_prompt_tokens := ev.(PromptTokens);
     r_completion_tokens := ev.(CompletionTokens);
     r_total_tokens := (ev.(PromptTokens) +i ev.(CompletionTokens))%go;
     r_latency_ms := ev.(LatencyMs); r_status := ev.(Status); r_streamed := ev.(Streamed);
     r_input_micro := input; r_output_micro := output; r_total_micro := total;
     r_currency := currency; r_error_code := nullableString ev.(ErrorCode) |}.

(** [persist]: the partition (its failure is only logged), then the insert and
    the metrics; [None] is the panic of [AddCost], whose counter refuses a
    negative cost, after the row was written.  (It would also refuse labels that
    are not UTF-8, which the decoded request and the configuration cannot
    contain.) *)
Definition persist (pricing : option Pricing.state) (ddl insert : option error) (ev : Event)
    (w : Worker) : option Worker :=
  let w := match ev.(StartedAt) with Some ts => (ensurePartition ddl ts w).2 | None => w end in
  let rate := match pricing with Some p => Pricing.Lookup p ev.(Model) | None => None end in
  match insert with
  | Some _ => Some (set_log w.(rows) w.(accepted) (w.(failed) ++ [ev]) w.(lost) w)
  | None =>
      let row := make_row rate ev in
      let w := set_counts w.(dropped) (w.(written) + 1)
                 (set_log (w.(rows) ++ [(ev, row)]) w.(accepted) w.(failed) w.(lost) w) in
      if row.(r_total_micro) <? 0 then None else Some w
  end.

(** ** Steps *)

(** The consumers' own moves: take an event (losing it when the context is
    already canceled), finish persisting one, leave on a closed empty
    channel. *)
Inductive consume (pricing : option Pricing.state) : Worker -> Worker -> Prop :=
  | c_take w e q i :
      w.(ch) = e :: q -> w.(idle) = S i -> w.(canceled) = false ->
      consume pricing w (set_goroutines i (w.(busy) ++ [e]) w.(exited) (set_ch q w))
  | c_abandon w e q i :
      w.(ch) = e :: q -> w.(idle) = S i -> w.(canceled) = true ->
      consume pricing w
        (set_goroutines i w.(busy) (S w.(exited))
           (set_log w.(rows) w.(accepted) w.(failed) (w.(lost) ++ [e]) (set_ch q w)))
  | c_persist w b1 e b2 ddl insert w' :
      w.(busy) = b1 ++ e :: b2 ->
      persist pricing ddl insert e (set_goroutines (S w.(idle)) (b1 ++ b2) w.(exited) w) = Some w' ->
      consume pricing w w'
  | c_exit w i :
      w.(ch) = [] -> w.(closed) = true -> w.(idle) = S i ->
      consume pricing w (set_goroutines i w.(busy) (S w.(exited)) w).

(** Everything that can happen, in any interleaving; the price cache may
    change between steps. *)
Inductive wstep : Worker -> Worker -> Prop :=
  | w_consume pricing w w' : consume pricing w w' -> wstep w w'
  | w_start w : wstep w (Start w)
  | w_enqueue now e w ok w' : Enqueue now e w = Some (ok, w') -> wstep w w'
  | w_cancel w : wstep w (set_flags w.(closed) w.(started) true w)
  | w_stop w : wstep w (Stop w).

Inductive reachable (c : WorkerConfig) : Worker -> Prop :=
  | reach_new w : NewWorker true c = inr w -> reachable c w
  | reach_step w w' : reachable c w -> wstep w w' -> reachable c w'.


(** ** Accounting *)

Record inv (w : Worker) : Prop := {
  inv_events : w.(accepted) ≡ₚ w.(rows).*1 ++ w.(failed) ++ w.(lost) ++ w.(busy) ++ w.(ch);
  inv_cap : Z.of_nat (length w.(ch)) <= w.(cfg).(BufferSize);
  inv_written : w.(written) = Z.of_nat (length w.(rows));
  inv_pos : 0 < w.(cfg).(Workers);
  inv_unstarted : w.(started) = false -> w.(idle) = O /\ w.(busy) = [] /\ w.(exited) = O;
  inv_started : w.(started) = true ->
    (w.(idle) + length w.(busy) + w.(exited))%nat = Z.to_nat w.(cfg).(Workers);
  inv_lost : w.(canceled) = false -> w.(lost) = [];
  inv_exited : w.(canceled) = false -> w.(exited) <> O -> w.(closed) = true /\ w.(ch) = []
}.

Lemma inv_new c w : NewWorker true c = inr w -> inv w.
Proof.
  unfold NewWorker. simpl. intros [= <-]. split; simpl; try done.
  - destruct (Z.leb_spec (BufferSize c) 0); simpl; lia.
  - destruct (Z.leb_spec (Workers c) 0); simpl; lia.
Qed.

(** [persist] touches only the log, the counters and the partition cache. *)
Lemma persist_frame pricing ddl insert e w w' :
  persist pricing ddl insert e w = Some w' ->
  w'.(cfg) = w.(cfg) /\ w'.(ch) = w.(ch) /\ w'.(closed) = w.(closed) /\
  w'.(started) = w.(started) /\ w'.(canceled) = w.(canceled) /\ w'.(idle) = w.(idle) /\
  w'.(busy) = w.(busy) /\ w'.(exited) = w.(exited) /\ w'.(accepted) = w.(accepted) /\
  w'.(lost) = w.(lost) /\ w'.(dropped) = w.(dropped) /\
  ((w'.(failed) = w.(failed) /\ w'.(written) = w.(written) + 1 /\
    exists r, w'.(rows) = w.(rows) ++ [(e, r)]) \/
   (w'.(failed) = w.(failed) ++ [e] /\ w'.(written) = w.(written) /\ w'.(rows) = w.(rows))).
Proof.
  unfold persist, ensurePartition.
  destruct (StartedAt e) as [ts|]; simpl; [destruct (partition ts) as [key ?]; case_bool_decide;
    [|destruct ddl]|]; simpl; destruct insert; simpl; try (destruct (_ <? 0); [done|]); intros [= <-];
    simpl; split_and!; auto; left; eauto.
Qed.

Lemma inv_consume pricing w w' : inv w -> consume pricing w w' -> inv w'.
Proof.
  intros [H1 H2 H3 H4 H5 H6 H7 H8] Hc.
  assert (Hst : w.(started) = true \/ (w.(idle) = O /\ w.(busy) = [])).
  { destruct (started w); [by left|right]. by destruct H5 as (? & ? & ?). }
  destruct Hc as [w e q i Hq Hi Hca|w e q i Hq Hi Hca|w b1 e b2 ddl insert w' Hb Hpe|w i Hq Hcl Hi].
  - destruct Hst as [Hst|[? ?]]; [|congruence]. split; simpl; try done.
    + rewrite H1, Hq. by rewrite <- !app_assoc.
    + rewrite Hq in H2. simpl in H2. lia.
    + congruence.
    + rewrite length_app. simpl. intros. specialize (H6 Hst). lia.
    + intros _ Hex. destruct (H8 Hca Hex) as [_ ?]. congruence.
  - destruct Hst as [Hst|[? ?]]; [|congruence]. split; simpl; try done; try congruence.
    + rewrite H1, Hq. rewrite <- !app_assoc. do 3 f_equiv. simpl.
      by rewrite Permutation_middle.
    + rewrite Hq in H2. simpl in H2. lia.
    + intros. specialize (H6 Hst). lia.
  - destruct Hst as [Hst|[? Hbe]]; [|rewrite Hbe in Hb; by destruct b1].
    apply persist_frame in Hpe as (E1 & E2 & E3 & E4 & E5 & E6 & E7 & E8 & E9 & E10 & _ & Hout). simpl in *.
    split; rewrite ?E1, ?E2, ?E3, ?E4, ?E5, ?E6, ?E7, ?E8, ?E9, ?E10; try done.
    + rewrite H1, Hb. destruct Hout as [(-> & _ & r & ->)|(-> & _ & ->)].
      * rewrite fmap_app. simpl. solve_Permutation.
      * solve_Permutation.
    + destruct Hout as [(_ & -> & r & ->)|(_ & -> & ->)]; [|done].
      rewrite H3, length_app. simpl. lia.
    + congruence.
    + intros _. specialize (H6 Hst). rewrite Hb in H6. rewrite length_app in H6 |- *.
      simpl in H6. lia.
  - destruct Hst as [Hst|[? ?]]; [|congruence]. split; simpl; try done; try congruence.
    intros. specialize (H6 Hst). lia.
Qed.

Lemma inv_wstep w w' : inv w -> wstep w w' -> inv w'.
Proof.
  intros HI Hs. destruct Hs as [pricing w w' Hc|w|now e w ok w' He|w|w].
  - by eapply inv_consume.
  - unfold Start. destruct (started w) eqn:E; [done|]. destruct HI as [H1 H2 H3 H4 H5 H6 H7 H8].
    destruct (H5 E) as (Hi & Hb & He). split; simpl; try done.
    intros _. rewrite Hb, He. simpl. lia.
  - destruct HI as [H1 H2 H3 H4 H5 H6 H7 H8]. unfold Enqueue in He.
    destruct (closed w) eqn:Ecl; [done|].
    destruct (Z.ltb_spec (Z.of_nat (length (ch w))) (BufferSize (cfg w))); injection He as <- <-;
      split; simpl; try done.
    + rewrite H1. solve_Permutation.
    + rewrite length_app. simpl. lia.
    + intros Hca Hex. by destruct (H8 Hca Hex).
    + intros Hca Hex. by destruct (H8 Hca Hex).
  - destruct HI as [H1 H2 H3 H4 H5 H6 H7 H8]. split; simpl; done.
  - destruct HI as [H1 H2 H3 H4 H5 H6 H7 H8]. split; simpl; try done.
    intros Hca Hex. by destruct (H8 Hca Hex).
Qed.

Lemma worker_reachable_inv c w : reachable c w -> inv w.
Proof. induction 1; [by eapply inv_new|by eapply inv_wstep]. Qed.

(** C16: No usage event is lost track of or written twice: in every reachable
    state, under any interleaving of producers, consumers, shutdown and
    cancellation, the accepted events are exactly those written, those whose
    insert failed, those abandoned after cancellation, those being persisted
    and those queued; the queue respects its capacity, and the written counter
    counts the rows. *)
Theorem worker_conservation c w :
  reachable c w ->
  w.(accepted) ≡ₚ w.(rows).*1 ++ w.(failed) ++ w.(lost) ++ w.(busy) ++ w.(ch) /\
  Z.of_nat (length w.(ch)) <= w.(cfg).(BufferSize) /\
  w.(written) = Z.of_nat (length w.(rows)) /\
  (w.(canceled) = false -> w.(lost) = []).
Proof. intros [H1 H2 H3 _ _ _ H7 _]%worker_reachable_inv. done. Qed.

Definition test_event (id : string) : Event :=
  {| StartedAt := Some 1700000000000000000; RequestID := id; APIKeyID := "k1";
     Provider := "openai-primary"; Model := "gpt-4o"; PromptTokens := 1234;
     CompletionTokens := 57; LatencyMs := 840; Status := 200; Streamed := false;
     ErrorCode := "" |}.

Definition one_consumer : WorkerConfig :=
  {| BufferSize := 2; Workers := 1; FlushTimeout := 0 |}.

(** A worker that accepted two events, dropped none, and was stopped. *)
Definition stopped_worker : option Worker :=
  match NewWorker true one_consumer with
  | inr w =>
      match Enqueue 0 (test_event "r1") (Start w) with
      | Some (_, w) => match Enqueue 0 (test_event "r2") w with
                       | Some (_, w) => Some (Stop w)
                       | None => None
                       end
      | None => None
      end
  | inl _ => None
  end.

Lemma stopped_reachable w : stopped_worker = Some w -> reachable one_consumer w.
Proof.
  unfold stopped_worker. destruct (NewWorker true one_consumer) as [|w0] eqn:E0; [done|].
  destruct (Enqueue 0 (test_event "r1") (Start w0)) as [[ok1 w1]|] eqn:E1; [|done].
  destruct (Enqueue 0 (test_event "r2") w1) as [[ok2 w2]|] eqn:E2; [|done].
  intros [= <-]. eapply reach_step; [|apply w_stop]. eapply reach_step; [|by eapply w_enqueue].
  eapply reach_step; [|by eapply w_enqueue]. eapply reach_step; [|apply w_start].
  by apply reach_new.
Qed.

Lemma worker_conservation_witness :
  exists w, stopped_worker = Some w /\
    w.(accepted) ≡ₚ w.(rows).*1 ++ w.(failed) ++ w.(lost) ++ w.(busy) ++ w.(ch).
Proof.
  eexists. split; [reflexivity|].
  match goal with |- accepted ?w ≡ₚ _ =>
    destruct (worker_conservation one_consumer w) as [H _]; [|exact H] end.
  by apply stopped_reachable.
Defined.

(** ** Draining *)

(** Every move of a consumer makes progress. *)
Definition measure (w : Worker) : nat :=
  (3 * length w.(ch) + 2 * length w.(busy) + w.(idle))%nat.

Lemma consume_measure pricing w w' : consume pricing w w' -> (measure w' < measure w)%nat.
Proof.
  intros Hc. unfold measure.
  destruct Hc as [w e q i Hq Hi Hca|w e q i Hq Hi Hca|w b1 e b2 ddl insert w' Hb Hpe|w i Hq Hcl Hi].
  - simpl. rewrite Hq, Hi, length_app. simpl. lia.
  - simpl. rewrite Hq, Hi. simpl. lia.
  - apply persist_frame in Hpe as (_ & E2 & _ & _ & _ & E6 & E7 & _). rewrite E2, E6, E7, Hb. simpl.
    rewrite !length_app. simpl. lia.
  - simpl. rewrite Hq, Hi. simpl. lia.
Qed.

(** A charge the metrics accept. *)
Definition chargeable (pricing : option Pricing.state) (ev : Event) : Prop :=
  0 <= (make_row (p ← pricing; Pricing.Lookup p ev.(Model)) ev).(r_total_micro).

(** Such an event is persisted, whatever the database answers. *)
Lemma persist_returns pricing ddl insert ev w :
  chargeable pricing ev -> exists w', persist pricing ddl insert ev w = Some w'.
Proof.
  unfold chargeable, persist. intros Hc. destruct insert; [by eexists|].
  replace (match pricing with Some p => Pricing.Lookup p ev.(Model) | None => None end)
    with (p ← pricing; Pricing.Lookup p ev.(Model)) by by destruct pricing.
  destruct (Z.ltb_spec (r_total_micro (make_row (p ← pricing; Pricing.Lookup p ev.(Model)) ev)) 0); [lia|by eexists].
Qed.

(** After [Stop] a consumer can always move until all have left. *)
Lemma consume_progress pricing w :
  w.(closed) = true -> (w.(idle) + length w.(busy) <> 0)%nat -> Forall (chargeable pricing) w.(busy) ->
  exists w', consume pricing w w'.
Proof.
  intros Hcl Hn Hch. destruct (busy w) as [|e b] eqn:Hb.
  - destruct (idle w) as [|i] eqn:Hi; [done|]. destruct (ch w) as [|e q] eqn:Hq.
    + eexists. by eapply c_exit.
    + destruct (canceled w) eqn:Hca; eexists; [by eapply c_abandon|by eapply c_take].
  - apply Forall_cons_1 in Hch as [He _].
    destruct (persist_returns pricing None None e (set_goroutines (S w.(idle)) b w.(exited) w) He) as [w' Hw'].
    exists w'. by apply (c_persist pricing w [] e b None None).
Qed.

(** All consumers gone and the context alive: nothing is left over. *)
Lemma drained c w :
  reachable c w -> w.(started) = true ->
  w.(exited) = Z.to_nat w.(cfg).(Workers) -> w.(canceled) = false ->
  w.(closed) = true /\ w.(ch) = [] /\ w.(busy) = [] /\ w.(accepted) ≡ₚ w.(rows).*1 ++ w.(failed).
Proof.
  intros Hr Hst Hex Hca. pose proof (worker_reachable_inv c w Hr) as [H1 _ _ H4 _ H6 H7 H8]. specialize (H6 Hst).
  assert (Hb : w.(busy) = []) by (destruct (busy w); simpl in *; [done|lia]).
  destruct (H8 Hca) as [Hcl Hch]; [lia|]. rewrite (H7 Hca), Hb, Hch, !app_nil_r in H1. done.
Qed.

(** *** After the context has ended *)

(** What may still be written: what was written, and what was being persisted
    when the context ended. *)
Definition doomed (may : list Event) (w : Worker) : Prop :=
  w.(canceled) = true /\ w.(rows).*1 ++ w.(busy) ⊆+ may.

Lemma doomed_step may w w' : wstep w w' -> doomed may w -> doomed may w'.
Proof.
  intros Hs [Hca Hm]. destruct Hs as [pricing w w' Hc|w|now e w ok w' He|w|w]; try done.
  - destruct Hc as [w e q i Hq Hi Hca'|w e q i Hq Hi _|w b1 e b2 ddl insert w' Hb Hpe|w i Hq Hcl Hi];
      [congruence|done| |done].
    apply persist_frame in Hpe as (_ & _ & _ & _ & E5 & _ & E7 & _ & _ & _ & _ & Hout). simpl in *.
    split; [congruence|]. etrans; [|exact Hm]. rewrite E7, Hb.
    destruct Hout as [(_ & _ & r & ->)|(_ & _ & ->)].
    + rewrite fmap_app. simpl. apply Permutation_submseteq. solve_Permutation.
    + apply submseteq_app; [done|]. apply submseteq_app; [done|]. by apply submseteq_cons.
  - unfold Start. by destruct (started w).
  - unfold Enqueue in He. destruct (closed w); [done|]. destruct (_ <? _); by injection He as <- <-.
Qed.

Lemma doomed_steps may w w' : rtc wstep w w' -> doomed may w -> doomed may w'.
Proof. induction 1; [done|]. eauto using doomed_step. Qed.

Lemma after_cancel w w' :
  w.(canceled) = true -> rtc wstep w w' -> w'.(rows).*1 ⊆+ w.(rows).*1 ++ w.(busy).
Proof.
  intros Hca Hs. destruct (doomed_steps _ _ _ Hs (conj Hca (reflexivity _))) as [_ Hd].
  etrans; [|exact Hd]. by apply submseteq_inserts_r.
Qed.

(** C17: What stopping the worker achieves depends on its context.  Once the
    channel is closed the consumers cannot run for ever, and none is stuck before
    all have returned (unless a negative charge brings the process down).  If
    the context is still alive when they have returned, the queue is empty and
    every accepted event was written or its insert failed.  If the context ended
    first, nothing but what was just then being persisted is ever written
    again, however long the worker runs: events still queued, and those accepted
    later, are lost. *)
Theorem worker_drains c w :
  reachable c w -> w.(started) = true ->
  (forall pricing w', consume pricing w w' -> (measure w' < measure w)%nat) /\
  (w.(closed) = true -> w.(exited) <> Z.to_nat w.(cfg).(Workers) ->
   forall pricing, Forall (chargeable pricing) w.(busy) -> exists w', consume pricing w w') /\
  (w.(exited) = Z.to_nat w.(cfg).(Workers) -> w.(canceled) = false ->
   w.(closed) = true /\ w.(ch) = [] /\ w.(busy) = [] /\ w.(accepted) ≡ₚ w.(rows).*1 ++ w.(failed)) /\
  (w.(canceled) = true -> forall w', rtc wstep w w' -> w'.(rows).*1 ⊆+ w.(rows).*1 ++ w.(busy)).
Proof.
  intros Hr Hst. split_and!.
  - intros pricing w'. apply consume_measure.
  - intros Hcl Hne pricing. apply consume_progress; [done|].
    pose proof (inv_started _ (worker_reachable_inv c w Hr) Hst). lia.
  - by apply (drained c).
  - intros Hca w' Hs. by apply (after_cancel w).
Qed.

(** The worker with two events queued, whose context ends. *)
Definition interrupted_worker : option Worker := set_flags true true true <$> stopped_worker.

Lemma interrupted_reachable w : interrupted_worker = Some w -> reachable one_consumer w.
Proof.
  unfold interrupted_worker. destruct stopped_worker as [w0|] eqn:E; [|done]. intros [= <-].
  pose proof (stopped_reachable w0 E) as Hr.
  assert (Hf : w0.(closed) = true /\ w0.(started) = true) by (vm_compute in E; by injection E as <-).
  destruct Hf as [Hcl Hst]. eapply reach_step; [exact Hr|]. pose proof (w_cancel w0) as Hc. by rewrite Hcl, Hst in Hc.
Qed.

(** Stopped in time, a consumer goes on; interrupted first, both events are
    lost. *)
Lemma worker_drains_witness :
  (exists w, stopped_worker = Some w /\ forall pricing, exists w', consume pricing w w') /\
  (exists w, interrupted_worker = Some w /\ length w.(ch) = 2%nat /\ forall w', rtc wstep w w' -> w'.(rows).*1 = []).
Proof.
  split.
  - eexists. split; [reflexivity|].
    match goal with |- forall pricing, exists w', consume pricing ?w w' =>
      destruct (worker_drains one_consumer w) as (_ & H & _) end.
    + by apply stopped_reachable.
    + reflexivity.
    + intros pricing. apply H; [reflexivity|vm_compute; discriminate|constructor].
  - eexists. split; [reflexivity|]. split; [reflexivity|].
    match goal with |- forall w', rtc wstep ?w w' -> _ =>
      destruct (worker_drains one_consumer w) as (_ & _ & _ & H) end.
    + by apply interrupted_reachable.
    + reflexivity.
    + intros w' Hs. specialize (H eq_refl w' Hs). apply submseteq_nil_r in H. exact H.
Defined.

(** ** Rows *)

(** The total a row is charged is [Cost] of the model's cached rate, and
    zero for a model without one. *)
Theorem make_row_cost rate ev :
  match rate with
  | Some r => r.(Pricing.Model) <> "" ->
      (make_row rate ev).(r_total_micro) =
      Pricing.Cost r ev.(PromptTokens) ev.(CompletionTokens)
  | None => (make_row rate ev).(r_total_micro) = 0
  end.
Proof.
  destruct rate as [r|]; [|done]. intros Hm. unfold Pricing.Cost.
  by rewrite bool_decide_eq_false_2 by done.
Qed.

Lemma make_row_cost_witness :
  (make_row (Some (Pricing.test_rate "gpt-4o")) (test_event "r1")).(r_total_micro) =
  Pricing.Cost (Pricing.test_rate "gpt-4o") 1234 57.
Proof. apply (make_row_cost (Some (Pricing.test_rate "gpt-4o")) (test_event "r1")). discriminate. Defined.

(** The month partition created for an event contains its timestamp. *)
Theorem partition_covers ts :
  let '(_, (lo, hi)) := partition ts in lo <= ts < hi.
Proof.
  unfold partition. pose proof (year_month_spec (ts / day_ns)) as Hs.
  destruct (year_month (ts / day_ns)) as [y m]. destruct Hs as (_ & Hlo & Hhi).
  cbn [fst snd]. destruct (next_month (y, m)) as [y' m']. cbn [fst snd] in *.
  pose proof (Z.div_mod ts day_ns ltac:(done)) as Hd.
  pose proof (Z.mod_pos_bound ts day_ns ltac:(done)) as Hm.
  assert (Hday : 0 < day_ns) by done. split; nia.
Qed.

(** A request that finishes after the worker was stopped panics in
    [Enqueue] instead of being dropped. *)
Theorem Enqueue_after_Stop_panics now e w : Enqueue now e (Stop w) = None.
Proof. done. Qed.
End Worker.

(** ** The log query *)

Module Logs.

Record LogQuery := {
  Start : option Z; End_ : option Z; APIKeyIDPrefix : string; Model : string;
  StatusBucket : string; Limit : Z; Offset : Z
}.

Record LogRow := {
  lr_RequestID : string; lr_StartedAt : Z; lr_APIKeyID : string; lr_APIKeyIDPreview : string;
  lr_Model : string; lr_Provider : string; lr_Status : Z; lr_LatencyMs : Z;
  lr_PromptTokens : Z; lr_CompletionTokens : Z; lr_TotalTokens : Z; lr_CostMicro : Z;
  lr_Currency : string; lr_ErrorCode : string; lr_Streamed : bool
}.

Definition maxLogWindow : Z := 7 * 24 * Hour.
Definition maxLogLimit : Z := 200.
Definition defLogLimit : Z := 50.

Definition previewID (id : string) : string :=
  if (String.length id <=? 8)%nat then id else Strings.slice_to 8 id.

(** SQL [LIKE] with the default escape character. *)
Fixpoint like_any (pat : string -> bool) (s : string) : bool :=
  pat s || match s with EmptyString => false | String _ s' => like_any pat s' end.

Fixpoint like (p : string) (s : string) {struct p} : bool :=
  match p with
  | EmptyString => match s with EmptyString => true | _ => false end
  | String c p' =>
      if Ascii.eqb c "%"%char then like_any (like p') s
      else if Ascii.eqb c "_"%char then
        match s with EmptyString => false | String _ s' => like p' s' end
      else if Ascii.eqb c (GoStd.ascii_of_byte 92) then
        match p' with
        | String c' p'' => match s with
                           | String a s' => Ascii.eqb a c' && like p'' s'
                           | EmptyString => false
                           end
        | EmptyString => false
        end
      else match s with
           | String a s' => Ascii.eqb a c && like p' s'
           | EmptyString => false
           end
  end.

(** The [WHERE] clause assembled from the query; [None] is an unknown status
    bucket. *)
Definition status_ok (bucket : string) (status : Z) : option bool :=
  if bool_decide (bucket = "") then Some true
  else if bool_decide (bucket = "2xx") then Some ((200 <=? status) && (status <? 300))
  else if bool_decide (bucket = "4xx") then Some ((400 <=? status) && (status <? 500))
  else if bool_decide (bucket = "5xx") then Some ((500 <=? status) && (status <? 600))
  else None.

Definition where_ (q : LogQuery) (lo hi : Z) (r : LogRow) : bool :=
  (lo <=? r.(lr_StartedAt)) && (r.(lr_StartedAt) <? hi)
  && (bool_decide (q.(APIKeyIDPrefix) = "")
      || like (q.(APIKeyIDPrefix) +:+ "%") r.(lr_APIKeyID))
  && (bool_decide (q.(Model) = "") || bool_decide (r.(lr_Model) = q.(Model)))
  && match status_ok q.(StatusBucket) r.(lr_Status) with Some b => b | None => false end.

Definition newest_first (r1 r2 : LogRow) : Prop := r2.(lr_StartedAt) <= r1.(lr_StartedAt).
#[export] Instance newest_first_dec r1 r2 : Decision (newest_first r1 r2) := Z_le_dec _ _.

#[export] Instance newest_first_total : Total newest_first.
Proof. intros r1 r2. unfold newest_first. lia. Qed.
#[export] Instance newest_first_trans : Transitive newest_first.
Proof. intros r1 r2 r3. unfold newest_first. lia. Qed.

Definition with_preview (r : LogRow) : LogRow :=
  {| lr_RequestID := r.(lr_RequestID); lr_StartedAt := r.(lr_StartedAt);
     lr_APIKeyID := r.(lr_APIKeyID); lr_APIKeyIDPreview := previewID r.(lr_APIKeyID);
     lr_Model := r.(lr_Model); lr_Provider := r.(lr_Provider); lr_Status := r.(lr_Status);
     lr_LatencyMs := r.(lr_LatencyMs); lr_PromptTokens := r.(lr_PromptTokens);
     lr_CompletionTokens := r.(lr_CompletionTokens); lr_TotalTokens := r.(lr_TotalTokens);
     lr_CostMicro := r.(lr_CostMicro); lr_Currency := r.(lr_Currency);
     lr_ErrorCode := r.(lr_ErrorCode); lr_Streamed := r.(lr_Streamed) |}.

(** [ListLogs] over the rows of [request_logs].  The total comes with each
    returned row ([COUNT over ()]), so it is 0 when no row is returned. *)
Definition ListLogs (pool : option (list LogRow)) (dbErr : option error) (q : LogQuery)
    : error + list LogRow * Z :=
  match q.(Start), q.(End_) with
  | Some lo, Some hi =>
      if negb (lo <? hi) then inl (Sentinel_ ErrLogWindowInvalid)
      else if maxLogWindow <? time_sub hi lo then inl (Sentinel_ ErrLogWindowTooWide)
      else match pool with
      | None => inl (Errorf "billing: pool is nil" [] None)
      | Some table =>
          let limit := if (q.(Limit) <=? 0) || (maxLogLimit <? q.(Limit)) then defLogLimit
                       else q.(Limit) in
          let offset := if q.(Offset) <? 0 then 0 else q.(Offset) in
          match status_ok q.(StatusBucket) 0 with
          | None => inl (Errorf "billing: invalid status_bucket %q (allowed: 2xx|4xx|5xx)"
                           [ArgS q.(StatusBucket)] None)
          | Some _ =>
              match dbErr with
              | Some e => inl (Errorf "billing: query request_logs: %w" [] (Some e))
              | None =>
                  let hits := merge_sort newest_first (List.filter (where_ q lo hi) table) in
                  let page := take (Z.to_nat limit) (drop (Z.to_nat offset) hits) in
                  inr (map with_preview page,
                       match page with [] => 0 | _ => Z.of_nat (length hits) end)
              end
          end
      end
  | _, _ => inl (Sentinel_ ErrLogWindowInvalid)
  end.

(** An admin can never page out more than 200 rows or rows outside the
    requested window of at most seven days; every returned row matches the
    filters and rows come newest first. *)
Theorem ListLogs_bounded table dbErr q out total :
  ListLogs (Some table) dbErr q = inr (out, total) ->
  exists lo hi, q.(Start) = Some lo /\ q.(End_) = Some hi /\ lo < hi /\
    time_sub hi lo <= maxLogWindow /\
    (length out <= 200)%nat /\ StronglySorted newest_first out /\
    Forall (fun r => exists r0, r0 ∈ table /\ r = with_preview r0 /\ where_ q lo hi r0 = true) out /\
    (out <> [] -> total = Z.of_nat (length (List.filter (where_ q lo hi) table))).
Proof.
  unfold ListLogs. destruct (Start q) as [lo|]; [|done]. destruct (End_ q) as [hi|]; [|done].
  destruct (Z.ltb_spec lo hi) as [Hlt|]; [|done]. simpl negb. cbv iota.
  destruct (Z.ltb_spec maxLogWindow (time_sub hi lo)) as [|Hw]; [done|].
  destruct (status_ok (StatusBucket q) 0); [|done]. destruct dbErr; [done|].
  set (limit := if (Limit q <=? 0) || (maxLogLimit <? Limit q) then defLogLimit else Limit q).
  set (hits := merge_sort newest_first (List.filter (where_ q lo hi) table)).
  set (page := take (Z.to_nat limit) _).
  intros [= <- <-]. exists lo, hi.
  assert (Hlim : 0 < limit <= 200).
  { unfold limit, maxLogLimit, defLogLimit.
    destruct (Z.leb_spec (Limit q) 0), (Z.ltb_spec 200 (Limit q)); simpl; lia. }
  assert (Hperm : hits ≡ₚ List.filter (where_ q lo hi) table) by apply merge_sort_Permutation.
  assert (Hsub : page `sublist_of` hits)
    by (unfold page; etrans; [apply sublist_take|apply sublist_drop]).
  assert (Hsort : StronglySorted newest_first hits).
  { apply StronglySorted_merge_sort; apply _. }
  split_and!; try done.
  - rewrite length_map. unfold page. rewrite length_take. lia.
  - assert (Hp : StronglySorted newest_first page).
    { clearbody page hits. clear -Hsub Hsort. induction Hsub as [|x l1 l2 Hs IH|x l1 l2 Hs IH].
      - constructor.
      - inversion Hsort as [|? ? Hss Hall]; subst. constructor; [by apply IH|].
        rewrite Forall_forall in Hall |- *. intros y Hy. by eapply Hall, elem_of_sublist.
      - inversion Hsort; subst. by apply IH. }
    clearbody page. clear -Hp. induction Hp as [|x l Hp IH Hall]; simpl; constructor; [done|].
    apply Forall_map. rewrite Forall_forall in Hall |- *. intros y Hy. exact (Hall y Hy).
  - apply Forall_map, Forall_forall. intros r Hr. exists r. split_and!; [|done|].
    + assert (Hin : r ∈ hits) by by eapply elem_of_sublist.
      rewrite Hperm in Hin. apply list_elem_of_In, filter_In in Hin as [Hin _].
      by apply list_elem_of_In.
    + assert (Hin : r ∈ hits) by by eapply elem_of_sublist.
      rewrite Hperm in Hin. apply list_elem_of_In, filter_In in Hin as [_ Hin]. done.
  - intros Hne. destruct page; [done|]. by rewrite Hperm.
Qed.

Definition test_row (id : string) (at_ : Z) : LogRow :=
  {| lr_RequestID := id; lr_StartedAt := at_; lr_APIKeyID := "key-123456789";
     lr_APIKeyIDPreview := ""; lr_Model := "gpt-4o"; lr_Provider := "openai"; lr_Status := 200;
     lr_LatencyMs := 12; lr_PromptTokens := 3; lr_CompletionTokens := 4; lr_TotalTokens := 7;
     lr_CostMicro := 9; lr_Currency := "USD"; lr_ErrorCode := ""; lr_Streamed := false |}.

Definition test_query : LogQuery :=
  {| Start := Some 0; End_ := Some (3 * Hour); APIKeyIDPrefix := "key-"; Model := "gpt-4o";
     StatusBucket := "2xx"; Limit := 0; Offset := 0 |}.

Lemma ListLogs_bounded_witness :
  exists lo hi, test_query.(Start) = Some lo /\ test_query.(End_) = Some hi /\ lo < hi /\
    time_sub hi lo <= maxLogWindow /\ (2 <= 200)%nat /\
    2 = Z.of_nat (length (List.filter (where_ test_query lo hi)
                            [test_row "a" 5; test_row "b" 9; test_row "c" (4 * Hour)])).
Proof.
  destruct (ListLogs_bounded [test_row "a" 5; test_row "b" 9; test_row "c" (4 * Hour)] None test_query
              [with_preview (test_row "b" 9); with_preview (test_row "a" 5)] 2)
    as (lo & hi & H1 & H2 & H3 & H4 & H5 & _ & _ & H8); [by vm_compute|].
  exists lo, hi. split_and!; [done|done|done|done|done|by apply H8].
Defined.
End Logs.
