(* ===== verification/Auth.v ===== *)
(** * Auth: API keys, scopes, the lookup cache and revocation

    [internal/auth]: principals and scopes ([auth.go]), the in-memory table
    ([static.go]), the PostgreSQL lookup ([postgres.go]), the Redis cache in
    front of it ([cached.go]) and the key store behind the admin endpoints
    ([keystore.go]); [internal/server/middleware/auth.go] and [scope.go].
    SHA-256 is a parameter. *)

From S2P Require Import Prelude GoStd Float64 Errors Types Encoding Wire Billing.
From stdpp Require Import sorting.
Import Json.
Local Open Scope Z_scope.

(** [crypto/sha256.Sum256]: a digest is a list of bytes. *)
Class Sha256 := Sum256 : string -> bytes.
Class Sha256Laws `{!Sha256} : Prop := Sum256_bytes : forall s, Forall is_byte (Sum256 s).

(** ** Principals and scopes *)

Record Principal := {
  p_ID : string;
  p_Name : string;
  p_Scopes : gmap string (list string)
}.

(** [Principal.HasScope]; the receiver may be nil. *)
Definition HasScope (p : option Principal) (category value : string) : bool :=
  match p with
  | None => false
  | Some p => existsb (fun v => bool_decide (v = "*") || bool_decide (v = value))
                (default [] (p.(p_Scopes) !! category))
  end.

Definition hashKeyBytes `{!Sha256} (secret : string) : bytes := Sum256 secret.
Definition hashKeyHex `{!Sha256} (secret : string) : string := Hex.EncodeToString (Sum256 secret).

(** ** The static table *)

Module Static.
Section Static.
Context `{!Sha256}.

Record StaticEntry := { ID : string; Name : string; Secret : string; Scopes : gmap string (list string) }.
Record StaticAuthenticator := { byHash : gmap string Principal }.

(** The loop state of [NewStatic]: the table, the identifiers seen, the
    errors. *)
Definition add_entry (st : gmap string Principal * gset string * list error) (ie : Z * StaticEntry)
    : gmap string Principal * gset string * list error :=
  let '(byHash, seenID, errs) := st in
  let '(i, e) := ie in
  if bool_decide (e.(ID) = "") then
    (byHash, seenID, errs ++ [Errorf "auth: entry[%d]: id is required" [ArgD i] None])
  else if bool_decide (e.(Secret) = "") then
    (byHash, seenID, errs ++ [Errorf "auth: entry[%d] %q: secret is required" [ArgD i; ArgS e.(ID)] None])
  else if bool_decide (e.(ID) ∈ seenID) then
    (byHash, seenID, errs ++ [Errorf "auth: entry[%d]: duplicate id %q" [ArgD i; ArgS e.(ID)] None])
  else
    let seenID := {[e.(ID)]} ∪ seenID in
    let hash := hashKeyHex e.(Secret) in
    match byHash !! hash with
    | Some existing =>
        (byHash, seenID, errs ++ [Errorf "auth: entry[%d] %q: secret collides with id %q"
                                    [ArgD i; ArgS e.(ID); ArgS existing.(p_ID)] None])
    | None =>
        (<[hash := {| p_ID := e.(ID); p_Name := e.(Name); p_Scopes := e.(Scopes) |}]> byHash, seenID, errs)
    end.

Definition NewStatic (entries : list StaticEntry) : error + StaticAuthenticator :=
  match entries with
  | [] => inl (Errorf "auth: at least one key entry is required" [] None)
  | _ =>
      let '(byHash, _, errs) :=
        fold_left add_entry (imap (fun i e => (Z.of_nat i, e)) entries) (∅, ∅, []) in
      match errs with
      | [] => inr {| byHash := byHash |}
      | _ => inl (Errors.Join errs)
      end
  end.

Definition Authenticate (s : StaticAuthenticator) (key : string) : error + Principal :=
  if bool_decide (key = "") then inl (Sentinel_ ErrMissingCredentials)
  else match s.(byHash) !! hashKeyHex key with
       | None => inl (Sentinel_ ErrInvalidCredentials)
       | Some p => inr p
       end.

Definition Size (s : StaticAuthenticator) : nat := size s.(byHash).

(** What the loop has established after the entries [es]. *)
Definition built (es : list StaticEntry) (tbl : gmap string Principal) : Prop :=
  forall h p, tbl !! h = Some p <->
    exists e, e ∈ es /\ h = hashKeyHex e.(Secret) /\
      p = {| p_ID := e.(ID); p_Name := e.(Name); p_Scopes := e.(Scopes) |}.

Lemma add_entry_errs es st :
  (fold_left add_entry es st).2 = [] -> st.2 = [].
Proof.
  revert st. induction es as [|[i e] es IH]; intros st; [done|]. cbn [fold_left]. intros Hst%IH.
  destruct st as [[t s] er]. unfold add_entry in Hst.
  repeat case_bool_decide; try destruct (t !! _); cbn in *; try done; by destruct er.
Qed.

Lemma add_entry_step i e tbl seen es tbl' seen' errs' :
  built es tbl -> add_entry (tbl, seen, []) (i, e) = (tbl', seen', errs') -> errs' = [] ->
  built (es ++ [e]) tbl' /\ e.(ID) ∉ seen /\ seen' = {[e.(ID)]} ∪ seen /\ e.(Secret) <> "".
Proof.
  intros Hb. unfold add_entry. case_bool_decide; [by intros [= <- <- <-]|].
  case_bool_decide; [by intros [= <- <- <-]|]. case_bool_decide; [by intros [= <- <- <-]|].
  destruct (tbl !! hashKeyHex (Secret e)) eqn:El; intros [= <- <- <-] He; [done|].
  split_and!; [|done..]. intros h p. destruct (decide (h = hashKeyHex (Secret e))) as [->|Hne].
  - rewrite lookup_insert_eq. split.
    + intros [= <-]. exists e. split_and!; [set_solver|done..].
    + intros (e' & Hin & Hh & ->). apply elem_of_app in Hin as [Hin|Hin%list_elem_of_singleton].
      * exfalso. assert (Hl : tbl !! hashKeyHex (Secret e) = Some (Build_Principal (ID e') (Name e') (Scopes e')))
          by (apply Hb; eauto). by rewrite El in Hl.
      * by subst.
  - rewrite lookup_insert_ne by done. rewrite (Hb h p). split.
    + intros (e' & Hin & ? & ?). exists e'. set_solver.
    + intros (e' & Hin & -> & ->). exists e'. split; [|done].
      apply elem_of_app in Hin as [?|Hin%list_elem_of_singleton]; [done|by subst].
Qed.

Lemma add_entries_built ies es tbl seen tbl' seen' :
  built es tbl -> fold_left add_entry ies (tbl, seen, []) = (tbl', seen', []) ->
  built (es ++ ies.*2) tbl' /\ Forall (fun e => e.(Secret) <> "") ies.*2.
Proof.
  revert es tbl seen. induction ies as [|[i e] ies IH]; intros es tbl seen Hb; cbn [fold_left].
  - intros [= <- <-]. by rewrite app_nil_r.
  - intros Hf. destruct (add_entry (tbl, seen, []) (i, e)) as [[t1 s1] e1] eqn:E.
    assert (e1 = []) as -> by (apply (add_entry_errs ies (t1, s1, e1)); by rewrite Hf).
    destruct (add_entry_step _ _ _ _ _ _ _ _ Hb E eq_refl) as (Hb1 & _ & _ & Hs).
    destruct (IH _ _ _ Hb1 Hf) as [Hb' Hall]. rewrite fmap_cons. split; [|by constructor].
    by rewrite <- app_assoc in Hb'.
Qed.

Lemma imap_snd {A} (l : list A) : (imap (fun i e => (Z.of_nat i, e)) l).*2 = l.
Proof.
  apply list_eq. intros i. rewrite list_lookup_fmap, list_lookup_imap. by destruct (l !! i).
Qed.

(** A table that was built authenticates exactly its entries: a key is
    accepted iff its digest is that of some entry's secret, as that entry's
    principal. *)
Theorem NewStatic_spec entries s key p :
  NewStatic entries = inr s ->
  Authenticate s key = inr p <->
  key <> "" /\ exists e, e ∈ entries /\ hashKeyHex key = hashKeyHex e.(Secret) /\
    p = {| p_ID := e.(ID); p_Name := e.(Name); p_Scopes := e.(Scopes) |}.
Proof.
  intros Hn. unfold NewStatic in Hn. destruct entries as [|e0 es]; [done|].
  set (ies := imap _ _) in Hn. destruct (fold_left add_entry ies (∅, ∅, [])) as [[t s1] errs] eqn:E.
  destruct errs; [|done]. injection Hn as <-.
  destruct (add_entries_built ies [] ∅ ∅ t s1) as [Hb _]; [|done|].
  { intros h q. rewrite lookup_empty. split; [done|]. intros (e & He & _). by apply elem_of_nil in He. }
  unfold ies in Hb. rewrite imap_snd in Hb. cbn [app] in Hb. specialize (Hb (hashKeyHex key) p).
  unfold Authenticate. cbn [byHash]. case_bool_decide as Hk.
  - split; [done|]. by intros [? _].
  - destruct (t !! hashKeyHex key) as [q|].
    + split; [intros [= <-]|intros [_ He%Hb]]; [split; [done|by apply Hb]|]. by simplify_eq.
    + split; [done|]. by intros [_ He%Hb].
Qed.
End Static.
End Static.

(** ** The table [api_keys] *)

Record row := {
  r_id : string; r_key_hash : bytes; r_name : string; r_scopes : json;
  r_created_at : Z; r_last_used_at : option Z; r_revoked_at : option Z
}.

Definition set_last_used (t : Z) (r : row) : row :=
  {| r_id := r.(r_id); r_key_hash := r.(r_key_hash); r_name := r.(r_name); r_scopes := r.(r_scopes);
     r_created_at := r.(r_created_at); r_last_used_at := Some t; r_revoked_at := r.(r_revoked_at) |}.
Definition set_revoked (t : Z) (r : row) : row :=
  {| r_id := r.(r_id); r_key_hash := r.(r_key_hash); r_name := r.(r_name); r_scopes := r.(r_scopes);
     r_created_at := r.(r_created_at); r_last_used_at := r.(r_last_used_at); r_revoked_at := Some t |}.

Definition active (r : row) : bool := bool_decide (r.(r_revoked_at) = None).

(** A [map[string][]string] from JSON. *)
Definition string_map : setter (gmap string (list string)) := fun j a =>
  match j with
  | JNull => Some ∅
  | JObject ms =>
      fold_left (fun acc kv => m ← acc; xs ← set_slice "" set_string kv.2 [];
                               Some (<[kv.1 := xs]> m)) ms (Some a)
  | _ => None
  end.

(** The values the sources treat as "no scopes". *)
Definition no_scopes (j : json) : bool :=
  match j with JNull => true | JObject [] => true | _ => false end.

Definition decodeScopes (raw : json) : gmap string (list string) :=
  if no_scopes raw then ∅ else default ∅ (string_map raw ∅).

(** ** The PostgreSQL lookup *)

Section Postgres.
Context `{!Sha256}.

(** The [UPDATE ... RETURNING] of [PostgresAuthenticator.Authenticate]: every
    active row with the hash is touched and the first one returned ([key_hash]
    is [UNIQUE], so there is at most one). *)
Definition touch (now : Z) (hash : bytes) (t : list row) : list row :=
  map (fun r => if bool_decide (r.(r_key_hash) = hash) && active r then set_last_used now r else r) t.

Definition find_active (hash : bytes) (t : list row) : option row :=
  List.find (fun r => bool_decide (r.(r_key_hash) = hash) && active r) t.

(** The principal of a returned row. *)
Definition row_principal (r : row) : error + Principal :=
  if no_scopes r.(r_scopes) then inr {| p_ID := r.(r_id); p_Name := r.(r_name); p_Scopes := ∅ |}
  else match string_map r.(r_scopes) ∅ with
       | Some m => inr {| p_ID := r.(r_id); p_Name := r.(r_name); p_Scopes := m |}
       | None => inl (Errorf "auth: decode scopes for %q: %w" [ArgS r.(r_id)]
                        (Some (Foreign "json: cannot unmarshal" [])))
       end.

(** [PostgresAuthenticator.Authenticate] on the table [t]; [pool] says whether
    the authenticator has one. *)
Definition Postgres_Authenticate (pool : bool) (o : db_outcome) (now : Z) (key : string) (t : list row)
    : (error + Principal) * list row :=
  if bool_decide (key = "") then (inl (Sentinel_ ErrMissingCredentials), t)
  else if negb pool then (inl (Errorf "auth: postgres authenticator has no pool" [] None), t)
  else
    let hash := hashKeyBytes key in
    let t' := if applied o then touch now hash t else t in
    let scan := match o with
                | DbErr _ e => inl e
                | DbOk => match find_active hash t with
                          | None => inl (Sentinel_ ErrNoRows)
                          | Some r => inr r
                          end
                end in
    match scan with
    | inl err =>
        if Is err ErrNoRows then (inl (Sentinel_ ErrInvalidCredentials), t')
        else (inl (Errorf "auth: query api_keys: %w" [] (Some err)), t')
    | inr r => (row_principal r, t')
    end.
End Postgres.

(** ** The Redis cache in front of it

    Redis holds, per key, a value and the instant it expires; a value is a JSON
    value or text that is not JSON ([None]). *)

Abbreviation redis := (gmap string (option json * Z)).

Definition redis_get (now : Z) (k : string) (r : redis) : option (option json) :=
  match r !! k with
  | Some (v, exp) => if now <? exp then Some v else None
  | None => None
  end.

Definition marshalPrincipal (p : Principal) : json :=
  JObject [("ID", of_string p.(p_ID)); ("Name", of_string p.(p_Name));
           ("Scopes", if bool_decide (p.(p_Scopes) = ∅) then JNull
                      else of_map ((fun vs => JArray (map of_string vs)) <$> p.(p_Scopes)))].

Definition principalFields : list (field Principal) :=
  [("ID", via p_ID (fun x p => Build_Principal x p.(p_Name) p.(p_Scopes)) set_string);
   ("Name", via p_Name (fun x p => Build_Principal p.(p_ID) x p.(p_Scopes)) set_string);
   ("Scopes", via p_Scopes (fun x p => Build_Principal p.(p_ID) p.(p_Name) x) string_map)].

Definition unmarshalPrincipal (j : json) : option Principal :=
  set_struct principalFields j (Build_Principal "" "" ∅).

Record CachedAuthenticator := { posTTL : Z; negTTL : Z }.

Definition NewCached (posTTL negTTL : Z) : CachedAuthenticator :=
  {| posTTL := posTTL; negTTL := negTTL |}.

Definition cacheKeyOf (hash : bytes) : string := "auth:k:" +:+ Hex.EncodeToString hash.

(** [read]: a miss, a malformed value, or a definite answer.  [getErr] is a
    Redis failure. *)
Inductive read_result := Miss | Malformed | Hit (h : error + Principal).

Definition read (getErr : option error) (now : Z) (cacheKey : string) (r : redis) : read_result :=
  match getErr with
  | Some _ => Miss
  | None =>
      match redis_get now cacheKey r with
      | None => Miss
      | Some (Some JNull) => Hit (inl (Sentinel_ ErrInvalidCredentials))
      | Some (Some j) => match unmarshalPrincipal j with
                         | Some p => Hit (inr p)
                         | None => Malformed
                         end
      | Some None => Malformed
      end
  end.

(** [write]; [set] says whether a [SET] reaches Redis. *)
Definition write (c : CachedAuthenticator) (set : bool) (now : Z) (cacheKey : string)
    (res : error + Principal) (r : redis) : redis :=
  match res with
  | inr p => if c.(posTTL) <=? 0 then r
             else if set then <[cacheKey := (Some (marshalPrincipal p), now + c.(posTTL))]> r else r
  | inl e =>
      if Is e ErrInvalidCredentials then
        if c.(negTTL) <=? 0 then r
        else if set then <[cacheKey := (Some JNull, now + c.(negTTL))]> r else r
      else r
  end.

Section Cached.
Context `{!Sha256}.

(** What one call meets outside the process. *)
Record weather := { get_err : option error; set_ok : bool; db : db_outcome }.

(** [CachedAuthenticator.Authenticate] when no other call overlaps, over the
    PostgreSQL lookup. *)
Definition Cached_Authenticate (c : CachedAuthenticator) (w : weather) (now : Z) (key : string)
    (t : list row) (r : redis) : (error + Principal) * (list row * redis) :=
  if bool_decide (key = "") then (inl (Sentinel_ ErrMissingCredentials), (t, r))
  else
    let cacheKey := cacheKeyOf (Sum256 key) in
    match read w.(get_err) now cacheKey r with
    | Hit h => (h, (t, r))
    | Miss | Malformed =>
        let '(res, t') := Postgres_Authenticate true w.(db) now key t in
        (res, (t', write c w.(set_ok) now cacheKey res r))
    end.
End Cached.

(** *** The cached form of a principal *)

Definition valid_principal (p : Principal) : Prop :=
  valid_string p.(p_ID) /\ valid_string p.(p_Name) /\
  map_Forall (fun _ vs => Forall valid_string vs) p.(p_Scopes).

Lemma string_map_spec ms m :
  Forall (fun kv => exists xs, set_slice "" set_string kv.2 [] = Some xs) ms ->
  (forall k, m !! k = raw_of ms !! k ≫= fun v => set_slice "" set_string v []) ->
  string_map (JObject ms) ∅ = Some m.
Proof.
  intros Hall. cbn [string_map]. revert m. induction ms as [|[k v] ms IH] using rev_ind; intros m Hm.
  - cbn. f_equal. symmetry. apply map_empty. intros k. by rewrite Hm.
  - apply Forall_app in Hall as [Hall Hv]. apply Forall_cons_1 in Hv as [[xs Hxs] _]. cbn in Hxs.
    rewrite fold_left_app.
    rewrite (IH Hall (omap (fun v => set_slice "" set_string v []) (raw_of ms)))
      by (intros k'; by rewrite lookup_omap).
    cbn. rewrite Hxs. cbn. f_equal. apply map_eq. intros k'.
    rewrite Hm, raw_of_snoc. destruct (decide (k' = k)) as [->|Hne].
    + rewrite !lookup_insert_eq. by cbn; rewrite Hxs.
    + by rewrite !lookup_insert_ne, lookup_omap by done.
Qed.

Lemma scopes_roundtrip (m : gmap string (list string)) :
  map_Forall (fun _ vs => Forall valid_string vs) m ->
  string_map (of_map ((fun vs => JArray (map of_string vs)) <$> m)) ∅ = Some m.
Proof.
  intros Hv. unfold of_map. set (ms := merge_sort _ _).
  assert (Hp : ms ≡ₚ map_to_list ((fun vs => JArray (map of_string vs)) <$> m))
    by apply merge_sort_Permutation.
  assert (Hdec : forall k vs, m !! k = Some vs ->
            set_slice "" set_string (JArray (map of_string vs)) [] = Some vs).
  { intros k vs Hk. apply set_slice_ok. eapply list.Forall_impl; [by apply (Hv k)|].
    intros s. apply set_of_string. }
  apply string_map_spec.
  - rewrite Hp. apply Forall_forall. intros [k v] Hin%elem_of_map_to_list.
    apply lookup_fmap_Some in Hin as (vs & <- & Hk). exists vs. by apply (Hdec k).
  - intros k. rewrite (raw_of_map_to_list _ _ Hp), lookup_fmap.
    destruct (m !! k) as [vs|] eqn:Hk; cbn [fmap option_fmap option_map mbind option_bind]; [|done].
    symmetry. by apply (Hdec k).
Qed.

(** A principal is read back from the cache as it was written. *)
Lemma principal_roundtrip p :
  valid_principal p -> unmarshalPrincipal (marshalPrincipal p) = Some p.
Proof.
  intros (H1 & H2 & H3). unfold unmarshalPrincipal, marshalPrincipal. cbn [set_struct].
  case_bool_decide as H0; store_all ltac:(first [by apply set_of_string | by apply scopes_roundtrip | done]).
  - destruct p; cbn in *. by subst.
  - by destruct p.
Qed.

Lemma marshalPrincipal_not_null p : marshalPrincipal p <> JNull.
Proof. done. Qed.

(** ** The key store *)

Module Keystore.

Record KeyRecord := {
  k_ID : string; k_IDPreview : string; k_Name : string; k_HashHexShort : string;
  k_Scopes : gmap string (list string);
  k_CreatedAt : Z; k_LastUsedAt : option Z; k_RevokedAt : option Z
}.

Record ListOpts := { NamePrefix : string; IncludeRevoked : bool; Limit : Z; Offset : Z }.

Definition secretPrefix : string := "sk-".
Definition secretBytes : nat := 32.

Definition idPreview (id : string) : string :=
  if (String.length id <=? 8)%nat then id else Strings.slice_to 8 id.

Definition shortHashHex (raw : bytes) : string :=
  let full := Hex.EncodeToString raw in
  if (String.length full <=? 12)%nat then full else Strings.slice_to 12 full.

Definition record (r : row) : KeyRecord :=
  {| k_ID := r.(r_id); k_IDPreview := idPreview r.(r_id); k_Name := r.(r_name);
     k_HashHexShort := shortHashHex r.(r_key_hash); k_Scopes := decodeScopes r.(r_scopes);
     k_CreatedAt := r.(r_created_at); k_LastUsedAt := r.(r_last_used_at);
     k_RevokedAt := r.(r_revoked_at) |}.

Definition newest_first (r1 r2 : row) : Prop := r2.(r_created_at) <= r1.(r_created_at).
#[export] Instance newest_first_dec r1 r2 : Decision (newest_first r1 r2) := Z_le_dec _ _.

(** The [WHERE] clause of [List]. *)
Definition listed (opts : ListOpts) (r : row) : bool :=
  (opts.(IncludeRevoked) || active r)
  && (bool_decide (opts.(NamePrefix) = "") || Logs.like (opts.(NamePrefix) +:+ "%") r.(r_name)).

(** [Keystore.List]; [pool] is the table behind the store, if it has one. *)
Definition List_ (pool : option (list row)) (dbErr : option error) (opts : ListOpts)
    : error + list KeyRecord * Z :=
  match pool with
  | None => inl (Errorf "auth: keystore has no pool" [] None)
  | Some t =>
      let limit := if (opts.(Limit) <=? 0) || (200 <? opts.(Limit)) then 50 else opts.(Limit) in
      let offset := if opts.(Offset) <? 0 then 0 else opts.(Offset) in
      match dbErr with
      | Some e => inl (Errorf "auth: list api_keys: %w" [] (Some e))
      | None =>
          let hits := merge_sort newest_first (List.filter (listed opts) t) in
          let page := take (Z.to_nat limit) (drop (Z.to_nat offset) hits) in
          inr (map record page, match page with [] => 0 | _ => Z.of_nat (length hits) end)
      end
  end.

(** [generateSecret] from the bytes the system's random source returned. *)
Definition generateSecret (rand : error + bytes) : error + string :=
  match rand with
  | inl e => inl e
  | inr buf => inr (secretPrefix +:+ Base64.EncodeToString buf)
  end.

(** [scopePattern]: [^[a-z][a-z_]*:[a-z][a-z_]*$]. *)
Definition lower (b : Z) : bool := Utf8.within 97 122 b.
Definition identifier (l : bytes) : bool :=
  match l with
  | [] => false
  | b :: l' => lower b && forallb (fun b => lower b || (b =? 95)) l'
  end.

Fixpoint cut_colon (l : bytes) : option (bytes * bytes) :=
  match l with
  | [] => None
  | b :: l' => if b =? 58 then Some ([], l') else '(x, y) ← cut_colon l'; Some (b :: x, y)
  end.

Definition scopePattern (tuple : string) : bool :=
  match cut_colon (bytes_of tuple) with
  | Some (x, y) => identifier x && identifier y
  | None => false
  end.

(** [validateScopes]; Go visits the categories in no particular order, which
    only decides the error that is reported first. *)
Definition validate_value (cat v : string) : option error :=
  let tuple := cat +:+ ":" +:+ v in
  if scopePattern tuple then None
  else Some (Errorf "auth: scope %q invalid (must match %s)"
               [ArgS tuple; ArgS "^[a-z][a-z_]*:[a-z][a-z_]*$"] None).

Definition validate_category (cv : string * list string) : option error :=
  match cv.2 with
  | [] => Some (Errorf "auth: scope category %q has no values" [ArgS cv.1] None)
  | vs => head (omap (validate_value cv.1) vs)
  end.

Definition validateScopes (scopes : gmap string (list string)) : option error :=
  head (omap validate_category (map_to_list scopes)).

Definition scopesJSON (scopes : gmap string (list string)) : json :=
  if bool_decide (scopes = ∅) then JObject []
  else of_map ((fun vs => JArray (map of_string vs)) <$> scopes).

Section Store.
Context `{!Sha256}.

(** The [INSERT]: [id] is the primary key and [key_hash] is [UNIQUE]. *)
Definition conflicts (id : string) (hash : bytes) (t : list row) : bool :=
  existsb (fun r => bool_decide (r.(r_id) = id) || bool_decide (r.(r_key_hash) = hash)) t.

Definition insert_row (o : db_outcome) (r : row) (t : list row) : option error * list row :=
  if conflicts r.(r_id) r.(r_key_hash) t then
    (Some (Foreign "duplicate key value violates unique constraint" []), t)
  else match o with
       | DbOk => (None, t ++ [r])
       | DbErr b e => (Some e, if b then t ++ [r] else t)
       end.

(** [Keystore.Create]; [id] is the fresh UUID, [rand] the entropy. *)
Definition Create (pool : bool) (o : db_outcome) (now : Z) (id : string) (rand : error + bytes)
    (name : string) (scopes : gmap string (list string)) (t : list row)
    : (error + KeyRecord * string) * list row :=
  if negb pool then (inl (Errorf "auth: keystore has no pool" [] None), t)
  else if bool_decide (name = "") then (inl (Errorf "auth: name is required" [] None), t)
  else if (64 <? String.length name)%nat then (inl (Errorf "auth: name must be <= 64 chars" [] None), t)
  else match validateScopes scopes with
  | Some err => (inl err, t)
  | None =>
      match generateSecret rand with
      | inl err => (inl (Errorf "auth: generate secret: %w" [] (Some err)), t)
      | inr secret =>
          let r := {| r_id := id; r_key_hash := Sum256 secret; r_name := name;
                      r_scopes := scopesJSON scopes; r_created_at := now;
                      r_last_used_at := None; r_revoked_at := None |} in
          let '(err, t') := insert_row o r t in
          match err with
          | Some e => (inl (Errorf "auth: insert api_key: %w" [] (Some e)), t')
          | None => (inr (record r, secret), t')
          end
      end
  end.

(** The statement of [Keystore.Revoke]: [revoked_at] is set once and kept. *)
Definition revoke_rows (now : Z) (id : string) (t : list row) : list row :=
  map (fun r => if bool_decide (r.(r_id) = id) && active r then set_revoked now r else r) t.

Definition find_id (id : string) (t : list row) : option row :=
  List.find (fun r => bool_decide (r.(r_id) = id)) t.

(** The database half of [Keystore.Revoke]: the updated row, or the error. *)
Definition revoke_db (pool : bool) (o : db_outcome) (now : Z) (id : string) (t : list row)
    : (error + row) * list row :=
  if negb pool then (inl (Errorf "auth: keystore has no pool" [] None), t)
  else if bool_decide (id = "") then (inl (Errorf "auth: id is required" [] None), t)
  else
    let t' := if applied o then revoke_rows now id t else t in
    let scan := match o with
                | DbErr _ e => inl e
                | DbOk => match find_id id t' with
                          | None => inl (Sentinel_ ErrNoRows)
                          | Some r => inr r
                          end
                end in
    match scan with
    | inl err => if Is err ErrNoRows then (inl (Sentinel_ ErrKeyNotFound), t')
                 else (inl (Errorf "auth: revoke api_key: %w" [] (Some err)), t')
    | inr r => (inr r, t')
    end.

(** The cache half; [cache] says whether the store has a Redis client and
    [del] whether the [DEL] reaches it. *)
Definition revoke_del (cache del : bool) (hash : bytes) (r : redis) : redis :=
  if cache && del then delete (cacheKeyOf hash) r else r.

(** [Keystore.Revoke]. *)
Definition Revoke (pool cache del : bool) (o : db_outcome) (now : Z) (id : string)
    (t : list row) (r : redis) : (error + KeyRecord) * (list row * redis) :=
  let '(res, t') := revoke_db pool o now id t in
  match res with
  | inl e => (inl e, (t', r))
  | inr rw => (inr (record rw), (t', revoke_del cache del rw.(r_key_hash) r))
  end.
End Store.

(** *** Facts about scopes and secrets *)

Lemma head_omap_None {A B} (f : A -> option B) l :
  head (omap f l) = None <-> Forall (fun x => f x = None) l.
Proof.
  induction l as [|x l IH]; cbn; [done|]. destruct (f x) eqn:E; cbn.
  - split; [done|]. intros H%Forall_cons_1. destruct H. congruence.
  - rewrite IH. split; [by constructor|]. by intros [_ ?]%Forall_cons_1.
Qed.

Lemma cut_colon_app l k x y :
  cut_colon (l ++ 58 :: k) = Some (x, y) -> 58 ∉ y -> x = l /\ y = k.
Proof.
  revert x. induction l as [|b l IH]; intros x; cbn; [by intros [= <- <-]|].
  destruct (Z.eqb_spec b 58) as [->|Hne].
  - intros [= <- <-] Hn. destruct Hn. set_solver.
  - destruct (cut_colon (l ++ 58 :: k)) as [[x' y']|]; cbn; [|done].
    intros [= <- <-] Hn. by destruct (IH x' eq_refl Hn) as [-> ->].
Qed.

Lemma identifier_chars l :
  identifier l = true -> Forall (fun b => (97 <= b <= 122) \/ b = 95) l /\ l <> [].
Proof.
  destruct l as [|b l]; [done|]. cbn. intros [Hb Hl]%andb_true_iff. split; [|done].
  unfold lower, Utf8.within in *. constructor; [bool_to_prop; lia|].
  apply Forall_forall. intros c Hc. apply list_elem_of_In in Hc.
  rewrite forallb_forall in Hl. specialize (Hl c Hc). apply orb_true_iff in Hl as [Hl|Hl]; bool_to_prop; lia.
Qed.

Lemma scopePattern_spec cat v :
  scopePattern (cat +:+ ":" +:+ v) = true ->
  identifier (bytes_of cat) = true /\ identifier (bytes_of v) = true.
Proof.
  unfold scopePattern. rewrite bytes_of_app.
  change (bytes_of (":" +:+ v)) with (58 :: bytes_of v).
  destruct (cut_colon _) as [[x y]|] eqn:E; [|done]. intros [Hx Hy]%andb_true_iff.
  apply cut_colon_app in E as [-> ->]; [done|].
  apply identifier_chars in Hy as [Hy _]. rewrite Forall_forall in Hy. intros Hin%Hy. lia.
Qed.

Lemma ascii_valid s : Forall (fun b => 0 <= b < 128) (bytes_of s) -> valid_string s.
Proof.
  unfold valid_string, Utf8.ValidString. generalize (bytes_of s). intros l Hl.
  induction Hl as [|b l Hb _ IH]; [done|]. cbn.
  destruct (Z.ltb_spec b 128) as [_|]; [|lia]. cbn. exact IH.
Qed.

Lemma identifier_valid s : identifier (bytes_of s) = true -> valid_string s /\ s <> "*".
Proof.
  intros [Hs Hne]%identifier_chars. split.
  - apply ascii_valid. eapply list.Forall_impl; [exact Hs|]. intros b. cbn. lia.
  - intros ->. apply Forall_cons_1 in Hs as [Hs _].
    change (byte_of_ascii _) with 42 in Hs. lia.
Qed.

Lemma validateScopes_ok scopes :
  validateScopes scopes = None ->
  map_Forall (fun cat vs => vs <> [] /\ Forall (fun v => identifier (bytes_of v) = true) vs) scopes.
Proof.
  intros H%head_omap_None. rewrite Forall_forall in H. intros cat vs Hl.
  specialize (H (cat, vs) (proj2 (elem_of_map_to_list _ _ _) Hl)). unfold validate_category in H.
  destruct vs as [|v0 vs0]; [done|]. split; [done|]. cbn [snd fst] in H. apply head_omap_None in H.
  eapply list.Forall_impl; [exact H|]. intros v. cbn. unfold validate_value.
  destruct (scopePattern _) eqn:E; [|done]. intros _. by apply scopePattern_spec in E as [_ ?].
Qed.

Section Created.
Context `{!Sha256}.

Lemma find_active_app hash t r :
  conflicts r.(r_id) hash t = false -> r.(r_key_hash) = hash -> active r = true ->
  find_active hash (t ++ [r]) = Some r.
Proof.
  intros Hc Hr Ha. unfold find_active. induction t as [|r' t IH]; cbn in *.
  - by rewrite Hr, bool_decide_true, Ha by done.
  - apply orb_false_iff in Hc as [[_ Hh]%orb_false_iff Hc]. rewrite Hh. cbn. by apply IH.
Qed.

Lemma scopesJSON_decodes scopes :
  validateScopes scopes = None ->
  (if no_scopes (scopesJSON scopes) then Some ∅ else string_map (scopesJSON scopes) ∅) = Some scopes.
Proof.
  intros Hv%validateScopes_ok. unfold scopesJSON. case_bool_decide as H0; [by rewrite H0|].
  assert (Hs : string_map (of_map ((fun vs => JArray (map of_string vs)) <$> scopes)) ∅ = Some scopes).
  { apply scopes_roundtrip. intros cat vs Hl. destruct (Hv cat vs Hl) as [_ Hall].
    eapply list.Forall_impl; [exact Hall|]. intros v Hi. by apply identifier_valid in Hi as [? _]. }
  destruct (no_scopes _) eqn:E; [|exact Hs]. exfalso. revert Hs E. unfold of_map.
  destruct (merge_sort _ _); cbn; [|done]. intros [= Hs]. by rewrite <- Hs in H0.
Qed.

Lemma HasScope_exact p scopes cat v :
  p.(p_Scopes) = scopes -> validateScopes scopes = None ->
  HasScope (Some p) cat v = true <-> exists vs, scopes !! cat = Some vs /\ v ∈ vs.
Proof.
  intros <- Hv%validateScopes_ok. cbn. rewrite existsb_exists. setoid_rewrite <- list_elem_of_In.
  destruct (p_Scopes p !! cat) as [vs|] eqn:E; cbn; [|set_solver]. split.
  - intros (x & Hx & Hor). exists vs. split; [done|].
    destruct (Hv cat vs E) as [_ Hall]. rewrite Forall_forall in Hall.
    destruct (identifier_valid x (Hall x Hx)) as [_ Hi].
    rewrite bool_decide_false in Hor by done. apply bool_decide_eq_true in Hor. by subst.
  - intros (vs' & [= <-] & Hin). exists v. split; [done|].
    rewrite (bool_decide_true (v = v)) by done. apply orb_true_r.
Qed.

(** A key the store creates works at once and means what was asked: the
    returned secret authenticates against the table, as the new identifier,
    with a principal that has exactly the requested scopes (no request can
    obtain the wildcard), and the secret itself is not stored: the row keeps
    only its digest.  A refused or failed creation returns no secret. *)
Theorem Create_authenticates pool o now id rand name scopes t rec secret t' now' cat v :
  Create pool o now id rand name scopes t = (inr (rec, secret), t') ->
  exists p t'', Postgres_Authenticate true DbOk now' secret t' = (inr p, t'') /\
    p.(p_ID) = id /\ p.(p_Name) = name /\
    (HasScope (Some p) cat v = true <-> exists vs, scopes !! cat = Some vs /\ v ∈ vs) /\
    exists r, t' = t ++ [r] /\ r.(r_key_hash) = Sum256 secret /\ record r = rec.
Proof.
  unfold Create. destruct pool; [|done]. cbn [negb].
  case_bool_decide; [done|]. case_match; [done|].
  destruct (validateScopes scopes) eqn:Hv; [done|].
  destruct rand as [|buf]; cbn [generateSecret]; [done|]. set (sec := secretPrefix +:+ _).
  set (r := Build_row _ _ _ _ _ _ _). unfold insert_row.
  destruct (conflicts (r_id r) (r_key_hash r) t) eqn:Hc; [done|]. destruct o; [|done].
  intros [= <- <- <-]. unfold Postgres_Authenticate. rewrite bool_decide_false by done. cbn [negb applied].
  change (hashKeyBytes sec) with (r_key_hash r). rewrite (find_active_app _ t r Hc) by done.
  unfold row_principal. cbn [r_scopes r].
  pose proof (scopesJSON_decodes scopes Hv) as Hd.
  destruct (no_scopes (scopesJSON scopes)).
  - injection Hd as <-. do 2 eexists. split; [done|]. split_and!; [done|done|by apply HasScope_exact|].
    by exists r.
  - rewrite Hd. do 2 eexists. split; [done|]. split_and!; [done|done|by apply HasScope_exact|].
    by exists r.
Qed.

(** The secret of a created key is the one generated from its entropy. *)
Lemma Create_secret pool o now id buf name scopes t rec secret t' :
  Create pool o now id (inr buf) name scopes t = (inr (rec, secret), t') ->
  generateSecret (inr buf) = inr secret.
Proof.
  unfold Create. repeat (case_match; try done). all: intros; by simplify_eq/=.
Qed.

(** Secrets are never shared by accident: different entropy gives different
    secrets, and a secret is [sk-] followed by 43 characters. *)
Theorem generateSecret_injective buf buf' s s' :
  Forall is_byte buf -> Forall is_byte buf' -> length buf = secretBytes ->
  generateSecret (inr buf) = inr s -> generateSecret (inr buf') = inr s' ->
  (s = s' -> buf = buf') /\ String.length s = 46%nat.
Proof.
  cbn. intros Hb Hb' Hlen [= <-] [= <-]. split.
  - intros Heq. apply (f_equal (Strings.slice_from 3)) in Heq.
    rewrite !(Strings.slice_from_app "sk-") in Heq. by apply Base64.base64_inj in Heq.
  - unfold secretPrefix. cbn. do 3 f_equal. unfold Base64.EncodeToString.
    unfold secretBytes in Hlen. do 33 (destruct buf as [|? buf]; try done).
Qed.
End Created.

(** A toy digest for the examples. *)
Definition toy_digest : Sha256 := fun s => take 32 (bytes_of s ++ repeat 0 32).

Lemma toy_digest_laws : @Sha256Laws toy_digest.
Proof.
  intros s. apply Forall_take, Forall_app. split; [apply bytes_of_range|].
  apply Forall_forall. intros b Hb. apply list_elem_of_In, repeat_spec in Hb. unfold is_byte. lia.
Qed.

Lemma Create_authenticates_witness :
  exists rec secret t' p t'', @Create toy_digest true DbOk 5 "id-1" (inr (repeat 7 32)) "ci"
      {["admin" := ["webui"]]} [] = (inr (rec, secret), t') /\
    @Postgres_Authenticate toy_digest true DbOk 9 secret t' = (inr p, t'') /\
    p.(p_ID) = "id-1" /\ HasScope (Some p) "admin" "webui" = true.
Proof.
  destruct (@Create toy_digest true DbOk 5 "id-1" (inr (repeat 7 32)) "ci" {["admin" := ["webui"]]} [])
    as [[e|[rec secret]] t'] eqn:E; [by vm_compute in E|].
  destruct (@Create_authenticates toy_digest true DbOk 5 "id-1" (inr (repeat 7 32)) "ci"
              {["admin" := ["webui"]]} [] rec secret t' 9 "admin" "webui" E)
    as (p & t'' & H1 & H2 & _ & H4 & _).
  exists rec, secret, t', p, t''.
  split; [reflexivity|]. split; [exact H1|]. split; [exact H2|]. apply H4. exists ["webui"].
  split; [reflexivity|apply list_elem_of_singleton; reflexivity].
Defined.

Lemma generateSecret_injective_witness :
  (String.length "sk-BwcHBwcHBwcHBwcHBwcHBwcHBwcHBwcHBwcHBwcHBwc" = 46)%nat.
Proof.
  apply (generateSecret_injective (repeat 7 32) (repeat 7 32) _
           "sk-BwcHBwcHBwcHBwcHBwcHBwcHBwcHBwcHBwcHBwcHBwc").
  - repeat constructor; unfold is_byte; lia.
  - repeat constructor; unfold is_byte; lia.
  - done.
  - by vm_compute.
  - by vm_compute.
Defined.
End Keystore.
