(* ===== verification/AuthCache.v ===== *)
(** * AuthCache: the cached lookup under interleaving, and revocation

    [internal/auth/cached.go] and [keystore.go] as a transition system: several
    gateway processes share the table [api_keys] and Redis; each process has
    one [singleflight.Group].  A lookup reads the cache, then (on a miss) joins
    or leads a flight, which queries the table, writes the cache and returns to
    everyone who joined.  [Keystore.Revoke] updates the table and then deletes
    the cache entry; [xbctl keyrevoke] only updates the table. *)

From S2P Require Import Prelude GoStd Float64 Errors Types Encoding Wire Billing Auth.
From stdpp Require Import base list gmap.
Import Json Keystore.
Local Open Scope Z_scope.

Section System.
Context `{!Sha256, !Sha256Laws}.
Context (c : CachedAuthenticator).

(** Where the leader of a flight is. *)
Inductive phase :=
  | Querying
  | Writing (res : error + Principal)
  | Finished (res : error + Principal).

Record flight := { f_key : string; f_phase : phase }.

Record sys := {
  clock : Z;
  table : list row;
  cache : redis;
  flights : gmap (nat * string) flight;
  deleting : list bytes
}.

Definition cacheKey (key : string) : string := cacheKeyOf (Sum256 key).

Definition with_clock t s := Build_sys t s.(table) s.(cache) s.(flights) s.(deleting).
Definition with_table t s := Build_sys s.(clock) t s.(cache) s.(flights) s.(deleting).
Definition with_cache r s := Build_sys s.(clock) s.(table) r s.(flights) s.(deleting).
Definition with_flights f s := Build_sys s.(clock) s.(table) s.(cache) f s.(deleting).
Definition with_deleting d s := Build_sys s.(clock) s.(table) s.(cache) s.(flights) d.

(** A caller gets an answer for a key with this cache key. *)
Inductive event := Return (k : string) (res : error + Principal).

Inductive step : sys -> option event -> sys -> Prop :=
  | s_tick s d : 0 <= d -> step s None (with_clock (s.(clock) + d) s)
  | s_hit s key getErr h :
      key <> "" -> read getErr s.(clock) (cacheKey key) s.(cache) = Hit h ->
      step s (Some (Return (cacheKey key) h)) s
  | s_lead s pid key getErr :
      key <> "" -> (forall h, read getErr s.(clock) (cacheKey key) s.(cache) <> Hit h) ->
      s.(flights) !! (pid, cacheKey key) = None ->
      step s None
        (with_flights (<[(pid, cacheKey key) := {| f_key := key; f_phase := Querying |}]> s.(flights)) s)
  | s_join s pid key getErr f :
      key <> "" -> (forall h, read getErr s.(clock) (cacheKey key) s.(cache) <> Hit h) ->
      s.(flights) !! (pid, cacheKey key) = Some f ->
      step s None s
  | s_query s pid k key o res t' :
      s.(flights) !! (pid, k) = Some {| f_key := key; f_phase := Querying |} ->
      Postgres_Authenticate true o s.(clock) key s.(table) = (res, t') ->
      step s None
        (with_table t' (with_flights (<[(pid, k) := {| f_key := key; f_phase := Writing res |}]> s.(flights)) s))
  | s_write s pid k key res set :
      s.(flights) !! (pid, k) = Some {| f_key := key; f_phase := Writing res |} ->
      step s None
        (with_cache (write c set s.(clock) k res s.(cache))
          (with_flights (<[(pid, k) := {| f_key := key; f_phase := Finished res |}]> s.(flights)) s))
  | s_finish s pid k key res :
      s.(flights) !! (pid, k) = Some {| f_key := key; f_phase := Finished res |} ->
      step s (Some (Return k res)) (with_flights (delete (pid, k) s.(flights)) s)
  | s_evict s k : step s None (with_cache (delete k s.(cache)) s)
  | s_create s o id rand name scopes res t' :
      Create true o s.(clock) id rand name scopes s.(table) = (res, t') ->
      step s None (with_table t' s)
  | s_keygen s o id buf name scopes err t' :
      insert_row o {| r_id := id; r_key_hash := Sum256 (secretPrefix +:+ Base64.EncodeToString buf);
                      r_name := name; r_scopes := scopesJSON scopes; r_created_at := s.(clock);
                      r_last_used_at := None; r_revoked_at := None |} s.(table) = (err, t') ->
      step s None (with_table t' s)
  | s_revoke s o id rw t' :
      revoke_db true o s.(clock) id s.(table) = (inr rw, t') ->
      step s None (with_deleting (rw.(r_key_hash) :: s.(deleting)) (with_table t' s))
  | s_revoke_failed s o id e t' :
      revoke_db true o s.(clock) id s.(table) = (inl e, t') ->
      step s None (with_table t' s)
  | s_delete s hash rest has_cache del :
      s.(deleting) ≡ₚ hash :: rest ->
      step s None (with_deleting rest (with_cache (revoke_del has_cache del hash s.(cache)) s))
  | s_xbctl_revoke s id :
      step s None (with_table (revoke_rows s.(clock) id s.(table)) s).

Inductive run : sys -> list (Z * event) -> sys -> Prop :=
  | run_refl s : run s [] s
  | run_quiet s s' s'' evs : step s None s' -> run s' evs s'' -> run s evs s''
  | run_event s ev s' s'' evs : step s (Some ev) s' -> run s' evs s'' -> run s ((s.(clock), ev) :: evs) s''.

Lemma run_app s evs s' evs' s'' : run s evs s' -> run s' evs' s'' -> run s (evs ++ evs') s''.
Proof.
  induction 1; [done|..]; intros Hr; cbn; [eapply run_quiet|eapply run_event]; eauto.
Qed.

Definition init (now : Z) : sys := Build_sys now [] ∅ ∅ [].

Definition reachable (s : sys) : Prop := exists now evs, run (init now) evs s.

(** ** The table *)

Definition revoked (h : bytes) (t : list row) : Prop :=
  (exists r, r ∈ t /\ r.(r_key_hash) = h) /\
  Forall (fun r => r.(r_key_hash) = h -> active r = false) t.

Lemma revoked_map h t (f : row -> row) :
  (forall r, r_key_hash (f r) = r_key_hash r) -> (forall r, active r = false -> active (f r) = false) ->
  revoked h t -> revoked h (map f t).
Proof.
  intros Hf Ha [(r & Hin & Hr) Hall]. split.
  - exists (f r). split; [apply list_elem_of_fmap; eauto|]. by rewrite Hf.
  - apply Forall_map. eapply list.Forall_impl; [exact Hall|]. intros x Hx. rewrite Hf. auto.
Qed.

Lemma revoked_touch h now hash t : revoked h t -> revoked h (touch now hash t).
Proof. apply revoked_map; intros r; [by case_match|]. case_match; [|done]. by destruct r. Qed.

Lemma revoked_revoke h now id t : revoked h t -> revoked h (revoke_rows now id t).
Proof.
  apply revoked_map; intros r; [by case_match|]. case_match; [|done]. intros _. by destruct r.
Qed.

Lemma revoked_insert h o r t err t' :
  insert_row o r t = (err, t') -> revoked h t -> revoked h t'.
Proof.
  unfold insert_row. destruct (conflicts (r_id r) (r_key_hash r) t) eqn:Ec; [by intros [= _ <-]|].
  intros Hi Hr. assert (t' = t \/ t' = t ++ [r]) as [->| ->]; [|done|].
  { destruct o as [|[] e]; simplify_eq; auto. }
  destruct Hr as [(r0 & Hin & Hr0) Hall]. split; [exists r0; set_solver|].
  apply Forall_app. split; [done|]. constructor; [|constructor]. intros <-.
  exfalso. apply not_true_iff_false in Ec. apply Ec, existsb_exists. exists r0.
  split; [by apply list_elem_of_In|]. rewrite Hr0, (bool_decide_true (r_key_hash r = _)) by done.
  apply orb_true_r.
Qed.

Lemma revoked_Create h o now id rand name scopes t res t' :
  Create true o now id rand name scopes t = (res, t') -> revoked h t -> revoked h t'.
Proof.
  unfold Create. cbn [negb]. case_bool_decide; [by intros [= _ <-]|].
  case_match; [by intros [= _ <-]|]. destruct (validateScopes scopes); [by intros [= _ <-]|].
  destruct (generateSecret rand) as [|secret]; [by intros [= _ <-]|].
  destruct (insert_row _ _ _) as [err t1] eqn:Ei. intros Hc.
  assert (t' = t1) as -> by (destruct err; by simplify_eq). by eapply revoked_insert.
Qed.

Lemma revoked_revoke_db h o now id t res t' :
  revoke_db true o now id t = (res, t') -> revoked h t -> revoked h t'.
Proof.
  unfold revoke_db. cbn [negb]. case_bool_decide; [by intros [= _ <-]|]. intros Hdb Hr.
  set (t1 := if applied o then _ else t) in Hdb.
  assert (Hr1 : revoked h t1) by (unfold t1; destruct (applied o); [by apply revoked_revoke|done]).
  clearbody t1. assert (t' = t1) as ->; [|done]. repeat case_match; by simplify_eq.
Qed.

Lemma find_active_revoked h t : revoked h t -> find_active h t = None.
Proof.
  intros [_ Hall]. unfold find_active. destruct (List.find _ t) as [r|] eqn:E; [|done].
  apply find_some in E as [Hin [Hh Ha]%andb_true_iff]. apply bool_decide_eq_true in Hh.
  rewrite List.Forall_forall in Hall.
  specialize (Hall r Hin Hh). by rewrite Hall in Ha.
Qed.

(** The lookup refuses a revoked key and keeps it revoked. *)
Lemma query_revoked h o now key t res t' :
  Postgres_Authenticate true o now key t = (res, t') -> revoked h t ->
  revoked h t' /\ (Sum256 key = h -> exists e, res = inl e).
Proof.
  unfold Postgres_Authenticate. case_bool_decide; [intros [= <- <-]; eauto|]. cbn [negb].
  intros Hq Hr. set (t1 := if applied o then _ else t) in Hq.
  assert (Hr1 : revoked h t1) by (unfold t1; destruct (applied o); [by apply revoked_touch|done]).
  clearbody t1. split.
  - assert (t' = t1) as ->; [|done]. repeat case_match; by simplify_eq.
  - intros Hh. unfold hashKeyBytes in Hq. rewrite Hh, (find_active_revoked h t Hr) in Hq.
    destruct o; cbn in Hq; repeat case_match; simplify_eq; eauto.
Qed.

(** Hashes are unique in the table, as the schema demands. *)
Definition unique (t : list row) : Prop := NoDup (map r_key_hash t).

Lemma unique_map t (f : row -> row) :
  (forall r, r_key_hash (f r) = r_key_hash r) -> unique t -> unique (map f t).
Proof. intros Hf. unfold unique. rewrite map_map. by rewrite (map_ext _ _ Hf). Qed.

Lemma unique_insert o r t err t' : insert_row o r t = (err, t') -> unique t -> unique t'.
Proof.
  unfold insert_row. destruct (conflicts (r_id r) (r_key_hash r) t) eqn:Ec; [by intros [= _ <-]|].
  intros Hi Hr. assert (t' = t \/ t' = t ++ [r]) as [->| ->]; [|done|].
  { destruct o as [|[] e]; simplify_eq; auto. }
  unfold unique. rewrite map_app. apply NoDup_app. split_and!; [done| |apply NoDup_singleton].
  intros h Hh Hin%list_elem_of_singleton. subst h. apply list_elem_of_fmap in Hh as (r0 & Hr0 & Hin).
  apply not_true_iff_false in Ec. apply Ec, existsb_exists. exists r0.
  split; [by apply list_elem_of_In|]. rewrite (bool_decide_true (r_key_hash r0 = _)) by done.
  apply orb_true_r.
Qed.

Lemma unique_Create o now id rand name scopes t res t' :
  Create true o now id rand name scopes t = (res, t') -> unique t -> unique t'.
Proof.
  unfold Create. cbn [negb]. case_bool_decide; [by intros [= _ <-]|].
  case_match; [by intros [= _ <-]|]. destruct (validateScopes scopes); [by intros [= _ <-]|].
  destruct (generateSecret rand) as [|secret]; [by intros [= _ <-]|].
  destruct (insert_row _ _ _) as [err t1] eqn:Ei. intros Hc.
  assert (t' = t1) as -> by (destruct err; by simplify_eq). by eapply unique_insert.
Qed.

Lemma revoke_rows_unique now id t : unique t -> unique (revoke_rows now id t).
Proof. apply unique_map. intros r. by case_match. Qed.

Lemma revoke_db_unique o now id t res t' :
  revoke_db true o now id t = (res, t') -> unique t -> unique t'.
Proof.
  unfold revoke_db. cbn [negb]. case_bool_decide; [by intros [= _ <-]|]. intros Hdb Hu.
  set (t1 := if applied o then _ else t) in Hdb.
  assert (Hr1 : unique t1) by (unfold t1; destruct (applied o); [by apply revoke_rows_unique|done]).
  clearbody t1. assert (t' = t1) as ->; [|done]. repeat case_match; by simplify_eq.
Qed.

Lemma query_unique o now key t res t' :
  Postgres_Authenticate true o now key t = (res, t') -> unique t -> unique t'.
Proof.
  unfold Postgres_Authenticate. case_bool_decide; [by intros [= _ <-]|]. cbn [negb].
  intros Hq Hu. set (t1 := if applied o then _ else t) in Hq.
  assert (Hu1 : unique t1).
  { unfold t1; destruct (applied o); [|done]. apply unique_map; [|done].
    intros r. cbv beta. by destruct (_ && _). }
  clearbody t1. assert (t' = t1) as ->; [|done]. repeat case_match; by simplify_eq.
Qed.

(** A committed revocation leaves no active row with the key's hash. *)
Lemma revoke_db_revoked o now id t rw t' :
  unique t -> revoke_db true o now id t = (inr rw, t') -> revoked rw.(r_key_hash) t'.
Proof.
  intros Hu Hdb. pose proof (revoke_db_unique _ _ _ _ _ _ Hdb Hu) as Hu'.
  unfold revoke_db in Hdb. cbn [negb] in Hdb. case_bool_decide; [done|].
  destruct o as [|b e]; cbn [applied] in Hdb; [|by destruct (Is e _)].
  destruct (find_id id (revoke_rows now id t)) as [r|] eqn:E; [|by destruct (Is _ _)].
  injection Hdb as <- <-. unfold find_id in E. apply find_some in E as [Hin Hid].
  apply bool_decide_eq_true in Hid.
  assert (Ha : active r = false).
  { apply in_map_iff in Hin as (r0 & <- & _). destruct (bool_decide (r_id r0 = id) && active r0) eqn:Ec.
    - by destruct r0.
    - rewrite (bool_decide_true (r_id r0 = id)) in Ec by done. done. }
  apply list_elem_of_In in Hin. split; [by exists r|].
  apply list.Forall_forall. intros x Hx Hh.
  apply list_elem_of_lookup in Hin as [i Hi], Hx as [j Hj].
  assert (i = j) as ->; [|by rewrite Hi in Hj; simplify_eq].
  eapply NoDup_lookup; [exact Hu'| |].
  - rewrite list_lookup_fmap, Hi. done.
  - rewrite list_lookup_fmap, Hj. cbn. by rewrite Hh.
Qed.

(** ** The invariant of every reachable state *)

Record inv (s : sys) : Prop := {
  inv_keyed pid k f : s.(flights) !! (pid, k) = Some f -> k = cacheKey f.(f_key);
  inv_fresh k j exp : s.(cache) !! k = Some (Some j, exp) -> j <> JNull ->
    exp <= s.(clock) + Z.max 0 c.(posTTL);
  inv_unique : unique s.(table);
  inv_pending h : h ∈ s.(deleting) -> revoked h s.(table)
}.

Lemma write_cases set now k res r :
  write c set now k res r = r \/
  (exists p, res = inr p /\ 0 < c.(posTTL) /\
     write c set now k res r = <[k := (Some (marshalPrincipal p), now + c.(posTTL))]> r) \/
  (exists e exp, res = inl e /\ Is e ErrInvalidCredentials = true /\ write c set now k res r = <[k := (Some JNull, exp)]> r).
Proof.
  unfold write. destruct res as [e|p].
  - destruct (Is e ErrInvalidCredentials) eqn:?; [|by left]. destruct (Z.leb_spec (negTTL c) 0); [by left|].
    destruct set; [|by left]. right; right. do 2 eexists. eauto.
  - destruct (Z.leb_spec (posTTL c) 0); [by left|]. destruct set; [|by left]. right; left.
    exists p. eauto.
Qed.

Lemma lookup_flight_insert (m : gmap (nat * string) flight) i f j g (P : nat * string -> flight -> Prop) :
  (forall j g, m !! j = Some g -> P j g) -> P i f -> <[i := f]> m !! j = Some g -> P j g.
Proof. intros Hm Hf. rewrite lookup_insert_Some. intros [[<- <-]|[_ ?]]; auto. Qed.

Lemma inv_step s ev s' : inv s -> step s ev s' -> inv s'.
Proof.
  intros [Hk Hf Hu Hp] Hs. destruct Hs; split; cbn; try done; try by eauto.
  - intros k j exp Hl Hj. specialize (Hf k j exp Hl Hj). lia.
  - intros pid' k' f [[[= <- <-] <-]|[_ Hl]]%lookup_insert_Some; [done|by eauto].
  - intros pid' k' f [[[= <- <-] <-]|[_ Hl]]%lookup_insert_Some; [by eapply (Hk _ _ _ H1)|by eauto].
  - by eapply query_unique.
  - intros h Hh. by eapply query_revoked; [|apply Hp].
  - intros pid' k' f [[[= <- <-] <-]|[_ Hl]]%lookup_insert_Some; [by eapply (Hk _ _ _ H1)|by eauto].
  - intros k' j exp Hl Hj.
    destruct (write_cases set (clock s) k res (cache s)) as [E|[(p & -> & ? & E)|(e & exp' & -> & _ & E)]];
      rewrite E in Hl.
    + by eauto.
    + apply lookup_insert_Some in Hl as [[<- [= <- <-]]|[_ Hl]]; [lia|by eauto].
    + apply lookup_insert_Some in Hl as [[<- [= <- <-]]|[_ Hl]]; [done|by eauto].
  - intros pid' k' f [_ Hl]%lookup_delete_Some. by eauto.
  - intros k' j exp [_ Hl]%lookup_delete_Some. by eauto.
  - by eapply unique_Create.
  - intros h Hh. by eapply revoked_Create; [|apply Hp].
  - by eapply unique_insert.
  - intros h Hh. by eapply revoked_insert; [|apply Hp].
  - by eapply revoke_db_unique.
  - intros h [->|Hh]%elem_of_cons; [by eapply revoke_db_revoked|].
    by eapply revoked_revoke_db; [|apply Hp].
  - by eapply revoke_db_unique.
  - intros h Hh. by eapply revoked_revoke_db; [|apply Hp].
  - intros k' j exp. unfold revoke_del. destruct (has_cache && del); [|by eauto].
    intros [_ Hl]%lookup_delete_Some. by eauto.
  - intros h Hh. apply Hp. rewrite H1. by right.
  - by apply revoke_rows_unique.
  - intros h Hh. by apply revoked_revoke, Hp.
Qed.

Lemma run_inv s evs s' : run s evs s' -> inv s -> inv s'.
Proof. induction 1; eauto using inv_step. Qed.

Lemma reachable_inv s : reachable s -> inv s.
Proof.
  intros (now & evs & Hr). eapply run_inv; [exact Hr|]. split; cbn.
  - done.
  - done.
  - constructor.
  - intros h Hh. by apply elem_of_nil in Hh.
Qed.

(** ** Revocation *)

(** No process holds a successful answer for the hash that it has not yet
    returned. *)
Definition settled (h : bytes) (s : sys) : Prop :=
  forall pid f p, s.(flights) !! (pid, cacheKeyOf h) = Some f ->
    f.(f_phase) <> Writing (inr p) /\ f.(f_phase) <> Finished (inr p).

(** The hash is revoked, nothing in flight can revive it, and a cached success
    expires by the instant [E]. *)
Record dead (h : bytes) (E : Z) (s : sys) : Prop := {
  dead_revoked : revoked h s.(table);
  dead_settled : settled h s;
  dead_cache j exp : s.(cache) !! cacheKeyOf h = Some (Some j, exp) -> j <> JNull -> exp <= E
}.

Lemma cacheKeyOf_inj h h' :
  Forall is_byte h -> Forall is_byte h' -> cacheKeyOf h = cacheKeyOf h' -> h = h'.
Proof.
  intros Hh Hh' Heq. apply Hex.hex_inj; [done..|]. unfold cacheKeyOf in Heq.
  apply (f_equal (Strings.slice_from 7)) in Heq. by rewrite !(Strings.slice_from_app "auth:k:") in Heq.
Qed.

Lemma settled_insert h s pid k f t :
  settled h s -> (k = cacheKeyOf h -> forall p, f.(f_phase) <> Writing (inr p) /\ f.(f_phase) <> Finished (inr p)) ->
  settled h (with_table t (with_flights (<[(pid, k) := f]> s.(flights)) s)).
Proof.
  intros Hs Hf pid' f' p. cbn. intros [[[= -> ->] <-]|[_ Hl]]%lookup_insert_Some; [by apply Hf|by eapply Hs].
Qed.

Lemma dead_step h E s ev s' :
  Forall is_byte h -> inv s -> step s ev s' -> dead h E s -> dead h E s'.
Proof.
  intros Hh Hinv Hs [Hr Hst Hc]. destruct Hs; split; cbn; try done; try by eauto.
  - apply (settled_insert h s pid (cacheKey key) _ s.(table)); done.
  - by eapply query_revoked.
  - apply settled_insert; [done|]. intros -> p. split; [|done]. cbn. intros [= ->].
    assert (Hkey : cacheKeyOf h = cacheKey key) by by eapply (inv_keyed s Hinv _ _ _ H1).
    apply cacheKeyOf_inj in Hkey; [|done|apply Sum256_bytes].
    destruct (query_revoked h o (clock s) key (table s) (inr p) t') as [_ Hq]; [done|done|].
    by destruct (Hq (eq_sym Hkey)).
  - apply (settled_insert h s pid k _ s.(table)); [done|]. intros -> p. split; [done|]. cbn. intros [= ->].
    by destruct (Hst _ _ p H1).
  - intros j exp Hl Hj.
    destruct (write_cases set (clock s) k res (cache s)) as [E'|[(p & -> & ? & E')|(e & exp' & -> & _ & E')]];
      rewrite E' in Hl.
    + by eauto.
    + apply lookup_insert_Some in Hl as [[-> _]|[_ Hl]]; [|by eauto]. by destruct (Hst _ _ p H1).
    + apply lookup_insert_Some in Hl as [[_ [= <- _]]|[_ Hl]]; [done|by eauto].
  - intros pid' f p. cbn. intros [_ Hl]%lookup_delete_Some. by eapply Hst.
  - intros j exp [_ Hl]%lookup_delete_Some. by eauto.
  - by eapply revoked_Create.
  - by eapply revoked_insert.
  - by eapply revoked_revoke_db.
  - by eapply revoked_revoke_db.
  - intros j exp. unfold revoke_del. destruct (has_cache && del); [|by eauto].
    intros [_ Hl]%lookup_delete_Some. by eauto.
  - by apply revoked_revoke.
Qed.

Lemma read_success getErr now k r p :
  read getErr now k r = Hit (inr p) ->
  exists j exp, r !! k = Some (Some j, exp) /\ j <> JNull /\ now < exp.
Proof.
  unfold read, redis_get. destruct getErr; [done|]. destruct (r !! k) as [[v exp]|]; [|done].
  destruct (Z.ltb_spec now exp); [|done]. destruct v as [j|]; [|done]. intros Hh. exists j, exp.
  split_and!; [done| |done]. by intros ->.
Qed.

Lemma dead_event h E s p s' :
  dead h E s -> step s (Some (Return (cacheKeyOf h) (inr p))) s' -> s.(clock) < E.
Proof.
  intros [Hr Hst Hc] Hs. remember (Some (Return (cacheKeyOf h) (inr p))) as ev eqn:Hev.
  destruct Hs as [|s key ge hit Hk Hrd| | | | |s pid k key res Hf| | | | | | |]; try done.
  - assert (Hkey : cacheKey key = cacheKeyOf h) by congruence.
    assert (hit = inr p) as -> by congruence. destruct (read_success _ _ _ _ _ Hrd) as (j & exp & Hl & Hj & Hlt).
    rewrite Hkey in Hl. specialize (Hc j exp Hl Hj). lia.
  - assert (k = cacheKeyOf h) as -> by congruence. assert (res = inr p) as -> by congruence.
    by destruct (Hst pid _ p Hf).
Qed.

Lemma dead_run h E s evs s' T p :
  Forall is_byte h -> run s evs s' -> inv s -> dead h E s ->
  (T, Return (cacheKeyOf h) (inr p)) ∈ evs -> T < E.
Proof.
  intros Hh. induction 1 as [s|s s1 s2 evs Hs Hr IH|s ev s1 s2 evs Hs Hr IH]; intros Hi Hd Hin.
  - by apply elem_of_nil in Hin.
  - apply IH; eauto using inv_step, dead_step.
  - apply elem_of_cons in Hin as [[= -> <-]|Hin]; [by eapply dead_event|].
    apply IH; eauto using inv_step, dead_step.
Qed.

(** C9: Revocation is effective within one positive TTL, whatever the
    interleaving: from any reachable state in which a key is revoked in the
    table and no process is still holding a successful lookup of it, every
    later successful authentication with that key, in any process, happens
    strictly before [posTTL] has passed.  This needs no cache deletion, so it
    also covers [xbctl keyrevoke] and a failed [DEL]. *)
Theorem revocation_bounded h s evs s' T p :
  Forall is_byte h -> reachable s -> revoked h s.(table) -> settled h s ->
  run s evs s' -> (T, Return (cacheKeyOf h) (inr p)) ∈ evs ->
  T < s.(clock) + Z.max 0 c.(posTTL).
Proof.
  intros Hh Hi%reachable_inv Hr Hst Hrun Hin. eapply dead_run; [done|exact Hrun|done| |exact Hin].
  split; [done|done|]. intros j exp. apply (inv_fresh s Hi).
Qed.

(** C10: Revocation through the key store is final at once, unless a lookup
    overlaps it: when [Keystore.Revoke] deletes the cache entry and no process
    is holding a successful lookup of that key at that moment, no
    authentication with the key ever succeeds again. *)
Theorem revocation_final h rest s evs s' T p :
  Forall is_byte h -> reachable s -> s.(deleting) ≡ₚ h :: rest -> settled h s ->
  run (with_deleting rest (with_cache (revoke_del true true h s.(cache)) s)) evs s' ->
  (T, Return (cacheKeyOf h) (inr p)) ∉ evs.
Proof.
  intros Hh Hi%reachable_inv Hd Hst Hrun Hin. set (s1 := with_deleting _ _) in Hrun.
  assert (Hi1 : inv s1) by (eapply inv_step; [exact Hi|by apply s_delete]).
  assert (Hdead : forall E, dead h E s1).
  { intros E. split; [|done|].
    - apply (inv_pending s Hi). rewrite Hd. by left.
    - intros j exp Hl. exfalso.
      change (delete (cacheKeyOf h) (cache s) !! cacheKeyOf h = Some (Some j, exp)) in Hl.
      apply lookup_delete_Some in Hl as [Hne _]. done. }
  pose proof (dead_run h T s1 evs s' T p Hh Hrun Hi1 (Hdead T) Hin). lia.
Qed.
End System.

(** ** One lookup at a time: the cache is transparent *)

Section Transparent.
Context `{!Sha256, !Sha256Laws}.

(** What the table says of a key. *)
Definition answer (key : string) (t : list row) : error + Principal :=
  match find_active (Sum256 key) t with
  | None => inl (Sentinel_ ErrInvalidCredentials)
  | Some r => row_principal r
  end.

(** Every answer the cache would give is the table's. *)
Definition coherent (now : Z) (t : list row) (r : redis) : Prop :=
  forall key h, read None now (cacheKey key) r = Hit h -> h = answer key t.

(** Text in the table is valid UTF-8, as PostgreSQL guarantees. *)
Definition valid_rows (t : list row) : Prop :=
  Forall (fun r => forall p, row_principal r = inr p -> valid_principal p) t.

Lemma read_later getErr now now' k r h :
  now <= now' -> read getErr now' k r = Hit h -> read None now k r = Hit h.
Proof.
  intros Hle. unfold read, redis_get. destruct getErr; [done|]. destruct (r !! k) as [[v exp]|]; [|done].
  destruct (Z.ltb_spec now' exp); [|done]. by destruct (Z.ltb_spec now exp); [|lia].
Qed.

Lemma answer_touch key now h t : answer key (touch now h t) = answer key t.
Proof.
  unfold answer, find_active, touch. induction t as [|r t IH]; [done|]. cbn [map List.find].
  destruct (bool_decide (r_key_hash r = h) && active r) eqn:E.
  - replace (active (set_last_used now r)) with (active r) by by destruct r.
    change (r_key_hash (set_last_used now r)) with (r_key_hash r).
    destruct (bool_decide (r_key_hash r = Sum256 key) && active r); [by destruct r|exact IH].
  - destruct (bool_decide (r_key_hash r = Sum256 key) && active r); [done|exact IH].
Qed.

Lemma answer_valid key t p : valid_rows t -> answer key t = inr p -> valid_principal p.
Proof.
  intros Hv. unfold answer. destruct (find_active _ t) as [r|] eqn:E; [|done].
  apply find_some in E as [Hin _]. apply list_elem_of_In in Hin.
  unfold valid_rows in Hv. rewrite list.Forall_forall in Hv. by apply Hv.
Qed.

Lemma answer_Postgres now key t :
  key <> "" -> Postgres_Authenticate true DbOk now key t = (answer key t, touch now (Sum256 key) t).
Proof.
  intros Hk. unfold Postgres_Authenticate, answer, hashKeyBytes. rewrite bool_decide_false by done.
  cbn [negb applied]. by destruct (find_active (Sum256 key) t).
Qed.

Lemma cacheKey_answer key key' t : cacheKey key = cacheKey key' -> answer key t = answer key' t.
Proof.
  intros Heq%cacheKeyOf_inj; [|apply Sum256_bytes..]. unfold answer. by rewrite Heq.
Qed.

Lemma read_insert now k v exp r :
  read None now k (<[k := (v, exp)]> r) =
  if now <? exp then match v with
                     | Some JNull => Hit (inl (Sentinel_ ErrInvalidCredentials))
                     | Some j => match unmarshalPrincipal j with Some p => Hit (inr p) | None => Malformed end
                     | None => Malformed
                     end
  else Miss.
Proof.
  unfold read, redis_get. rewrite (lookup_insert_eq (M := gmap string)). by destruct (now <? exp).
Qed.

Lemma read_insert_ne now k k' v r : k <> k' -> read None now k' (<[k := v]> r) = read None now k' r.
Proof. intros Hne. unfold read, redis_get. by rewrite (lookup_insert_ne (M := gmap string)). Qed.

Lemma answer_negative key t e :
  answer key t = inl e -> Is e ErrInvalidCredentials = true -> e = Sentinel_ ErrInvalidCredentials.
Proof.
  unfold answer. destruct (find_active _ t) as [r|]; [|by intros [= <-]].
  unfold row_principal. destruct (no_scopes _); [done|]. destruct (string_map _ _); [done|].
  by intros [= <-].
Qed.

Lemma read_write c set now now' key t r h key' :
  valid_rows t -> now <= now' -> coherent now t r ->
  read None now' (cacheKey key') (write c set now (cacheKey key) (answer key t) r) = Hit h ->
  h = answer key' t.
Proof.
  intros Hv Hle Hc Hr.
  destruct (write_cases c set now (cacheKey key) (answer key t) r)
    as [E|[(p & Hp & _ & E)|(e & exp & He & HI & E)]]; rewrite E in Hr.
  - apply Hc. by eapply read_later.
  - destruct (decide (cacheKey key = cacheKey key')) as [Heq|Hne].
    + rewrite <- (cacheKey_answer _ _ t Heq), Hp. rewrite <- Heq, read_insert in Hr.
      destruct (now' <? now + posTTL c); [|done].
      assert (Hrt : unmarshalPrincipal (marshalPrincipal p) = Some p)
        by by eapply principal_roundtrip, answer_valid.
      unfold marshalPrincipal at 1 in Hr. fold (marshalPrincipal p) in Hr. rewrite Hrt in Hr. by simplify_eq.
    + rewrite read_insert_ne in Hr by done. apply Hc. by eapply (read_later None _ now').
  - destruct (decide (cacheKey key = cacheKey key')) as [Heq|Hne].
    + rewrite <- (cacheKey_answer _ _ t Heq), He. rewrite <- Heq, read_insert in Hr.
      destruct (now' <? exp); [|done]. rewrite (answer_negative key t e He HI). by simplify_eq.
    + rewrite read_insert_ne in Hr by done. apply Hc. by eapply (read_later None _ now').
Qed.

(** C11: Lookups that do not overlap are answered as if there were no cache: if
    every cached answer is the table's, then [CachedAuthenticator.Authenticate]
    returns exactly what the table says of the key, whatever Redis does (a
    failed read, a failed write, an eviction), and every cached answer is still
    the table's afterwards, now and at any later instant. *)
Theorem cache_transparent c w now now' key t r :
  w.(db) = DbOk -> valid_rows t -> coherent now t r -> key <> "" -> now <= now' ->
  let '(res, (t', r')) := Cached_Authenticate c w now key t r in
  res = answer key t /\ coherent now' t' r' /\ (forall key', answer key' t' = answer key' t).
Proof.
  intros Hdb Hv Hc Hk Hle. unfold Cached_Authenticate. rewrite bool_decide_false, Hdb by done.
  change (cacheKeyOf (Sum256 key)) with (cacheKey key).
  rewrite answer_Postgres by done.
  assert (Hwrite : coherent now' (touch now (Sum256 key) t)
                     (write c (set_ok w) now (cacheKey key) (answer key t) r)).
  { intros key' h Hr. rewrite answer_touch. by eapply (read_write c (set_ok w) now now'). }
  destruct (read (get_err w) now (cacheKey key) r) as [| |h] eqn:E.
  - split_and!; [done|done|]. intros key'. apply answer_touch.
  - split_and!; [done|done|]. intros key'. apply answer_touch.
  - split_and!; [|intros key' h' Hr|done].
    + apply Hc. by eapply (read_later (get_err w) now now).
    + apply Hc. by eapply (read_later None now now').
Qed.
End Transparent.

(** ** Concrete runs *)

Module Example.
#[local] Existing Instance toy_digest.
#[local] Existing Instance toy_digest_laws.

Definition conf : CachedAuthenticator := NewCached (60 * Second) (5 * Second).
Definition secret : string := "sk-BwcHBwcHBwcHBwcHBwcHBwcHBwcHBwcHBwcHBwcHBwc".
Definition hash : bytes := Sum256 secret.
Definition k : string := cacheKey secret.
Definition p0 : Principal := {| p_ID := "k1"; p_Name := "ci"; p_Scopes := ∅ |}.

Definition row_of (used revoked_at : option Z) : row :=
  {| r_id := "k1"; r_key_hash := hash; r_name := "ci"; r_scopes := JObject [];
     r_created_at := 0; r_last_used_at := used; r_revoked_at := revoked_at |}.

Definition at_phase (ph : phase) (s : sys) : sys :=
  with_flights (<[(0%nat, k) := {| f_key := secret; f_phase := ph |}]> s.(flights)) s.

(** A key is created; a lookup of it starts and reads the table. *)
Definition s1 : sys := with_table [row_of None None] (init 0).
Definition s2 : sys := at_phase Querying s1.
Definition s3 : sys := with_table [row_of (Some 0) None] (at_phase (Writing (inr p0)) s2).

Definition written (s : sys) : sys :=
  with_cache (write conf true s.(clock) k (inr p0) s.(cache)) (at_phase (Finished (inr p0)) s).
Definition landed (s : sys) : sys := with_flights (delete (0%nat, k) s.(flights)) s.

Lemma run_created : step conf (init 0) None s1.
Proof.
  eapply (s_create conf (init 0) DbOk "k1" (inr (repeat 7 32)) "ci" ∅). vm_compute. reflexivity.
Qed.

Lemma run_lookup : step conf s1 None s2 /\ step conf s2 None s3.
Proof.
  split.
  - apply (s_lead conf s1 0 secret None); [done| |done]. intros h. by vm_compute.
  - apply (s_query conf s2 0 k secret DbOk (inr p0)); by vm_compute.
Qed.

(** The lookup completes. *)
Definition s4 : sys := written s3.
Definition s5 : sys := landed s4.

Lemma run_completed : run conf (init 0) [(0, Return k (inr p0))] s5.
Proof.
  destruct run_lookup as [H1 H2].
  eapply run_quiet; [exact run_created|]. eapply run_quiet; [exact H1|].
  eapply run_quiet; [exact H2|].
  eapply run_quiet; [by eapply (s_write conf s3 0 k secret (inr p0) true); vm_compute|].
  apply (run_event conf s4 (Return k (inr p0)) s5 s5 []); [|apply run_refl].
  by apply (s_finish conf s4 0 k secret (inr p0)); vm_compute.
Qed.

Lemma revoked_one used t : revoked hash [row_of used (Some t)].
Proof.
  split; [exists (row_of used (Some t)); split; [by apply list_elem_of_singleton|done]|].
  by constructor; [|constructor].
Qed.

Lemma settled_landed h s : s.(flights) = ∅ -> settled h s.
Proof. intros Hf pid f p. by rewrite Hf, lookup_empty. Qed.

(** [xbctl keyrevoke] after the lookup: the cached success is served five
    seconds later, within the bound. *)
Definition s6 : sys := with_table (revoke_rows s5.(clock) "k1" s5.(table)) s5.
Definition s7 : sys := with_clock (s6.(clock) + 5 * Second) s6.

Lemma landed_flights : s5.(flights) = ∅.
Proof. by vm_compute. Qed.

Lemma run_xbctl : run conf (init 0) [(0, Return k (inr p0))] s6.
Proof.
  apply (run_app conf _ [_] s5 [] _ run_completed). eapply run_quiet; [apply s_xbctl_revoke|apply run_refl].
Qed.

Lemma revocation_bounded_witness : 5 * Second < 0 + Z.max 0 (60 * Second).
Proof.
  apply (revocation_bounded conf hash s6 [(5 * Second, Return (cacheKeyOf hash) (inr p0))] s7 (5 * Second) p0).
  - apply toy_digest_laws.
  - exists 0, [(0, Return k (inr p0))]. exact run_xbctl.
  - apply (revoked_one (Some 0) 0).
  - apply settled_landed, landed_flights.
  - eapply run_quiet; [apply (s_tick conf s6 (5 * Second)); done|].
    apply (run_event conf s7 (Return (cacheKeyOf hash) (inr p0)) s7 s7 []); [|apply run_refl].
    apply (s_hit conf s7 secret None (inr p0)); [done|]. by vm_compute.
  - by apply list_elem_of_singleton.
Defined.

(** [Keystore.Revoke] after the lookup: the next lookup is refused. *)
Definition s8 : sys := with_deleting [hash] (with_table [row_of (Some 0) (Some 0)] s5).
Definition s9 : sys := with_deleting [] (with_cache (revoke_del true true hash s8.(cache)) s8).
Definition s10 : sys := at_phase Querying s9.
Definition no : error + Principal := inl (Sentinel_ ErrInvalidCredentials).
Definition s11 : sys := with_table s10.(table) (at_phase (Writing no) s10).
Definition s12 : sys :=
  with_cache (write conf true s11.(clock) k no s11.(cache)) (at_phase (Finished no) s11).
Definition s13 : sys := landed s12.

Lemma run_revoked : run conf (init 0) [(0, Return k (inr p0))] s8.
Proof.
  apply (run_app conf _ [_] s5 [] _ run_completed). eapply run_quiet; [|apply run_refl].
  apply (s_revoke conf s5 DbOk "k1" (row_of (Some 0) (Some 0))). by vm_compute.
Qed.

Lemma run_refused : run conf s9 [(0, Return k no)] s13.
Proof.
  eapply run_quiet; [apply (s_lead conf s9 0 secret None); [done| |done]; intros h; by vm_compute|].
  eapply run_quiet; [apply (s_query conf s10 0 k secret DbOk no s10.(table)); by vm_compute|].
  eapply run_quiet; [by apply (s_write conf s11 0 k secret no true); vm_compute|].
  apply (run_event conf s12 (Return k no) s13 s13 []); [|apply run_refl].
  by apply (s_finish conf s12 0 k secret no); vm_compute.
Qed.

Lemma revocation_final_witness : (0, Return (cacheKeyOf hash) (inr p0)) ∉ [(0, Return k no)].
Proof.
  apply (revocation_final conf hash [] s8 [(0, Return k no)] s13).
  - apply toy_digest_laws.
  - exists 0, [(0, Return k (inr p0))]. exact run_revoked.
  - reflexivity.
  - apply settled_landed, landed_flights.
  - exact run_refused.
Defined.

(** A lookup that read the table before the revocation writes the cache after
    it: [Keystore.Revoke] has updated the row and deleted the cache entry, and
    a request that arrives afterwards is still authenticated. *)
Definition r1 : sys := with_deleting [hash] (with_table [row_of (Some 0) (Some 0)] s3).
Definition r2 : sys := with_deleting [] (with_cache (revoke_del true true hash r1.(cache)) r1).
Definition r3 : sys := landed (written r2).

Theorem revocation_race :
  reachable conf r1 /\ r1.(deleting) = [hash] /\ revoked hash r1.(table) /\
  run conf r2 [(0, Return (cacheKeyOf hash) (inr p0)); (0, Return (cacheKeyOf hash) (inr p0))] r3.
Proof.
  split_and!.
  - exists 0, []. destruct run_lookup as [H1 H2].
    eapply run_quiet; [exact run_created|]. eapply run_quiet; [exact H1|]. eapply run_quiet; [exact H2|].
    eapply run_quiet; [|apply run_refl].
    apply (s_revoke conf s3 DbOk "k1" (row_of (Some 0) (Some 0))). by vm_compute.
  - done.
  - apply revoked_one.
  - eapply run_quiet; [by apply (s_write conf r2 0 k secret (inr p0) true); vm_compute|].
    apply (run_event conf (written r2) (Return (cacheKeyOf hash) (inr p0)) r3 r3
             [(0, Return (cacheKeyOf hash) (inr p0))]).
    { by apply (s_finish conf (written r2) 0 k secret (inr p0)); vm_compute. }
    apply (run_event conf r3 (Return (cacheKeyOf hash) (inr p0)) r3 r3 []); [|apply run_refl].
    apply (s_hit conf r3 secret None (inr p0)); [done|]. by vm_compute.
Qed.

Lemma cache_transparent_witness :
  let '(res, (t', r')) := Cached_Authenticate conf (Build_weather None true DbOk) 0 secret [row_of None None] ∅ in
  res = answer secret [row_of None None] /\ coherent 9 t' r' /\
  (forall key', answer key' t' = answer key' [row_of None None]).
Proof.
  apply (cache_transparent conf (Build_weather None true DbOk) 0 9 secret [row_of None None] ∅).
  - done.
  - constructor; [|constructor]. intros p [= <-]. split_and!; [done|done|]. apply map_Forall_empty.
  - done.
  - done.
  - lia.
Defined.
End Example.
