(* ===== verification/Prompt.v ===== *)
(** * Prompt: token counting and the sliding-window compressor

    [pkg/tokenizer/tokenizer.go] and [internal/prompt/compressor.go].  The BPE
    codec is a parameter: [Encode text] is the number of token ids, or an
    error.  The compressor is proved against the [Tokenizer] interface. *)

From S2P Require Import Prelude GoStd Float64 Rounding Errors Types.
Local Open Scope Z_scope.

(** ** Tokenizers *)

(** The interface [tokenizer.Tokenizer]. *)
Class Tokenizer (T : Type) := {
  Family : T -> string;
  CountMessages : T -> list Message -> Z;
  CountText : T -> string -> Z
}.

(** What the compressor relies on.  The OpenAI counter obeys it always
    ([openai_laws]), the Anthropic one on conversations of fewer than 2^48 tokens
    ([anthropic_laws], [Compressor.production_within]). *)
Class TokenizerLaws (T : Type) `{!Tokenizer T} : Prop := {
  CountMessages_nonneg (t : T) ms : 0 <= CountMessages t ms;
  CountMessages_app (t : T) ms ms' :
    CountMessages t (ms ++ ms') <= CountMessages t ms + CountMessages t ms'
}.

Section Counters.
(** The codec [cl100k_base]. *)
Context (Encode : string -> option nat).

Definition charEstimate (text : string) : Z :=
  if bool_decide (text = "") then 0
  else
    let chars := Z.of_nat (length (List.filter
      (fun r => negb ((r =? 32) || (r =? 9) || (r =? 10) || (r =? 13))) (Utf8.runes text))) in
    if chars <? 4 then 1 else Z.quot chars 4.

Definition perMessageOverhead : Z := 3.
Definition primingOverhead : Z := 3.

Definition openai_CountText (text : string) : Z :=
  if bool_decide (text = "") then 0
  else match Encode text with
       | None => charEstimate text
       | Some n => Z.of_nat n
       end.

(** Token counts are far below the 64-bit range: no wrap-around is written. *)
Definition count_message (m : Message) : Z :=
  perMessageOverhead + openai_CountText m.(msg_Role) + openai_CountText m.(msg_Content)
  + (if bool_decide (m.(msg_Name) = "") then 0 else openai_CountText m.(msg_Name)).

Definition openai_CountMessages (messages : list Message) : Z :=
  match messages with
  | [] => 0
  | _ => fold_left (fun total m => total + count_message m) messages primingOverhead
  end.

Definition anthropicScale : float64 := lit 115 100.

Definition scale (n : Z) (factor : float64) : Z :=
  if n =? 0 then 0 else to_int64 (f_add (f_mul (of_Z n) factor) (lit 1 2)).

Definition anthropic_CountMessages (messages : list Message) : Z :=
  scale (openai_CountMessages messages) anthropicScale.
Definition anthropic_CountText (text : string) : Z := scale (openai_CountText text) anthropicScale.

(** The two implementations and the selector. *)
Inductive tokenizer := openaiBPE | anthropicApprox.

#[global] Instance tokenizer_impl : Tokenizer tokenizer := {|
  Family t := match t with openaiBPE => "openai-cl100k" | anthropicApprox => "anthropic-approx" end;
  CountMessages t := match t with
                     | openaiBPE => openai_CountMessages
                     | anthropicApprox => anthropic_CountMessages
                     end;
  CountText t := match t with
                 | openaiBPE => openai_CountText
                 | anthropicApprox => anthropic_CountText
                 end
|}.

(** [Selector.For]; no non-ASCII letter lowers to a letter of [claude]. *)
Definition For (model : string) : tokenizer :=
  if Strings.HasPrefix (Strings.ToLowerASCII model) "claude" then anthropicApprox else openaiBPE.

Lemma charEstimate_pos text : text <> "" -> 1 <= charEstimate text.
Proof.
  intros Hne. unfold charEstimate. rewrite bool_decide_false by done. cbv zeta.
  match goal with |- context [?x <? 4] => destruct (Z.ltb_spec x 4) as [|H]; [lia|] end.
  apply Z.quot_le_lower_bound; lia.
Qed.

Lemma openai_CountText_nonneg text : 0 <= openai_CountText text.
Proof.
  unfold openai_CountText. case_bool_decide as Hne; [lia|]. destruct (Encode text); [lia|].
  pose proof (charEstimate_pos text Hne). lia.
Qed.

Lemma count_message_pos m : 3 <= count_message m.
Proof.
  unfold count_message, perMessageOverhead.
  pose proof (openai_CountText_nonneg m.(msg_Role)). pose proof (openai_CountText_nonneg m.(msg_Content)).
  pose proof (openai_CountText_nonneg m.(msg_Name)). case_bool_decide; lia.
Qed.

Lemma fold_count ms k :
  fold_left (fun total m => total + count_message m) ms k = k + fold_left (fun total m => total + count_message m) ms 0.
Proof.
  revert k. induction ms as [|m ms IH]; intros k; cbn [fold_left]; [lia|].
  rewrite IH, (IH (0 + _)). lia.
Qed.

Lemma fold_count_nonneg ms : 0 <= fold_left (fun total m => total + count_message m) ms 0.
Proof.
  induction ms as [|m ms IH]; cbn [fold_left]; [lia|]. rewrite fold_count.
  pose proof (count_message_pos m). lia.
Qed.

Lemma openai_CountMessages_eq ms :
  openai_CountMessages ms =
  match ms with [] => 0 | _ => 3 + fold_left (fun total m => total + count_message m) ms 0 end.
Proof. destruct ms; [done|]. unfold openai_CountMessages. rewrite fold_count. done. Qed.

(** The OpenAI counter as an instance of what the compressor relies on. *)
Inductive openai_only := the_openai.
#[global] Instance openai_impl : Tokenizer openai_only := {|
  Family _ := "openai-cl100k"; CountMessages _ := openai_CountMessages; CountText _ := openai_CountText
|}.

Lemma openai_CountMessages_pos ms : ms <> [] -> 3 <= openai_CountMessages ms.
Proof. rewrite openai_CountMessages_eq. pose proof (fold_count_nonneg ms). destruct ms; [done|lia]. Qed.

Lemma openai_CountMessages_join ms ms' :
  ms <> [] -> ms' <> [] ->
  openai_CountMessages (ms ++ ms') = openai_CountMessages ms + openai_CountMessages ms' - 3.
Proof.
  intros H1 H2. rewrite !openai_CountMessages_eq. destruct ms as [|m ms]; [done|]. destruct ms' as [|m' ms']; [done|].
  cbn [app]. rewrite app_comm_cons, fold_left_app, (fold_count (m' :: ms')). lia.
Qed.

#[global] Instance openai_laws : TokenizerLaws openai_only.
Proof.
  split; intros []; cbn.
  - intros [|m ms]; [done|]. pose proof (openai_CountMessages_pos (m :: ms) ltac:(done)). lia.
  - intros [|m ms] [|m' ms']; cbn [app]; rewrite ?app_nil_r; try (cbn [openai_CountMessages]; lia).
    rewrite app_comm_cons, openai_CountMessages_join by done. lia.
Qed.

(** The Anthropic counter obeys the same laws on conversations of fewer than
    2^48 tokens, in spite of its rounding: joining two lists saves one priming
    overhead, which is more than the rounding of two counts can lose. *)
Lemma scale_bounds n :
  0 < n < 2 ^ 48 -> 23 * n - 11 <= 20 * scale n anthropicScale <= 23 * n + 15.
Proof.
  intros Hn. unfold scale. destruct (Z.eqb_spec n 0); [lia|].
  assert (Hr : repr anthropicScale 5179139571476070 (-52)).
  { unfold repr. split_and!; reflexivity || lia || (intros _; reflexivity). }
  pose proof (count_scaled _ _ n Hr ltac:(lia) Hn) as H. cbn zeta in H.
  pose proof (Z.mul_div_le (5179139571476070 * n) (2 ^ 50) ltac:(lia)).
  pose proof (Z.mul_succ_div_gt (5179139571476070 * n) (2 ^ 50) ltac:(lia)). lia.
Qed.

Lemma anthropic_laws ms ms' :
  openai_CountMessages (ms ++ ms') < 2 ^ 48 ->
  0 <= anthropic_CountMessages ms /\
  anthropic_CountMessages (ms ++ ms') <= anthropic_CountMessages ms + anthropic_CountMessages ms'.
Proof.
  intros Hb. unfold anthropic_CountMessages. destruct ms as [|m ms]; [by cbn|].
  pose proof (openai_CountMessages_pos (m :: ms) ltac:(done)). destruct ms' as [|m' ms'].
  - rewrite app_nil_r in *. pose proof (scale_bounds (openai_CountMessages (m :: ms)) ltac:(lia)).
    change (scale (openai_CountMessages []) anthropicScale) with 0. lia.
  - pose proof (openai_CountMessages_pos (m' :: ms') ltac:(done)). rewrite openai_CountMessages_join in * by done.
    pose proof (scale_bounds (openai_CountMessages (m :: ms)) ltac:(lia)).
    pose proof (scale_bounds (openai_CountMessages (m' :: ms')) ltac:(lia)).
    pose proof (scale_bounds (openai_CountMessages (m :: ms) + openai_CountMessages (m' :: ms') - 3) ltac:(lia)). lia.
Qed.
End Counters.

(** ** Construction *)

Section Construction.
(** [tokenizer.Get] of tiktoken-go: a codec is its [Encode]. *)
Context (Get : string -> error + (string -> option nat)).

Definition Cl100kBase : string := "cl100k_base".
Definition codecCl100k : error + (string -> option nat) := Get Cl100kBase.

(** A tokenizer with the codec it holds. *)
Record counter := { defaultCodec : string -> option nat; kind : tokenizer }.

Definition NewOpenAI : error + counter :=
  match Get Cl100kBase with
  | inl err => inl err
  | inr codec => inr {| defaultCodec := codec; kind := openaiBPE |}
  end.

Definition NewAnthropic : error + counter :=
  match codecCl100k with
  | inl err => inl err
  | inr c => inr {| defaultCodec := c; kind := anthropicApprox |}
  end.

Record Selector := { sel_openai : counter; sel_anthropic : counter }.

Definition NewSelector : error + Selector :=
  match NewOpenAI with
  | inl err => inl err
  | inr o => match NewAnthropic with
             | inl err => inl err
             | inr a => inr {| sel_openai := o; sel_anthropic := a |}
             end
  end.

Definition select (s : Selector) (model : string) : counter :=
  if Strings.HasPrefix (Strings.ToLowerASCII model) "claude" then s.(sel_anthropic) else s.(sel_openai).

(** A selector that was built counts with the one codec, as [For] says. *)
Lemma select_spec s model :
  NewSelector = inr s ->
  exists codec, Get Cl100kBase = inr codec /\ select s model = {| defaultCodec := codec; kind := For model |}.
Proof.
  unfold NewSelector, NewOpenAI, NewAnthropic, codecCl100k. destruct (Get Cl100kBase) as [|codec]; [done|].
  intros [= <-]. exists codec. split; [done|]. unfold select, For. by destruct (Strings.HasPrefix _ _).
Qed.
End Construction.

#[global] Instance counter_impl : Tokenizer counter := {|
  Family c := Family (Tokenizer := tokenizer_impl c.(defaultCodec)) c.(kind);
  CountMessages c := CountMessages (Tokenizer := tokenizer_impl c.(defaultCodec)) c.(kind);
  CountText c := CountText (Tokenizer := tokenizer_impl c.(defaultCodec)) c.(kind)
|}.

(** ** The sliding window *)

Module Compressor.

Record Result := { Compressed : bool; TokensBefore : Z; TokensAfter : Z; RemovedMessages : Z }.

Record SlidingWindowOptions := {
  opt_Tokenizer : bool; opt_DefaultWindow : Z; opt_Windows : gmap string Z;
  opt_TriggerRatio : float64; opt_MinKeepMessages : Z
}.

Record SlidingWindow := {
  defaultWindow : Z; windows : gmap string Z; triggerRatio : float64; minKeepMessages : Z
}.

Definition NewSlidingWindow (o : SlidingWindowOptions) : option SlidingWindow :=
  if negb o.(opt_Tokenizer) then None
  else Some {|
    defaultWindow := if o.(opt_DefaultWindow) <=? 0 then 128000 else o.(opt_DefaultWindow);
    windows := o.(opt_Windows);
    triggerRatio := if f_leb o.(opt_TriggerRatio) f_zero || f_ltb (of_Z 1) o.(opt_TriggerRatio)
                    then lit 4 5 else o.(opt_TriggerRatio);
    minKeepMessages := if o.(opt_MinKeepMessages) <=? 0 then 2 else o.(opt_MinKeepMessages)
  |}.

Section Window.
Context {T : Type} `{!Tokenizer T}.
Context (For : string -> T).

Definition windowFor (c : SlidingWindow) (model : string) : Z :=
  match c.(windows) !! model with
  | Some w => if 0 <? w then w else c.(defaultWindow)
  | None => c.(defaultWindow)
  end.

Definition budget (c : SlidingWindow) (model : string) : Z :=
  to_int64 (f_mul (of_Z (windowFor c model)) c.(triggerRatio)).

Definition is_system (m : Message) : bool := bool_decide (m.(msg_Role) = "system").

(** The backward walk over [rest]: [rev_rest] is what lies before the kept tail
    [kept], nearest first. *)
Fixpoint keep_tail (t : T) (budget systemTokens minKeep : Z) (rev_rest kept : list Message)
    (keepTokens : Z) : list Message * list Message :=
  match rev_rest with
  | [] => ([], kept)
  | m :: before =>
      let msgTokens := CountMessages t [m] in
      let fits := systemTokens + keepTokens + msgTokens <=? budget in
      let mustKeep := Z.of_nat (S (length kept)) <=? minKeep in
      if negb fits && negb mustKeep then (rev_rest, kept)
      else keep_tail t budget systemTokens minKeep before (m :: kept) (keepTokens + msgTokens)
  end.

Definition set_Messages (ms : list Message) (r : ChatRequest) : ChatRequest :=
  {| req_Model := r.(req_Model); req_Messages := ms; req_MaxTokens := r.(req_MaxTokens);
     req_Temperature := r.(req_Temperature); req_TopP := r.(req_TopP); req_N := r.(req_N);
     req_Stream := r.(req_Stream); req_Stop := r.(req_Stop); req_User := r.(req_User);
     req_Extra := r.(req_Extra) |}.

Definition system_tokens (t : T) (systems : list Message) : Z :=
  match systems with [] => 0 | _ => CountMessages t systems end.

(** [SlidingWindow.Compress]: the result and the request as it was mutated. *)
Definition Compress (c : option SlidingWindow) (req : ChatRequest) : Result * ChatRequest :=
  match c with
  | None => (Build_Result false 0 0 0, req)
  | Some c =>
      let messages := req.(req_Messages) in
      if (length messages =? 0)%nat then (Build_Result false 0 0 0, req) else
      let t := For req.(req_Model) in
      let tokensBefore := CountMessages t messages in
      let budget := budget c req.(req_Model) in
      if tokensBefore <=? budget then (Build_Result false tokensBefore tokensBefore 0, req)
      else
        let systems := List.filter is_system messages in
        let rest := List.filter (fun m => negb (is_system m)) messages in
        let systemTokens := system_tokens t systems in
        let '(dropped, kept) := keep_tail t budget systemTokens c.(minKeepMessages) (rev rest) [] 0 in
        match dropped with
        | [] => (Build_Result false tokensBefore tokensBefore 0, req)
        | _ =>
            let req' := set_Messages (systems ++ kept) req in
            (Build_Result true tokensBefore (CountMessages t req'.(req_Messages))
               (Z.of_nat (length dropped)), req')
        end
  end.

(** *** The kept tail *)

Definition single_tokens (t : T) (ms : list Message) : Z :=
  fold_right (fun m a => CountMessages t [m] + a) 0 ms.

Lemma single_tokens_cons t m ms :
  single_tokens t (m :: ms) = CountMessages t [m] + single_tokens t ms.
Proof. done. Qed.

(** Every message beyond the floor was kept because it fitted. *)
Lemma keep_tail_spec t bud sys minKeep rev_rest kept k dropped kept' :
  keep_tail t bud sys minKeep rev_rest kept k = (dropped, kept') ->
  k = single_tokens t kept ->
  (sys + single_tokens t kept <= bud \/ Z.of_nat (length kept) <= minKeep) ->
  rev rev_rest ++ kept = rev dropped ++ kept' /\
  (sys + single_tokens t kept' <= bud \/ Z.of_nat (length kept') <= minKeep) /\
  (forall m before, dropped = m :: before ->
     bud < sys + single_tokens t (m :: kept') /\ minKeep < Z.of_nat (S (length kept'))).
Proof.
  revert kept k. induction rev_rest as [|m before IH]; intros kept k Hk Hsum Hok; cbn [keep_tail] in Hk.
  - injection Hk as <- <-. done.
  - destruct (Z.leb_spec (sys + k + CountMessages t [m]) bud) as [Hf|Hf];
      destruct (Z.leb_spec (Z.of_nat (S (length kept))) minKeep) as [Hm|Hm]; cbn [negb andb] in Hk.
    4: { injection Hk as <- <-. split_and!; [done|done|]. intros m' b [= <- <-]. rewrite single_tokens_cons. lia. }
    all: destruct (IH _ _ Hk) as (H1 & H2 & H3);
      [rewrite single_tokens_cons; lia | rewrite single_tokens_cons; cbn [length]; lia |];
      split_and!; [|done|done]; cbn [rev]; by rewrite <- app_assoc.
Qed.

(** Joining parts of the conversation does not cost tokens. *)
Definition subadditive (t : T) (l : list Message) : Prop :=
  forall ms ms', ms ++ ms' ⊆+ l -> CountMessages t (ms ++ ms') <= CountMessages t ms + CountMessages t ms'.

Lemma laws_subadditive t l `{!TokenizerLaws T} : subadditive t l.
Proof. intros ms ms' _. apply CountMessages_app. Qed.

Lemma subadditive_sub t l l' : subadditive t l -> l' ⊆+ l -> subadditive t l'.
Proof. intros H Hs ms ms' Hm. apply H. by etrans. Qed.

Lemma CountMessages_singles t ms :
  subadditive t ms -> ms <> [] -> CountMessages t ms <= single_tokens t ms.
Proof.
  intros Hs Hne. induction ms as [|m ms IH]; [done|]. rewrite single_tokens_cons.
  destruct ms as [|m' ms]; [cbn [single_tokens fold_right]; lia|].
  pose proof (Hs [m] (m' :: ms) (reflexivity _)).
  specialize (IH (subadditive_sub _ _ _ Hs ltac:(by apply submseteq_cons)) ltac:(done)). cbn [app] in *. lia.
Qed.

(** What fits message by message fits as a whole. *)
Lemma kept_within t bud systems kept :
  subadditive t (systems ++ kept) -> kept <> [] -> system_tokens t systems + single_tokens t kept <= bud ->
  CountMessages t (systems ++ kept) <= bud.
Proof.
  intros Hs Hne Hfit.
  pose proof (CountMessages_singles t kept (subadditive_sub _ _ _ Hs ltac:(by apply submseteq_inserts_l)) Hne).
  pose proof (Hs systems kept (reflexivity _)). unfold system_tokens in Hfit. destruct systems; [cbn [app] in *; lia|lia].
Qed.

Lemma keep_tail_total t bud sys minKeep rest :
  let '(dropped, kept) := keep_tail t bud sys minKeep (rev rest) [] 0 in
  0 <= minKeep ->
  rest = rev dropped ++ kept /\
  (sys + single_tokens t kept <= bud \/ Z.of_nat (length kept) <= minKeep) /\
  (forall m before, dropped = m :: before ->
     bud < sys + single_tokens t (m :: kept) /\ minKeep <= Z.of_nat (length kept)).
Proof.
  destruct (keep_tail _ _ _ _ _ _ _) as [dropped kept] eqn:E. intros Hm.
  destruct (keep_tail_spec _ _ _ _ _ _ _ _ _ E) as (H1 & H2 & H3); [done|right; cbn; lia|].
  rewrite rev_involutive, app_nil_r in H1. split_and!; [done|done|].
  intros m b Hd. destruct (H3 m b Hd). lia.
Qed.

(** C35: What the compressor does to a conversation.  When it reports a
    compression, the new messages are all the system messages, in order,
    followed by a suffix of the others; at least the configured floor of them is
    kept; the newest message it removed would not have fitted the budget beside
    the kept ones; and the prompt it leaves is within the budget whenever more
    than the floor was kept.  Otherwise the request is untouched. *)
Theorem Compress_spec `{!TokenizerLaws T} c req res req' :
  0 < c.(minKeepMessages) -> Compress (Some c) req = (res, req') ->
  let t := For req.(req_Model) in
  let bud := budget c req.(req_Model) in
  let systems := List.filter is_system req.(req_Messages) in
  let rest := List.filter (fun m => negb (is_system m)) req.(req_Messages) in
  if res.(Compressed) then
    exists old kept, rest = old ++ kept /\ old <> [] /\
      req' = set_Messages (systems ++ kept) req /\
      res.(RemovedMessages) = Z.of_nat (length old) /\
      res.(TokensBefore) = CountMessages t req.(req_Messages) /\ bud < res.(TokensBefore) /\
      res.(TokensAfter) = CountMessages t (systems ++ kept) /\
      c.(minKeepMessages) <= Z.of_nat (length kept) /\
      (c.(minKeepMessages) < Z.of_nat (length kept) -> res.(TokensAfter) <= bud) /\
      (exists older m, old = older ++ [m] /\ bud < system_tokens t systems + single_tokens t (m :: kept))
  else req' = req.
Proof.
  intros Hmin Hc t bud systems rest. unfold Compress in Hc.
  destruct (length (req_Messages req) =? 0)%nat; [by injection Hc as <- <-|].
  fold t bud systems rest in Hc.
  destruct (Z.leb_spec (CountMessages t (req_Messages req)) bud) as [|Hbud]; [by injection Hc as <- <-|].
  set (sys := system_tokens t systems) in *.
  pose proof (keep_tail_total t bud sys (minKeepMessages c) rest) as Hk.
  destruct (keep_tail t bud sys (minKeepMessages c) (rev rest) [] 0) as [dropped kept].
  destruct Hk as (Hrest & Hfit & Hmax); [lia|].
  destruct dropped as [|d ds]; [by injection Hc as <- <-|]. injection Hc as <- <-. cbn [Compressed].
  destruct (Hmax d ds eq_refl) as [Hover Hfloor].
  exists (rev (d :: ds)), kept. split_and!; try done.
  - intros Hx. cbn [rev] in Hx. by apply app_eq_nil in Hx as [_ ?].
  - by rewrite length_rev.
  - cbn [TokensAfter req_Messages set_Messages]. intros Hlt.
    destruct Hfit as [Hfit|]; [|lia].
    assert (Hkne : kept <> []) by (intros ->; cbn in *; lia).
    by apply kept_within; [apply laws_subadditive| |exact Hfit].
  - by exists (rev ds), d.
Qed.

Lemma partition_messages (l : list Message) :
  List.filter is_system l ++ List.filter (fun m => negb (is_system m)) l ≡ₚ l.
Proof.
  induction l as [|m l IH]; [done|]. cbn. destruct (is_system m); cbn; [by rewrite IH|].
  rewrite <- Permutation_middle. by rewrite IH.
Qed.

(** The budget is kept under the law on this conversation alone. *)
Lemma Compress_within c req res req' :
  0 < c.(minKeepMessages) -> Compress (Some c) req = (res, req') -> res.(Compressed) = true ->
  subadditive (For req.(req_Model)) req.(req_Messages) ->
  c.(minKeepMessages) < Z.of_nat (length (List.filter (fun m => negb (is_system m)) req'.(req_Messages))) ->
  res.(TokensAfter) <= budget c req.(req_Model).
Proof.
  intros Hmin Hc Hres Hsub Hlen. unfold Compress in Hc.
  destruct (length (req_Messages req) =? 0)%nat; [by injection Hc as <- <-|].
  destruct (_ <=? _); [by injection Hc as <- <-|].
  set (t := For (req_Model req)) in *. set (bud := budget c (req_Model req)) in *.
  set (systems := List.filter is_system (req_Messages req)) in *.
  set (rest := List.filter (fun m => negb (is_system m)) (req_Messages req)) in *.
  pose proof (keep_tail_total t bud (system_tokens t systems) (minKeepMessages c) rest) as Hk.
  destruct (keep_tail _ _ _ _ _ _ _) as [dropped kept].
  destruct Hk as (Hrest & Hfit & _); [lia|].
  assert (Hin : systems ++ kept ⊆+ req_Messages req).
  { rewrite <- (partition_messages (req_Messages req)). fold systems rest. rewrite Hrest.
    apply submseteq_app; [done|]. by apply submseteq_inserts_l. }
  destruct dropped as [|d ds]; injection Hc as <- <-; [done|]. cbn [TokensAfter req_Messages set_Messages] in *.
  rewrite List.filter_app, length_app in Hlen.
  assert (Hnone : List.filter (fun m => negb (is_system m)) systems = []).
  { unfold systems. clear. induction (req_Messages req) as [|m l IH]; [done|]. cbn.
    destruct (is_system m) eqn:E; cbn; [by rewrite E|done]. }
  rewrite Hnone in Hlen. pose proof (List.filter_length_le (fun m => negb (is_system m)) kept).
  cbn [length] in Hlen. destruct Hfit as [Hfit|]; [|lia].
  apply kept_within; [by eapply subadditive_sub|by intros ->; cbn in *; lia|done].
Qed.

(** Re-running the backward walk on what it kept keeps everything. *)
Lemma keep_tail_stable t bud sys minKeep kept1 kept2 k :
  k = single_tokens t kept2 ->
  (sys + single_tokens t (kept1 ++ kept2) <= bud \/ Z.of_nat (length (kept1 ++ kept2)) <= minKeep) ->
  (forall m, 0 <= CountMessages t [m]) ->
  keep_tail t bud sys minKeep (rev kept1) kept2 k = ([], kept1 ++ kept2).
Proof.
  intros Hk Hfit Hpos. revert kept2 k Hk Hfit. induction kept1 as [|m kept1 IH] using rev_ind;
    intros kept2 k Hk Hfit; [done|].
  rewrite rev_app_distr. cbn [rev app keep_tail]. rewrite <- app_assoc in *. cbn [app] in *.
  assert (Hmono : forall l l', single_tokens t l' <= single_tokens t (l ++ l')).
  { intros l l'. induction l as [|x l IHl]; [done|]. cbn [app]. rewrite single_tokens_cons.
    specialize (Hpos x). lia. }
  specialize (Hmono kept1 (m :: kept2)). rewrite single_tokens_cons in Hmono.
  rewrite length_app in Hfit. cbn [length] in Hfit.
  destruct (Z.leb_spec (sys + k + CountMessages t [m]) bud) as [Hf|Hf];
    destruct (Z.leb_spec (Z.of_nat (S (length kept2))) minKeep) as [Hm|Hm]; cbn [negb andb];
    try (apply IH; [rewrite single_tokens_cons; lia|rewrite length_app; cbn [length]; lia]).
  exfalso. lia.
Qed.

Lemma filter_all {A} (p : A -> bool) l : forallb p l = true -> List.filter p l = l.
Proof.
  induction l as [|x l IH]; [done|]. cbn. destruct (p x); [|done]. cbn. intros H. by rewrite IH.
Qed.

Lemma filter_none {A} (p : A -> bool) l : forallb (fun x => negb (p x)) l = true -> List.filter p l = [].
Proof. induction l as [|x l IH]; [done|]. cbn. by destruct (p x). Qed.

Lemma filter_forallb {A} (p : A -> bool) l : forallb p (List.filter p l) = true.
Proof. induction l as [|x l IH]; [done|]. cbn. destruct (p x) eqn:E; [cbn; by rewrite E|done]. Qed.

(** Compressing twice is compressing once: whatever a first pass leaves,
    within budget or stopped by the floor, a second pass leaves alone. *)
Theorem Compress_idempotent `{!TokenizerLaws T} c req :
  0 < c.(minKeepMessages) ->
  (Compress (Some c) (Compress (Some c) req).2).2 = (Compress (Some c) req).2.
Proof.
  intros Hmin. destruct (Compress (Some c) req) as [res req'] eqn:E. cbn [snd].
  pose proof E as E0. unfold Compress in E.
  destruct (length (req_Messages req) =? 0)%nat; [injection E as <- <-; by rewrite E0|].
  set (t := For (req_Model req)) in E. set (bud := budget c (req_Model req)) in E.
  destruct (CountMessages t (req_Messages req) <=? bud); [injection E as <- <-; by rewrite E0|].
  set (systems := List.filter is_system (req_Messages req)) in E.
  set (rest := List.filter _ (req_Messages req)) in E.
  set (sys := system_tokens t systems) in E.
  pose proof (keep_tail_total t bud sys (minKeepMessages c) rest) as Hk.
  destruct (keep_tail t bud sys (minKeepMessages c) (rev rest) [] 0) as [dropped kept].
  destruct Hk as (Hrest & Hfit & _); [lia|].
  destruct dropped as [|d ds]; [injection E as <- <-; by rewrite E0|]. injection E as <- <-.
  assert (Hsys : forallb is_system systems = true) by apply filter_forallb.
  assert (Hkept : forallb (fun m => negb (is_system m)) kept = true).
  { pose proof (filter_forallb (fun m => negb (is_system m)) (req_Messages req)) as Hr.
    fold rest in Hr. rewrite Hrest, forallb_app in Hr. by apply andb_true_iff in Hr as [_ Hr]. }
  assert (H1 : List.filter is_system (systems ++ kept) = systems).
  { by rewrite List.filter_app, (filter_all _ systems), (filter_none _ kept), app_nil_r. }
  assert (H2 : List.filter (fun m => negb (is_system m)) (systems ++ kept) = kept).
  { rewrite List.filter_app, (filter_all _ kept), (filter_none _ systems); [done| |done].
    rewrite <- Hsys. clear. induction systems as [|x l IH]; [done|]. cbn. rewrite IH. by destruct (is_system x). }
  unfold Compress. cbn [req_Messages set_Messages req_Model]. fold t bud.
  destruct (length (systems ++ kept) =? 0)%nat; [done|].
  destruct (CountMessages t (systems ++ kept) <=? bud); [done|]. rewrite H1, H2. fold sys.
  rewrite (keep_tail_stable t bud sys (minKeepMessages c) kept [] 0); [done|done| |].
  - by rewrite app_nil_r.
  - intros m. apply CountMessages_nonneg.
Qed.
End Window.

(** *** The production tokenizers *)

Section Production.
Context (Encode : string -> option nat).
#[local] Instance production : Tokenizer tokenizer := tokenizer_impl Encode.

Lemma openai_Permutation ms ms' : ms ≡ₚ ms' -> openai_CountMessages Encode ms = openai_CountMessages Encode ms'.
Proof.
  intros Hp. rewrite !openai_CountMessages_eq.
  assert (Hs : fold_left (fun total m => total + count_message Encode m) ms 0 =
               fold_left (fun total m => total + count_message Encode m) ms' 0).
  { induction Hp as [|m l l' _ IH|m m' l|l1 l2 l3 _ IH1 _ IH2]; [done| | |congruence]; cbn [fold_left].
    - rewrite fold_count, (fold_count _ l'). by rewrite IH.
    - f_equal. lia. }
  destruct ms; destruct ms'; try done; [by apply Permutation_nil_l in Hp|by apply Permutation_nil_r in Hp|by rewrite Hs].
Qed.

Lemma openai_sub ms ms' : ms ⊆+ ms' -> openai_CountMessages Encode ms <= openai_CountMessages Encode ms'.
Proof.
  intros [rest Hp]%submseteq_Permutation. rewrite (openai_Permutation _ _ Hp). destruct rest as [|r rest].
  { by rewrite app_nil_r. }
  pose proof (openai_CountMessages_pos Encode (r :: rest) ltac:(done)). destruct ms as [|m ms]; [change (openai_CountMessages Encode []) with 0; cbn [app]; lia|].
  rewrite openai_CountMessages_join by done. lia.
Qed.

Lemma production_subadditive t ms : openai_CountMessages Encode ms < 2 ^ 48 -> subadditive t ms.
Proof.
  intros Hb a b Hs. apply openai_sub in Hs. destruct t; cbn.
  - apply (CountMessages_app (TokenizerLaws := openai_laws Encode) the_openai).
  - apply anthropic_laws. lia.
Qed.

(** With the counters the gateway runs with, the Anthropic estimate included, a
    compressed prompt is within the budget whenever more than the floor was
    kept, for every conversation of fewer than 2^48 OpenAI tokens. *)
Theorem production_within c req res req' :
  0 < c.(minKeepMessages) -> Compress For (Some c) req = (res, req') -> res.(Compressed) = true ->
  openai_CountMessages Encode req.(req_Messages) < 2 ^ 48 ->
  c.(minKeepMessages) < Z.of_nat (length (List.filter (fun m => negb (is_system m)) req'.(req_Messages))) ->
  res.(TokensAfter) <= budget c req.(req_Model).
Proof. intros Hmin Hc Hres Hb. apply (Compress_within For c req res req'); [done..|]. by apply production_subadditive. Qed.
End Production.

(** *** Examples *)

Definition msg (role content : string) : Message := Build_Message role content "" "" ∅.

Definition chat (ms : list Message) : ChatRequest :=
  Build_ChatRequest "gpt-4o" ms 0 None None 0 false [] "" ∅.

Definition toy_Encode (s : string) : option nat := Some (String.length s).
#[local] Instance toy : Tokenizer openai_only := openai_impl toy_Encode.
#[local] Instance toy_laws : TokenizerLaws openai_only := openai_laws toy_Encode.

Definition conv : ChatRequest :=
  chat [msg "user" "0123456789"; msg "system" "be nice"; msg "assistant" "0123456789"; msg "user" "hi"].
Definition small_window : SlidingWindow :=
  {| defaultWindow := 60; windows := ∅; triggerRatio := of_Z 1; minKeepMessages := 1 |}.

Lemma Compress_spec_witness :
  exists req', Compress (fun _ => the_openai) (Some small_window) conv =
                 (Build_Result true 67 50 1, req') /\ 50 <= budget small_window "gpt-4o".
Proof.
  assert (Hres : (Compress (fun _ => the_openai) (Some small_window) conv).1 = Build_Result true 67 50 1)
    by by vm_compute.
  destruct (Compress (fun _ => the_openai) (Some small_window) conv) as [res req'] eqn:E.
  cbn [fst] in Hres. subst res. exists req'. split; [done|].
  pose proof (Compress_spec (fun _ => the_openai) small_window conv _ req' ltac:(done) E) as H.
  cbn [Compressed] in H. destruct H as (old & kept & Hr & _ & _ & Hn & _ & _ & _ & _ & Hb).
  apply Hb. cbn in Hn. apply (f_equal length) in Hr. rewrite length_app in Hr.
  change (length (List.filter _ _)) with 3%nat in Hr. cbn. lia.
Defined.

Lemma Compress_idempotent_witness :
  (Compress (fun _ => the_openai) (Some small_window) (Compress (fun _ => the_openai) (Some small_window) conv).2).2
  = (Compress (fun _ => the_openai) (Some small_window) conv).2.
Proof. apply (Compress_idempotent (fun _ => the_openai) small_window conv). done. Defined.
End Compressor.
