(* ===== verification/Route.v ===== *)
(** * Route: the rule-based model classifier

    [internal/route/classifier.go] and [rule_classifier.go].  The walk over the
    rules is written with the source's lazily computed token count and joined
    content; the random source is the list of the rolls it will return; the
    Unicode lower-casing is a parameter. *)

From S2P Require Import Prelude GoStd Float64 Errors Types Prompt.
Local Open Scope Z_scope.

Record Decision := { d_Model : string; d_Rule : string }.
Definition no_decision : Decision := {| d_Model := ""; d_Rule := "" |}.
Definition Empty (d : Decision) : bool := bool_decide (d.(d_Model) = "").

Record Condition := {
  MaxTokens : Z; MinTokens : Z; KeywordsAny : list string; KeywordsNone : list string;
  Model : string; Weight : float64
}.

Record Rule := { Name : string; RouteTo : string; When : Condition }.

Section Classifier.
Context {T : Type} `{!Tokenizer T}.
(** [strings.ToLower]. *)
Context (ToLower : string -> string).

Record RuleClassifier := { rules : list Rule; tokenizer : option (string -> T) }.

(** The validation loop of [NewRuleClassifier]. *)
Fixpoint validate (i : Z) (seen : gset string) (rs : list Rule) : option error :=
  match rs with
  | [] => None
  | r :: rs' =>
      if bool_decide (r.(Name) = "") then Some (Errorf "route: rule[%d] missing Name" [ArgD i] None)
      else if bool_decide (r.(RouteTo) = "") then
        Some (Errorf "route: rule %q missing RouteTo" [ArgS r.(Name)] None)
      else if bool_decide (r.(Name) ∈ seen) then
        Some (Errorf "route: duplicate rule name %q" [ArgS r.(Name)] None)
      else if f_ltb r.(When).(Weight) f_zero || f_ltb (of_Z 100) r.(When).(Weight) then
        Some (Errorf "route: rule %q weight %v out of (0,100]" [ArgS r.(Name)] None)
      else if negb (bool_decide (r.(When).(Model) = ""))
              && bool_decide (Path.Match r.(When).(Model) "probe" = None) then
        Some (Errorf "route: rule %q model glob %q: %w" [ArgS r.(Name); ArgS r.(When).(Model)]
                (Some (Sentinel_ ErrBadPattern)))
      else validate (i + 1) ({[r.(Name)]} ∪ seen) rs'
  end.

Definition NewRuleClassifier (rs : list Rule) (tk : option (string -> T)) : error + RuleClassifier :=
  match validate 0 ∅ rs with
  | Some err => inl err
  | None => inr {| rules := rs; tokenizer := tk |}
  end.

Definition Rules (c : RuleClassifier) : list Rule := c.(rules).

Definition countTokens (c : RuleClassifier) (req : ChatRequest) : Z :=
  match c.(tokenizer) with
  | None => 0
  | Some For => CountMessages (For req.(req_Model)) req.(req_Messages)
  end.

(** The separator is written when the builder is not empty. *)
Definition joinUserContent (req : ChatRequest) : string :=
  fold_left (fun b m =>
    if bool_decide (m.(msg_Role) <> "user") then b
    else (if bool_decide (b = "") then b else b +:+ " ") +:+ m.(msg_Content)) req.(req_Messages) "".

Definition anyKeywordPresent (haystack : string) (keywords : list string) : bool :=
  existsb (fun kw => negb (bool_decide (kw = "")) && Strings.Contains haystack (ToLower kw)) keywords.

(** The loop variables of [Classify]: the count and the content, once
    computed. *)
Record lazy_state := { tokenCount : option Z; userContent : option string }.

Definition force_tokens c req (s : lazy_state) : Z * lazy_state :=
  match s.(tokenCount) with
  | Some n => (n, s)
  | None => let n := countTokens c req in (n, {| tokenCount := Some n; userContent := s.(userContent) |})
  end.
Definition force_content req (s : lazy_state) : string * lazy_state :=
  match s.(userContent) with
  | Some u => (u, s)
  | None => let u := ToLower (joinUserContent req) in
            (u, {| tokenCount := s.(tokenCount); userContent := Some u |})
  end.

(** One rule: whether its deterministic conditions hold, with the loop
    variables as the checks left them. *)
Definition check_rule c req (r : Rule) (s : lazy_state) : bool * lazy_state :=
  let w := r.(When) in
  if negb (bool_decide (w.(Model) = "")) && negb (bool_decide (Path.Match w.(Model) req.(req_Model) = Some true))
  then (false, s)
  else
    let '(tokens_ok, s) :=
      if (0 <? w.(MaxTokens)) || (0 <? w.(MinTokens)) then
        let '(n, s) := force_tokens c req s in
        (negb ((0 <? w.(MaxTokens)) && (w.(MaxTokens) <? n))
         && negb ((0 <? w.(MinTokens)) && (n <? w.(MinTokens))), s)
      else (true, s) in
    if negb tokens_ok then (false, s)
    else if negb (bool_decide (w.(KeywordsAny) = [])) || negb (bool_decide (w.(KeywordsNone) = [])) then
      let '(u, s) := force_content req s in
      (negb (negb (bool_decide (w.(KeywordsAny) = [])) && negb (anyKeywordPresent u w.(KeywordsAny)))
       && negb (negb (bool_decide (w.(KeywordsNone) = [])) && anyKeywordPresent u w.(KeywordsNone)), s)
    else (true, s).

(** The weight check consumes a roll only when the rule has a weight. *)
Definition roll (r : Rule) (rng : list float64) : bool * list float64 :=
  if f_ltb f_zero r.(When).(Weight) then
    match rng with
    | x :: rng' => (f_ltb (f_mul x (of_Z 100)) r.(When).(Weight), rng')
    | [] => (false, [])
    end
  else (true, rng).

Fixpoint classify_loop c req (rs : list Rule) (s : lazy_state) (rng : list float64)
    : Decision * list float64 :=
  match rs with
  | [] => (no_decision, rng)
  | r :: rs' =>
      let '(ok, s) := check_rule c req r s in
      if negb ok then classify_loop c req rs' s rng
      else
        let '(won, rng) := roll r rng in
        if negb won then classify_loop c req rs' s rng
        else ({| d_Model := r.(RouteTo); d_Rule := r.(Name) |}, rng)
  end.

Definition Classify (c : RuleClassifier) (req : ChatRequest) (rng : list float64)
    : Decision * list float64 :=
  classify_loop c req c.(rules) {| tokenCount := None; userContent := None |} rng.

(** ** What a rule selects, without the caching *)

Definition selects (c : RuleClassifier) (req : ChatRequest) (w : Condition) : bool :=
  (bool_decide (w.(Model) = "") || bool_decide (Path.Match w.(Model) req.(req_Model) = Some true))
  && ((w.(MaxTokens) <=? 0) || (countTokens c req <=? w.(MaxTokens)))
  && ((w.(MinTokens) <=? 0) || (w.(MinTokens) <=? countTokens c req))
  && (bool_decide (w.(KeywordsAny) = [])
      || anyKeywordPresent (ToLower (joinUserContent req)) w.(KeywordsAny))
  && (bool_decide (w.(KeywordsNone) = [])
      || negb (anyKeywordPresent (ToLower (joinUserContent req)) w.(KeywordsNone))).

(** The first selected rule that wins its roll. *)
Fixpoint pick (rs : list Rule) (rng : list float64) : option Rule * list float64 :=
  match rs with
  | [] => (None, rng)
  | r :: rs' => let '(won, rng) := roll r rng in if won : bool then (Some r, rng) else pick rs' rng
  end.

Definition lazy_ok c req (s : lazy_state) : Prop :=
  (forall n, s.(tokenCount) = Some n -> n = countTokens c req) /\
  (forall u, s.(userContent) = Some u -> u = ToLower (joinUserContent req)).

Lemma force_tokens_spec c req s :
  lazy_ok c req s -> exists s', force_tokens c req s = (countTokens c req, s') /\ lazy_ok c req s'.
Proof.
  intros Hok. unfold force_tokens. destruct (tokenCount s) as [n|] eqn:E.
  - exists s. split; [|done]. by rewrite (proj1 Hok n E).
  - eexists. split; [done|]. destruct Hok as [_ Hu]. split; cbn; [by intros n [= <-]|done].
Qed.

Lemma force_content_spec c req s :
  lazy_ok c req s ->
  exists s', force_content req s = (ToLower (joinUserContent req), s') /\ lazy_ok c req s'.
Proof.
  intros Hok. unfold force_content. destruct (userContent s) as [u|] eqn:E.
  - exists s. split; [|done]. by rewrite (proj2 Hok u E).
  - eexists. split; [done|]. destruct Hok as [Hn _]. split; cbn; [done|by intros u [= <-]].
Qed.

Lemma check_rule_spec c req r s :
  lazy_ok c req s ->
  (check_rule c req r s).1 = selects c req r.(When) /\ lazy_ok c req (check_rule c req r s).2.
Proof.
  intros Hok. unfold check_rule, selects. destruct r as [name to w]. cbn [When].
  destruct (force_tokens_spec c req s Hok) as (s1 & Hs1 & Hok1).
  destruct (force_content_spec c req s Hok) as (s2 & Hs2 & Hok2).
  destruct (force_content_spec c req s1 Hok1) as (s3 & Hs3 & Hok3).
  destruct (bool_decide (Model w = "")); cbn [negb andb orb];
    [|destruct (bool_decide (Path.Match (Model w) (req_Model req) = Some true)); cbn [negb andb orb]; [|done]].
  all: rewrite Hs1; destruct (Z.ltb_spec 0 (MaxTokens w)), (Z.ltb_spec 0 (MinTokens w));
    destruct (Z.leb_spec (MaxTokens w) 0), (Z.leb_spec (MinTokens w) 0); try lia; cbn [orb andb negb];
    rewrite ?Z.leb_antisym; repeat match goal with
    | |- context [?y <? ?x] => destruct (Z.ltb_spec y x)
    end; cbn [orb andb negb fst snd]; try done;
    destruct (bool_decide (KeywordsAny w = [])), (bool_decide (KeywordsNone w = []));
    cbn [orb andb negb fst snd]; rewrite ?Hs2, ?Hs3; cbn [fst snd];
    rewrite ?andb_true_r; try done;
    repeat destruct (anyKeywordPresent _ _); done.
Qed.

Lemma classify_loop_spec c req rs s rng :
  lazy_ok c req s ->
  classify_loop c req rs s rng =
  let '(r, rng') := pick (List.filter (fun r => selects c req r.(When)) rs) rng in
  (match r with Some r => {| d_Model := r.(RouteTo); d_Rule := r.(Name) |} | None => no_decision end, rng').
Proof.
  revert s rng. induction rs as [|r rs IH]; intros s rng Hs; [done|]. cbn [classify_loop List.filter].
  destruct (check_rule_spec c req r s Hs) as [Hc Hs']. destruct (check_rule c req r s) as [ok s'].
  cbn [fst snd] in *. rewrite <- Hc. destruct ok; cbn [negb]; [|by apply IH]. cbn [pick].
  destruct (roll r rng) as [won rng']. destruct won; cbn [negb]; [done|by apply IH].
Qed.

(** The classifier is its specification: the decision is the first rule,
    in order, whose deterministic conditions all hold (model glob, token
    bounds, keyword lists) and which wins its roll; the lazily computed token
    count and content change nothing, and a random number is drawn only for a
    rule that has a weight and otherwise selects the request. *)
Theorem Classify_first_match c req rng :
  Classify c req rng =
  let '(r, rng') := pick (List.filter (fun r => selects c req r.(When)) c.(rules)) rng in
  (match r with Some r => {| d_Model := r.(RouteTo); d_Rule := r.(Name) |} | None => no_decision end, rng').
Proof. apply classify_loop_spec. by split. Qed.

(** Without a tokenizer the count is 0, so an upper bound alone selects every
    request. *)
Theorem no_tokenizer_upper_bound c req rng n :
  c.(tokenizer) = None -> c.(rules) = [{| Name := "short"; RouteTo := "cheap"; When :=
    {| MaxTokens := n; MinTokens := 0; KeywordsAny := []; KeywordsNone := []; Model := "";
       Weight := f_zero |} |}] -> 0 < n ->
  Classify c req rng = ({| d_Model := "cheap"; d_Rule := "short" |}, rng).
Proof.
  intros Ht Hr Hn. unfold Classify. rewrite Hr. cbn [classify_loop]. unfold check_rule. cbn.
  unfold force_tokens, countTokens. rewrite Ht. cbn.
  rewrite (proj2 (Z.ltb_lt 0 n)) by done. cbn. by rewrite (proj2 (Z.ltb_ge n 0)) by lia.
Qed.

(** A validated rule list: names and targets present, names unique, globs
    well-formed. *)
Lemma validate_spec i seen rs :
  validate i seen rs = None ->
  Forall (fun r => r.(Name) <> "" /\ r.(RouteTo) <> "" /\ r.(Name) ∉ seen /\
            f_ltb r.(When).(Weight) f_zero = false /\ f_ltb (of_Z 100) r.(When).(Weight) = false /\
            (r.(When).(Model) <> "" -> Path.Match r.(When).(Model) "probe" <> None)) rs /\
  NoDup (map Name rs).
Proof.
  revert i seen. induction rs as [|r rs IH]; intros i seen; cbn [validate].
  { intros _. split; constructor. }
  case_bool_decide; [done|]. case_bool_decide; [done|]. case_bool_decide; [done|].
  destruct (f_ltb (Weight (When r)) f_zero || f_ltb (of_Z 100) (Weight (When r))) eqn:Ew; [done|].
  destruct (negb (bool_decide (Model (When r) = "")) && _) eqn:Eg; [done|].
  apply orb_false_iff in Ew as [Hw1 Hw2]. intros Hv. destruct (IH _ _ Hv) as [Hall Hnd]. split.
  - constructor.
    + split_and!; try done. intros Hm Hp. rewrite bool_decide_false, Hp in Eg by done. done.
    + eapply list.Forall_impl; [exact Hall|]. cbn. intros x (?&?&?&?&?&?). split_and!; try done. set_solver.
  - cbn [map]. constructor; [|done]. intros Hin. apply list_elem_of_fmap in Hin as (x & Hx & Hin).
    rewrite list.Forall_forall in Hall. destruct (Hall x Hin) as (_ & _ & Hni & _). set_solver.
Qed.

(** A classifier that was built never routes to nowhere and never reports
    an ambiguous rule: every non-empty decision names one configured rule, and
    that rule's target. *)
Theorem Classify_sound rs tk c req rng d rng' :
  NewRuleClassifier rs tk = inr c -> Classify c req rng = (d, rng') ->
  d = no_decision \/
  exists r, r ∈ rs /\ d = {| d_Model := r.(RouteTo); d_Rule := r.(Name) |} /\ Empty d = false /\
    selects c req r.(When) = true /\
    forall r', r' ∈ rs -> r'.(Name) = d.(d_Rule) -> r' = r.
Proof.
  intros Hn Hc. unfold NewRuleClassifier in Hn. destruct (validate 0 ∅ rs) eqn:Ev; [done|].
  injection Hn as <-. destruct (validate_spec _ _ _ Ev) as [Hall Hnd].
  rewrite Classify_first_match in Hc. cbn [rules] in Hc. set (c := Build_RuleClassifier _ _) in *.
  destruct (pick _ rng) as [[r|] rng1] eqn:Ep; injection Hc as <- <-; [right|by left].
  assert (Hin : r ∈ List.filter (fun r => selects c req r.(When)) rs).
  { clear -Ep. revert rng Ep. induction (List.filter _ rs) as [|x l IH]; intros rng; [done|].
    cbn [pick]. destruct (roll x rng) as [[] rng0]; [intros [= <- <-]; by left|].
    intros Hp. right. by eapply IH. }
  apply list_elem_of_In, filter_In in Hin as [Hin Hs]. apply list_elem_of_In in Hin.
  rewrite list.Forall_forall in Hall. destruct (Hall r Hin) as (_ & Hto & _).
  exists r. split_and!; [done|done|by apply bool_decide_eq_false|done|].
  intros r' Hin' Hname. cbn in Hname.
  apply list_elem_of_lookup in Hin as [i Hi], Hin' as [j Hj].
  assert (i = j) as ->; [|by rewrite Hi in Hj; simplify_eq].
  eapply NoDup_lookup; [exact Hnd|..]; rewrite list_lookup_fmap, ?Hi, ?Hj; [done|]. cbn. by rewrite Hname.
Qed.
End Classifier.

Module Example.
#[local] Instance toy : Tokenizer openai_only := openai_impl Compressor.toy_Encode.

Definition translate : Rule :=
  {| Name := "translate"; RouteTo := "gpt-4o-mini"; When :=
       {| MaxTokens := 100; MinTokens := 0; KeywordsAny := ["Translate"]; KeywordsNone := [];
          Model := "gpt-*"; Weight := of_Z 25 |} |}.
Definition fallback : Rule :=
  {| Name := "default"; RouteTo := "gpt-4o"; When :=
       {| MaxTokens := 0; MinTokens := 0; KeywordsAny := []; KeywordsNone := []; Model := "";
          Weight := f_zero |} |}.
Definition classifier : RuleClassifier (T := openai_only) :=
  {| rules := [translate; fallback]; tokenizer := Some (fun _ => the_openai) |}.
Definition ask : ChatRequest := Compressor.chat [Compressor.msg "user" "please TRANSLATE this"].

(** The canary takes the request when the roll is below a quarter. *)
Example canary_wins :
  Classify Strings.ToLowerASCII classifier ask [lit 1 10]
  = ({| d_Model := "gpt-4o-mini"; d_Rule := "translate" |}, []).
Proof. by vm_compute. Qed.
Example canary_loses :
  Classify Strings.ToLowerASCII classifier ask [lit 1 4]
  = ({| d_Model := "gpt-4o"; d_Rule := "default" |}, []).
Proof. by vm_compute. Qed.

Lemma Classify_sound_witness :
  exists r, r ∈ [translate; fallback] /\ r.(Name) = "translate".
Proof.
  destruct (Classify_sound Strings.ToLowerASCII [translate; fallback] (Some (fun _ => the_openai))
              classifier ask [lit 1 10] {| d_Model := "gpt-4o-mini"; d_Rule := "translate" |} [])
    as [H|(r & Hin & Hd & _)]; [by vm_compute|by vm_compute|done|].
  exists r. split; [exact Hin|]. by injection Hd.
Defined.
End Example.
