(* ===== verification/Catalog.v ===== *)
(** * Catalog: model metadata, price formatting and GET /v1/models

    [internal/provider/catalog] (Module-level [builtin], [FormatPricing]) and
    the models handler of [internal/server/handlers.go], which folds the
    catalog, the price cache and the breaker gauges into the registry's
    models. *)

From Stdlib Require Import Ascii.
From S2P Require Import Prelude GoStd Float64 Errors Types Registry Billing Auth.
From stdpp Require Import base list gmap strings.
Local Open Scope Z_scope.

(** The capability names of [internal/provider/provider.go]. *)
Definition CapabilityChat : string := "chat".
Definition CapabilityTools : string := "tools".
Definition CapabilityVision : string := "vision".
Definition CapabilityStream : string := "stream".
Definition CapabilityJSONMode : string := "json_mode".
Definition CapabilityLogprobs : string := "logprobs".

Record Entry := {
  ContextLength : Z; Capabilities : list string; Policy : option DataPolicy;
  DefaultPromptPer1kMicro : Z; DefaultCompletionPer1kMicro : Z; DefaultCurrency : string
}.

Definition builtin_list : list (string * Entry) :=
  [("gpt-4o",
    {| ContextLength := 128000;
       Capabilities := [CapabilityChat; CapabilityTools; CapabilityVision; CapabilityStream; CapabilityJSONMode; CapabilityLogprobs];
       Policy := Some {| pol_Training := "opt_out"; pol_RetentionDays := 30 |};
       DefaultPromptPer1kMicro := 2500; DefaultCompletionPer1kMicro := 10000;
       DefaultCurrency := "USD" |});
   ("gpt-4o-mini",
    {| ContextLength := 128000;
       Capabilities := [CapabilityChat; CapabilityTools; CapabilityVision; CapabilityStream; CapabilityJSONMode; CapabilityLogprobs];
       Policy := Some {| pol_Training := "opt_out"; pol_RetentionDays := 30 |};
       DefaultPromptPer1kMicro := 150; DefaultCompletionPer1kMicro := 600;
       DefaultCurrency := "USD" |});
   ("gpt-4-turbo",
    {| ContextLength := 128000;
       Capabilities := [CapabilityChat; CapabilityTools; CapabilityVision; CapabilityStream; CapabilityJSONMode];
       Policy := Some {| pol_Training := "opt_out"; pol_RetentionDays := 30 |};
       DefaultPromptPer1kMicro := 10000; DefaultCompletionPer1kMicro := 30000;
       DefaultCurrency := "USD" |});
   ("gpt-3.5-turbo",
    {| ContextLength := 16385;
       Capabilities := [CapabilityChat; CapabilityTools; CapabilityStream; CapabilityJSONMode];
       Policy := Some {| pol_Training := "opt_out"; pol_RetentionDays := 30 |};
       DefaultPromptPer1kMicro := 500; DefaultCompletionPer1kMicro := 1500;
       DefaultCurrency := "USD" |});
   ("claude-3-5-sonnet-20241022",
    {| ContextLength := 200000;
       Capabilities := [CapabilityChat; CapabilityTools; CapabilityVision; CapabilityStream];
       Policy := Some {| pol_Training := "opt_out"; pol_RetentionDays := 30 |};
       DefaultPromptPer1kMicro := 3000; DefaultCompletionPer1kMicro := 15000;
       DefaultCurrency := "USD" |});
   ("claude-3-5-haiku-20241022",
    {| ContextLength := 200000;
       Capabilities := [CapabilityChat; CapabilityTools; CapabilityStream];
       Policy := Some {| pol_Training := "opt_out"; pol_RetentionDays := 30 |};
       DefaultPromptPer1kMicro := 800; DefaultCompletionPer1kMicro := 4000;
       DefaultCurrency := "USD" |});
   ("claude-3-opus-20240229",
    {| ContextLength := 200000;
       Capabilities := [CapabilityChat; CapabilityTools; CapabilityVision; CapabilityStream];
       Policy := Some {| pol_Training := "opt_out"; pol_RetentionDays := 30 |};
       DefaultPromptPer1kMicro := 15000; DefaultCompletionPer1kMicro := 75000;
       DefaultCurrency := "USD" |});
   ("deepseek-chat",
    {| ContextLength := 65536;
       Capabilities := [CapabilityChat; CapabilityTools; CapabilityStream; CapabilityJSONMode];
       Policy := Some {| pol_Training := "unknown"; pol_RetentionDays := 0 |};
       DefaultPromptPer1kMicro := 140; DefaultCompletionPer1kMicro := 280;
       DefaultCurrency := "USD" |});
   ("deepseek-reasoner",
    {| ContextLength := 65536;
       Capabilities := [CapabilityChat; CapabilityStream];
       Policy := Some {| pol_Training := "unknown"; pol_RetentionDays := 0 |};
       DefaultPromptPer1kMicro := 550; DefaultCompletionPer1kMicro := 2190;
       DefaultCurrency := "USD" |})].

Definition builtin : gmap string Entry := list_to_map builtin_list.

Definition Lookup (modelID : string) : option Entry := builtin !! modelID.

(** [All]: a copy of the table. *)
Definition All : gmap string Entry := builtin.

(** ** Price formatting *)

(** The non-negative case of [microToUSDString]. *)
Definition format_micro (micro : Z) : string :=
  let whole := Z.quot micro 1000000 in
  let frac := Z.rem micro 1000000 in
  if frac =? 0 then Strconv.Itoa whole +:+ ".0"
  else
    let fracStr := Strings.TrimRight (string_of (Strconv.pad_digits 6 frac)) "0"%char in
    let fracStr := if bool_decide (fracStr = "") then "0" else fracStr in
    Strconv.Itoa whole +:+ "." +:+ fracStr.

(** [microToUSDString]; [None] is the one input (the least [int64]) whose
    negation is itself, on which the recursion does not end. *)
Definition microToUSDString (micro : Z) : option string :=
  if micro <? 0 then
    let n := wrap64 (- micro) in
    if n <? 0 then None else Some ("-" +:+ format_micro n)
  else Some (format_micro micro).

Definition FormatPricing (promptPer1kMicro completionPer1kMicro : Z) (currency : string)
    : option ModelPricing :=
  if (promptPer1kMicro <=? 0) || (completionPer1kMicro <=? 0) then None
  else
    let currency := if bool_decide (currency = "") then "USD" else currency in
    prompt ← microToUSDString promptPer1kMicro;
    completion ← microToUSDString completionPer1kMicro;
    Some {| pri_Prompt := prompt; pri_Completion := completion; pri_Currency := currency;
            pri_Unit := "1K_tokens" |}.

(** ** GET /v1/models *)

Definition statusLabelForBreakerState (state : Z) : string :=
  if state =? 0 then "available" else if state =? 1 then "degraded" else "unavailable".

(** What a Prometheus gatherer returns. *)
Record metric := { labels : list (string * string); gauge : float64 }.
Record family := { fam_name : string; metrics : list metric }.

Definition labelValueOnGauge (ls : list (string * string)) (name : string) : string :=
  match List.find (fun lp => bool_decide (lp.1 = name)) ls with
  | Some (_, v) => v
  | None => ""
  end.

Definition gatherBreakerStates (g : option (error + list family)) : gmap string Z :=
  match g with
  | None | Some (inl _) => ∅
  | Some (inr families) =>
      fold_left (fun out f =>
        if bool_decide (f.(fam_name) <> "gateway_breaker_state") then out
        else fold_left (fun out m =>
               let provider := labelValueOnGauge m.(labels) "provider" in
               if bool_decide (provider = "") then out
               else <[provider := to_int64 m.(gauge)]> out) f.(metrics) out) families ∅
  end.

Definition with_entry (e : Entry) (m : ModelInfo) : ModelInfo :=
  {| mod_ID := m.(mod_ID); mod_Object := m.(mod_Object); mod_Created := m.(mod_Created);
     mod_OwnedBy := m.(mod_OwnedBy);
     mod_Pricing := FormatPricing e.(DefaultPromptPer1kMicro) e.(DefaultCompletionPer1kMicro) e.(DefaultCurrency);
     mod_ContextLength := e.(ContextLength); mod_Capabilities := e.(Capabilities);
     mod_DataPolicy := e.(Policy); mod_Status := m.(mod_Status); mod_Provider := m.(mod_Provider) |}.

Definition with_pricing (p : option ModelPricing) (m : ModelInfo) : ModelInfo :=
  {| mod_ID := m.(mod_ID); mod_Object := m.(mod_Object); mod_Created := m.(mod_Created);
     mod_OwnedBy := m.(mod_OwnedBy); mod_Pricing := p; mod_ContextLength := m.(mod_ContextLength);
     mod_Capabilities := m.(mod_Capabilities); mod_DataPolicy := m.(mod_DataPolicy);
     mod_Status := m.(mod_Status); mod_Provider := m.(mod_Provider) |}.

Definition with_status (s : string) (m : ModelInfo) : ModelInfo :=
  {| mod_ID := m.(mod_ID); mod_Object := m.(mod_Object); mod_Created := m.(mod_Created);
     mod_OwnedBy := m.(mod_OwnedBy); mod_Pricing := m.(mod_Pricing);
     mod_ContextLength := m.(mod_ContextLength); mod_Capabilities := m.(mod_Capabilities);
     mod_DataPolicy := m.(mod_DataPolicy); mod_Status := s; mod_Provider := m.(mod_Provider) |}.

Definition enrichModel (base : ModelInfo) (pricing : option Pricing.state)
    (breakerByProvider : gmap string Z) (showStatus : bool) : ModelInfo :=
  let out := match Lookup base.(mod_ID) with Some e => with_entry e base | None => base end in
  let out := match pricing with
             | None => out
             | Some cache =>
                 match Pricing.Lookup cache base.(mod_ID) with
                 | None => out
                 | Some rate =>
                     match FormatPricing rate.(Pricing.InputPer1kMicro) rate.(Pricing.OutputPer1kMicro)
                             rate.(Pricing.Currency) with
                     | Some p => with_pricing (Some p) out
                     | None => out
                     end
                 end
             end in
  if showStatus then
    match breakerByProvider !! base.(mod_Provider) with
    | Some state => with_status (statusLabelForBreakerState state) out
    | None => out
    end
  else out.

(** [modelsHandler]: the [data] of the response. *)
Definition modelsHandler {P} `{!Provider P} (reg : Registry P) (pricing : option Pricing.state)
    (gatherer : option (error + list family)) (principal : option Principal) : option (list ModelInfo) :=
  base ← AllModels reg;
  let breakerByProvider := gatherBreakerStates gatherer in
  let showStatus := HasScope principal "admin" "webui" in
  Some (map (fun m => enrichModel m pricing breakerByProvider showStatus) base).

(** ** Prices are printed exactly *)

(** A reader of decimal prices with at most six fractional digits. *)
Definition parseUSD (s : string) : option Z :=
  match Strings.Split s "."%char with
  | [w; f] =>
      whole ← Strconv.Atoi w;
      let l := bytes_of f in
      if (length l =? 0)%nat || (6 <? length l)%nat then None
      else frac ← Strconv.digits_value 0 (l ++ repeat 48 (6 - length l));
           Some (whole * 1000000 + frac)
  | _ => None
  end.

Lemma pad_digits_length w z : length (Strconv.pad_digits w z) = w.
Proof.
  revert z. induction w as [|w IH]; intros z; [done|]. cbn [Strconv.pad_digits].
  rewrite length_app, IH. cbn. lia.
Qed.

Lemma pad_digits_value w z :
  0 <= z -> Strconv.digits_value 0 (Strconv.pad_digits w z) = Some (z mod 10 ^ Z.of_nat w) /\
  Forall Strconv.is_digit (Strconv.pad_digits w z).
Proof.
  revert z. induction w as [|w IH]; intros z Hz.
  { cbn. by rewrite Z.mod_1_r. }
  destruct (IH (z / 10)) as [Hv Hd]; [apply Z.div_pos; lia|]. cbn [Strconv.pad_digits].
  pose proof (Z.mod_pos_bound z 10 ltac:(lia)) as Hm. split.
  - rewrite (Strconv.digits_value_snoc _ _ _ _ Hv) by lia. f_equal.
    rewrite Nat2Z.inj_succ, Z.pow_succ_r by lia.
    pose proof (Z.pow_pos_nonneg 10 (Z.of_nat w) ltac:(lia) ltac:(lia)).
    rewrite Z.rem_mul_r by lia. lia.
  - apply Forall_app. split; [done|]. constructor; [unfold Strconv.is_digit; lia|constructor].
Qed.

Lemma TrimRight_spec s c : exists n, s = Strings.TrimRight s c +:+ string_of (repeat (byte_of_ascii c) n).
Proof.
  induction s as [|a s (n & IH)]; [by exists 0%nat|]. cbn [Strings.TrimRight].
  destruct (Strings.TrimRight s c) as [|b t].
  - change (s = string_of (repeat (byte_of_ascii c) n)) in IH.
    destruct (Ascii.eqb_spec a c) as [->|Hne].
    + exists (S n). change (String c s = String (GoStd.ascii_of_byte (byte_of_ascii c))
        (string_of (repeat (byte_of_ascii c) n))). by rewrite ascii_of_byte_of_ascii, <- IH.
    + exists n. change (String a s = String a (string_of (repeat (byte_of_ascii c) n))). by rewrite <- IH.
  - exists n. change (String a s = String a (String b t +:+ string_of (repeat (byte_of_ascii c) n))).
    by rewrite <- IH.
Qed.

Lemma digits_no_dot l : Forall Strconv.is_digit l -> Strings.IndexByte (string_of l) "."%char = None.
Proof.
  induction 1 as [|d ds Hd _ IH]; [done|]. cbn [string_of Strings.IndexByte].
  destruct (Ascii.eqb_spec (GoStd.ascii_of_byte d) "."%char) as [Heq|_]; [|by rewrite IH].
  apply (f_equal byte_of_ascii) in Heq. unfold byte_of_ascii, GoStd.ascii_of_byte, Strconv.is_digit in *.
  rewrite N_ascii_embedding in Heq by lia. change (Z.of_N (N_of_ascii "."%char)) with 46 in Heq. lia.
Qed.

Lemma Itoa_no_dot z : 0 <= z < 10 ^ 20 -> Strings.IndexByte (Strconv.Itoa z) "."%char = None.
Proof.
  intros Hz. unfold Strconv.Itoa. rewrite (proj2 (Z.ltb_ge z 0)) by lia.
  destruct (Strconv.dec_digits_spec 20 z []) as (ds & -> & _ & Hd & _); [lia|lia|]. rewrite app_nil_r.
  by apply digits_no_dot.
Qed.

Lemma digits_bytes l : Forall Strconv.is_digit l -> bytes_of (string_of l) = l.
Proof.
  intros Hd. apply bytes_of_string_of. eapply list.Forall_impl; [exact Hd|].
  unfold Strconv.is_digit, is_byte. intros x. lia.
Qed.

(** The trimmed fraction, as digits: it is followed by zeros only. *)
Lemma trimmed_fraction frac :
  0 < frac < 1000000 ->
  exists l n, Strings.TrimRight (string_of (Strconv.pad_digits 6 frac)) "0"%char = string_of l /\
    Forall Strconv.is_digit l /\ l <> [] /\ (length l + n = 6)%nat /\
    Strconv.digits_value 0 (l ++ repeat 48 n) = Some frac.
Proof.
  intros Hf. destruct (pad_digits_value 6 frac) as [Hv Hd]; [lia|].
  set (t := Strings.TrimRight _ _). destruct (TrimRight_spec (string_of (Strconv.pad_digits 6 frac)) "0"%char)
    as [n Hn]. fold t in Hn. apply (f_equal bytes_of) in Hn.
  rewrite digits_bytes, bytes_of_app, digits_bytes in Hn; [|apply list.Forall_forall|done].
  2: { intros b Hb. apply list_elem_of_In, repeat_spec in Hb as ->. by vm_compute. }
  change (byte_of_ascii "0"%char) with 48 in Hn.
  exists (bytes_of t), n. rewrite <- Hn. split_and!.
  - by rewrite string_of_bytes_of.
  - rewrite Hn in Hd. by apply Forall_app in Hd as [? _].
  - intros He. rewrite He in Hn. cbn [app] in Hn. rewrite Hn in Hv.
    assert (Hz : forall k, Strconv.digits_value 0 (repeat 48 k) = Some 0) by (induction k; done).
    rewrite Hz in Hv. injection Hv as Hv. rewrite Z.mod_small in Hv by (cbn; lia). lia.
  - apply (f_equal length) in Hn. rewrite pad_digits_length, length_app, repeat_length in Hn. lia.
  - rewrite Hv. f_equal. rewrite Z.mod_small; [done|cbn; lia].
Qed.

Lemma split_decimal w l :
  0 <= w < 10 ^ 20 -> Forall Strconv.is_digit l ->
  Strings.Split (Strconv.Itoa w +:+ "." +:+ string_of l) "."%char = [Strconv.Itoa w; string_of l].
Proof.
  intros Hw Hl. change ("." +:+ string_of l) with (String "."%char (string_of l)).
  rewrite Strings.Split_sep by by apply Itoa_no_dot. by rewrite Strings.Split_none by by apply digits_no_dot.
Qed.

(** A published price is exact: reading back the decimal string of any
    price gives the same number of micro-units, so no rounding ever shows. *)
Theorem price_roundtrip micro :
  0 <= micro <= max_int64 ->
  exists s, microToUSDString micro = Some s /\ parseUSD s = Some micro.
Proof.
  intros Hm. unfold microToUSDString. rewrite (proj2 (Z.ltb_ge micro 0)) by lia.
  eexists. split; [done|]. unfold format_micro.
  rewrite Z.quot_div_nonneg, Z.rem_mod_nonneg by lia.
  pose proof (Z.div_mod micro 1000000 ltac:(lia)) as Hdm.
  pose proof (Z.mod_pos_bound micro 1000000 ltac:(lia)) as Hr.
  assert (Hw : 0 <= micro / 1000000 < 10 ^ 20).
  { split; [apply Z.div_pos; lia|]. apply Z.div_lt_upper_bound; unfold_int64; lia. }
  assert (Ha : Strconv.Atoi (Strconv.Itoa (micro / 1000000)) = Some (micro / 1000000)).
  { apply Strconv.Atoi_Itoa. unfold_int64. split; [lia|]. apply Z.div_le_upper_bound; lia. }
  destruct (Z.eqb_spec (micro mod 1000000) 0) as [H0|H0].
  - unfold parseUSD. change (Strconv.Itoa (micro / 1000000) +:+ ".0")
      with (Strconv.Itoa (micro / 1000000) +:+ "." +:+ string_of [48]).
    assert (Hz : Forall Strconv.is_digit [48]) by (constructor; [unfold Strconv.is_digit; lia|constructor]).
    rewrite split_decimal by done.
    rewrite Ha. change (Some (micro / 1000000 * 1000000 + 0) = Some micro). f_equal. lia.
  - destruct (trimmed_fraction (micro mod 1000000)) as (l & n & -> & Hl & Hne & Hn & Hv); [lia|].
    rewrite bool_decide_false by (intros He; apply (f_equal bytes_of) in He; by rewrite digits_bytes in He).
    unfold parseUSD. rewrite split_decimal by done. rewrite Ha. cbn [mbind option_bind].
    rewrite digits_bytes by done. destruct l as [|d l]; [done|].
    replace ((length (d :: l) =? 0)%nat || (6 <? length (d :: l))%nat) with false.
    + replace (6 - length (d :: l))%nat with n by lia. rewrite Hv. cbn [mbind option_bind]. f_equal. lia.
    + symmetry. apply orb_false_iff. split; [done|]. apply Nat.ltb_ge. lia.
Qed.

Lemma price_roundtrip_witness : exists s, microToUSDString 140 = Some s /\ parseUSD s = Some 140.
Proof. apply (price_roundtrip 140). unfold_int64. lia. Defined.

Example price_140 : microToUSDString 140 = Some "0.00014".
Proof. by vm_compute. Qed.
Example price_2500000 : microToUSDString 2500000 = Some "2.5".
Proof. by vm_compute. Qed.
Example price_negative : microToUSDString (-3000000) = Some "-3.0".
Proof. by vm_compute. Qed.

(** ** The layering rules *)

(** What a client sees of a model in GET /v1/models.  The identity fields
    are the adapter's; metadata come from the catalog alone; the price is the
    operator's when both of its halves are positive and the catalog's default
    otherwise; the breaker status is shown only to callers with the admin:webui
    scope and only for a provider that has reported. *)
Theorem enrichModel_spec base pricing breakers show :
  let out := enrichModel base pricing breakers show in
  let rate := cache ← pricing; Pricing.Lookup cache base.(mod_ID) in
  let live := r ← rate; FormatPricing r.(Pricing.InputPer1kMicro) r.(Pricing.OutputPer1kMicro) r.(Pricing.Currency) in
  let entry := Lookup base.(mod_ID) in
  out.(mod_ID) = base.(mod_ID) /\ out.(mod_Object) = base.(mod_Object) /\
  out.(mod_OwnedBy) = base.(mod_OwnedBy) /\ out.(mod_Provider) = base.(mod_Provider) /\
  out.(mod_ContextLength) = match entry with Some e => e.(ContextLength) | None => base.(mod_ContextLength) end /\
  out.(mod_Capabilities) = match entry with Some e => e.(Capabilities) | None => base.(mod_Capabilities) end /\
  out.(mod_DataPolicy) = match entry with Some e => e.(Policy) | None => base.(mod_DataPolicy) end /\
  out.(mod_Pricing) = match live with
                      | Some p => Some p
                      | None => match entry with
                                | Some e => FormatPricing e.(DefaultPromptPer1kMicro)
                                              e.(DefaultCompletionPer1kMicro) e.(DefaultCurrency)
                                | None => base.(mod_Pricing)
                                end
                      end /\
  out.(mod_Status) = match breakers !! base.(mod_Provider) with
                     | Some st => if show then statusLabelForBreakerState st else base.(mod_Status)
                     | None => base.(mod_Status)
                     end.
Proof.
  unfold enrichModel. destruct pricing as [cache|]; cbn [mbind option_bind].
  - destruct (Pricing.Lookup cache (mod_ID base)) as [r|]; cbn [mbind option_bind].
    + destruct (FormatPricing (Pricing.InputPer1kMicro r) _ _); destruct (Lookup (mod_ID base)), show,
        (breakers !! mod_Provider base); cbn; split_and!; done.
    + destruct (Lookup (mod_ID base)), show, (breakers !! mod_Provider base); cbn; split_and!; done.
  - destruct (Lookup (mod_ID base)), show, (breakers !! mod_Provider base); cbn; split_and!; done.
Qed.

(** Every catalog default is published, and in USD. *)
Lemma builtin_prices :
  Forall (fun me => match FormatPricing me.2.(DefaultPromptPer1kMicro) me.2.(DefaultCompletionPer1kMicro)
                            me.2.(DefaultCurrency) with
                    | Some p => p.(pri_Currency) = "USD"
                    | None => False
                    end) builtin_list.
Proof. repeat constructor. Qed.

(** An operator's row with a zero price does not win: the catalog's default is
    shown instead. *)
Theorem zero_price_shows_default cache breakers show rate :
  Pricing.Lookup cache "gpt-4o" = Some rate -> rate.(Pricing.InputPer1kMicro) = 0 ->
  (enrichModel (base_model "gpt-4o" "openai" "openai") (Some cache) breakers show).(mod_Pricing)
  = Some {| pri_Prompt := "0.0025"; pri_Completion := "0.01"; pri_Currency := "USD"; pri_Unit := "1K_tokens" |}.
Proof.
  intros Hl Hr. unfold enrichModel. cbn [mod_ID base_model mod_Provider]. rewrite Hl. cbn iota.
  unfold FormatPricing at 1. rewrite Hr. cbn [Z.leb orb Z.compare].
  destruct show; [destruct (breakers !! "openai")|]; by vm_compute.
Qed.
