(* ===== verification/Cache.v ===== *)
(** * Cache: the exact-match response cache

    [internal/cache/exact.go].  The key is a digest of the JSON text of six
    request fields; the entries are responses in their wire form, in Redis.
    The text of a JSON value is a parameter. *)

From S2P Require Import Prelude GoStd Float64 Errors Types Encoding Wire Auth.
From stdpp Require Import base list gmap.
Import Json.
Local Open Scope Z_scope.

Section Exact.
Context `{!Sha256, !JsonText, !FloatText}.

(** [cacheKeyPayload], in its declaration order. *)
Definition cacheKeyPayload (r : ChatRequest) : option members :=
  messages ← mapM MarshalJSON r.(req_Messages);
  temperature ← ChatRequest.float_member "temperature" r.(req_Temperature);
  top_p ← ChatRequest.float_member "top_p" r.(req_TopP);
  Some ([("model", of_string r.(req_Model)); ("messages", JArray messages)]
        ++ temperature ++ top_p
        ++ omit (bool_decide (r.(req_MaxTokens) = 0)) "max_tokens" (of_int r.(req_MaxTokens))
        ++ omit (bool_decide (r.(req_Stop) = [])) "stop" (JArray (map of_string r.(req_Stop)))).

Definition Key (req : option ChatRequest) : error + string :=
  match req with
  | None => inl (Errorf "cache: nil request" [] None)
  | Some r =>
      match cacheKeyPayload r with
      | None => inl (Errorf "cache: marshal key payload: %w" [] (Some (Foreign "json: unsupported value" [])))
      | Some p => inr ("cache:exact:" +:+ Hex.EncodeToString (Sum256 (print_json (JObject p))))
      end
  end.

(** [RedisExact.Get]; [getErr] is a Redis failure. *)
Definition Get (getErr : option error) (now : Z) (key : string) (r : redis) : error + ChatResponse :=
  match getErr with
  | Some e => if Is e RedisNil then inl (Sentinel_ ErrMiss)
              else inl (Errorf "cache: redis get: %w" [] (Some e))
  | None =>
      match redis_get now key r with
      | None => inl (Sentinel_ ErrMiss)
      | Some raw =>
          match raw ≫= ChatResponse.unmarshal with
          | None => inl (Errorf "cache: decode entry: %w" [] (Some (Foreign "json: cannot unmarshal" [])))
          | Some resp => inr resp
          end
      end
  end.

(** [RedisExact.Set]: a reported failure may still have stored the entry. *)
Definition Set_ (o : db_outcome) (now : Z) (key : string) (resp : option ChatResponse) (ttl : Z) (r : redis)
    : option error * redis :=
  match resp with
  | None => (Some (Errorf "cache: Set: nil response" [] None), r)
  | Some resp =>
      if ttl <=? 0 then (Some (Errorf "cache: Set: non-positive ttl %v" [ArgD ttl] None), r)
      else match ChatResponse.marshal resp with
      | None => (Some (Errorf "cache: marshal response: %w" [] (Some (Foreign "json: unsupported value" []))), r)
      | Some buf =>
          let r' := <[key := (Some buf, now + ttl)]> r in
          match o with
          | DbOk => (None, r')
          | DbErr b e => (Some (Errorf "cache: redis set: %w" [] (Some e)), if b then r' else r)
          end
      end
  end.

(** [RedisExact.Delete]. *)
Definition Delete (o : db_outcome) (key : string) (r : redis) : option error * redis :=
  match o with
  | DbOk => (None, delete key r)
  | DbErr b e => (Some (Errorf "cache: redis del: %w" [] (Some e)), if b then delete key r else r)
  end.

(** ** The key *)

(** The request as far as the key sees it. *)
Definition keyed (r : ChatRequest) : ChatRequest :=
  {| req_Model := r.(req_Model); req_Messages := r.(req_Messages); req_MaxTokens := r.(req_MaxTokens);
     req_Temperature := r.(req_Temperature); req_TopP := r.(req_TopP); req_N := 0; req_Stream := false;
     req_Stop := r.(req_Stop); req_User := ""; req_Extra := ∅ |}.

Lemma cacheKeyPayload_keyed r : cacheKeyPayload (keyed r) = cacheKeyPayload r.
Proof. done. Qed.

Context `{!FloatTextLaws}.

(** The payload determines those fields: decoding it gives them back. *)
Lemma cacheKeyPayload_store r :
  ChatRequest.wf r ->
  exists p, cacheKeyPayload r = Some p /\ store ChatRequest.chatRequestAlias p zero = Some (keyed r).
Proof.
  intros (W1 & W2 & W3 & W4 & W5 & W6 & W7 & W8). unfold cacheKeyPayload.
  destruct (ChatRequest.messages_roundtrip _ W8) as (js & -> & Hj). cbn [mbind option_bind].
  destruct r as [model messages max temp topp n stream stop user extra]; cbn in *.
  unfold omit. destruct temp as [temp|], topp as [topp|]; cbn in W6, W7; unfold ChatRequest.float_member;
    rewrite ?W6, ?W7; cbn [mbind option_bind]; eexists; (split; [done|]);
    repeat case_bool_decide; cbn [app];
    store_all ltac:(first [by apply set_int_ok | by apply set_of_string | apply Hj | done
                          | by apply ChatRequest.stop_roundtrip | by apply ChatRequest.float_roundtrip ]);
    by subst.
Qed.

(** The cache key says no more and no less than six fields.  Requests that
    agree on model, messages, temperature, top_p, max_tokens and stop have the
    same key, whatever their other fields; and two well-formed requests with the
    same key agree on all six, unless SHA-256 collides on their payloads. *)
Theorem Key_spec r1 r2 p1 p2 :
  ChatRequest.wf r1 -> ChatRequest.wf r2 ->
  cacheKeyPayload r1 = Some p1 -> cacheKeyPayload r2 = Some p2 ->
  (Sum256 (print_json (JObject p1)) = Sum256 (print_json (JObject p2)) -> p1 = p2) ->
  (forall s, Forall is_byte (Sum256 s)) ->
  Key (Some r1) = Key (Some r2) <-> keyed r1 = keyed r2.
Proof.
  intros Hw1 Hw2 Hp1 Hp2 Hcol Hb. split.
  - unfold Key. rewrite Hp1, Hp2. intros [= Hk].
    apply Hex.hex_inj in Hk; [|apply Hb..]. apply Hcol in Hk as ->.
    destruct (cacheKeyPayload_store r1 Hw1) as (q1 & Hq1 & Hs1).
    destruct (cacheKeyPayload_store r2 Hw2) as (q2 & Hq2 & Hs2). congruence.
  - intros Heq. unfold Key. by rewrite <- (cacheKeyPayload_keyed r1), Heq, cacheKeyPayload_keyed.
Qed.

(** Tools, response format, [n] and everything else in [Extra] are not part of
    the key: a request with tools is answered from the entry of the same
    request without them. *)
Theorem Key_ignores_extra model ms mt t p n n' st st' stop user user' extra extra' :
  Key (Some (Build_ChatRequest model ms mt t p n st stop user extra)) =
  Key (Some (Build_ChatRequest model ms mt t p n' st' stop user' extra')).
Proof. done. Qed.

(** ** Entries *)

(** What the cache returns is what was stored: after a successful [Set],
    [Get] under the same key returns that response (all of it but the internal
    provider name) until the TTL has passed and [ErrMiss] from then on; other
    keys are not affected; a non-positive TTL is refused. *)
Theorem Get_Set key resp ttl now now' r r' :
  ChatResponse.wf resp -> now <= now' ->
  Set_ DbOk now key (Some resp) ttl r = (None, r') ->
  0 < ttl /\
  Get None now' key r' = (if now' <? now + ttl then inr (ChatResponse.put_Provider "" resp)
                          else inl (Sentinel_ ErrMiss)) /\
  (forall key', key' <> key -> Get None now' key' r' = Get None now' key' r).
Proof.
  intros Hw Hle. unfold Set_. destruct (Z.leb_spec ttl 0) as [|Ht]; [done|].
  destruct (ChatResponse.response_wire_roundtrip resp Hw) as (j & -> & Hj). intros [= <-]. split_and!; [done| |].
  - unfold Get, redis_get. rewrite lookup_insert_eq. destruct (now' <? now + ttl); [|done].
    cbn [mbind option_bind]. by rewrite Hj.
  - intros key' Hne. unfold Get, redis_get. by rewrite lookup_insert_ne.
Qed.
End Exact.

Module Example.
Lemma Get_Set_witness :
  Get None 10 "k" (<["k" := (ChatResponse.marshal Wire.Example.sample_response, 5 + 60)]> ∅)
  = inr (ChatResponse.put_Provider "" Wire.Example.sample_response).
Proof.
  pose proof Wire.Example.sample_response_wf as Hw.
  destruct (Get_Set "k" Wire.Example.sample_response 60 5 10 ∅
              (<["k" := (ChatResponse.marshal Wire.Example.sample_response, 5 + 60)]> ∅) Hw) as (_ & H & _);
    [lia|by vm_compute|]. exact H.
Defined.

#[local] Instance toy_print : JsonText := fun _ => "".
#[local] Existing Instance Keystore.toy_digest.
#[local] Existing Instance Wire.Example.coded.
#[local] Existing Instance Wire.Example.coded_laws.

Lemma Key_spec_witness :
  Key (Some Wire.Example.sample) = Key (Some (keyed Wire.Example.sample)) <->
  keyed Wire.Example.sample = keyed (keyed Wire.Example.sample).
Proof.
  pose proof Wire.Example.sample_wf as Hw.
  destruct (cacheKeyPayload_store Wire.Example.sample Hw) as (p & Hp & _).
  apply (Key_spec Wire.Example.sample (keyed Wire.Example.sample) p p);
    [exact Hw|exact Hw|exact Hp|exact Hp|done|apply Keystore.toy_digest_laws].
Defined.
End Example.
