(* ===== verification/Stream.v ===== *)
(** * Stream: the streaming half of /v1/chat/completions

    [internal/server/chat_stream.go] and the frame writer of
    [internal/server/sse/writer.go]: relaying provider events as SSE frames,
    accumulating what the billing row and the cache entry need, and replaying a
    cached response as a synthetic stream.  A frame is what one [WriteData]
    call puts on the wire; the connection is the list of outcomes of the next
    writes (every later write succeeds).  [Sse] models the writer itself, write
    by write, with the heartbeat goroutine beside the handler. *)

From S2P Require Import Prelude GoStd Float64 Errors Types Encoding Wire Billing Prompt.
From stdpp Require Import base list gmap.
Import errmap.
Local Open Scope Z_scope.

(** ** Frames *)

Inductive frame :=
  | FChunk (c : ChatStreamChunk)
  | FError (b : errorBody)
  | FDone.

Record conn := { outcomes : list bool; sent : list frame }.

(** [Writer.WriteData]: whether the write succeeded. *)
Definition WriteData (f : frame) (k : conn) : bool * conn :=
  match k.(outcomes) with
  | false :: o => (false, {| outcomes := o; sent := k.(sent) |})
  | true :: o => (true, {| outcomes := o; sent := k.(sent) ++ [f] |})
  | [] => (true, {| outcomes := []; sent := k.(sent) ++ [f] |})
  end.

(** The headers [sse.New] sets. *)
Definition sse_headers : gmap string string :=
  {["Content-Type" := "text/event-stream"; "Cache-Control" := "no-cache";
    "Connection" := "keep-alive"; "X-Accel-Buffering" := "no"]}.

(** ** Accumulating a stream *)

Record streamStats := {
  provider : string; id : string; created : Z; model : string;
  contentBuf : string; finishReason : string; promptUsage : Z; outputUsage : Z
}.

Definition stats0 : streamStats :=
  {| provider := ""; id := ""; created := 0; model := ""; contentBuf := ""; finishReason := "";
     promptUsage := 0; outputUsage := 0 |}.

Definition set_text (buf fin : string) (s : streamStats) : streamStats :=
  {| provider := s.(provider); id := s.(id); created := s.(created); model := s.(model);
     contentBuf := buf; finishReason := fin; promptUsage := s.(promptUsage);
     outputUsage := s.(outputUsage) |}.

(** The loop over a chunk's choices. *)
Definition observe_choice (s : streamStats) (ch : StreamChoice) : streamStats :=
  set_text (if bool_decide (ch.(sch_Delta).(del_Content) = "") then s.(contentBuf)
            else s.(contentBuf) +:+ ch.(sch_Delta).(del_Content))
           (if bool_decide (ch.(sch_FinishReason) = "") then s.(finishReason)
            else ch.(sch_FinishReason)) s.

Definition observe (s : streamStats) (c : ChatStreamChunk) : streamStats :=
  let s := {| provider := s.(provider);
              id := if bool_decide (c.(chk_ID) = "") then s.(id) else c.(chk_ID);
              created := if c.(chk_Created) =? 0 then s.(created) else c.(chk_Created);
              model := if bool_decide (c.(chk_Model) = "") then s.(model) else c.(chk_Model);
              contentBuf := s.(contentBuf); finishReason := s.(finishReason);
              promptUsage := match c.(chk_Usage) with
                             | Some u => if 0 <? u.(use_PromptTokens) then u.(use_PromptTokens) else s.(promptUsage)
                             | None => s.(promptUsage)
                             end;
              outputUsage := match c.(chk_Usage) with
                             | Some u => if 0 <? u.(use_CompletionTokens) then u.(use_CompletionTokens)
                                         else s.(outputUsage)
                             | None => s.(outputUsage)
                             end |} in
  fold_left observe_choice c.(chk_Choices) s.

(** [toCachedResponse]; [now] is the wall clock in seconds. *)
Definition toCachedResponse (now : Z) (s : streamStats) (req_model : string) : ChatResponse :=
  {| resp_ID := if bool_decide (s.(id) = "") then "chatcmpl-stream" else s.(id);
     resp_Object := "chat.completion";
     resp_Created := if s.(created) =? 0 then now else s.(created);
     resp_Model := if bool_decide (s.(model) = "") then req_model else s.(model);
     resp_Choices := [{| cho_Index := 0;
                         cho_Message := Build_Message "assistant" s.(contentBuf) "" "" ∅;
                         cho_FinishReason := s.(finishReason); cho_Extra := ∅ |}];
     resp_Usage := if (0 <? s.(promptUsage)) || (0 <? s.(outputUsage)) then
                     Some {| use_PromptTokens := s.(promptUsage); use_CompletionTokens := s.(outputUsage);
                             use_TotalTokens := (s.(promptUsage) +i s.(outputUsage))%go; use_Extra := ∅ |}
                   else None;
     resp_Provider := s.(provider) |}.

(** ** Replaying a cached response *)

Definition replayChunkRunes : nat := 32.

(** The content slices of one choice; the loop ends when no rune is left. *)
Fixpoint replay_pieces (fuel : nat) (runes : list Z) : list (list Z) :=
  match fuel, runes with
  | _, [] => []
  | O, _ => []
  | S f, _ => take replayChunkRunes runes :: replay_pieces f (drop replayChunkRunes runes)
  end.

Definition pieces (content : string) : list string :=
  let runes := Utf8.runes content in
  map Utf8.string_of_runes (replay_pieces (length runes) runes).

Definition empty_delta : MessageDelta := Build_MessageDelta "" "" ∅.

(** The chunks of a replay, in order: the role opener, the content slices, the
    finish closer. *)
Definition replay_chunks (now : Z) (reqID : string) (cached : ChatResponse) : list ChatStreamChunk :=
  let id := if bool_decide (cached.(resp_ID) = "") then "chatcmpl-cache-" +:+ reqID else cached.(resp_ID) in
  let created := if cached.(resp_Created) =? 0 then now else cached.(resp_Created) in
  let chunk := fun choices usage =>
    Build_ChatStreamChunk id "chat.completion.chunk" created cached.(resp_Model) choices usage in
  let role := chunk (map (fun ch => Build_StreamChoice ch.(cho_Index) (Build_MessageDelta "assistant" "" ∅) "")
                       cached.(resp_Choices)) None in
  let contents := concat (map (fun ch =>
    map (fun text => chunk [Build_StreamChoice ch.(cho_Index) (Build_MessageDelta "" text ∅) ""] None)
      (pieces ch.(cho_Message).(msg_Content))) cached.(resp_Choices)) in
  let finish := chunk (map (fun ch => Build_StreamChoice ch.(cho_Index) empty_delta
                  (if bool_decide (ch.(cho_FinishReason) = "") then "stop" else ch.(cho_FinishReason)))
                  cached.(resp_Choices)) cached.(resp_Usage) in
  role :: contents ++ [finish].

(** [replayWriteChunk] for each of them, stopping at the first failure. *)
Fixpoint replay_write (cs : list ChatStreamChunk) (k : conn) : bool * conn :=
  match cs with
  | [] => (true, k)
  | c :: cs' =>
      match ChatStreamChunk.marshal c with
      | None => (false, k)
      | Some _ =>
          let '(ok, k) := WriteData (FChunk c) k in
          if ok : bool then replay_write cs' k else (false, k)
      end
  end.

Definition replayCachedStream (now : Z) (reqID : string) (cached : ChatResponse) (k : conn) : conn :=
  let '(ok, k) := replay_write (replay_chunks now reqID cached) k in
  if ok : bool then (WriteData FDone k).2 else k.

(** ** Serving a live stream *)

Definition emitStreamError (err : error) (reqID : string) (k : conn) : conn :=
  let m := mapProviderError err in
  (WriteData (FError {| ebType := m.(Type_); ebCode := m.(Code); ebMessage := m.(Message);
                        ebParam := ""; ebReqID := reqID |}) k).2.

Definition marshal_error : error := Foreign "json: unsupported value" [].

(** The relay loop: the final status and error code, the statistics and the
    connection. *)
Fixpoint relay (evs : list StreamEvent) (reqID : string) (s : streamStats) (k : conn)
    : Z * string * streamStats * conn :=
  match evs with
  | [] => (200, "", s, k)
  | Err e :: _ =>
      let m := mapProviderError e in
      (m.(Status), m.(Code), s, emitStreamError e reqID k)
  | Chunk c :: evs' =>
      let s := observe s c in
      match ChatStreamChunk.marshal c with
      | None => (500, "internal_error", s, emitStreamError marshal_error reqID k)
      | Some _ =>
          let '(ok, k) := WriteData (FChunk c) k in
          if ok : bool then relay evs' reqID s k else (200, "", s, k)
      end
  end.

Definition shouldCacheResponse (resp : option ChatResponse) (promptTok : Z) : bool :=
  match resp with
  | None => false
  | Some r =>
      if promptTok <=? 0 then false
      else match r.(resp_Choices) with
           | [] => false
           | first :: _ =>
               if bool_decide (first.(cho_FinishReason) = "stop") then
                 existsb (fun ch => negb (bool_decide (ch.(cho_Message).(msg_Content) = ""))) r.(resp_Choices)
               else false
           end
  end.

Section Handle.
Context {T : Type} `{!Tokenizer T}.

(** [streamStats.tokenCounts]; [tk] is the selector, if one is wired. *)
Definition stream_tokenCounts (tk : option (string -> T)) (s : streamStats) (req : ChatRequest) : Z * Z :=
  let prompt := s.(promptUsage) in
  let completion := s.(outputUsage) in
  match tk with
  | None => (prompt, completion)
  | Some For =>
      let t := For req.(req_Model) in
      (if prompt =? 0 then CountMessages t req.(req_Messages) else prompt,
       if completion =? 0 then CountText t s.(contentBuf) else completion)
  end.

(** What the handler does besides talking to the client. *)
Record effects := {
  cache_set : option (string * ChatResponse);
  billed : list Worker.Event
}.

(** How the response ended up on the wire. *)
Inductive reply :=
  | HttpError (m : mappedError)
  | Sse (frames : list frame).

Definition billing_event (started : Z) (reqID apiKeyID provider_ model_ : string) (prompt completion latency
    status : Z) (streamed : bool) (code : string) : Worker.Event :=
  {| Worker.StartedAt := Some started; Worker.RequestID := reqID; Worker.APIKeyID := apiKeyID;
     Worker.Provider := provider_; Worker.Model := model_; Worker.PromptTokens := prompt;
     Worker.CompletionTokens := completion; Worker.LatencyMs := latency; Worker.Status := status;
     Worker.Streamed := streamed; Worker.ErrorCode := code |}.

(** What a request brings and meets: [ctx1] and [ctx2] say whether its context
    has ended at the two places the handler asks. *)
Record request_env := {
  reqID : string; apiKeyID : string; started : Z; latency : Z; wall : Z;
  flusher : bool; ctx1 : bool; ctx2 : bool; wire : list bool
}.

(** [handleChatStream]; [upstream] is what [ChatCompletionStream] returned and
    [cache] whether a response cache is wired. *)
Definition handleChatStream (e : request_env) (tk : option (string -> T)) (cache : bool) (cacheTTL : Z)
    (cacheKey : string) (req : ChatRequest) (upstream : error + list StreamEvent) : reply * effects :=
  match upstream with
  | inl err =>
      let m := mapProviderError err in
      (HttpError m,
       {| cache_set := None;
          billed := [billing_event e.(started) e.(reqID) e.(apiKeyID) "" req.(req_Model) 0 0 e.(latency)
                       m.(Status) true m.(Code)] |})
  | inr ch =>
      if negb e.(flusher) then
        (HttpError {| Status := 500; Type_ := "internal_error"; Code := "";
                      Message := "Server does not support streaming"; RetryAfter := 0 |},
         {| cache_set := None; billed := [] |})
      else
        let '(finalStatus, errCode, stats, k) :=
          relay ch e.(reqID) stats0 {| outcomes := e.(wire); sent := [] |} in
        let k := if negb e.(ctx1) && (finalStatus =? 200) then (WriteData FDone k).2 else k in
        let '(prompt, completion) := stream_tokenCounts tk stats req in
        let cacheable := toCachedResponse e.(wall) stats req.(req_Model) in
        (Sse k.(sent),
         {| cache_set :=
              if (finalStatus =? 200) && negb e.(ctx2) && shouldCacheResponse (Some cacheable) prompt
                 && cache && negb (bool_decide (cacheKey = "")) && (0 <? cacheTTL)
              then Some (cacheKey, cacheable) else None;
            billed := [billing_event e.(started) e.(reqID) e.(apiKeyID) stats.(provider) req.(req_Model)
                         prompt completion e.(latency) finalStatus true errCode] |})
  end.
End Handle.

(** ** Facts *)

Lemma MarshalJSON_total {A} `{!Struct A} (a : A) ms : emit a = Some ms -> exists j, MarshalJSON a = Some j.
Proof.
  intros He. unfold MarshalJSON. rewrite He. cbn [mbind option_bind]. case_bool_decide; by eexists.
Qed.

Lemma chunk_marshals c : exists j, ChatStreamChunk.marshal c = Some j.
Proof.
  assert (Hs : forall ch, exists j, StreamChoice.marshal ch = Some j).
  { intros ch. unfold StreamChoice.marshal.
    destruct (MarshalJSON_total ch.(sch_Delta) (MessageDelta.members ch.(sch_Delta))) as [j ->]; [done|].
    by eexists. }
  assert (Hm : exists js, mapM StreamChoice.marshal c.(chk_Choices) = Some js).
  { induction (chk_Choices c) as [|ch chs [js IH]]; [by exists []|]. destruct (Hs ch) as [j Hj].
    exists (j :: js). cbn. by rewrite Hj; cbn; rewrite IH. }
  destruct Hm as [js Hjs]. unfold ChatStreamChunk.marshal. rewrite Hjs. cbn [mbind option_bind].
  destruct (chk_Usage c) as [u|]; cbn [usage_member]; [|by eexists].
  destruct (MarshalJSON_total u (Usage.members u)) as [j ->]; [done|]. by eexists.
Qed.

Lemma mapped_status_not_200 err : (mapProviderError err).(Status) <> 200.
Proof.
  unfold mapProviderError. repeat first [done | case_match; try done].
Qed.

Lemma WriteData_cases f k :
  (exists k', WriteData f k = (true, k') /\ k'.(sent) = k.(sent) ++ [f]) \/
  (exists k', WriteData f k = (false, k') /\ k'.(sent) = k.(sent)).
Proof. unfold WriteData. destruct (outcomes k) as [|[] o]; [left|left|right]; by eexists. Qed.

Lemma WriteData_up f k : k.(outcomes) = [] -> WriteData f k = (true, {| outcomes := []; sent := k.(sent) ++ [f] |}).
Proof. unfold WriteData. by intros ->. Qed.

(** What one run of the relay loop amounts to: it observed the chunks [cs], a
    prefix of the events, delivered the first [n] of them, and ended either
    cleanly or with an error event. *)
Lemma relay_spec evs reqID s k st code s' k' :
  relay evs reqID s k = (st, code, s', k') ->
  exists cs n, map Chunk cs `prefix_of` evs /\ s' = fold_left observe cs s /\ (n <= length cs)%nat /\
    ((st = 200 /\ k'.(sent) = k.(sent) ++ map FChunk (take n cs)) \/
     (st <> 200 /\ n = length cs /\
      (exists e rest, evs = map Chunk cs ++ Err e :: rest /\ st = (mapProviderError e).(Status) /\
         code = (mapProviderError e).(Code)) /\
      exists tail, k'.(sent) = k.(sent) ++ map FChunk cs ++ tail /\
        (tail = [] \/ exists b, tail = [FError b]))).
Proof.
  revert s k. induction evs as [|ev evs IH]; intros s k Hr; cbn [relay] in Hr.
  - injection Hr as <- <- <- <-. exists [], 0%nat. split_and!; [by exists []|done|done|].
    left. cbn. by rewrite app_nil_r.
  - destruct ev as [c|e].
    + destruct (chunk_marshals c) as [j Hj]. rewrite Hj in Hr.
      destruct (WriteData_cases (FChunk c) k) as [(k1 & Hw & Hk1)|(k1 & Hw & Hk1)]; rewrite Hw in Hr.
      * destruct (IH _ _ Hr) as (cs & n & [rest Hp] & Hs & Hn & Hor).
        exists (c :: cs), (S n). split_and!; [exists rest; cbn; by rewrite Hp|done|cbn; lia|].
        destruct Hor as [[-> Hk']|(Hst & -> & (e & rest' & -> & He) & tail & Hk' & Ht)]; [left|right].
        -- split; [done|]. rewrite Hk', Hk1. cbn. by rewrite <- app_assoc.
        -- split_and!; [done|done|by exists e, rest'|]. exists tail. split; [|done].
           rewrite Hk', Hk1. cbn. by rewrite <- app_assoc.
      * injection Hr as <- <- <- <-. exists [c], 0%nat. split_and!; [by exists evs|done|cbn; lia|].
        left. cbn. by rewrite app_nil_r.
    + injection Hr as <- <- <- <-. exists [], 0%nat.
      split_and!; [apply prefix_nil|done|done|]. right.
      split_and!; [apply mapped_status_not_200|done|by exists e, evs|].
      unfold emitStreamError. destruct (WriteData_cases (FError {| ebType := (mapProviderError e).(Type_);
        ebCode := (mapProviderError e).(Code); ebMessage := (mapProviderError e).(Message);
        ebParam := ""; ebReqID := reqID |}) k) as [(k1 & Hw & Hk1)|(k1 & Hw & Hk1)]; rewrite Hw; cbn [snd].
      * eexists. split; [exact Hk1|]. right. by eexists.
      * exists []. split; [by rewrite app_nil_r|]. by left.
Qed.

(** *** How a stream ends *)

(** The chunks before the first error event, and that error. *)
Fixpoint before_error (evs : list StreamEvent) : list ChatStreamChunk * option error :=
  match evs with
  | [] => ([], None)
  | Err e :: _ => ([], Some e)
  | Chunk c :: evs' => let '(cs, e) := before_error evs' in (c :: cs, e)
  end.

(** The status and error code a stream is accounted for with, given the outcomes
    of the writes: those of the error event when the client took every chunk
    before it, and a success in all other cases, the client going away
    included. *)
Definition stream_ending (wire : list bool) (evs : list StreamEvent) : Z * string :=
  let '(cs, err) := before_error evs in
  match err with
  | Some e => if bool_decide (false ∈ take (length cs) wire) then (200, "")
              else ((mapProviderError e).(Status), (mapProviderError e).(Code))
  | None => (200, "")
  end.

Lemma stream_ending_chunk wire c evs :
  stream_ending wire (Chunk c :: evs) =
  match wire with false :: _ => (200, "") | _ => stream_ending (tail wire) evs end.
Proof.
  unfold stream_ending. cbn [before_error]. destruct (before_error evs) as [cs [e|]]; [|by destruct wire as [|[]]].
  destruct wire as [|[] wire]; cbn [length take tail].
  - by rewrite take_nil.
  - rewrite (bool_decide_ext (false ∈ true :: take (length cs) wire) (false ∈ take (length cs) wire)) by set_solver. done.
  - rewrite bool_decide_true by set_solver. done.
Qed.

Lemma relay_ending evs reqID : forall s k, (relay evs reqID s k).1.1 = stream_ending k.(outcomes) evs.
Proof.
  induction evs as [|[c|e] evs IH]; intros s k; [done| |].
  - rewrite stream_ending_chunk. cbn [relay]. destruct (chunk_marshals c) as [j ->]. unfold WriteData.
    destruct (outcomes k) as [|[] o]; [by rewrite IH|by rewrite IH|done].
  - unfold stream_ending. cbn. by rewrite bool_decide_false by set_solver.
Qed.

(** The chunks a clean relay has read are all there were, unless a write
    failed. *)
Lemma relay_read evs reqID s k st code s' k' :
  relay evs reqID s k = (st, code, s', k') ->
  exists cs, map Chunk cs `prefix_of` evs /\ s' = fold_left observe cs s /\
    (st = 200 -> evs = map Chunk cs \/ false ∈ k.(outcomes)).
Proof.
  revert s k. induction evs as [|[c|e] evs IH]; intros s k Hr; cbn [relay] in Hr.
  - injection Hr as <- <- <- <-. exists []. split_and!; [done|done|by left].
  - destruct (chunk_marshals c) as [j Hj]. rewrite Hj in Hr. unfold WriteData in Hr.
    destruct (outcomes k) as [|[] o] eqn:Eo; [..|injection Hr as <- <- <- <-].
    3: { exists [c]. split_and!; [by exists evs|done|]. right. set_solver. }
    all: destruct (IH _ _ Hr) as (cs & [rest Hp] & Hs & Hall); exists (c :: cs);
      (split_and!; [by exists rest; cbn; rewrite Hp|done|]); intros Hst;
      destruct (Hall Hst) as [->|Hf]; [by left|right; cbn in Hf; set_solver].
  - injection Hr as <- <- <- <-. exists []. split_and!; [apply prefix_nil|done|].
    intros H. by apply mapped_status_not_200 in H.
Qed.

(** With a live connection everything is delivered. *)
Lemma relay_live evs reqID s k st code s' k' :
  k.(outcomes) = [] -> relay evs reqID s k = (st, code, s', k') ->
  k'.(outcomes) = [] /\
  ((exists cs, evs = map Chunk cs /\ st = 200 /\ k'.(sent) = k.(sent) ++ map FChunk cs) \/
   (exists cs e rest b, evs = map Chunk cs ++ Err e :: rest /\ st = (mapProviderError e).(Status) /\
      k'.(sent) = k.(sent) ++ map FChunk cs ++ [FError b] /\
      b.(ebMessage) = (mapProviderError e).(Message) /\ b.(ebReqID) = reqID)).
Proof.
  revert s k. induction evs as [|ev evs IH]; intros s k Ho Hr; cbn [relay] in Hr.
  - injection Hr as <- <- <- <-. split; [done|]. left. exists []. by rewrite app_nil_r.
  - destruct ev as [c|e].
    + destruct (chunk_marshals c) as [j Hj]. rewrite Hj, WriteData_up in Hr by done.
      destruct (IH _ (Build_conn [] _) eq_refl Hr) as (Ho' & [(cs & -> & -> & Hk)|(cs & e & rest & b & -> & -> & Hk & Hb1 & Hb2)]);
        (split; [done|]); [left; exists (c :: cs)|right; exists (c :: cs), e, rest, b];
        split_and!; try done; rewrite Hk; cbn; by rewrite <- app_assoc.
    + unfold emitStreamError in Hr. rewrite WriteData_up in Hr by done. injection Hr as <- <- <- <-.
      split; [done|]. right. exists [], e, evs. eexists. cbn. by split_and!.
Qed.

Section Serve.
Context {T : Type} `{!Tokenizer T}.

(** A live client sees the provider's events and one unambiguous end.  When
    every write succeeds and the client stays, the frames are the chunks up to
    the first error, in order and unaltered, followed by exactly one terminator:
    [DONE] when the stream closed without an error, one error event (carrying
    the mapped message and the request id) otherwise.  The billing row has the
    matching status. *)
Lemma stream_delivery (e : request_env) (tk : option (string -> T)) cache ttl key req ch :
  e.(flusher) = true -> e.(wire) = [] -> e.(ctx1) = false ->
  let '(r, eff) := handleChatStream e tk cache ttl key req (inr ch) in
  exists cs ev, eff.(billed) = [ev] /\
    ((ch = map Chunk cs /\ r = Sse (map FChunk cs ++ [FDone]) /\ ev.(Worker.Status) = 200) \/
     (exists err rest b, ch = map Chunk cs ++ Err err :: rest /\ r = Sse (map FChunk cs ++ [FError b]) /\
        b.(ebMessage) = (mapProviderError err).(Message) /\ b.(ebReqID) = e.(reqID) /\
        ev.(Worker.Status) = (mapProviderError err).(Status))).
Proof.
  intros Hf Hw Hc. unfold handleChatStream. rewrite Hf, Hw, Hc. cbn [negb].
  destruct (relay ch (reqID e) stats0 _) as [[[st code] s'] k'] eqn:Er.
  destruct (relay_live _ _ _ (Build_conn [] []) _ _ _ _ eq_refl Er)
    as (Ho & [(cs & -> & -> & Hk)|(cs & err & rest & b & -> & -> & Hk & Hb1 & Hb2)]);
    destruct (stream_tokenCounts tk s' req); exists cs; eexists; (split; [done|]).
  - left. cbn [andb Z.eqb]. rewrite WriteData_up by done. cbn [snd sent]. by rewrite Hk.
  - right. exists err, rest, b.
    destruct (Z.eqb_spec (Status (mapProviderError err)) 200) as [H|_]; [by apply mapped_status_not_200 in H|].
    cbn [andb]. rewrite Hk. by split_and!.
Qed.

(** Everything the choices of some chunks add to the text. *)
Definition deltas (cs : list ChatStreamChunk) : string :=
  String.concat "" (concat (map (fun c => map (fun ch => ch.(sch_Delta).(del_Content)) c.(chk_Choices)) cs)).

Lemma concat_app (l k : list string) : String.concat "" (l ++ k) = String.concat "" l +:+ String.concat "" k.
Proof.
  induction l as [|x l IH]; [done|]. cbn [app]. destruct l as [|y l].
  - cbn [app]. destruct k; cbn; [by rewrite Strings.append_nil|done].
  - change (String.concat "" (x :: y :: l)) with (x +:+ "" +:+ String.concat "" (y :: l)).
    change ((y :: l) ++ k) with (y :: l ++ k) in *.
    change (String.concat "" (x :: y :: l ++ k)) with (x +:+ "" +:+ String.concat "" (y :: l ++ k)).
    rewrite IH. cbn [String.append]. by rewrite !Strings.append_assoc.
Qed.

Lemma observe_choices_text chs s :
  (fold_left observe_choice chs s).(contentBuf)
  = s.(contentBuf) +:+ String.concat "" (map (fun ch => ch.(sch_Delta).(del_Content)) chs).
Proof.
  revert s. induction chs as [|ch chs IH]; intros s; cbn [fold_left map].
  - by rewrite Strings.append_nil.
  - rewrite IH.
    pose proof (concat_app [del_Content (sch_Delta ch)]
      (map (fun ch => del_Content (sch_Delta ch)) chs)) as Hc. cbn [app] in Hc. rewrite Hc.
    change (String.concat "" [del_Content (sch_Delta ch)]) with (del_Content (sch_Delta ch)).
    cbn [observe_choice set_text contentBuf].
    case_bool_decide as E; [by rewrite E|]. by rewrite Strings.append_assoc.
Qed.

Lemma observe_choices_keep chs s :
  (fold_left observe_choice chs s).(provider) = s.(provider) /\
  (fold_left observe_choice chs s).(id) = s.(id) /\
  (fold_left observe_choice chs s).(created) = s.(created) /\
  (fold_left observe_choice chs s).(model) = s.(model) /\
  (fold_left observe_choice chs s).(promptUsage) = s.(promptUsage) /\
  (fold_left observe_choice chs s).(outputUsage) = s.(outputUsage).
Proof. revert s. induction chs as [|ch chs IH]; intros s; [done|]. exact (IH (observe_choice s ch)). Qed.

Lemma observe_text cs s : (fold_left observe cs s).(contentBuf) = s.(contentBuf) +:+ deltas cs.
Proof.
  revert s. induction cs as [|c cs IH]; intros s; cbn [fold_left].
  - by rewrite Strings.append_nil.
  - rewrite IH. unfold observe at 1. rewrite observe_choices_text. cbn [contentBuf].
    unfold deltas. cbn [map concat]. by rewrite concat_app, Strings.append_assoc.
Qed.

Lemma observe_provider cs s : (fold_left observe cs s).(provider) = s.(provider).
Proof.
  revert s. induction cs as [|c cs IH]; intros s; [done|]. cbn [fold_left]. rewrite IH.
  unfold observe. by rewrite (proj1 (observe_choices_keep _ _)).
Qed.

(** C28: Only complete answers enter the cache.  Whatever the connection and the
    context did, an entry is written only when no error was read from the
    stream, under the request's key and with a positive TTL; its text is the
    concatenation of every content delta that was read and is not empty, and the
    last finish reason was [stop]; the chunks read are the whole stream unless a
    write to the client failed. *)
Theorem stream_cache_gate (e : request_env) (tk : option (string -> T)) cache ttl key req ch k resp :
  (handleChatStream e tk cache ttl key req (inr ch)).2.(cache_set) = Some (k, resp) ->
  cache = true /\ k = key /\ k <> "" /\ 0 < ttl /\ e.(ctx2) = false /\
  exists cs text, map Chunk cs `prefix_of` ch /\ (ch = map Chunk cs \/ false ∈ e.(wire)) /\
    text = deltas cs /\ text <> "" /\ (fold_left observe cs stats0).(finishReason) = "stop" /\
    resp = toCachedResponse e.(wall) (fold_left observe cs stats0) req.(req_Model) /\
    (fold_left observe cs stats0).(contentBuf) = text.
Proof.
  unfold handleChatStream. destruct (flusher e); [|done]. cbn [negb].
  destruct (relay ch (reqID e) stats0 _) as [[[st code] s'] k'] eqn:Er.
  destruct (stream_tokenCounts tk s' req) as [prompt completion]. cbn [snd cache_set].
  destruct (relay_read _ _ _ _ _ _ _ _ Er) as (cs & Hp & -> & Hall).
  match goal with |- (if ?b then _ else _) = _ -> _ => destruct b eqn:Hb; [|done] end.
  intros [= <- <-]. apply andb_true_iff in Hb as [Hb Httl].
  apply andb_true_iff in Hb as [Hb Hkey]. apply andb_true_iff in Hb as [Hb Hcache].
  apply andb_true_iff in Hb as [Hb Hgate]. apply andb_true_iff in Hb as [Hst Hctx].
  apply Z.eqb_eq in Hst. specialize (Hall Hst). bool_to_prop.
  split_and!; try done. exists cs, (deltas cs).
  unfold shouldCacheResponse, toCachedResponse in Hgate. cbn [resp_Choices] in Hgate.
  destruct (Z.leb_spec prompt 0); [done|]. cbn [cho_FinishReason] in Hgate.
  destruct (bool_decide_reflect (finishReason (fold_left observe cs stats0) = "stop")) as [Hs|]; [|done].
  cbn [existsb cho_Message msg_Content] in Hgate. rewrite orb_false_r in Hgate. bool_to_prop.
  rewrite observe_text in Hgate. cbn [stats0 contentBuf String.append] in Hgate.
  split_and!; try done. by rewrite observe_text.
Qed.

(** Every stream the router was asked for is billed exactly once, with the
    status the client saw: the mapped error when the router refused, 200 or the
    mapped mid-stream error otherwise. *)
Theorem stream_billed_once (e : request_env) (tk : option (string -> T)) cache ttl key req up :
  e.(flusher) = true ->
  exists ev, (handleChatStream e tk cache ttl key req up).2.(billed) = [ev] /\
    ev.(Worker.Streamed) = true /\ ev.(Worker.Model) = req.(req_Model) /\
    ev.(Worker.RequestID) = e.(reqID) /\ ev.(Worker.APIKeyID) = e.(apiKeyID) /\
    match up with
    | inl err => ev.(Worker.Status) = (mapProviderError err).(Status)
    | inr ch => (exists cs, map Chunk cs `prefix_of` ch /\ ev.(Worker.Status) = 200) \/
                (exists cs err rest, ch = map Chunk cs ++ Err err :: rest /\
                   ev.(Worker.Status) = (mapProviderError err).(Status) /\
                   ev.(Worker.ErrorCode) = (mapProviderError err).(Code))
    end.
Proof.
  intros Hf. unfold handleChatStream. destruct up as [err|ch]; [by eexists|]. rewrite Hf. cbn [negb].
  destruct (relay ch (reqID e) stats0 _) as [[[st code] s'] k'] eqn:Er.
  destruct (stream_tokenCounts tk s' req) as [prompt completion]. cbn [snd billed].
  destruct (relay_spec _ _ _ _ _ _ _ _ Er) as (cs & n & Hp & _ & _ & [[-> _]|(_ & _ & (err & rest & -> & -> & ->) & _)]);
    eexists; (split; [done|]); split_and!; try done.
  - left. by exists cs.
  - right. by exists cs, err, rest.
Qed.

(** The billing row of a stream never names its provider: nothing sets
    [stats.provider]. *)
Theorem stream_billing_no_provider (e : request_env) (tk : option (string -> T)) cache ttl key req up ev :
  ev ∈ (handleChatStream e tk cache ttl key req up).2.(billed) -> ev.(Worker.Provider) = "".
Proof.
  unfold handleChatStream. destruct up as [err|ch].
  - by intros ->%list_elem_of_singleton.
  - destruct (flusher e); cbn [negb]; [|by intros ?%elem_of_nil].
    destruct (relay ch (reqID e) stats0 _) as [[[st code] s'] k'] eqn:Er.
    destruct (stream_tokenCounts tk s' req) as [prompt completion]. cbn [snd billed].
    destruct (relay_spec _ _ _ _ _ _ _ _ Er) as (cs & n & Hp & -> & _ & _).
    intros ->%list_elem_of_singleton. cbn. apply observe_provider.
Qed.
End Serve.

(** ** Replay *)

Lemma replay_pieces_concat f rs : (length rs <= f)%nat -> concat (replay_pieces f rs) = rs.
Proof.
  revert rs. induction f as [|f IH]; intros [|r rs] Hl; cbn [length] in Hl; try done; [lia|].
  cbn [replay_pieces concat]. rewrite IH, take_drop; [done|].
  rewrite length_drop. cbn [length]. unfold replayChunkRunes. lia.
Qed.

Lemma replay_pieces_small f rs : Forall (fun p => (1 <= length p <= 32)%nat) (replay_pieces f rs).
Proof.
  revert rs. induction f as [|f IH]; intros [|r rs]; cbn [replay_pieces]; try constructor; [|apply IH].
  rewrite length_take. cbn [length]. unfold replayChunkRunes. lia.
Qed.

Lemma concat_strings_of_runes ps :
  String.concat "" (map Utf8.string_of_runes ps) = Utf8.string_of_runes (concat ps).
Proof.
  induction ps as [|p ps IH]; [done|]. cbn [map concat].
  rewrite (concat_app [Utf8.string_of_runes p] (map Utf8.string_of_runes ps)
    : String.concat "" (Utf8.string_of_runes p :: map Utf8.string_of_runes ps) = _), IH.
  change (String.concat "" [Utf8.string_of_runes p]) with (Utf8.string_of_runes p).
  unfold Utf8.string_of_runes. by rewrite map_app, List.concat_app, string_of_app.
Qed.

(** The slices of a valid text put together are the text. *)
Lemma pieces_concat content : valid_string content -> String.concat "" (pieces content) = content.
Proof.
  intros Hv. unfold pieces. rewrite concat_strings_of_runes, replay_pieces_concat by done.
  by apply Utf8.string_of_runes_runes.
Qed.

Lemma pieces_nonempty content : Forall (fun p => p <> "") (pieces content).
Proof.
  unfold pieces. apply Forall_map. eapply list.Forall_impl; [apply replay_pieces_small|].
  intros p [Hp _]. cbv beta. destruct p as [|r p]; [cbn in Hp; lia|].
  unfold Utf8.string_of_runes. cbn [map concat]. intros He. apply (f_equal bytes_of) in He.
  assert (Hne : Utf8.EncodeRune r <> []).
  { unfold Utf8.EncodeRune, Utf8.encode_valid. by repeat case_match. }
  destruct (Utf8.EncodeRune r); [done|]. done.
Qed.

Lemma pieces_small content :
  Forall (fun p => exists rs, p = Utf8.string_of_runes rs /\ (1 <= length rs <= 32)%nat) (pieces content).
Proof.
  unfold pieces. apply Forall_map. eapply list.Forall_impl; [apply replay_pieces_small|]. intros rs Hrs. by exists rs.
Qed.

(** The entry a stream's statistics become. *)
Definition entry (wall : Z) (s : streamStats) (model : string) : ChatResponse :=
  ChatResponse.put_Provider "" (toCachedResponse wall s model).

(** Observing chunks that repeat the header and carry text only. *)
Lemma observe_contents id0 created0 model0 idx texts s :
  id0 <> "" -> created0 <> 0 -> model0 <> "" ->
  s.(id) = id0 -> s.(created) = created0 -> s.(model) = model0 ->
  fold_left observe (map (fun text => Build_ChatStreamChunk id0 "chat.completion.chunk" created0 model0
      [Build_StreamChoice idx (Build_MessageDelta "" text ∅) ""] None) texts) s
  = set_text (s.(contentBuf) +:+ String.concat "" texts) s.(finishReason) s.
Proof.
  intros Hi Hc Hm. revert s. induction texts as [|t ts IH]; intros s H1 H2 H3; cbn [map fold_left].
  - rewrite Strings.append_nil. by destruct s.
  - rewrite IH.
    + pose proof (concat_app [t] ts) as Hca. cbn [app] in Hca. rewrite Hca.
      change (String.concat "" [t]) with t. unfold observe. cbn [chk_Choices fold_left chk_Usage chk_ID chk_Created chk_Model].
      unfold observe_choice, set_text. cbn. rewrite (bool_decide_false (id0 = "")) by done.
      rewrite (bool_decide_false (model0 = "")) by done. rewrite (proj2 (Z.eqb_neq created0 0)) by done.
      destruct s; cbn in *; subst. case_bool_decide as E; f_equal; [by rewrite E|by rewrite Strings.append_assoc].
    + unfold observe. cbn. by rewrite bool_decide_false.
    + unfold observe. cbn. by rewrite (proj2 (Z.eqb_neq _ _)).
    + unfold observe. cbn. by rewrite (bool_decide_false (model0 = "")).
Qed.

(** C29: Caching a streamed answer loses nothing of it: the entry written for a
    completed stream, replayed to another client and put together the way the
    gateway itself does, is the same response again (same id, creation time,
    model, full text, finish reason and token usage).  Its content arrives in
    pieces of at most 32 characters that never split one. *)
Theorem replay_roundtrip wall s model_ now reqID_ now' model' :
  valid_string s.(contentBuf) -> s.(finishReason) <> "" -> wall <> 0 ->
  (s.(model) <> "" \/ model_ <> "") -> 0 <= s.(promptUsage) -> 0 <= s.(outputUsage) ->
  let cached := entry wall s model_ in
  entry now' (fold_left observe (replay_chunks now reqID_ cached) stats0) model' = cached /\
  String.concat "" (pieces s.(contentBuf)) = s.(contentBuf) /\
  Forall (fun p => exists rs, p = Utf8.string_of_runes rs /\ (1 <= length rs <= 32)%nat) (pieces s.(contentBuf)).
Proof.
  intros Hv Hf Hw Hm Hp Ho cached. split; [|split; [by apply pieces_concat|apply pieces_small]].
  set (id0 := if bool_decide (s.(id) = "") then "chatcmpl-stream" else s.(id)).
  set (c0 := if s.(created) =? 0 then wall else s.(created)).
  set (m0 := if bool_decide (s.(model) = "") then model_ else s.(model)).
  assert (Hid : id0 <> "") by (unfold id0; by case_bool_decide).
  assert (Hc0 : c0 <> 0) by (unfold c0; destruct (Z.eqb_spec s.(created) 0); done).
  assert (Hm0 : m0 <> "") by (unfold m0; case_bool_decide; [by destruct Hm|done]).
  unfold replay_chunks. cbn [cached entry ChatResponse.put_Provider toCachedResponse resp_ID resp_Created resp_Model resp_Choices
    resp_Usage map concat cho_Index cho_Message msg_Content cho_FinishReason].
  fold id0 c0 m0. rewrite (bool_decide_false (id0 = "")) by done.
  rewrite (proj2 (Z.eqb_neq c0 0)) by done. rewrite app_nil_r. cbn [fold_left]. rewrite fold_left_app.
  set (s1 := observe stats0 _).
  assert (Hs1 : s1 = Build_streamStats "" id0 c0 m0 "" "" 0 0).
  { unfold s1, observe. cbn. rewrite (bool_decide_false (id0 = "")), (bool_decide_false (m0 = "")) by done.
    by rewrite (proj2 (Z.eqb_neq c0 0)). }
  rewrite observe_contents by (done || by rewrite Hs1). rewrite pieces_concat, Hs1 by done. cbn [fold_left].
  unfold observe. cbn [chk_ID chk_Created chk_Model chk_Choices chk_Usage fold_left].
  rewrite (bool_decide_false (id0 = "")), (bool_decide_false (m0 = "")), (proj2 (Z.eqb_neq c0 0)) by done.
  rewrite (bool_decide_false (finishReason s = "")) by done.
  unfold entry, toCachedResponse, observe_choice, set_text. cbn.
  rewrite (bool_decide_false (id0 = "")), (bool_decide_false (m0 = "")), (proj2 (Z.eqb_neq c0 0)) by done.
  rewrite (bool_decide_false (finishReason s = "")) by done.
  unfold cached, entry, ChatResponse.put_Provider, toCachedResponse. cbn. fold id0 c0 m0. f_equal.
  assert (Hpos : forall z, 0 <= z -> (if 0 <? z then z else 0) = z)
    by (intros z Hz; destruct (Z.ltb_spec 0 z); lia).
  destruct ((0 <? promptUsage s) || (0 <? outputUsage s)) eqn:Eu; cbn [use_PromptTokens use_CompletionTokens].
  - by rewrite (Hpos _ Hp), (Hpos _ Ho), Eu.
  - done.
Qed.

Definition sample_stats : streamStats :=
  {| provider := ""; id := "c1"; created := 1700000000; model := "gpt-4o"; contentBuf := "hello";
     finishReason := "stop"; promptUsage := 7; outputUsage := 2 |}.

Lemma replay_roundtrip_witness :
  entry 5 (fold_left observe (replay_chunks 9 "req" (entry 3 sample_stats "gpt-4o")) stats0) "x"
  = entry 3 sample_stats "gpt-4o".
Proof.
  apply (replay_roundtrip 3 sample_stats "gpt-4o" 9 "req" 5 "x"); try done. by left.
Defined.

(** Two choices streamed side by side become one: their texts are concatenated
    into the single choice of the cache entry. *)
Definition two_choices : list ChatStreamChunk :=
  let chunk := fun i text fin => Build_ChatStreamChunk "c1" "chat.completion.chunk" 1700000000 "gpt-4o"
                 [Build_StreamChoice i (Build_MessageDelta "" text ∅) fin] None in
  [chunk 0 "yes" ""; chunk 1 "no" ""; chunk 0 "!" "stop"; chunk 1 "." "stop"].

Example choices_merged :
  map (fun c => c.(cho_Message).(msg_Content))
    (toCachedResponse 1 (fold_left observe two_choices stats0) "gpt-4o").(resp_Choices) = ["yesno!."].
Proof. by vm_compute. Qed.

(** *** A served stream *)

Module Example.
#[local] Instance toy : Tokenizer openai_only := openai_impl Compressor.toy_Encode.

Definition env : request_env :=
  {| reqID := "r1"; apiKeyID := "k1"; started := 5; latency := 12; wall := 1700000000;
     flusher := true; ctx1 := false; ctx2 := false; wire := [] |}.
Definition ask : ChatRequest := Compressor.chat [Compressor.msg "user" "hi"].
Definition one : list ChatStreamChunk := replay_chunks 0 "" (entry 1 sample_stats "gpt-4o").

Lemma stream_cache_gate_witness :
  exists cs text, map Chunk cs `prefix_of` map Chunk one /\ text = deltas cs /\ text <> "".
Proof.
  destruct (stream_cache_gate env (Some (fun _ => the_openai)) true 60 "k" ask (map Chunk one) "k"
              (toCachedResponse 1700000000 (fold_left observe one stats0) "gpt-4o"))
    as (_ & _ & _ & _ & _ & cs & text & H1 & _ & H2 & H3 & _); [by vm_compute|]. by exists cs, text.
Defined.

Lemma stream_billed_once_witness :
  exists ev, (handleChatStream env (Some (fun _ => the_openai)) true 60 "k" ask (inr (map Chunk one))).2.(billed) = [ev].
Proof.
  destruct (stream_billed_once env (Some (fun _ => the_openai)) true 60 "k" ask (inr (map Chunk one)))
    as (ev & H & _); [done|]. by exists ev.
Defined.
End Example.
