(* ===== verification/Adapter.v ===== *)
(** * Adapter: what the provider adapters share

    The HTTP exchange as the adapters see it, [bufio.Scanner] over an SSE body
    and the data lines in it, and the sends into the channel of stream
    events.  Used by [OpenAI] and [Anthropic]
    ([internal/provider/openai], [internal/provider/anthropic]). *)

From Stdlib Require Import Ascii.
From S2P Require Import Prelude GoStd Errors Types Encoding.
From stdpp Require Import base list gmap.
Local Open Scope Z_scope.

(** ** HTTP *)

(** What is sent. *)
Record outbound := { ob_url : string; ob_headers : list (string * string); ob_body : json }.

(** What [Do] and [ReadAll] return: a transport failure, or a response whose
    body may break off. *)
Inductive exchange :=
  | DoFailed (err : error)
  | Responded (status : Z) (header : string -> string) (body : string) (readErr : option error).

(** [Header.Set] on a list of headers. *)
Definition set_header (k v : string) (hs : list (string * string)) : list (string * string) :=
  List.filter (fun kv => negb (bool_decide (kv.1 = k))) hs ++ [(k, v)].

(** ** Scanning lines *)

Definition nl : ascii := ascii_of_byte 10.
Definition cr : ascii := ascii_of_byte 13.

(** [dropCR]. *)
Fixpoint dropCR (s : string) : string :=
  match s with
  | String a EmptyString => if Ascii.eqb a cr then EmptyString else s
  | String a s' => String a (dropCR s')
  | EmptyString => EmptyString
  end.

(** The lines of a text: a final empty one does not count. *)
Definition raw_lines (s : string) : list string :=
  let ls := Strings.Split s nl in
  match last ls with
  | Some EmptyString => removelast ls
  | _ => ls
  end.

Definition sseLineBufferLimit : Z := Z.shiftl 1 20.

(** [bufio.Scanner] with [ScanLines]: the tokens, and the error [Err] reports;
    a line that does not fit the buffer ends the scan, and so does a read
    error, after the partial last line. *)
Fixpoint scan_lines (ls : list string) (readErr : option string) : list string * option string :=
  match ls with
  | [] => ([], readErr)
  | l :: ls' =>
      if sseLineBufferLimit <=? Z.of_nat (String.length l) then ([], Some "bufio.Scanner: token too long")
      else let '(ts, e) := scan_lines ls' readErr in (dropCR l :: ts, e)
  end.

Definition scan (text : string) (readErr : option string) : list string * option string :=
  scan_lines (raw_lines text) readErr.

Definition dataPrefix : string := "data:".

(** The payload of a data line; [None] for blank lines, comments and other
    fields, which both readers skip. *)
Definition data_of (line : string) : option string :=
  if bool_decide (line = "") || Strings.HasPrefix line ":" then None
  else if negb (Strings.HasPrefix line dataPrefix) then None
  else Some (Strings.TrimPrefix (Strings.slice_from 5 line) " ").

(** ** The channel *)

(** Whether each next send goes through (the context may end first), and what
    was sent. *)
Record chan := { sends : list bool; received : list StreamEvent }.

Definition open_chan (s : list bool) : chan := {| sends := s; received := [] |}.

Definition sendEvent (ev : StreamEvent) (c : chan) : bool * chan :=
  match c.(sends) with
  | false :: s => (false, {| sends := s; received := c.(received) |})
  | true :: s => (true, {| sends := s; received := c.(received) ++ [ev] |})
  | [] => (true, {| sends := []; received := c.(received) ++ [ev] |})
  end.

Lemma sendEvent_live ev c :
  c.(sends) = [] -> sendEvent ev c = (true, {| sends := []; received := c.(received) ++ [ev] |}).
Proof. unfold sendEvent. by intros ->. Qed.

(** A list of events that ends with at most one error. *)
Definition well_ended (evs : list StreamEvent) : Prop :=
  exists cs, evs = map Chunk cs \/ exists e, evs = map Chunk cs ++ [Err e].

(** ** Facts about lines *)

Lemma dropCR_id s : (forall t, s <> t +:+ String cr "") -> dropCR s = s.
Proof.
  induction s as [|a s IH]; intros Hs; [done|]. destruct s as [|b s]; cbn [dropCR].
  - destruct (Ascii.eqb_spec a cr) as [->|]; [|done]. by destruct (Hs "").
  - f_equal. apply IH. intros t Ht. apply (Hs (String a t)). by rewrite Ht.
Qed.

Lemma data_of_data s : data_of ("data: " +:+ s) = Some s.
Proof.
  unfold data_of. rewrite bool_decide_false by done. cbn [orb Strings.HasPrefix].
  change ("data: " +:+ s) with ("data:" +:+ (String " "%char s)).
  change dataPrefix with "data:". rewrite Strings.HasPrefix_app. cbn [negb].
  rewrite (Strings.slice_from_app "data:"). unfold Strings.TrimPrefix.
  change (String " " s) with (" " +:+ s). rewrite Strings.HasPrefix_app.
  by rewrite (Strings.slice_from_app " ").
Qed.

Lemma data_of_blank : data_of "" = None.
Proof. done. Qed.

(** ** The gateway's own frames as text *)

(** What [Writer.WriteData] and [Writer.WriteComment] put on the wire. *)
Definition data_frame (payload : string) : string :=
  "data: " +:+ payload +:+ String nl (String nl "").
Definition comment_frame (text : string) : string :=
  ": " +:+ text +:+ String nl (String nl "").

(** A stream of data frames with heartbeats in between: each item is a payload,
    or [None] for the heartbeat of [StartHeartbeat]. *)
Definition sse_text (items : list (option string)) : string :=
  foldr (fun i t => (match i with Some p => data_frame p | None => comment_frame "keepalive" end) +:+ t)
    "" items.

Definition one_line (s : string) : Prop := Strings.IndexByte s nl = None.

Definition item_line (i : option string) : string :=
  match i with Some p => "data: " +:+ p | None => ": keepalive" end.

Lemma one_line_app a b : one_line a -> one_line b -> one_line (a +:+ b).
Proof.
  unfold one_line. induction a as [|x a IH]; [done|].
  change (String x a +:+ b) with (String x (a +:+ b)). cbn [Strings.IndexByte].
  destruct (Ascii.eqb x nl); [done|]. destruct (Strings.IndexByte a nl); [done|].
  intros _ Hb. by rewrite IH.
Qed.

Lemma item_text i :
  (match i with Some p => data_frame p | None => comment_frame "keepalive" end) =
  item_line i +:+ String nl (String nl "").
Proof. destruct i as [p|]; [|done]. unfold data_frame, item_line. by rewrite !Strings.append_assoc. Qed.

Lemma Split_sse items :
  Forall (fun i => match i with Some p => one_line p | None => True end) items ->
  Strings.Split (sse_text items) nl = concat (map (fun i => [item_line i; ""]) items) ++ [""].
Proof.
  induction 1 as [|i items Hi Hall IH]; [done|]. cbn [sse_text foldr]. fold (sse_text items).
  rewrite item_text, Strings.append_assoc.
  change (String nl (String nl "") +:+ sse_text items) with (String nl ("" +:+ String nl (sse_text items))).
  rewrite Strings.Split_sep; [|destruct i as [p|]; [by apply one_line_app|done]].
  rewrite Strings.Split_sep by done. rewrite IH. done.
Qed.

Lemma raw_lines_sse items :
  Forall (fun i => match i with Some p => one_line p | None => True end) items ->
  raw_lines (sse_text items) = concat (map (fun i => [item_line i; ""]) items).
Proof.
  intros Hi. unfold raw_lines. rewrite Split_sse by done. rewrite last_snoc. apply removelast_last.
Qed.

(** What fits a line of the scanner, and does not end in a carriage return. *)
Definition fits (p : string) : Prop :=
  one_line p /\ Z.of_nat (String.length p) + 6 < sseLineBufferLimit /\ (forall t, p <> t +:+ String cr "").

Lemma length_app_string a b : String.length (a +:+ b) = (String.length a + String.length b)%nat.
Proof. induction a as [|x a IH]; simpl; [done|]. f_equal. exact IH. Qed.

Lemma snoc_string_inj a b x y : a +:+ String x "" = b +:+ String y "" -> a = b /\ x = y.
Proof.
  intros H. apply (f_equal bytes_of) in H. rewrite !bytes_of_app in H. cbn in H.
  apply app_inj_tail in H as [H1 H2]. split; [by apply bytes_of_inj|].
  rewrite <- (ascii_of_byte_of_ascii x), <- (ascii_of_byte_of_ascii y). by f_equal.
Qed.

Lemma dropCR_data p : fits p -> dropCR ("data: " +:+ p) = "data: " +:+ p.
Proof.
  intros (_ & _ & Hcr). apply dropCR_id. intros t Ht.
  destruct (decide (p = "")) as [->|Hne].
  - change ("data: " +:+ "") with ("data:" +:+ String " "%char "") in Ht.
    apply snoc_string_inj in Ht as [_ H]. by vm_compute in H.
  - assert (Hs : exists q a, p = q +:+ String a "").
    { clear -Hne. induction p as [|a p IH]; [done|]. destruct (decide (p = "")) as [->|H].
      - by exists "", a.
      - destruct (IH H) as (q & b & ->). by exists (String a q), b. }
    destruct Hs as (q & a & ->). rewrite <- Strings.append_assoc in Ht.
    apply snoc_string_inj in Ht as [_ ->]. by apply (Hcr q).
Qed.

Lemma scan_sse items :
  Forall (fun i => match i with Some p => fits p | None => True end) items ->
  scan (sse_text items) None = (concat (map (fun i => [item_line i; ""]) items), None).
Proof.
  intros Hi. unfold scan. rewrite raw_lines_sse.
  2: { eapply list.Forall_impl; [exact Hi|]. intros [p|]; [by intros (? & _)|done]. }
  induction Hi as [|i items Hp Hi IH]; [done|]. cbn [map concat app scan_lines].
  assert (Hlen : (sseLineBufferLimit <=? Z.of_nat (String.length (item_line i))) = false).
  { apply Z.leb_gt. destruct i as [p|]; [|by vm_compute]. unfold item_line.
    rewrite length_app_string. destruct Hp as (_ & Hl & _). cbn [String.length]. lia. }
  rewrite Hlen. change (sseLineBufferLimit <=? Z.of_nat (String.length "")) with false.
  rewrite IH. cbn [dropCR]. f_equal. f_equal. destruct i as [p|]; [by apply dropCR_data|done].
Qed.

(** A read error does not change the lines before it. *)
Lemma scan_err_irrelevant t e : (scan t e).1 = (scan t None).1.
Proof.
  unfold scan. generalize (raw_lines t). intros ls. induction ls as [|l ls IH]; [done|]. cbn [scan_lines].
  destruct (_ <=? _); [done|]. destruct (scan_lines ls e), (scan_lines ls None). cbn in *. by rewrite IH.
Qed.
