(* ===== verification/OpenAI.v ===== *)
(** * OpenAI: the OpenAI-compatible adapter (and DeepSeek's)

    [internal/provider/openai/chat.go] and [stream.go]: the non-streaming and
    streaming calls and the SSE reader.  The network is a function from the
    request sent to what comes back. *)

From S2P Require Import Prelude GoStd Float64 Errors Types Encoding JsonSyntax Wire WireText Registry Adapter.
From stdpp Require Import base list gmap.
Import Json.
Local Open Scope Z_scope.

Definition chatPath : string := "/v1/chat/completions".

(** [streamWirePayload]: a chunk with an optional error envelope. *)
Record streamWirePayload := {
  pw_Chunk : ChatStreamChunk; pw_Error : option Errors.openai.openaiErrorPayload
}.

Module payload.
Import Errors.openai.
Definition put_Message x e := Build_openaiErrorPayload x e.(Type_) e.(Code) e.(Param).
Definition put_Type x e := Build_openaiErrorPayload e.(Message) x e.(Code) e.(Param).
Definition put_Code x e := Build_openaiErrorPayload e.(Message) e.(Type_) x e.(Param).
Definition put_Param x e := Build_openaiErrorPayload e.(Message) e.(Type_) e.(Code) x.
Definition zero : openaiErrorPayload := Build_openaiErrorPayload "" "" "" "".

Definition fields : list (field openaiErrorPayload) :=
  [("message", via Message put_Message set_string); ("type", via Type_ put_Type set_string);
   ("code", via Code put_Code set_string); ("param", via Param put_Param set_string)].
End payload.

Definition put_Chunk (c : ChatStreamChunk) (p : streamWirePayload) : streamWirePayload :=
  {| pw_Chunk := c; pw_Error := p.(pw_Error) |}.
Definition put_Error e (p : streamWirePayload) : streamWirePayload :=
  {| pw_Chunk := p.(pw_Chunk); pw_Error := e |}.

(** The promoted fields of the embedded chunk, then [error]. *)
Definition payload_fields : list (field streamWirePayload) :=
  map (fun f => (f.1, via pw_Chunk put_Chunk f.2)) ChatStreamChunk.fields
  ++ [("error", via pw_Error put_Error (set_ptr payload.zero (set_struct payload.fields)))].

Definition unmarshal_payload (j : json) : option streamWirePayload :=
  set_struct payload_fields j {| pw_Chunk := ChatStreamChunk.zero; pw_Error := None |}.

Definition set_Stream (b : bool) (r : ChatRequest) : ChatRequest :=
  {| req_Model := r.(req_Model); req_Messages := r.(req_Messages); req_MaxTokens := r.(req_MaxTokens);
     req_Temperature := r.(req_Temperature); req_TopP := r.(req_TopP); req_N := r.(req_N);
     req_Stream := b; req_Stop := r.(req_Stop); req_User := r.(req_User);
     req_Extra := r.(req_Extra) |}.

Section Calls.
Context `{parser : !JsonParser} `{floats : !FloatText}.
(** Texts of decoding errors, [%q], the HTTP clock and the error envelope
    decoder of [Errors]. *)
Context (decode_error Quote : string -> string) (ParseTime : string -> option Z) (now : Z)
  (UnmarshalError : string -> Errors.openai.apiError) (UserAgent : string).

Definition upstream_error (name : string) (s : sentinel) (status : Z) (msg : string) : error :=
  Upstream (NewUpstreamError name s status msg).

Definition marshal_failed : error := Foreign "json: unsupported value" [].

(** The request both calls build; [urlErr] is a URL [http.NewRequest]
    refuses. *)
Definition build_request (p : openai.Provider) (stream : bool) (urlErr : option error)
    (req : ChatRequest) : error + outbound :=
  match MarshalJSON (set_Stream stream req) with
  | None => inl (Errorf "openai: marshal request: %w" [] (Some marshal_failed))
  | Some body =>
      match urlErr with
      | Some err => inl (Errorf "openai: build request: %w" [] (Some err))
      | None =>
          let hs := openai.setHeaders UserAgent p in
          inr {| ob_url := p.(openai.baseURL) +:+ chatPath;
                 ob_headers := if stream then set_header "Accept" "text/event-stream" hs else hs;
                 ob_body := body |}
      end
  end.

Definition ChatCompletion (p : openai.Provider) (urlErr : option error) (net : outbound -> exchange)
    (req : option ChatRequest) : error + ChatResponse :=
  let name := openai.Name p in
  match req with
  | None => inl (upstream_error name ErrInvalidRequest 0 "nil request")
  | Some req =>
      match build_request p false urlErr req with
      | inl err => inl err
      | inr ob =>
          match net ob with
          | DoFailed err => inl (mapRequestError Quote name err)
          | Responded _ _ _ (Some err) => inl (mapRequestError Quote name err)
          | Responded status header body None =>
              if 400 <=? status then
                inl (Errors.openai.mapHTTPError UnmarshalError ParseTime now name status body header)
              else match parse_json body ≫= ChatResponse.unmarshal with
                   | None => inl (upstream_error name ErrUpstream status
                                    ("decode response: " +:+ decode_error body))
                   | Some out => inr (ChatResponse.put_Provider name out)
                   end
          end
      end
  end.

(** ** The SSE reader *)

(** The loop of [readSSE]: whether it returned, and the channel. *)
Fixpoint read_loop (name : string) (lines : list string) (c : chan) : bool * chan :=
  match lines with
  | [] => (false, c)
  | line :: rest =>
      match data_of line with
      | None => read_loop name rest c
      | Some data =>
          if bool_decide (data = "[DONE]") then (true, c)
          else match parse_json data ≫= unmarshal_payload with
          | None =>
              (true, (sendEvent (Err (upstream_error name ErrUpstream 0
                                        ("decode chunk: " +:+ decode_error data))) c).2)
          | Some payload =>
              match payload.(pw_Error) with
              | Some e =>
                  let sentinel := Errors.openai.mapStatusToSentinel 0 e.(Errors.openai.Code) in
                  (true, (sendEvent (Err (upstream_error name sentinel 0 e.(Errors.openai.Message))) c).2)
              | None =>
                  let '(ok, c) := sendEvent (Chunk payload.(pw_Chunk)) c in
                  if ok : bool then read_loop name rest c else (true, c)
              end
          end
      end
  end.

(** [readSSE] over a body; [ctxDone] is [ctx.Err() != nil] at its end. *)
Definition readSSE (name : string) (text : string) (readErr : option string) (ctxDone : bool)
    (c : chan) : chan :=
  let '(lines, scanErr) := scan text readErr in
  let '(returned, c) := read_loop name lines c in
  if returned : bool then c
  else if ctxDone then c
  else match scanErr with
       | Some e => (sendEvent (Err (upstream_error name ErrUpstream 0 ("stream read: " +:+ e))) c).2
       | None => (sendEvent (Err (upstream_error name ErrUpstream 0 "stream ended without [DONE]")) c).2
       end.

(** [ChatCompletionStream]: the events the channel will deliver. *)
Definition ChatCompletionStream (p : openai.Provider) (urlErr : option error) (net : outbound -> exchange)
    (ctxDone : bool) (sends : list bool) (req : option ChatRequest) : error + list StreamEvent :=
  let name := openai.Name p in
  match req with
  | None => inl (upstream_error name ErrInvalidRequest 0 "nil request")
  | Some req =>
      match build_request p true urlErr req with
      | inl err => inl err
      | inr ob =>
          match net ob with
          | DoFailed err => inl (mapRequestError Quote name err)
          | Responded status header body readErr =>
              if 400 <=? status then
                inl (Errors.openai.mapHTTPError UnmarshalError ParseTime now name status body header)
              else inr (readSSE name body (Error Quote <$> readErr) ctxDone (open_chan sends)).(received)
          end
      end
  end.

End Calls.

(** ** Facts about the reader *)

Lemma find_payload k set :
  find_field ChatStreamChunk.fields k = Some set ->
  find_field payload_fields k = Some (via pw_Chunk put_Chunk set).
Proof.
  unfold payload_fields. generalize ChatStreamChunk.fields. intros fs.
  induction fs as [|[n s] fs IH]; [done|]. cbn [map app find_field fst snd].
  destruct (bool_decide (foldName n = foldName k)); [by intros [= <-]|apply IH].
Qed.

(** Members that are fields of a chunk are stored in the payload's chunk. *)
Lemma store_payload ms c c' e :
  store ChatStreamChunk.fields ms c = Some c' ->
  (forall k v, (k, v) ∈ ms -> is_Some (find_field ChatStreamChunk.fields k)) ->
  store payload_fields ms {| pw_Chunk := c; pw_Error := e |} = Some {| pw_Chunk := c'; pw_Error := e |}.
Proof.
  revert c. induction ms as [|[k v] ms IH]; intros c; cbn [store]; [by intros [= <-]|].
  intros Hst Hk. destruct (Hk k v ltac:(set_solver)) as [set Hset]. rewrite Hset in Hst.
  rewrite (find_payload k set Hset). unfold via. cbn [pw_Chunk]. destruct (set v c) as [c1|]; [|done].
  cbn in *. apply IH; [done|]. intros k' v' Hin. apply (Hk k' v'). set_solver.
Qed.

Lemma payload_of_chunk c j :
  ChatStreamChunk.wf c -> ChatStreamChunk.marshal c = Some j ->
  unmarshal_payload j = Some {| pw_Chunk := c; pw_Error := None |}.
Proof.
  intros Hwf Hm. destruct (ChatStreamChunk.chunk_wire_roundtrip c Hwf) as (j' & Hm' & Hu).
  rewrite Hm in Hm'. injection Hm' as <-. unfold ChatStreamChunk.marshal in Hm.
  destruct (mapM StreamChoice.marshal (chk_Choices c)) as [js|]; [|done].
  destruct (usage_member (chk_Usage c)) as [um|] eqn:Eu; [|done]. injection Hm as <-.
  apply store_payload; [exact Hu|]. intros k v Hin.
  assert (Hk : k ∈ ["id"; "object"; "created"; "model"; "choices"; "usage"]).
  { unfold usage_member in Eu. destruct (chk_Usage c) as [u|]; [destruct (MarshalJSON u)|];
      cbn in Eu; try done; injection Eu as <-; set_solver. }
  apply (bool_decide_eq_true_1 (is_Some (find_field ChatStreamChunk.fields k))).
  repeat (apply elem_of_cons in Hk as [->|Hk]; [by vm_compute|]). by apply elem_of_nil in Hk.
Qed.


Section Reader.
Context `{parser : !JsonParser} `{printer : !JsonText} (decode_error : string -> string).
Local Abbreviation read_loop := (read_loop decode_error).
Local Abbreviation readSSE := (readSSE decode_error).

Lemma read_loop_spec name lines c r c' :
  read_loop name lines c = (r, c') -> c.(sends) = [] ->
  c'.(sends) = [] /\
  exists cs, (r = false /\ c'.(received) = c.(received) ++ map Chunk cs) \/
    (r = true /\ "[DONE]" ∈ omap data_of lines /\ c'.(received) = c.(received) ++ map Chunk cs) \/
    (r = true /\ exists msg, c'.(received) = c.(received) ++ map Chunk cs ++
       [Err (upstream_error name ErrUpstream 0 msg)]).
Proof.
  revert c. induction lines as [|line rest IH]; intros c; cbn [read_loop omap list_omap].
  { intros [= <- <-] Hs. split; [done|]. exists []. left. by rewrite app_nil_r. }
  destruct (data_of line) as [data|]; [|by apply IH]. case_bool_decide as Hd.
  { intros [= <- <-] Hs. split; [done|]. exists []. right; left. rewrite app_nil_r. set_solver. }
  destruct (parse_json data ≫= unmarshal_payload) as [pl|].
  2: { intros [= <- <-] Hs. rewrite sendEvent_live by done. split; [done|]. exists []. right; right.
       split; [done|]. by eexists. }
  destruct (pw_Error pl) as [e|].
  { intros [= <- <-] Hs. rewrite sendEvent_live by done. split; [done|]. exists []. right; right.
    split; [done|]. by eexists. }
  intros H Hs. rewrite sendEvent_live in H by done. destruct (IH _ H eq_refl) as (Hs' & cs & Hor).
  split; [done|]. exists (pw_Chunk pl :: cs). cbn [received map] in *.
  destruct Hor as [[-> ->]|[(-> & Hin & ->)|(-> & msg & ->)]];
    [left|right; left|right; right]; rewrite <- ?app_assoc; cbn [app].
  - done.
  - split_and!; [done|set_solver|done].
  - split; [done|]. by exists msg.
Qed.

(** A truncated stream is never taken for a complete one.  For a consumer
    that stays, the OpenAI reader delivers chunks followed by at most one error,
    and the error is missing only if a [DONE] line arrived; every error it
    reports is an upstream error of this provider, so that the router may retry
    it. *)
Theorem openai_stream_complete name text readErr :
  exists cs,
    ((readSSE name text readErr false (open_chan [])).(received) = map Chunk cs /\
     "[DONE]" ∈ omap data_of (scan text readErr).1) \/
    (exists e, (readSSE name text readErr false (open_chan [])).(received) = map Chunk cs ++ [Err e] /\
     IsRetryable e = true /\ exists u, As e = Some u /\ u.(Errors.Provider) = name).
Proof.
  unfold readSSE. destruct (scan text readErr) as [lines scanErr].
  destruct (read_loop name lines (open_chan [])) as [r c] eqn:E.
  destruct (read_loop_spec name lines _ r c E eq_refl) as (Hs & cs & Hor). exists cs. cbn [received open_chan app] in Hor.
  destruct Hor as [[-> Hr]|[(-> & Hd & Hr)|(-> & msg & Hr)]].
  - right. destruct scanErr; rewrite sendEvent_live by done; cbn [snd received]; rewrite Hr;
      eexists; (split; [done|]); (split; [done|]); by eexists.
  - left. by rewrite Hr.
  - right. exists (upstream_error name ErrUpstream 0 msg). rewrite Hr. split; [done|].
    split; [done|]. by eexists.
Qed.

(** *** Reading the gateway's own stream *)

(** The text of a chunk's frame. *)
Definition frame_text (c : ChatStreamChunk) : string :=
  match ChatStreamChunk.marshal c with Some j => print_json j | None => "" end.

(** What is assumed of the JSON text of a chunk: it parses back, it is one line
    that fits the scanner's buffer, and it is not the end marker. *)
Definition sse_printable (c : ChatStreamChunk) : Prop :=
  (forall j, ChatStreamChunk.marshal c = Some j -> parse_json (print_json j) = Some j) /\
  fits (frame_text c) /\ frame_text c <> "[DONE]".

(** A line that is read as a chunk. *)
Definition reads_as (t : string) (ch : ChatStreamChunk) : Prop :=
  fits t /\ t <> "[DONE]" /\ parse_json t ≫= unmarshal_payload = Some {| pw_Chunk := ch; pw_Error := None |}.

Lemma read_loop_items name (items : list (option (string * ChatStreamChunk))) rest c :
  (forall t ch, Some (t, ch) ∈ items -> reads_as t ch) -> c.(sends) = [] ->
  read_loop name (concat (map (fun i => [item_line i; ""]) (map (fmap fst) items)) ++ rest) c =
  read_loop name rest {| sends := []; received := c.(received) ++ map Chunk (omap (fmap snd) items) |}.
Proof.
  revert c. induction items as [|i items IH]; intros c Hw Hs.
  { destruct c as [s r]. cbn in *. by rewrite Hs, app_nil_r. }
  assert (Hw' : forall t ch, Some (t, ch) ∈ items -> reads_as t ch) by (intros t ch Hch; apply Hw; set_solver).
  destruct i as [[t ch]|]; cbn [map fmap option_fmap option_map concat app read_loop item_line omap list_omap fst snd].
  - destruct (Hw t ch ltac:(set_solver)) as (_ & Hd & Hp). rewrite data_of_data, bool_decide_false by done.
    rewrite Hp. cbn [pw_Error pw_Chunk]. rewrite sendEvent_live by done.
    change (data_of "") with (@None string). rewrite IH by done. cbn [received map].
    by rewrite <- app_assoc.
  - change (data_of ": keepalive") with (@None string). change (data_of "") with (@None string). by apply IH.
Qed.

(** Frames that read as chunks, with heartbeat comments anywhere between them
    and after the end marker, are read as those chunks. *)
Lemma read_stream name (items : list (option (string * ChatStreamChunk))) n readErr :
  (forall t ch, Some (t, ch) ∈ items -> reads_as t ch) ->
  (readSSE name (sse_text (map (fmap fst) items ++ Some "[DONE]" :: replicate n None)) readErr false
     (open_chan [])).(received) = map Chunk (omap (fmap snd) items).
Proof.
  intros Hw. unfold readSSE.
  assert (Hscan : (scan (sse_text (map (fmap fst) items ++ Some "[DONE]" :: replicate n None)) readErr).1 =
            concat (map (fun i => [item_line i; ""]) (map (fmap fst) items)) ++ "data: [DONE]" :: "" ::
            concat (map (fun i => [item_line i; ""]) (replicate n None))).
  { rewrite scan_err_irrelevant, scan_sse.
    - cbn [fst]. by rewrite map_app, concat_app.
    - apply Forall_app. split; [|constructor; [split_and!; [done|by vm_compute|]|by apply Forall_replicate]].
      + apply Forall_fmap, list.Forall_forall. intros [[t ch]|] Hin; [|done]. cbn. by apply (Hw t ch).
      + intros t Ht. change "[DONE]" with ("[DONE" +:+ String (ascii_of_byte 93) "") in Ht.
        apply snoc_string_inj in Ht as [_ H]. by vm_compute in H. }
  destruct (scan _ readErr) as [lines scanErr]. cbn [fst] in Hscan. subst lines.
  rewrite read_loop_items by done. cbn [read_loop]. change (data_of "data: [DONE]") with (Some "[DONE]").
  done.
Qed.

Lemma printable_reads ch : ChatStreamChunk.wf ch -> sse_printable ch -> reads_as (frame_text ch) ch.
Proof.
  intros Hwf (Hp & Hf & Hd). split_and!; [done|done|].
  destruct (ChatStreamChunk.chunk_wire_roundtrip ch Hwf) as (j & Hm & _).
  unfold frame_text. rewrite Hm, (Hp j Hm). cbn [mbind option_bind]. by apply payload_of_chunk.
Qed.

(** The stream the server emits for some chunks is read back as exactly those
    chunks. *)
Lemma read_gateway_stream name items n readErr :
  (forall ch, Some ch ∈ items -> ChatStreamChunk.wf ch /\ sse_printable ch) ->
  (readSSE name (sse_text (map (fmap frame_text) items ++ Some "[DONE]" :: replicate n None)) readErr false
     (open_chan [])).(received) = map Chunk (omap (fun x => x) items).
Proof.
  intros Hw. pose proof (read_stream name (map (fmap (fun c => (frame_text c, c))) items) n readErr) as H.
  rewrite map_map in H.
  rewrite (map_ext _ (fmap frame_text)) in H by by intros [].
  rewrite H; [|intros t ch ([c|] & Hc & Hin)%list_elem_of_fmap; [|done]; injection Hc as -> ->;
    destruct (Hw c Hin); by apply printable_reads].
  f_equal. clear. induction items as [|[c|] items IH]; [done|..]; cbn; by rewrite IH.
Qed.

End Reader.

(** Go's text of a value is a line of the scanner if it is short enough, and
    never the end marker. *)
Lemma text_fits j :
  Syntax.json_ok Syntax.maxNestingDepth j = true ->
  Z.of_nat (String.length (Syntax.Marshal j)) + 6 < sseLineBufferLimit ->
  fits (Syntax.Marshal j) /\ Syntax.Marshal j <> "[DONE]".
Proof.
  intros Hj Hlen. split; [split_and!|].
  - by apply (Syntax.Marshal_one_line j Syntax.maxNestingDepth).
  - exact Hlen.
  - intros t Ht. assert (H13 : byte_of_ascii cr ∈ bytes_of (Syntax.Marshal j))
      by (rewrite Ht, bytes_of_app; set_solver).
    unfold Syntax.Marshal in H13. rewrite (Syntax.bytes_of_print _ Syntax.maxNestingDepth) in H13 by done.
    apply (proj1 (list.Forall_forall _ _) (Syntax.print_printable true j _ Hj)) in H13.
    destruct H13 as [H13 _]. by vm_compute in H13.
  - pose proof (Syntax.Unmarshal_Marshal j Hj) as Hread. intros Hd. rewrite Hd in Hread.
    vm_compute in Hread. discriminate Hread.
Qed.

(** With Go's own texts, every chunk that fits a line of the scanner is read
    back. *)
Lemma chunk_sse_printable c :
  ChatStreamChunk.wf c -> chunk_ok depth_left c ->
  Z.of_nat (String.length (frame_text (printer := Syntax.Marshal) c)) + 6 < sseLineBufferLimit ->
  sse_printable (parser := Syntax.Unmarshal) (printer := Syntax.Marshal) c.
Proof.
  intros Hw Hok Hlen. destruct (ChatStreamChunk.chunk_wire_roundtrip c Hw) as (j & Hj & _).
  pose proof (chunk_text_ok c j Hw Hok Hj) as Hjok.
  unfold sse_printable, frame_text in *. rewrite Hj in *. split; [|by apply text_fits].
  intros j' [= <-]. by apply Syntax.Unmarshal_Marshal.
Qed.

Section Transparency.
#[local] Existing Instance Syntax.Unmarshal.
Context `{floats : !FloatText} `{laws : !FloatTextLaws}.
Context (decode_error Quote : string -> string) (ParseTime : string -> option Z) (now : Z)
  (UnmarshalError : string -> Errors.openai.apiError) (UserAgent : string).
Local Abbreviation ChatCompletion := (ChatCompletion decode_error Quote ParseTime now UnmarshalError UserAgent).
Local Abbreviation build_request := (build_request UserAgent).

(** What the upstream makes of the body it is sent: the text, decoded. *)
Definition upstream_reads (ob : outbound) : option ChatRequest :=
  Syntax.Unmarshal (Syntax.Marshal ob.(ob_body)) ≫= UnmarshalJSON.

(** The upstream is a chat service: it decodes the body and answers 200 with the
    text of its response, and any white space after it. *)
Definition serves (service : ChatRequest -> ChatResponse) (net : outbound -> exchange) : Prop :=
  forall ob r, upstream_reads ob = Some r ->
    exists header j blank, net ob = Responded 200 header (Syntax.Marshal j +:+ blank) None /\
      ChatResponse.marshal (service r) = Some j /\ forallb Syntax.is_space (bytes_of blank) = true.

(** The adapter is transparent.  Against an upstream that decodes the text
    it is sent and answers with the text of a response, a plain call returns
    exactly that upstream's answer to the caller's request with streaming
    switched off (every other field and unknown member intact), labelled with
    the provider's name; the API key travels as a bearer token. *)
Theorem openai_transparent p net service req :
  ChatRequest.wf (set_Stream false req) -> Extra_clean (set_Stream false req) -> request_ok depth_left req ->
  (forall r, ChatResponse.wf (service r) /\ response_ok depth_left (service r)) -> serves service net ->
  ChatCompletion p None net (Some req) =
    inr (ChatResponse.put_Provider (openai.Name p) (service (set_Stream false req))) /\
  exists ob, build_request p false None req = inr ob /\
    upstream_reads ob = Some (set_Stream false req) /\
    ("Authorization", "Bearer " +:+ p.(openai.cfg).(openai.cfg_APIKey)) ∈ ob.(ob_headers).
Proof.
  intros Hw Hc Hok Hs Hnet. destruct (request_reads_back (set_Stream false req) Hw Hc Hok) as (j & Hm & Hu).
  unfold ChatCompletion, build_request. rewrite Hm. split.
  - match goal with |- context [net ?ob] => destruct (Hnet ob (set_Stream false req) Hu) as (hd & j' & blank & -> & Hj & Hb) end.
    change (400 <=? 200) with false. cbv iota. destruct (Hs (set_Stream false req)) as [Hwr Hokr].
    destruct (ChatResponse.response_wire_roundtrip _ Hwr) as (j2 & Hm' & Hu').
    rewrite Hj in Hm'. injection Hm' as <-. unfold parse_json, Syntax.Marshal.
    rewrite Syntax.Unmarshal_print; [|by apply (response_text_ok (service (set_Stream false req)))|done].
    cbn [mbind option_bind]. by rewrite Hu'.
  - eexists. split; [done|]. split; [exact Hu|]. cbn [ob_headers]. by left.
Qed.
End Transparency.

(** A mid-stream error envelope is classified by its code at HTTP status 0, and
    at that status the code is ignored: a context-length error becomes a
    retryable upstream error. *)
Theorem midstream_code_ignored code : Errors.openai.mapStatusToSentinel 0 code = ErrUpstream.
Proof. done. Qed.

Module Example.
#[local] Existing Instance Wire.Example.coded.
#[local] Existing Instance Wire.Example.coded_laws.

Definition sample_text : string := frame_text (printer := Syntax.Marshal) Wire.Example.sample_chunk.

Lemma sample_chunk_ok : ChatStreamChunk.wf Wire.Example.sample_chunk /\
  chunk_ok depth_left Wire.Example.sample_chunk /\ Z.of_nat (String.length sample_text) + 6 < sseLineBufferLimit.
Proof.
  split_and!; [exact Wire.Example.sample_chunk_wf|split; [constructor; [by WireText.Example.extra|constructor]|done]|].
  by vm_compute.
Qed.

Definition id_text (s : string) : string := s.

Definition acme : openai.Provider :=
  {| openai.cfg := {| openai.cfg_Name := "acme"; openai.cfg_Endpoint := "https://acme.test";
                      openai.cfg_APIKey := "sk-u"; openai.cfg_Organization := ""; openai.cfg_Timeout := Second;
                      openai.cfg_Models := {| Exact := ["m"]; Glob := [] |}; openai.cfg_OwnedBy := "openai" |};
     openai.baseURL := "https://acme.test" |}.

Definition always (ob : outbound) : exchange :=
  Responded 200 (fun _ => "")
    (from_option Syntax.Marshal "" (ChatResponse.marshal Wire.Example.sample_response) +:+ String nl "") None.
Definition no_error (s : string) : Errors.openai.apiError := {| Errors.openai.Error := payload.zero |}.

Lemma sample_response_text_ok : response_ok depth_left Wire.Example.sample_response.
Proof.
  split; [constructor; [split; by WireText.Example.extra|constructor]|].
  intros u [= <-]. by WireText.Example.extra.
Qed.

Lemma openai_transparent_witness :
  ChatCompletion (parser := Syntax.Unmarshal) id_text id_text (fun _ => None) 0 no_error "xb" acme None always
    (Some Wire.Example.sample)
  = inr (ChatResponse.put_Provider "acme" Wire.Example.sample_response).
Proof.
  apply (openai_transparent id_text id_text (fun _ => None) 0 no_error "xb" acme always
           (fun _ => Wire.Example.sample_response) Wire.Example.sample).
  - exact Wire.Example.sample_wf.
  - Wire.Example.clean.
  - split; [by WireText.Example.extra|constructor; [by WireText.Example.extra|constructor]].
  - intros _. split; [exact Wire.Example.sample_response_wf|exact sample_response_text_ok].
  - intros ob r _. destruct (ChatResponse.response_wire_roundtrip _ Wire.Example.sample_response_wf) as (j & Hj & _).
    exists (fun _ => ""), j, (String nl ""). unfold always. rewrite Hj. split_and!; reflexivity.
Defined.
End Example.
