(* ===== verification/Mock.v ===== *)
(** * Mock: the upstream of the load and compatibility scripts

    [scripts/mockupstream/main.go]: an OpenAI-compatible server whose reply is
    a function of the request body and the clock.  The request is decoded
    leniently (the error of [json.Unmarshal] is ignored, and a member of the
    wrong type leaves its field as it was), the replies are written from maps.
    Facts: what the OpenAI adapter makes of each reply, streamed and plain, and
    the shape of the embedding vectors. *)

From Stdlib Require Import SpecFloat.
From S2P Require Import Prelude GoStd Float64 Errors Types Encoding JsonSyntax Wire WireText Registry Auth Adapter Stream OpenAI.
From stdpp Require Import base list gmap.
Import Json.
Local Open Scope Z_scope.
#[local] Existing Instance Syntax.Unmarshal.
#[local] Existing Instance Syntax.Marshal.

(** ** Lenient decoding *)

(** A member that does not fit leaves the field unchanged; a pointer is
    allocated before its target is decoded. *)
Definition lenient {A} (set : setter A) : setter A := fun j a => Some (default a (set j a)).
Definition lenient_ptr {A} (zero : A) (set : setter A) : setter (option A) := fun j a =>
  match j with
  | JNull => Some None
  | _ => Some (Some (default (default zero a) (set j (default zero a))))
  end.
Definition lenient_slice {A} (zero : A) (set : setter A) : setter (list A) := fun j a =>
  match j with
  | JNull => Some []
  | JArray items => Some (map (fun i => default zero (set i zero)) items)
  | _ => Some a
  end.

(** [json.Unmarshal(body, &v)] with the error dropped: a text that is not JSON
    leaves [v] untouched. *)
Definition decode_into {A} (fs : list (field A)) (body : string) (zero : A) : A :=
  default zero (parse_json body ≫= fun j => set_struct fs j zero).

(** A Go map as an object: its keys in order. *)
Definition obj (ms : members) : json := of_map (list_to_map ms).

Definition content_type (v h : string) : string := if bool_decide (h = "Content-Type") then v else "".

(** [json.NewEncoder(w).Encode(resp)]. *)
Definition write_json (j : json) : exchange :=
  Responded 200 (content_type "application/json") (print_json j +:+ String nl "") None.

(** ** Chat completions *)

Record chatRequest := {
  cr_Stream : bool;
  cr_Tools : option json;
  cr_Logprobs : option bool;
  cr_ResponseFormat : option string;
  cr_Model : string
}.

Definition put_Stream x r := Build_chatRequest x r.(cr_Tools) r.(cr_Logprobs) r.(cr_ResponseFormat) r.(cr_Model).
Definition put_Tools x r := Build_chatRequest r.(cr_Stream) x r.(cr_Logprobs) r.(cr_ResponseFormat) r.(cr_Model).
Definition put_Logprobs x r := Build_chatRequest r.(cr_Stream) r.(cr_Tools) x r.(cr_ResponseFormat) r.(cr_Model).
Definition put_ResponseFormat x r := Build_chatRequest r.(cr_Stream) r.(cr_Tools) r.(cr_Logprobs) x r.(cr_Model).
Definition put_Model x r := Build_chatRequest r.(cr_Stream) r.(cr_Tools) r.(cr_Logprobs) r.(cr_ResponseFormat) x.

(** [json.RawMessage] takes any value, [null] included. *)
Definition set_raw : setter (option json) := fun j _ => Some (Some j).
Definition set_format : setter string := set_struct [("type", lenient set_string)].

Definition chat_fields : list (field chatRequest) :=
  [("stream", via cr_Stream put_Stream (lenient set_bool));
   ("tools", via cr_Tools put_Tools set_raw);
   ("logprobs", via cr_Logprobs put_Logprobs (lenient_ptr false set_bool));
   ("response_format", via cr_ResponseFormat put_ResponseFormat (lenient_ptr "" set_format));
   ("model", via cr_Model put_Model (lenient set_string))].

Definition chat_zero : chatRequest := Build_chatRequest false None None None "".

Definition modelName (fallback : string) : string :=
  if bool_decide (fallback = "") then "gpt-4o-mini" else fallback.

Definition usage (prompt completion total : Z) : json :=
  obj [("prompt_tokens", of_int prompt); ("completion_tokens", of_int completion); ("total_tokens", of_int total)].

(** The envelope the four plain replies share. *)
Definition chat_reply (id : string) (now : Z) (model : string) (choice : json) (use : json) : json :=
  obj [("id", JString id); ("object", JString "chat.completion"); ("created", of_int now);
       ("model", of_string (modelName model)); ("choices", JArray [choice]); ("usage", use)].

Definition writePlainChat (now : Z) (model : string) : json :=
  chat_reply "chatcmpl-mock" now model
    (obj [("index", of_int 0);
          ("message", obj [("role", JString "assistant"); ("content", JString "ok")]);
          ("finish_reason", JString "stop")])
    (usage 1 1 2).

(** The arguments of the call are a string that holds JSON. *)
Definition tool_arguments : string :=
  string_of (map (fun c => if c =? 39 then 34 else c) (bytes_of "{'q':'hello'}")).
Definition tool_calls : json :=
  JArray [obj [("id", JString "call_mock_1"); ("type", JString "function");
               ("function", obj [("name", JString "search"); ("arguments", JString tool_arguments)])]].
Definition writeToolCallChat (now : Z) (model : string) : json :=
  chat_reply "chatcmpl-mock-tools" now model
    (obj [("index", of_int 0);
          ("message", obj [("role", JString "assistant"); ("content", JNull); ("tool_calls", tool_calls)]);
          ("finish_reason", JString "tool_calls")])
    (usage 8 12 20).

Definition json_content : string :=
  string_of (map (fun c => if c =? 39 then 34 else c) (bytes_of "{'answer':'42','unit':'the meaning of life'}")).
Definition writeJSONModeChat (now : Z) (model : string) : json :=
  chat_reply "chatcmpl-mock-json" now model
    (obj [("index", of_int 0);
          ("message", obj [("role", JString "assistant"); ("content", JString json_content)]);
          ("finish_reason", JString "stop")])
    (usage 5 14 19).

Definition logprobs : json :=
  obj [("content", JArray [obj [("token", JString "ok"); ("logprob", JNumber "-0.1");
                                ("bytes", JArray [of_int 111; of_int 107]); ("top_logprobs", JArray [])]])].
Definition writeLogprobsChat (now : Z) (model : string) : json :=
  chat_reply "chatcmpl-mock-lp" now model
    (obj [("index", of_int 0);
          ("message", obj [("role", JString "assistant"); ("content", JString "ok")]);
          ("finish_reason", JString "stop"); ("logprobs", logprobs)])
    (usage 1 1 2).

(** The frames of [writeStreamingChat]. *)
Definition stream_chunk (now : Z) (model : string) (choice : members) : json :=
  obj [("id", JString "chatcmpl-mock-stream"); ("object", JString "chat.completion.chunk");
       ("created", of_int now); ("model", of_string (modelName model));
       ("choices", JArray [obj (("index", of_int 0) :: choice)])].
Definition stream_chunks (now : Z) (model : string) : list json :=
  map (stream_chunk now model)
    [[("delta", obj [("role", JString "assistant")])];
     [("delta", obj [("content", JString "hello ")])];
     [("delta", obj [("content", JString "world")])];
     [("delta", obj []); ("finish_reason", JString "stop")]].
Definition writeStreamingChat (now : Z) (model : string) : exchange :=
  Responded 200 (content_type "text/event-stream")
    (foldr (fun c t => data_frame (print_json c) +:+ t) (data_frame "[DONE]") (stream_chunks now model)) None.

(** The reply by what the body asks for, tools before JSON mode before
    logprobs. *)
Definition plain_reply (now : Z) (req : chatRequest) : json :=
  match req.(cr_Tools) with
  | Some _ => writeToolCallChat now req.(cr_Model)
  | None =>
      if bool_decide (req.(cr_ResponseFormat) = Some "json_object") then writeJSONModeChat now req.(cr_Model)
      else if bool_decide (req.(cr_Logprobs) = Some true) then writeLogprobsChat now req.(cr_Model)
      else writePlainChat now req.(cr_Model)
  end.

Definition chatCompletions (now : Z) (body : string) : exchange :=
  let req := decode_into chat_fields body chat_zero in
  if req.(cr_Stream) then writeStreamingChat now req.(cr_Model) else write_json (plain_reply now req).

(** ** Models and embeddings *)

Definition modelsList : exchange :=
  write_json (obj [("object", JString "list");
    ("data", JArray [obj [("id", JString "gpt-4o-mini"); ("object", JString "model"); ("owned_by", JString "mock")]])]).

(** [float32] arithmetic. *)
Abbreviation float32 := spec_float.
Definition f32_of (n : Z) : float32 := binary_normalize 24 128 n 0 false.
Definition f32_div (x y : float32) : float32 := SFdiv 24 128 x y.
Definition f32_mul (x y : float32) : float32 := SFmul 24 128 x y.
Definition f32_sub (x y : float32) : float32 := SFsub 24 128 x y.

(** [binary.LittleEndian.Uint32] of four bytes. *)
Definition Uint32 (a b c d : Z) : Z := a + Z.shiftl b 8 + Z.shiftl c 16 + Z.shiftl d 24.

Definition component (u : Z) : float32 :=
  f32_sub (f32_mul (f32_div (f32_of u) (f32_of 4294967295)) (f32_of 2)) (f32_of 1).

(** The inner loop: the components of one block, at most [room] of them. *)
Fixpoint block (room : nat) (buf : bytes) : list float32 :=
  match room, buf with
  | S room, a :: b :: c :: d :: buf => component (Uint32 a b c d) :: block room buf
  | _, _ => []
  end.

Section Embeddings.
Context `{sha : !Sha256} (FormatFloat32 : float32 -> string).

(** The outer loop; a digest is not empty, so every turn fills something, and
    [dim] turns are enough. *)
Fixpoint vec_loop (fuel : nat) (dim : nat) (buf : bytes) : list float32 :=
  match fuel, dim with
  | S fuel, S _ =>
      let buf := Sum256 (string_of buf) in
      let out := block dim buf in
      out ++ vec_loop fuel (dim - length out) buf
  | _, _ => []
  end.
Definition deterministicVec (text : string) (dim : nat) : list float32 :=
  vec_loop dim dim (Sum256 text).

Record embeddingsRequest := { er_Input : list string; er_Model : string }.
Definition er_fields : list (field embeddingsRequest) :=
  [("input", via er_Input (fun x r => Build_embeddingsRequest x r.(er_Model)) (lenient_slice "" set_string));
   ("model", via er_Model (fun x r => Build_embeddingsRequest r.(er_Input) x) (lenient set_string))].

Definition embedding (dim : nat) (i : nat) (text : string) : json :=
  obj [("index", of_int (Z.of_nat i)); ("object", JString "embedding");
       ("embedding", JArray (map (fun f => JNumber (FormatFloat32 f)) (deterministicVec text dim)))].

Definition embeddings (body : string) : exchange :=
  let req := decode_into er_fields body (Build_embeddingsRequest [] "") in
  let n := of_int (Z.of_nat (length req.(er_Input))) in
  write_json (obj [("object", JString "list");
    ("data", JArray (imap (embedding 1536) req.(er_Input)));
    ("model", of_string req.(er_Model));
    ("usage", obj [("prompt_tokens", n); ("total_tokens", n)])]).

(** The three handlers of [main]. *)
Definition mux (now : Z) (path body : string) : exchange :=
  if bool_decide (path = "/v1/chat/completions") then chatCompletions now body
  else if bool_decide (path = "/v1/models") then modelsList
  else if bool_decide (path = "/v1/embeddings") then embeddings body
  else Responded 404 (content_type "text/plain; charset=utf-8") ("404 page not found" +:+ String nl "") None.
End Embeddings.

Example lenient_ex :
  decode_into chat_fields (Syntax.Marshal (JObject [("stream", JString "yes"); ("model", JString "m");
    ("logprobs", JNumber "1"); ("response_format", JObject [("type", JNumber "2")])])) chat_zero
  = Build_chatRequest false None (Some false) (Some "") "m".
Proof. vm_compute. reflexivity. Qed.
Example component_ends : map component [0; 4294967295] = [SFopp (f32_of 1); f32_of 1].
Proof. vm_compute. reflexivity. Qed.

(** A member [tools] with nothing in it still gets the tool reply: a raw message
    is never empty. *)
Example null_tools_answered now :
  chatCompletions now (Syntax.Marshal (JObject [("tools", JNull)])) = write_json (writeToolCallChat now "").
Proof. reflexivity. Qed.

(** ** Embedding vectors *)

Section Vectors.
Context `{sha : !Sha256} (Sum256_length : forall s, length (Sum256 s) = 32%nat).

(** The reference: eight components per digest, each digest the hash of the
    one before. *)
Fixpoint vec_stream (n : nat) (buf : bytes) : list float32 :=
  match n with
  | O => []
  | S n => let buf := Sum256 (string_of buf) in block 8 buf ++ vec_stream n buf
  end.

Lemma block_take room buf :
  length buf = 32%nat -> block room buf = take room (block 8 buf) /\ length (block 8 buf) = 8%nat.
Proof.
  intros Hb. do 32 (destruct buf as [|? buf]; [discriminate Hb|]). destruct buf; [|discriminate Hb].
  split; [|done]. do 9 (destruct room as [|room]; [done|]). done.
Qed.

Lemma vec_loop_take fuel dim buf : vec_loop fuel dim buf = take dim (vec_stream fuel buf).
Proof.
  revert dim buf. induction fuel as [|fuel IH]; intros dim buf; [by destruct dim|].
  destruct dim as [|dim]; [done|]. cbn [vec_loop vec_stream].
  destruct (block_take (S dim) (Sum256 (string_of buf)) (Sum256_length _)) as [Hb Hl].
  rewrite Hb at 1 2. rewrite length_take, Hl, IH, take_app, Hl.
  destruct (decide (S dim <= 8)%nat).
  - replace (S dim - S dim `min` 8)%nat with (S dim - 8)%nat by lia. done.
  - by replace (S dim - S dim `min` 8)%nat with (S dim - 8)%nat by lia.
Qed.

Lemma vec_stream_length n buf : length (vec_stream n buf) = (8 * n)%nat.
Proof.
  revert buf. induction n as [|n IH]; intros buf; [done|]. cbn [vec_stream].
  rewrite length_app, IH. destruct (block_take 0 _ (Sum256_length (string_of buf))) as [_ ->]. lia.
Qed.

(** A vector has exactly the dimension asked for, and is the beginning of every
    longer vector of the same text. *)
Lemma deterministicVec_spec text dim :
  length (deterministicVec text dim) = dim /\
  forall dim', (dim <= dim')%nat -> take dim (deterministicVec text dim') = deterministicVec text dim.
Proof.
  unfold deterministicVec. rewrite vec_loop_take, length_take, vec_stream_length. split; [lia|].
  intros dim' Hd. rewrite vec_loop_take, take_take.
  assert (Hp : forall n m buf, (n <= m)%nat -> vec_stream n buf `prefix_of` vec_stream m buf).
  { induction n as [|n IH]; intros [|m] buf Hm; [done|apply prefix_nil|lia|]. cbn [vec_stream].
    apply prefix_app, IH. lia. }
  destruct (Hp dim dim' (Sum256 text) Hd) as [t ->].
  rewrite take_app_le; [|rewrite vec_stream_length; lia]. f_equal. lia.
Qed.
End Vectors.

(** ** What the mock makes of the adapter's requests *)

(** The value a field ends up with. *)
Definition pick {B} (n : string) (set : setter B) (ms : members) (b : B) : B :=
  fold_left (fun b kv => if bool_decide (foldName n = foldName kv.1) then default b (set kv.2 b) else b) ms b.

Lemma store_chat ms a :
  store chat_fields ms a = Some
    {| cr_Stream := pick "stream" set_bool ms a.(cr_Stream);
       cr_Tools := pick "tools" set_raw ms a.(cr_Tools);
       cr_Logprobs := pick "logprobs" (lenient_ptr false set_bool) ms a.(cr_Logprobs);
       cr_ResponseFormat := pick "response_format" (lenient_ptr "" set_format) ms a.(cr_ResponseFormat);
       cr_Model := pick "model" set_string ms a.(cr_Model) |}.
Proof.
  revert a. induction ms as [|[k v] ms IH]; intros a; [by destruct a|].
  unfold pick. cbn [store find_field chat_fields fold_left fst snd].
  repeat match goal with |- context [bool_decide (foldName ?n = foldName k)] =>
    lazymatch n with _ => destruct (decide (foldName n = foldName k)) as [E|] end;
    [rewrite <- E; repeat match goal with |- context [bool_decide (?x = ?y)] =>
       let b := eval vm_compute in (bool_decide (x = y)) in
       replace (bool_decide (x = y)) with b by (vm_compute; reflexivity) end; cbv iota
    |rewrite (bool_decide_false (foldName n = foldName k)) by done]
  end.
  all: cbn [mbind option_bind]; unfold via, lenient, set_raw.
  all: try match goal with |- context [lenient_ptr ?z ?s ?w ?x] =>
    replace (lenient_ptr z s w x) with (Some (default x (lenient_ptr z s w x))) by (by destruct w) end.
  all: cbn [fmap option_fmap option_map mbind option_bind default]; rewrite IH; by destruct a.
Qed.

(** A field whose name no other key resembles has the value of its member. *)
Lemma pick_member {B} n (set : setter B) ms b :
  NoDup ms.*1 -> (forall k, k ∈ ms.*1 -> foldName n = foldName k -> k = n) ->
  pick n set ms b = match raw_of ms !! n with Some v => default b (set v b) | None => b end.
Proof.
  induction ms as [|[k v] ms IH] using rev_ind; [done|]. rewrite fmap_app. cbn [fmap list_fmap fst].
  intros (Hnd & Hdis & _)%NoDup_app Hk. unfold pick. rewrite fold_left_app, raw_of_snoc. cbn [fold_left fst snd].
  fold (pick n set ms b). rewrite IH by (try done; intros k' ?; apply Hk; set_solver).
  case_bool_decide as E.
  - rewrite <- (Hk k) in * by (set_solver || done). rewrite lookup_insert_eq.
    rewrite (proj2 (raw_of_lookup_None ms k)); [done|]. intros Hin. apply (Hdis k Hin). set_solver.
  - rewrite lookup_insert_ne; [done|]. intros ->. done.
Qed.

Lemma marshal_members {A} `{!Struct A} {wf : A -> Prop} `{!StructLaws A wf} (a : A) base j :
  emit a = Some base -> MarshalJSON a = Some j ->
  exists ms, j = JObject ms /\ NoDup ms.*1 /\
    forall k, raw_of ms !! k = if bool_decide (k ∈ knownKeys (A := A)) then raw_of base !! k else Extra a !! k.
Proof.
  intros He. unfold MarshalJSON. rewrite He. cbn [mbind option_bind].
  pose proof (emit_keys a base He) as Hkeys.
  assert (Hb : forall k, k ∉ knownKeys (A := A) -> raw_of base !! k = None)
    by (intros k Hk; by apply (raw_emit_unknown a base)).
  case_bool_decide as HE; intros [= <-].
  - exists base. split_and!; [done|by apply (emit_NoDup a)|]. intros k. case_bool_decide; [done|].
    by rewrite HE, Hb.
  - eexists. split_and!; [reflexivity|..].
    + rewrite sorting.merge_sort_Permutation. apply NoDup_fst_map_to_list.
    + intros k. rewrite (raw_of_map_to_list _ _ (sorting.merge_sort_Permutation _ _)).
      rewrite lookup_union, map_lookup_filter. case_bool_decide as Hk.
      * destruct (Extra a !! k); cbn; [rewrite option_guard_False by (intros H; by apply H)|]; by destruct (raw_of base !! k).
      * rewrite Hb by done. destruct (Extra a !! k); cbn; [by rewrite option_guard_True|done].
Qed.

Section Requests.
Context `{floats : !FloatText} `{laws : !FloatTextLaws}.

(** What a request asks of the mock. *)
Definition asked (req : ChatRequest) : chatRequest :=
  {| cr_Stream := req.(req_Stream);
     cr_Tools := req.(req_Extra) !! "tools";
     cr_Logprobs := from_option (fun v => default None (lenient_ptr false set_bool v None)) None
                      (req.(req_Extra) !! "logprobs");
     cr_ResponseFormat := from_option (fun v => default None (lenient_ptr "" set_format v None)) None
                            (req.(req_Extra) !! "response_format");
     cr_Model := req.(req_Model) |}.

(** No member is spelled like a feature in other letters. *)
Definition plain_names (req : ChatRequest) : Prop :=
  forall n k, n ∈ ["tools"; "logprobs"; "response_format"] -> is_Some (req.(req_Extra) !! k) ->
    foldName n = foldName k -> k = n.

Lemma request_members req base :
  emit (A := ChatRequest) req = Some base -> valid_string req.(req_Model) ->
  raw_of base !! "model" = Some (JString req.(req_Model)) /\
  raw_of base !! "stream" = if req.(req_Stream) then Some (JBool true) else None.
Proof.
  intros Hb Hv. pose proof (emit_NoDup req base Hb) as Hnd. change (ChatRequest.members req = Some base) in Hb.
  unfold ChatRequest.members in Hb. apply bind_Some in Hb as (mj & _ & (t & Ht & (p & Hp & [= <-])%bind_Some)%bind_Some).
  assert (Hf : forall k f ms, ChatRequest.float_member k f = Some ms -> forall k', k' ∈ ms.*1 -> k' = k).
  { intros k [f|] ms; cbn; [destruct (finite f)|]; intros [= <-]; set_solver. }
  split.
  - apply raw_of_lookup; [done|]. unfold of_string. rewrite Utf8.string_of_runes_runes by done. set_solver.
  - destruct (req_Stream req) eqn:Es.
    + apply raw_of_lookup; [done|]. unfold omit at 3. cbn [negb]. set_solver.
    + apply raw_of_lookup_None. cbn [app negb omit]. rewrite !fmap_cons, !fmap_app.
      rewrite !elem_of_cons, !elem_of_app. intros Hin. unfold omit in *.
      repeat match goal with
      | H : _ \/ _ |- _ => destruct H
      | H : _ ∈ (if bool_decide ?b then _ else _).*1 |- _ => destruct (bool_decide b)
      | H : "stream" ∈ _.*1, F : ChatRequest.float_member _ _ = Some _ |- _ => by apply (Hf _ _ _ F) in H
      end; set_solver.
Qed.

Definition field_names : list string := ["stream"; "tools"; "logprobs"; "response_format"; "model"].

Lemma known_names n k :
  n ∈ field_names -> k ∈ ChatRequest.chatRequestKnownKeys -> foldName n = foldName k -> k = n.
Proof.
  intros Hn Hk E. assert (H : forallb (fun n => forallb (fun k =>
    negb (bool_decide (foldName n = foldName k)) || bool_decide (k = n)) ChatRequest.chatRequestKnownKeys) field_names = true)
    by (vm_compute; reflexivity).
  rewrite forallb_forall in H. specialize (H n (proj1 (list_elem_of_In _ _) Hn)).
  rewrite forallb_forall in H. specialize (H k (proj1 (list_elem_of_In _ _) Hk)).
  rewrite bool_decide_true in H by done. by apply bool_decide_eq_true in H.
Qed.

(** The members of a request that the mock's fields take are the ones of the
    same name. *)
Lemma sent_names req base ms n k :
  Extra_clean (A := ChatRequest) req -> plain_names req -> emit (A := ChatRequest) req = Some base ->
  (forall k, raw_of ms !! k = if bool_decide (k ∈ knownKeys (A := ChatRequest)) then raw_of base !! k else Extra req !! k) ->
  n ∈ field_names -> k ∈ ms.*1 -> foldName n = foldName k -> k = n.
Proof.
  intros Hc Hn Hb Hraw Hin Hk E.
  assert (Hs : is_Some (raw_of ms !! k))
    by (apply not_eq_None_Some; intros H0; by apply raw_of_lookup_None in H0).
  rewrite Hraw in Hs. case_bool_decide as Hkn; [by apply known_names|]. destruct Hs as [v Hv].
  destruct (decide (n ∈ ["tools"; "logprobs"; "response_format"])) as [Hf|Hf]; [by apply Hn|].
  destruct (Hc k v Hv). rewrite <- E. apply list_elem_of_fmap. exists n. split; [done|].
  unfold field_names in Hin. change (knownKeys (A := ChatRequest)) with ChatRequest.chatRequestKnownKeys.
  unfold ChatRequest.chatRequestKnownKeys. set_solver.
Qed.

(** The mock reads from the adapter's text what the request asks. *)
Lemma decode_sent (req : ChatRequest) j :
  ChatRequest.wf req -> Extra_clean req -> request_ok depth_left req -> plain_names req ->
  MarshalJSON req = Some j -> decode_into chat_fields (print_json j) chat_zero = asked req.
Proof.
  intros Hw Hc Hok Hn Hj. unfold decode_into.
  assert (Hp : parse_json (print_json j) = Some j).
  { apply Syntax.Unmarshal_Marshal. eapply Syntax.json_ok_more; [by apply (request_text depth_left req)|].
    unfold depth_left, Syntax.maxNestingDepth. lia. }
  rewrite Hp. cbn [mbind option_bind].
  destruct (emit_store req Hw) as (base & Hb & _).
  destruct (marshal_members req base j Hb Hj) as (ms & -> & Hnd & Hraw). cbn [set_struct]. rewrite store_chat.
  cbn [default from_option]. assert (Hkey := sent_names req base ms).
  destruct (request_members req base Hb (proj1 Hw)) as [Hm Hs].
  assert (Hx : forall n, n ∈ ["tools"; "logprobs"; "response_format"] -> raw_of ms !! n = req.(req_Extra) !! n).
  { intros n Hin. rewrite Hraw, bool_decide_false; [done|].
    change (knownKeys (A := ChatRequest)) with ChatRequest.chatRequestKnownKeys.
    unfold ChatRequest.chatRequestKnownKeys. set_solver. }
  unfold asked.
  rewrite !pick_member by (try done; intros k Hk E; eapply Hkey; try done; unfold field_names; set_solver).
  rewrite (Hx "tools"), (Hx "logprobs"), (Hx "response_format") by set_solver.
  rewrite (Hraw "stream"), (Hraw "model").
  change (bool_decide ("stream" ∈ knownKeys)) with true. change (bool_decide ("model" ∈ knownKeys)) with true.
  cbv iota. rewrite Hm, Hs.
  by destruct (req_Stream req), (req_Extra req !! "tools"), (req_Extra req !! "logprobs"),
    (req_Extra req !! "response_format").
Qed.
End Requests.

(** ** What the adapter makes of the replies *)

Definition mock_message (content : string) (extra : gmap string json) : Message :=
  Build_Message "assistant" content "" "" extra.
Definition mock_response (id : string) (now : Z) (model : string) (c : Choice) (p o : Z) : ChatResponse :=
  {| resp_ID := id; resp_Object := "chat.completion"; resp_Created := now; resp_Model := modelName model;
     resp_Choices := [c]; resp_Usage := Some (Build_Usage p o (p + o) ∅); resp_Provider := "" |}.

(** The four replies as the gateway sees them: the calls of a tool reply and the
    log probabilities are members it does not model and keeps. *)
Definition canned (now : Z) (q : chatRequest) : ChatResponse :=
  match q.(cr_Tools) with
  | Some _ => mock_response "chatcmpl-mock-tools" now q.(cr_Model)
      (Build_Choice 0 (mock_message "" {["tool_calls" := tool_calls]}) "tool_calls" ∅) 8 12
  | None =>
      if bool_decide (q.(cr_ResponseFormat) = Some "json_object") then
        mock_response "chatcmpl-mock-json" now q.(cr_Model)
          (Build_Choice 0 (mock_message json_content ∅) "stop" ∅) 5 14
      else if bool_decide (q.(cr_Logprobs) = Some true) then
        mock_response "chatcmpl-mock-lp" now q.(cr_Model)
          (Build_Choice 0 (mock_message "ok" ∅) "stop" {["logprobs" := logprobs]}) 1 1
      else mock_response "chatcmpl-mock" now q.(cr_Model) (Build_Choice 0 (mock_message "ok" ∅) "stop" ∅) 1 1
  end.

Lemma chat_reply_members id now model choice use :
  chat_reply id now model choice use =
  JObject [("choices", JArray [choice]); ("created", of_int now); ("id", JString id);
           ("model", of_string (modelName model)); ("object", JString "chat.completion"); ("usage", use)].
Proof.
  unfold chat_reply. generalize (of_int now), (of_string (modelName model)). intros x y. vm_compute. reflexivity.
Qed.

Lemma modelName_valid m : valid_string m -> valid_string (modelName m).
Proof. unfold modelName. by case_bool_decide. Qed.

Lemma slice_one (choice : json) (c : Choice) old :
  UnmarshalJSON choice = Some c -> set_slice zero set_Unmarshal (JArray [choice]) old = Some [c].
Proof. intros Hc. cbn [set_slice mapM]. unfold set_Unmarshal. by rewrite Hc. Qed.

Lemma ptr_object {A} `{!Struct A} ms (u : A) old :
  UnmarshalJSON (JObject ms) = Some u -> set_ptr zero set_Unmarshal (JObject ms) old = Some (Some u).
Proof. intros Hu. unfold set_ptr, set_Unmarshal. by rewrite Hu. Qed.

Lemma chat_reply_reads id now model choice ms c p o :
  in_int64 now -> valid_string model -> UnmarshalJSON choice = Some c ->
  UnmarshalJSON (JObject ms) = Some (Build_Usage p o (p + o) ∅) ->
  ChatResponse.unmarshal (chat_reply id now model choice (JObject ms)) = Some (mock_response id now model c p o).
Proof.
  intros Hn Hm Hc Hu. rewrite chat_reply_members. unfold ChatResponse.unmarshal. cbn [set_struct].
  apply modelName_valid in Hm.
  erewrite store_via; [|reflexivity|by apply slice_one].
  erewrite store_via; [|reflexivity|by apply set_int_ok].
  erewrite store_via; [|reflexivity|by apply set_string_ok].
  erewrite store_via; [|reflexivity|by apply set_of_string].
  erewrite store_via; [|reflexivity|by apply set_string_ok].
  erewrite store_via; [|reflexivity|by apply ptr_object].
  done.
Qed.

Lemma plain_reply_reads now q :
  in_int64 now -> valid_string q.(cr_Model) -> ChatResponse.unmarshal (plain_reply now q) = Some (canned now q).
Proof.
  intros Hn Hm. unfold plain_reply, canned. destruct (cr_Tools q).
  - apply (chat_reply_reads _ _ _ _ _ _ 8 12); [done..|vm_compute; reflexivity|vm_compute; reflexivity].
  - case_bool_decide; [|case_bool_decide].
    + apply (chat_reply_reads _ _ _ _ _ _ 5 14); [done..|vm_compute; reflexivity|vm_compute; reflexivity].
    + apply (chat_reply_reads _ _ _ _ _ _ 1 1); [done..|vm_compute; reflexivity|vm_compute; reflexivity].
    + apply (chat_reply_reads _ _ _ _ _ _ 1 1); [done..|vm_compute; reflexivity|vm_compute; reflexivity].
Qed.

Lemma plain_reply_ok now q :
  in_int64 now -> valid_string q.(cr_Model) -> Syntax.json_ok Syntax.maxNestingDepth (plain_reply now q) = true.
Proof.
  intros Hn Hm. apply modelName_valid in Hm.
  assert (H : forall id choice use, Utf8.ValidString id = true ->
    Syntax.json_ok 10 choice = true -> Syntax.json_ok 10 use = true ->
    Syntax.json_ok Syntax.maxNestingDepth (chat_reply id now q.(cr_Model) choice use) = true).
  { intros id choice use Hid Hc Hu. rewrite chat_reply_members. apply (Syntax.json_ok_more 12).
    2: { unfold Syntax.maxNestingDepth. lia. }
    assert (Syntax.json_ok 11 (JArray [choice]) = true) by (apply Syntax.json_ok_array; by constructor).
    assert (Syntax.json_ok 11 use = true) by (apply (Syntax.json_ok_more 10); [done|lia]).
    assert (Syntax.json_ok 11 (JString id) = true) by done.
    assert (Syntax.json_ok 11 (JString "chat.completion") = true) by (vm_compute; reflexivity).
    apply Syntax.json_ok_object. auto 20 with json_text. }
  unfold plain_reply, writeToolCallChat, writeJSONModeChat, writeLogprobsChat, writePlainChat.
  destruct (cr_Tools q); [|destruct (bool_decide (cr_ResponseFormat q = _));
    [|destruct (bool_decide (cr_Logprobs q = _))]]; apply H; vm_compute; reflexivity.
Qed.

(** *** Streams *)

Definition mock_chunk (now : Z) (model : string) (role content finish : string) : ChatStreamChunk :=
  {| chk_ID := "chatcmpl-mock-stream"; chk_Object := "chat.completion.chunk"; chk_Created := now;
     chk_Model := modelName model;
     chk_Choices := [Build_StreamChoice 0 (Build_MessageDelta role content ∅) finish]; chk_Usage := None |}.
Definition canned_chunks (now : Z) (model : string) : list ChatStreamChunk :=
  [mock_chunk now model "assistant" "" ""; mock_chunk now model "" "hello " "";
   mock_chunk now model "" "world" ""; mock_chunk now model "" "" "stop"].

Lemma stream_chunk_members now model choice :
  stream_chunk now model choice =
  JObject [("choices", JArray [obj (("index", of_int 0) :: choice)]); ("created", of_int now);
           ("id", JString "chatcmpl-mock-stream"); ("model", of_string (modelName model));
           ("object", JString "chat.completion.chunk")].
Proof.
  unfold stream_chunk. generalize (of_int now), (of_string (modelName model)), (obj (("index", of_int 0) :: choice)).
  intros x y z. vm_compute. reflexivity.
Qed.

Lemma stream_chunk_reads now model choice role content finish :
  in_int64 now -> valid_string model ->
  set_struct StreamChoice.fields (obj (("index", of_int 0) :: choice)) StreamChoice.zero =
    Some (Build_StreamChoice 0 (Build_MessageDelta role content ∅) finish) ->
  unmarshal_payload (stream_chunk now model choice) =
    Some {| pw_Chunk := mock_chunk now model role content finish; pw_Error := None |}.
Proof.
  intros Hn Hm Hc. rewrite stream_chunk_members. apply modelName_valid in Hm.
  apply store_payload.
  - erewrite store_via; [|reflexivity|cbn [set_slice mapM]; by rewrite Hc].
    erewrite store_via; [|reflexivity|by apply set_int_ok].
    erewrite store_via; [|reflexivity|by apply set_string_ok].
    erewrite store_via; [|reflexivity|by apply set_of_string].
    erewrite store_via; [|reflexivity|by apply set_string_ok]. done.
  - intros k v Hin. apply (bool_decide_eq_true_1 (is_Some (find_field ChatStreamChunk.fields k))).
    repeat (apply elem_of_cons in Hin as [Hin|Hin]; [injection Hin as -> _; vm_compute; reflexivity|]).
    by apply elem_of_nil in Hin.
Qed.

Lemma stream_chunk_ok now model choice :
  in_int64 now -> valid_string model -> Syntax.json_ok 10 (obj (("index", of_int 0) :: choice)) = true ->
  Syntax.json_ok Syntax.maxNestingDepth (stream_chunk now model choice) = true.
Proof.
  intros Hn Hm Hc. rewrite stream_chunk_members. apply modelName_valid in Hm. apply (Syntax.json_ok_more 12).
  2: { unfold Syntax.maxNestingDepth. lia. }
  assert (Syntax.json_ok 11 (JArray [obj (("index", of_int 0) :: choice)]) = true)
    by (apply Syntax.json_ok_array; by constructor).
  assert (Syntax.json_ok 11 (JString "chatcmpl-mock-stream") = true) by (vm_compute; reflexivity).
  assert (Syntax.json_ok 11 (JString "chat.completion.chunk") = true) by (vm_compute; reflexivity).
  apply Syntax.json_ok_object. auto 20 with json_text.
Qed.

Lemma stream_chunks_read now model :
  in_int64 now -> valid_string model ->
  (forall c, c ∈ stream_chunks now model -> Z.of_nat (String.length (print_json c)) + 6 < sseLineBufferLimit) ->
  Forall2 (fun j ch => reads_as (print_json j) ch) (stream_chunks now model) (canned_chunks now model).
Proof.
  intros Hn Hm Hlen.
  assert (H : forall choice role content finish, stream_chunk now model choice ∈ stream_chunks now model ->
    Syntax.json_ok 10 (obj (("index", of_int 0) :: choice)) = true ->
    set_struct StreamChoice.fields (obj (("index", of_int 0) :: choice)) StreamChoice.zero =
      Some (Build_StreamChoice 0 (Build_MessageDelta role content ∅) finish) ->
    reads_as (print_json (stream_chunk now model choice)) (mock_chunk now model role content finish)).
  { intros choice role content finish Hin Hc Hs. pose proof (stream_chunk_ok now model choice Hn Hm Hc) as Hok.
    destruct (text_fits _ Hok (Hlen _ Hin)) as [Hf Hd]. split_and!; [exact Hf|exact Hd|].
    unfold parse_json, print_json. rewrite Syntax.Unmarshal_Marshal by exact Hok.
    by apply stream_chunk_reads. }
  unfold stream_chunks, canned_chunks in *. cbn [map] in *.
  repeat (apply Forall2_cons_2; [apply H; [set_solver|vm_compute; reflexivity..]|]). apply Forall2_nil_2.
Qed.

(** A body of data frames is read frame by frame. *)
Lemma read_frames decode_error name js cs :
  Forall2 (fun j ch => reads_as (print_json j) ch) js cs ->
  (readSSE decode_error name (foldr (fun c t => data_frame (print_json c) +:+ t) (data_frame "[DONE]") js) None false
     (open_chan [])).(received) = map Chunk cs.
Proof.
  intros Hr. set (items := zip_with (fun j ch => Some (print_json j, ch)) js cs).
  assert (Hi : foldr (fun c t => data_frame (print_json c) +:+ t) (data_frame "[DONE]") js =
      sse_text (map (fmap fst) items ++ [Some "[DONE]"]) /\ omap (fmap snd) items = cs /\
      forall t ch, Some (t, ch) ∈ items -> reads_as t ch).
  { unfold items. clear items. induction Hr as [|j c js cs Hc Hr (Ht & Ho & Hi)].
    { split_and!; [symmetry; apply Strings.append_nil|done|intros t ch H; by apply elem_of_nil in H]. }
    cbn [zip_with map fmap option_fmap option_map foldr omap list_omap app fst snd].
    split_and!; [by rewrite Ht|by rewrite Ho|].
    intros t ch [[= -> ->]|Hin]%elem_of_cons; [done|by apply Hi]. }
  destruct Hi as (-> & Ho & Hi). rewrite <- Ho.
  exact (read_stream decode_error name items 0 None Hi).
Qed.

Section Suite.
Context `{floats : !FloatText} `{laws : !FloatTextLaws}.
Context (decode_error Quote : string -> string) (ParseTime : string -> option Z) (clock : Z)
  (UnmarshalError : string -> Errors.openai.apiError) (UserAgent : string).
Local Abbreviation ChatCompletion := (ChatCompletion decode_error Quote ParseTime clock UnmarshalError UserAgent).
Local Abbreviation ChatCompletionStream :=
  (ChatCompletionStream decode_error Quote ParseTime clock UnmarshalError UserAgent).

(** The network with the mock behind it. *)
Definition mock_net (now : Z) (ob : outbound) : exchange := chatCompletions now (print_json ob.(ob_body)).

(** Requests the adapter can send and the mock reads as meant. *)
Definition sendable (req : ChatRequest) : Prop :=
  ChatRequest.wf req /\ Extra_clean req /\ request_ok depth_left req /\ plain_names req.

Lemma mock_reads stream p req :
  sendable (set_Stream stream req) ->
  exists ob, build_request UserAgent p stream None req = inr ob /\
    forall now, mock_net now ob =
      let q := asked (set_Stream stream req) in
      if stream then writeStreamingChat now q.(cr_Model) else write_json (plain_reply now q).
Proof.
  intros (Hw & Hc & Hok & Hn). destruct (request_reads_back _ Hw Hc Hok) as (j & Hj & _).
  unfold build_request. rewrite Hj. eexists. split; [reflexivity|]. intros now.
  unfold mock_net, chatCompletions. cbn [ob_body]. rewrite (decode_sent _ j Hw Hc Hok Hn Hj).
  by destruct stream.
Qed.

(** The compatibility suite sees through the gateway's adapter what the mock
    answers: the reply chosen by the features of the request, the calls of a tool
    reply with their arguments as the same string and the log probabilities
    included; and of a stream the four chunks, which put together say [hello
    world]. *)
Theorem mock_features_survive p now req :
  in_int64 now -> sendable (set_Stream false req) -> sendable (set_Stream true req) ->
  (forall c, c ∈ stream_chunks now req.(req_Model) ->
     Z.of_nat (String.length (print_json c)) + 6 < sseLineBufferLimit) ->
  ChatCompletion p None (mock_net now) (Some req) =
    inr (ChatResponse.put_Provider (openai.Name p) (canned now (asked (set_Stream false req)))) /\
  ChatCompletionStream p None (mock_net now) false [] (Some req) =
    inr (map Chunk (canned_chunks now req.(req_Model))) /\
  (fold_left observe (canned_chunks now req.(req_Model)) stats0).(contentBuf) = "hello world".
Proof.
  intros Hn Hplain Hstream Hlen.
  assert (Hm : valid_string req.(req_Model)) by apply Hplain. split_and!.
  - unfold ChatCompletion. destruct (mock_reads false p req Hplain) as (ob & -> & Hnet). rewrite Hnet.
    cbn [write_json]. unfold write_json. change (400 <=? 200) with false. cbv iota.
    unfold parse_json, print_json, Syntax.Marshal.
    rewrite Syntax.Unmarshal_print by (done || by apply plain_reply_ok). cbn [mbind option_bind].
    by rewrite plain_reply_reads.
  - unfold ChatCompletionStream. destruct (mock_reads true p req Hstream) as (ob & -> & Hnet). rewrite Hnet.
    unfold writeStreamingChat. change (400 <=? 200) with false. cbv iota. f_equal.
    pose proof (stream_chunks_read now req.(req_Model) Hn Hm Hlen) as Hr.
    change (cr_Model (asked (set_Stream true req))) with req.(req_Model).
    by rewrite (read_frames _ _ _ _ Hr).
  - reflexivity.
Qed.
End Suite.

Module Example.
#[local] Existing Instance Wire.Example.coded.
#[local] Existing Instance Wire.Example.coded_laws.

(** A request with tools. *)
Definition req : ChatRequest :=
  {| req_Model := "m"; req_Messages := [Wire.Example.msg "user" "hi" ∅]; req_MaxTokens := 0;
     req_Temperature := None; req_TopP := None; req_N := 0; req_Stream := false; req_Stop := [];
     req_User := ""; req_Extra := {["tools" := JArray [JObject []]]} |}.

Lemma req_sendable stream : sendable (set_Stream stream req).
Proof.
  split_and!.
  - unfold ChatRequest.wf, Message.wf, valid_string, in_int64. cbn. Wire.Example.wf_solve.
  - intros k v Hk. cbn in Hk. apply lookup_singleton_Some in Hk as [<- _]. vm_compute. set_solver.
  - split; [by WireText.Example.extra|constructor; [by WireText.Example.extra|constructor]].
  - intros n k Hin [v Hk] E. cbn in Hk. apply lookup_singleton_Some in Hk as [<- _].
    repeat (apply elem_of_cons in Hin as [->|Hin]; [vm_compute in E; first [reflexivity|discriminate E]|]).
    by apply elem_of_nil in Hin.
Qed.

Lemma mock_features_survive_witness :
  ChatCompletion OpenAI.Example.id_text OpenAI.Example.id_text (fun _ => None) 0 OpenAI.Example.no_error "xb"
    OpenAI.Example.acme None (mock_net 7) (Some req) =
  inr (ChatResponse.put_Provider "acme" (mock_response "chatcmpl-mock-tools" 7 "m"
    (Build_Choice 0 (mock_message "" {["tool_calls" := tool_calls]}) "tool_calls" ∅) 8 12)).
Proof.
  apply (mock_features_survive OpenAI.Example.id_text OpenAI.Example.id_text (fun _ => None) 0
    OpenAI.Example.no_error "xb" OpenAI.Example.acme 7 req); [by vm_compute|apply req_sendable..|].
  intros c Hc. assert (H : forallb (fun c => Z.of_nat (String.length (print_json c)) + 6 <? sseLineBufferLimit)
    (stream_chunks 7 "m") = true) by (vm_compute; reflexivity).
  apply Z.ltb_lt. by apply (proj1 (forallb_forall _ _) H), list_elem_of_In.
Defined.
End Example.
