(* ===== verification/Sse.v ===== *)
(** * Sse: the SSE writer and its heartbeat goroutine

    [internal/server/sse/writer.go].  Two goroutines share one writer: the
    handler, which calls [WriteData] and, when it returns, the stop function,
    and the heartbeat of [StartHeartbeat].  A frame is three writes to the
    [http.ResponseWriter] and a flush under the mutex; each of them is a step of
    the system, so that all interleavings are considered.

    The response writer is buffered ([bufio.Writer] inside net/http): a write
    may accept a part of its bytes and fail, a flush may fail silently, and
    after a failure every later write fails. *)

From Stdlib Require Import Ascii.
From S2P Require Import Prelude GoStd Types Encoding JsonSyntax Wire WireText Adapter OpenAI.
From stdpp Require Import base list gmap.
Local Open Scope Z_scope.

(** ** The shared state *)

Inductive goroutine := Handler | Heartbeat.

(** A frame: the payload of a data frame, or [None] for the keep-alive comment. *)
Definition item := option string.

Definition frameEnd : string := String nl (String nl "").

(** The writes of [WriteData payload] and of [WriteComment "keepalive"]. *)
Definition writes (i : item) : list string :=
  match i with
  | Some payload => ["data: "; payload; frameEnd]
  | None => [": "; "keepalive"; frameEnd]
  end.

(** [mu]: who holds the mutex; [out]: the bytes accepted by the response writer;
    [flushed]: the bytes pushed to the connection; [broken]: a write or flush has
    failed; [returns]: the calls that have returned, in order, and whether
    without error. *)
Record Writer := {
  mu : option goroutine; out : string; flushed : string; broken : bool;
  returns : list (item * bool)
}.

(** The responses writer of a new request. *)
Definition New : Writer := {| mu := None; out := ""; flushed := ""; broken := false; returns := [] |}.

(** ** One call of [WriteData] or [WriteComment] *)

(** Before [Lock]; inside, with the writes that are left. *)
Inductive call :=
  | Locking
  | Writing (todo : list string).

(** One step of the call [i] of goroutine [g]; it ends with [inl ok]. *)
Inductive call_step (g : goroutine) (i : item) : call -> Writer -> bool + call -> Writer -> Prop :=
  | c_lock w :
      w.(mu) = None ->
      call_step g i Locking w (inr (Writing (writes i)))
        {| mu := Some g; out := w.(out); flushed := w.(flushed); broken := w.(broken); returns := w.(returns) |}
  | c_write w s todo :
      w.(broken) = false ->
      call_step g i (Writing (s :: todo)) w (inr (Writing todo))
        {| mu := w.(mu); out := w.(out) +:+ s; flushed := w.(flushed); broken := false; returns := w.(returns) |}
  | c_fail w s todo accepted rest :
      s = accepted +:+ rest -> (w.(broken) = true -> accepted = "") ->
      call_step g i (Writing (s :: todo)) w (inl false)
        {| mu := None; out := w.(out) +:+ accepted; flushed := w.(flushed); broken := true;
           returns := w.(returns) ++ [(i, false)] |}
  | c_flush w :
      call_step g i (Writing []) w (inl true)
        {| mu := None; out := w.(out); flushed := if w.(broken) then w.(flushed) else w.(out);
           broken := w.(broken); returns := w.(returns) ++ [(i, true)] |}
  | c_flush_lost w :
      call_step g i (Writing []) w (inl true)
        {| mu := None; out := w.(out); flushed := w.(flushed); broken := true;
           returns := w.(returns) ++ [(i, true)] |}.

(** ** The two goroutines *)

(** The handler: between calls, in a call, in the stop function (it has
    cancelled and waits for [done]), returned. *)
Inductive handler_pc :=
  | HIdle
  | HCall (payload : string) (c : call)
  | HStopping
  | HReturned.

(** The heartbeat: at the [select], in a call, exited ([done] is closed). *)
Inductive heartbeat_pc :=
  | BSelect
  | BCall (c : call)
  | BExited.

(** [cancelled]: [hbCtx] has ended; [tick]: the ticker's channel, which holds
    at most one tick. *)
Record system := {
  handler : handler_pc; heartbeat : heartbeat_pc; cancelled : bool; tick : bool; writer : Writer
}.

(** The state after [New] and [StartHeartbeat]. *)
Definition StartHeartbeat : system :=
  {| handler := HIdle; heartbeat := BSelect; cancelled := false; tick := false; writer := New |}.

Definition handler_after (payload : string) (r : bool + call) : handler_pc :=
  match r with inl _ => HIdle | inr c => HCall payload c end.
Definition heartbeat_after (r : bool + call) : heartbeat_pc :=
  match r with inl _ => BSelect | inr c => BCall c end.

(** The steps of the program; the ticker is apart. *)
Inductive step : system -> system -> Prop :=
  | s_call payload b x t w :
      step {| handler := HIdle; heartbeat := b; cancelled := x; tick := t; writer := w |}
           {| handler := HCall payload Locking; heartbeat := b; cancelled := x; tick := t; writer := w |}
  | s_handler payload c r b x t w w' :
      call_step Handler (Some payload) c w r w' ->
      step {| handler := HCall payload c; heartbeat := b; cancelled := x; tick := t; writer := w |}
           {| handler := handler_after payload r; heartbeat := b; cancelled := x; tick := t; writer := w' |}
  | s_stop b x t w :
      step {| handler := HIdle; heartbeat := b; cancelled := x; tick := t; writer := w |}
           {| handler := HStopping; heartbeat := b; cancelled := true; tick := t; writer := w |}
  | s_stopped x t w :
      step {| handler := HStopping; heartbeat := BExited; cancelled := x; tick := t; writer := w |}
           {| handler := HReturned; heartbeat := BExited; cancelled := x; tick := t; writer := w |}
  | s_context h b t w :
      step {| handler := h; heartbeat := b; cancelled := false; tick := t; writer := w |}
           {| handler := h; heartbeat := b; cancelled := true; tick := t; writer := w |}
  | s_done h t w :
      step {| handler := h; heartbeat := BSelect; cancelled := true; tick := t; writer := w |}
           {| handler := h; heartbeat := BExited; cancelled := true; tick := t; writer := w |}
  | s_tick h x w :
      step {| handler := h; heartbeat := BSelect; cancelled := x; tick := true; writer := w |}
           {| handler := h; heartbeat := BCall Locking; cancelled := x; tick := false; writer := w |}
  | s_heartbeat h c r x t w w' :
      call_step Heartbeat None c w r w' ->
      step {| handler := h; heartbeat := BCall c; cancelled := x; tick := t; writer := w |}
           {| handler := h; heartbeat := heartbeat_after r; cancelled := x; tick := t; writer := w' |}.

(** The ticker fires, unless [t.Stop] has been called; a tick that finds the
    channel full is lost. *)
Inductive fires : system -> system -> Prop :=
  | fires_tick h b x w :
      b <> BExited ->
      fires {| handler := h; heartbeat := b; cancelled := x; tick := false; writer := w |}
            {| handler := h; heartbeat := b; cancelled := x; tick := true; writer := w |}.

(** [run s n k s']: from [s] to [s'] in [n] program steps and [k] ticks. *)
Inductive run : system -> nat -> nat -> system -> Prop :=
  | run_refl s : run s 0 0 s
  | run_step s n k s1 s2 : run s n k s1 -> step s1 s2 -> run s (S n) k s2
  | run_fires s n k s1 s2 : run s n k s1 -> fires s1 s2 -> run s n (S k) s2.

Definition reachable (s : system) : Prop := exists n k, run StartHeartbeat n k s.

(** ** Frames on the wire *)

Definition joined (ws : list string) : string := foldr String.append "" ws.

Definition frame_of (i : item) : string := joined (writes i).

(** The frames whose call returned without error, in order. *)
Definition delivered (w : Writer) : list item := (List.filter snd w.(returns)).*1.

Lemma joined_snoc ws s : joined (ws ++ [s]) = joined ws +:+ s.
Proof.
  induction ws as [|x ws IH]; cbn [joined foldr app].
  - by rewrite Strings.append_nil.
  - fold (joined (ws ++ [s])). by rewrite IH, Strings.append_assoc.
Qed.

Lemma joined_app ws ws' : joined (ws ++ ws') = joined ws +:+ joined ws'.
Proof.
  induction ws as [|x ws IH]; [done|]. cbn [joined foldr app]. fold (joined (ws ++ ws')) (joined ws).
  by rewrite IH, Strings.append_assoc.
Qed.

Lemma frame_of_item i :
  frame_of i = match i with Some p => data_frame p | None => comment_frame "keepalive" end.
Proof. destruct i as [p|]; [|done]. unfold frame_of, joined, data_frame. cbn [writes foldr]. by rewrite Strings.append_nil. Qed.

Lemma sse_text_snoc is_ i : sse_text (is_ ++ [i]) = sse_text is_ +:+ frame_of i.
Proof.
  rewrite frame_of_item. induction is_ as [|j is_ IH]; cbn [app].
  - cbn [sse_text foldr]. by rewrite Strings.append_nil.
  - change (sse_text (j :: is_ ++ [i])) with
      ((match j with Some p => data_frame p | None => comment_frame "keepalive" end) +:+ sse_text (is_ ++ [i])).
    by rewrite IH, <- Strings.append_assoc.
Qed.

Lemma delivered_snoc_ok (rs : list (item * bool)) i : (List.filter snd (rs ++ [(i, true)])).*1 = (List.filter snd rs).*1 ++ [i].
Proof. by rewrite List.filter_app, fmap_app. Qed.
Lemma delivered_snoc_failed (rs : list (item * bool)) i : (List.filter snd (rs ++ [(i, false)])).*1 = (List.filter snd rs).*1.
Proof. rewrite List.filter_app, fmap_app. cbn. by rewrite app_nil_r. Qed.

(** ** The invariant *)

(** The bytes of a finished stream, and of one that broke inside a frame. *)
Definition torn (w : Writer) : Prop :=
  exists partial i rest, w.(out) = sse_text (delivered w) +:+ partial /\ frame_of i = partial +:+ rest.

Definition wire_ok (w : Writer) : Prop :=
  if w.(broken) then torn w
  else Forall (fun r => r.2 = true) w.(returns) /\
       (w.(mu) = None -> w.(out) = sse_text (delivered w) /\ w.(flushed) = w.(out)).

(** What a goroutine [g] in the call [c] of [i] knows about the writer. *)
Definition call_ok (g : goroutine) (i : item) (c : call) (w : Writer) : Prop :=
  match c with
  | Locking => w.(mu) <> Some g
  | Writing todo =>
      w.(mu) = Some g /\ exists written, writes i = written ++ todo /\
        if w.(broken) then written = [] else w.(out) = sse_text (delivered w) +:+ joined written
  end.

Definition handler_ok (h : handler_pc) (w : Writer) : Prop :=
  match h with HCall p c => call_ok Handler (Some p) c w | _ => w.(mu) <> Some Handler end.
Definition heartbeat_ok (b : heartbeat_pc) (w : Writer) : Prop :=
  match b with BCall c => call_ok Heartbeat None c w | _ => w.(mu) <> Some Heartbeat end.

Record inv (s : system) : Prop := {
  inv_wire : wire_ok s.(writer);
  inv_handler : handler_ok s.(handler) s.(writer);
  inv_heartbeat : heartbeat_ok s.(heartbeat) s.(writer);
  inv_cancelled : s.(handler) = HStopping \/ s.(handler) = HReturned -> s.(cancelled) = true;
  inv_exited : s.(handler) = HReturned -> s.(heartbeat) = BExited
}.

(** A step of a call, seen by its own goroutine: the call goes on well or has
    given the mutex back. *)
Definition result_ok (g : goroutine) (i : item) (r : bool + call) (w : Writer) : Prop :=
  match r with inl _ => w.(mu) <> Some g | inr c => call_ok g i c w end.

Lemma call_step_wire g i c w r w' :
  call_step g i c w r w' -> wire_ok w -> call_ok g i c w -> wire_ok w' /\ result_ok g i r w'.
Proof.
  intros Hs Hw Hc.
  destruct Hs as [w Hm|w s todo Hb|w s todo acc rest -> Hacc|w|w]; cbn [call_ok result_ok mu] in *.
  - split.
    + unfold wire_ok, torn, delivered in *. cbn. destruct (broken w); [done|]. by destruct Hw.
    + split; [done|]. exists []. split; [done|]. unfold wire_ok in Hw. cbn. destruct (broken w); [done|].
      destruct Hw as [_ H]. destruct (H Hm) as [-> _]. cbn. by rewrite Strings.append_nil.
  - destruct Hc as (Hm & done_ & He & Ho). rewrite Hb in *. split.
    + unfold wire_ok in *. cbn. rewrite Hb in Hw. split; [apply Hw|]. by rewrite Hm.
    + split; [done|]. exists (done_ ++ [s]). cbn [broken]. split; [by rewrite <- app_assoc|].
      cbn [out delivered]. rewrite Ho, joined_snoc. by rewrite Strings.append_assoc.
  - destruct Hc as (Hm & done_ & He & Ho). split; [|done]. unfold wire_ok, torn, delivered. cbn.
    rewrite delivered_snoc_failed. unfold wire_ok in Hw. destruct (broken w).
    + rewrite (Hacc eq_refl), Strings.append_nil. exact Hw.
    + exists (joined done_ +:+ acc), i, (rest +:+ joined todo). split; [by rewrite Ho, Strings.append_assoc|].
      unfold frame_of. rewrite He, joined_app. cbn [joined foldr]. fold (joined todo).
      by rewrite !Strings.append_assoc.
  - destruct Hc as (Hm & done_ & He & Ho). rewrite app_nil_r in He. subst done_. split; [|done].
    unfold wire_ok, torn, delivered in *. cbn. rewrite delivered_snoc_ok. destruct (broken w).
    + by destruct i.
    + split; [apply Forall_app; split; [apply Hw|by constructor]|]. intros _. by rewrite sse_text_snoc, Ho.
  - destruct Hc as (Hm & done_ & He & Ho). rewrite app_nil_r in He. subst done_. split; [|done].
    unfold wire_ok, torn, delivered in *. cbn. rewrite delivered_snoc_ok. destruct (broken w).
    + by destruct i.
    + exists "", i, (frame_of i). by rewrite sse_text_snoc, Ho, Strings.append_nil.
Qed.

(** The other goroutine is not disturbed: the mutex excludes it. *)
Lemma call_step_other g i c w r w' g2 :
  call_step g i c w r w' -> call_ok g i c w -> g2 <> g ->
  (w.(mu) <> Some g2 -> w'.(mu) <> Some g2) /\
  (forall i2 c2, call_ok g2 i2 c2 w -> call_ok g2 i2 c2 w').
Proof.
  intros Hs Hc Hne.
  assert (Hmu : w.(mu) = None \/ w.(mu) = Some g) by (destruct Hs; [by left|right..]; apply Hc).
  assert (Hkeep : w.(mu) <> Some g2 -> w'.(mu) <> Some g2) by (destruct Hs; cbn; congruence).
  split; [done|]. intros i2 [|todo] Hc2; [by apply Hkeep|].
  destruct Hc2 as (Hm2 & _). destruct Hmu as [Hmu|Hmu]; congruence.
Qed.

Lemma sse_inv_step s s' : step s s' -> inv s -> inv s'.
Proof.
  intros Hs [Hw Hh Hb Hx He].
  destruct Hs as [p b x t w|p c r b x t w w' Hc|b x t w|x t w|h b t w|h t w|h x w|h c r x t w w' Hc];
    cbn in *; try (constructor; cbn; naive_solver).
  - destruct (call_step_wire _ _ _ _ _ _ Hc Hw Hh) as [Hw' Hr].
    destruct (call_step_other _ _ _ _ _ _ Heartbeat Hc Hh) as [Hk Ho]; [done|].
    constructor; cbn; [done| | |by destruct r; naive_solver..].
    + by destruct r.
    + destruct b as [|c2|]; cbn in *; [by apply Hk|by apply Ho|by apply Hk].
  - destruct (call_step_wire _ _ _ _ _ _ Hc Hw Hb) as [Hw' Hr].
    destruct (call_step_other _ _ _ _ _ _ Handler Hc Hb) as [Hk Ho]; [done|].
    constructor; cbn; [done| | |done|intros ->; by discriminate (He eq_refl)].
    + destruct h as [|p c2| |]; cbn in *; [by apply Hk|by apply Ho|by apply Hk..].
    + by destruct r.
Qed.

Lemma inv_fires s s' : fires s s' -> inv s -> inv s'.
Proof. intros [h b x w Hb] [Hw Hh Hbt Hx He]. by constructor. Qed.

Lemma inv_run s n k s' : run s n k s' -> inv s -> inv s'.
Proof. induction 1 as [|s n k s1 s2 _ IH Hs|s n k s1 s2 _ IH Hs]; eauto using sse_inv_step, inv_fires. Qed.

Lemma inv_start : inv StartHeartbeat.
Proof. constructor; cbn; try done. naive_solver. Qed.

Lemma inv_reachable s : reachable s -> inv s.
Proof. intros (n & k & Hr). exact (inv_run _ _ _ _ Hr inv_start). Qed.

(** ** Frames never interleave *)

Lemma delivered_all w : Forall (fun r => r.2 = true) w.(returns) -> delivered w = w.(returns).*1.
Proof.
  unfold delivered. induction (returns w) as [|[i ok] rs IH]; [done|].
  inversion 1 as [|? ? Hok Hrs]; subst. cbn in Hok. subst ok. cbn. by rewrite IH.
Qed.

Lemma writing_torn g i todo w : w.(broken) = false -> call_ok g i (Writing todo) w -> torn w.
Proof.
  intros Hb (_ & written & He & Ho). rewrite Hb in Ho. exists (joined written), i, (joined todo).
  split; [done|]. unfold frame_of. by rewrite He, joined_app.
Qed.

(** C24: The frames of the handler and of the heartbeat never interleave.  In
    every state the two goroutines can reach, the bytes accepted by the response
    writer are the whole frames of the calls that returned without error, in the
    order of their return, and then at most a part of one more frame; when no
    write has failed and the mutex is free, they are exactly the frames of all
    calls made, and all of them have been flushed. *)
Theorem frames_never_interleave s :
  reachable s ->
  (exists partial i rest,
     s.(writer).(out) = sse_text (delivered s.(writer)) +:+ partial /\ frame_of i = partial +:+ rest) /\
  (s.(writer).(broken) = false -> s.(writer).(mu) = None ->
   s.(writer).(out) = sse_text s.(writer).(returns).*1 /\ s.(writer).(flushed) = s.(writer).(out)).
Proof.
  intros [Hw Hh Hb _ _]%inv_reachable. unfold wire_ok in Hw. destruct (broken (writer s)) eqn:E; [done|].
  destruct Hw as [Hok Hfree]. rewrite <- (delivered_all _ Hok). split; [|by intros _; apply Hfree].
  destruct (mu (writer s)) as [[]|] eqn:Em.
  - destruct (handler s) as [|p [|todo]| |]; try done. by eapply writing_torn.
  - destruct (heartbeat s) as [|[|todo]|]; try done. by eapply writing_torn.
  - exists "", None, (frame_of None). rewrite Strings.append_nil. split; [by apply Hfree|done].
Qed.

(** ** The stop function returns *)

(** Steps the heartbeat may still take, counting one pending tick. *)
Definition work (s : system) : nat :=
  (match s.(handler) with HStopping => 1 | _ => 0 end +
   match s.(heartbeat) with
   | BExited => 0
   | BSelect => 1 + if s.(tick) then 6 else 0
   | BCall Locking => 6 + if s.(tick) then 6 else 0
   | BCall (Writing todo) => 2 + length todo + if s.(tick) then 6 else 0
   end)%nat.

Definition stopping (s : system) : Prop := s.(handler) = HStopping \/ s.(handler) = HReturned.

Lemma work_call g i c w r w' s :
  call_step g i c w r w' -> s.(heartbeat) = BCall c -> i = None ->
  (work {| handler := s.(handler); heartbeat := heartbeat_after r; cancelled := s.(cancelled);
           tick := s.(tick); writer := w' |} < work s)%nat.
Proof. intros Hs Hb ->. unfold work. rewrite Hb. destruct Hs; cbn; lia. Qed.

Lemma work_step s s' :
  step s s' -> inv s -> stopping s -> stopping s' /\ (work s' < work s)%nat.
Proof.
  intros Hs [_ _ _ Hx _] Hst. unfold stopping in *.
  destruct Hs as [p b x t w|p c r b x t w w' Hc|b x t w|x t w|h b t w|h t w|h x w|h c r x t w w' Hc];
    cbn in *; try (exfalso; by destruct Hst).
  - split; [by right|lia].
  - by specialize (Hx Hst).
  - split; [done|]. unfold work. cbn. destruct h, t; lia.
  - split; [done|]. unfold work. cbn. destruct h; lia.
  - split; [done|]. by apply (work_call _ _ _ _ _ _
      {| handler := h; heartbeat := BCall c; cancelled := x; tick := t; writer := w |} Hc).
Qed.

Lemma work_fires s s' : fires s s' -> stopping s -> stopping s' /\ (work s' <= work s + 6)%nat.
Proof.
  intros [h b x w Hb] Hs. split; [done|]. unfold work. cbn. destruct b as [|[|]|]; [..|done]; lia.
Qed.

Lemma work_run s n k s' :
  run s n k s' -> inv s -> stopping s -> stopping s' /\ (n + work s' <= work s + 6 * k)%nat.
Proof.
  intros Hr Hi Hs. induction Hr as [|s n k s1 s2 Hr IH Hst|s n k s1 s2 Hr IH Hst]; [split; [done|lia]|..].
  - destruct (IH Hi Hs) as [H1 H2].
    destruct (work_step _ _ Hst (inv_run _ _ _ _ Hr Hi) H1) as [H3 H4]. split; [done|lia].
  - destruct (IH Hi Hs) as [H1 H2]. destruct (work_fires _ _ Hst H1) as [H3 H4]. split; [done|lia].
Qed.

(** Every pending write can be carried out. *)
Lemma call_enabled g i c w :
  (c = Locking -> w.(mu) = None) -> exists r w', call_step g i c w r w'.
Proof.
  intros Hm. destruct c as [|[|s todo]]; [eexists _, _; by apply c_lock, Hm|eexists _, _; apply c_flush|].
  eexists _, _. by apply (c_fail _ _ _ s todo "" s).
Qed.

Lemma stopping_progress s : inv s -> s.(handler) = HStopping -> exists s', step s s'.
Proof.
  intros [_ Hh Hb Hx _] Hs. destruct s as [h b x t w]. cbn in *. subst h.
  rewrite (Hx (or_introl eq_refl)). destruct b as [|c|].
  - eexists. apply s_done.
  - destruct (call_enabled Heartbeat None c w) as (r & w' & Hc).
    { intros ->. cbn in *. destruct (mu w) as [[]|]; done. }
    eexists. by apply (s_heartbeat HStopping c r true t w w').
  - eexists. apply s_stopped.
Qed.

(** C25: The stop function returns, and after it nothing is written.  Once the
    handler has called it, it can never be blocked: as long as it has not
    returned, some step of the program is possible, and if the ticker fires [k]
    more times there are at most [13 + 6 * k] steps (the [select] may prefer a tick to
    the cancellation); once it has returned, no step is possible, so that the
    response writer is not touched after the handler has returned. *)
Theorem stop_returns s n k s' :
  reachable s -> s.(handler) = HStopping -> run s n k s' ->
  (n <= 13 + 6 * k)%nat /\
  ((s'.(handler) = HStopping /\ exists s'', step s' s'') \/
   (s'.(handler) = HReturned /\ forall s'', ~ step s' s'' /\ ~ fires s' s'')).
Proof.
  intros Hi%inv_reachable Hs Hr.
  destruct (work_run _ _ _ _ Hr Hi (or_introl Hs)) as [Hst Hn]. pose proof (inv_run _ _ _ _ Hr Hi) as Hi'.
  split.
  - enough (work s <= 13)%nat by lia. destruct Hi as [_ _ Hb _ _]. unfold work. rewrite Hs.
    destruct (heartbeat s) as [|[|todo]|]; destruct (tick s); try lia;
      destruct Hb as (_ & written & He & _); apply (f_equal length) in He;
      rewrite length_app in He; cbn in He; lia.
  - destruct Hst as [Hst|Hst]; [left|right]; (split; [done|]); [by apply stopping_progress|].
    destruct Hi' as [_ _ _ Hx He]. specialize (Hx (or_intror Hst)). specialize (He Hst).
    intros s''. split; intros H; destruct H; cbn in *; congruence.
Qed.

(** ** What a client reads *)

Section Reader.
#[local] Existing Instance Syntax.Unmarshal.
#[local] Existing Instance Syntax.Marshal.
Context `{floats : !FloatText} (decode_error : string -> string).

(** The payloads the handler passed to [WriteData]. *)
Definition payloads (w : Writer) : list string := omap (fun r => r.1) w.(returns).

(** Frames in between which a heartbeat may sit. *)
Lemma items_split (is_ : list item) cs :
  omap (fun x => x) is_ = map frame_text cs ++ ["[DONE]"] ->
  exists items n, is_ = map (fmap frame_text) items ++ Some "[DONE]" :: replicate n None /\
    omap (fun x => x) items = cs.
Proof.
  revert cs. induction is_ as [|[p|] is_ IH]; intros cs He.
  - by destruct cs.
  - cbn in He. destruct cs as [|c cs]; cbn in He; injection He as -> He.
    + exists [], (length is_). split; [|done]. cbn. f_equal. clear IH.
      induction is_ as [|[q|] is_ IH]; [done|done|]. cbn in *. f_equal. by apply IH.
    + destruct (IH cs He) as (items & n & -> & <-). by exists (Some c :: items), n.
  - destruct (IH cs He) as (items & n & -> & <-). by exists (None :: items), n.
Qed.

(** C26: Gateways can be chained.  When the handler has written some chunks and
    the end marker and has returned with no write failing, the bytes on the
    connection, whatever heartbeats went in between, are read by the OpenAI
    adapter as exactly those chunks, in order and without an error; the text of
    a chunk must fit the mebibyte the adapter's scanner has for a line. *)
Theorem stream_read_back s name cs readErr :
  reachable s -> s.(handler) = HReturned -> s.(writer).(broken) = false ->
  payloads s.(writer) = map frame_text cs ++ ["[DONE]"] ->
  (forall ch, ch ∈ cs -> ChatStreamChunk.wf ch /\ chunk_ok depth_left ch /\
     Z.of_nat (String.length (frame_text ch)) + 6 < sseLineBufferLimit) ->
  (readSSE decode_error name s.(writer).(flushed) readErr false (open_chan [])).(received) = map Chunk cs.
Proof.
  intros [Hw Hh Hb _ He]%inv_reachable Hret Hbr Hp Hcs. rewrite Hret in Hh. rewrite (He Hret) in Hb. cbn in Hh, Hb.
  unfold wire_ok in Hw. rewrite Hbr in Hw. destruct Hw as [Hok Hfree].
  destruct Hfree as [Hout Hfl]; [by destruct (mu (writer s)) as [[]|]|].
  rewrite Hfl, Hout, (delivered_all _ Hok).
  destruct (items_split (writer s).(returns).*1 cs) as (items & n & Hi & Ho).
  { rewrite <- Hp. unfold payloads. clear. induction (returns (writer s)) as [|[[p|] ok] rs IH]; [done|..]; cbn; by rewrite IH. }
  rewrite Hi, <- Ho. apply read_gateway_stream. intros ch Hch.
  destruct (Hcs ch) as (Hwf & Htext & Hlen); [rewrite <- Ho; apply list_elem_of_omap; by exists (Some ch)|].
  split; [done|by apply chunk_sse_printable].
Qed.
End Reader.

(** ** A served stream *)

Module Example.
#[local] Existing Instance Wire.Example.coded.
#[local] Existing Instance Syntax.Unmarshal.
#[local] Existing Instance Syntax.Marshal.
Import OpenAI.Example.

Lemma run_cons s s1 n k s2 : step s s1 -> run s1 n k s2 -> run s (S n) k s2.
Proof.
  intros Hs Hr. induction Hr as [s1|s1 n k s2 s3 _ IH H|s1 n k s2 s3 _ IH H].
  - eapply run_step; [apply run_refl|done].
  - eapply run_step; [by apply IH|done].
  - eapply run_fires; [by apply IH|done].
Qed.
Lemma run_cons_fires s s1 n k s2 : fires s s1 -> run s1 n k s2 -> run s n (S k) s2.
Proof.
  intros Hs Hr. induction Hr as [s1|s1 n k s2 s3 _ IH H|s1 n k s2 s3 _ IH H].
  - eapply run_fires; [apply run_refl|done].
  - eapply run_step; [by apply IH|done].
  - eapply run_fires; [by apply IH|done].
Qed.

(** A tick, during whose comment the handler asks for the mutex; then one chunk
    and the end marker. *)
Definition ended (h : handler_pc) (b : heartbeat_pc) : system :=
  let text := sse_text [None; Some sample_text; Some "[DONE]"] in
  {| handler := h; heartbeat := b; cancelled := true; tick := false;
     writer := {| mu := None; out := text; flushed := text; broken := false;
                  returns := [(None, true); (Some sample_text, true); (Some "[DONE]", true)] |} |}.

Ltac go r := eapply run_cons; [eapply r|].
Ltac tidy := cbn [handler_after heartbeat_after mu out flushed broken returns writes].
Ltac go_lock s := go s; [apply c_lock; reflexivity|]; tidy.
Ltac go_write s := go s; [apply c_write; reflexivity|]; tidy.
Ltac go_flush s := go s; [apply c_flush|]; tidy.
Ltac go_frame s := go_lock s; do 3 go_write s; go_flush s.

Lemma run_stopping : exists n k, run StartHeartbeat n k (ended HStopping BSelect).
Proof.
  eexists _, _. eapply run_cons_fires; [by apply fires_tick|]. go s_tick.
  unfold New. go_lock s_heartbeat. go (s_call sample_text). do 3 go_write s_heartbeat. go_flush s_heartbeat.
  go_frame s_handler. go (s_call "[DONE]"). go_frame s_handler.
  go s_stop. apply run_refl.
Qed.

Lemma reachable_stopping : reachable (ended HStopping BSelect).
Proof. destruct run_stopping as (n & k & H). by exists n, k. Qed.

Lemma stopped_run : run (ended HStopping BSelect) 2 0 (ended HReturned BExited).
Proof. go s_done. go s_stopped. apply run_refl. Qed.

Lemma reachable_returned : reachable (ended HReturned BExited).
Proof.
  destruct run_stopping as (n & k & H). exists (S (S n)), k.
  eapply run_step; [eapply run_step; [exact H|apply s_done]|apply s_stopped].
Qed.

Lemma frames_never_interleave_witness :
  reachable (ended HReturned BExited) /\
  (ended HReturned BExited).(writer).(out) = sse_text [None; Some sample_text; Some "[DONE]"].
Proof.
  split; [exact reachable_returned|].
  apply (proj2 (frames_never_interleave (ended HReturned BExited) reachable_returned)); reflexivity.
Defined.

Lemma stop_returns_witness :
  (2 <= 13 + 6 * 0)%nat /\ forall s, ~ step (ended HReturned BExited) s.
Proof.
  destruct (stop_returns (ended HStopping BSelect) 2 0 (ended HReturned BExited)
    reachable_stopping eq_refl stopped_run) as [Hn [[H _]|[_ H]]]; [discriminate H|].
  split; [exact Hn|]. intros s. apply H.
Defined.

Lemma stream_read_back_witness :
  (readSSE OpenAI.Example.id_text "openai" (sse_text [None; Some sample_text; Some "[DONE]"]) None false
     (open_chan [])).(received) = [Chunk Wire.Example.sample_chunk].
Proof.
  apply (stream_read_back OpenAI.Example.id_text (ended HReturned BExited) "openai"
    [Wire.Example.sample_chunk] None reachable_returned eq_refl eq_refl eq_refl).
  intros ch ->%list_elem_of_singleton. exact sample_chunk_ok.
Defined.
End Example.
