(* ===== verification/Anthropic.v ===== *)
(** * Anthropic: the Anthropic adapter

    [internal/provider/anthropic/convert.go], [chat.go], [stream.go] and
    [forward.go]: the conversions between the gateway's OpenAI-shaped types and
    the Messages API, the plain and streaming calls, the event state machine of
    a stream, and the verbatim forwarding used by /v1/messages. *)

From S2P Require Import Prelude GoStd Float64 Errors Types Encoding JsonSyntax Wire Registry Billing Prompt Adapter Stream.
From stdpp Require Import base list gmap.
Import Json.
Local Open Scope Z_scope.

Definition messagesPath : string := "/v1/messages".

(** ** Wire types *)

Record anthMsg := { am_Role : string; am_Content : string }.

Record messagesRequest := {
  mr_Model : string; mr_Messages : list anthMsg; mr_System : string; mr_MaxTokens : Z;
  mr_Temperature : option float64; mr_TopP : option float64; mr_StopSequences : list string;
  mr_Stream : bool
}.

Record contentBlock := { cb_Type : string; cb_Text : string }.
Record messageUsage := { mu_InputTokens : Z; mu_OutputTokens : Z }.
Record messagesResponse := {
  ms_ID : string; ms_Type : string; ms_Role : string; ms_Content : list contentBlock;
  ms_Model : string; ms_StopReason : string; ms_StopSequence : string; ms_Usage : messageUsage
}.

Record startMessage := { sm_ID : string; sm_Model : string; sm_Usage : messageUsage }.
Record eventDelta := { ed_Type : string; ed_Text : string; ed_StopReason : string }.
Record eventError := { ee_Type : string; ee_Message : string }.
Record streamEvent := {
  ev_Type : string; ev_Message : option startMessage; ev_Index : Z; ev_Delta : option eventDelta;
  ev_Usage : option messageUsage; ev_Error : option eventError
}.

(** *** Decoding *)

Definition block_fields : list (field contentBlock) :=
  [("type", via cb_Type (fun x b => Build_contentBlock x b.(cb_Text)) set_string);
   ("text", via cb_Text (fun x b => Build_contentBlock b.(cb_Type) x) set_string)].
Definition block0 : contentBlock := Build_contentBlock "" "".

Definition usage_fields : list (field messageUsage) :=
  [("input_tokens", via mu_InputTokens (fun x u => Build_messageUsage x u.(mu_OutputTokens)) set_int);
   ("output_tokens", via mu_OutputTokens (fun x u => Build_messageUsage u.(mu_InputTokens) x) set_int)].
Definition usage0 : messageUsage := Build_messageUsage 0 0.

Definition put_response {A B} (f : A -> string -> string -> string -> list contentBlock -> string -> string ->
    string -> messageUsage -> B) (x : A) (r : messagesResponse) : B :=
  f x r.(ms_ID) r.(ms_Type) r.(ms_Role) r.(ms_Content) r.(ms_Model) r.(ms_StopReason)
    r.(ms_StopSequence) r.(ms_Usage).

Definition response_fields : list (field messagesResponse) :=
  [("id", via ms_ID (put_response (fun x _ t r c m s q u => Build_messagesResponse x t r c m s q u)) set_string);
   ("type", via ms_Type (put_response (fun x i _ r c m s q u => Build_messagesResponse i x r c m s q u)) set_string);
   ("role", via ms_Role (put_response (fun x i t _ c m s q u => Build_messagesResponse i t x c m s q u)) set_string);
   ("content", via ms_Content (put_response (fun x i t r _ m s q u => Build_messagesResponse i t r x m s q u))
                 (set_slice block0 (set_struct block_fields)));
   ("model", via ms_Model (put_response (fun x i t r c _ s q u => Build_messagesResponse i t r c x s q u)) set_string);
   ("stop_reason",
     via ms_StopReason (put_response (fun x i t r c m _ q u => Build_messagesResponse i t r c m x q u)) set_string);
   ("stop_sequence",
     via ms_StopSequence (put_response (fun x i t r c m s _ u => Build_messagesResponse i t r c m s x u)) set_string);
   ("usage", via ms_Usage (put_response (fun x i t r c m s q _ => Build_messagesResponse i t r c m s q x))
               (set_struct usage_fields))].
Definition response0 : messagesResponse := Build_messagesResponse "" "" "" [] "" "" "" usage0.

Definition unmarshal_response (j : json) : option messagesResponse := set_struct response_fields j response0.

Definition start_fields : list (field startMessage) :=
  [("id", via sm_ID (fun x m => Build_startMessage x m.(sm_Model) m.(sm_Usage)) set_string);
   ("model", via sm_Model (fun x m => Build_startMessage m.(sm_ID) x m.(sm_Usage)) set_string);
   ("usage", via sm_Usage (fun x m => Build_startMessage m.(sm_ID) m.(sm_Model) x) (set_struct usage_fields))].
Definition delta_fields : list (field eventDelta) :=
  [("type", via ed_Type (fun x d => Build_eventDelta x d.(ed_Text) d.(ed_StopReason)) set_string);
   ("text", via ed_Text (fun x d => Build_eventDelta d.(ed_Type) x d.(ed_StopReason)) set_string);
   ("stop_reason", via ed_StopReason (fun x d => Build_eventDelta d.(ed_Type) d.(ed_Text) x) set_string)].
Definition error_fields : list (field eventError) :=
  [("type", via ee_Type (fun x e => Build_eventError x e.(ee_Message)) set_string);
   ("message", via ee_Message (fun x e => Build_eventError e.(ee_Type) x) set_string)].

Definition put_event {A B} (f : A -> string -> option startMessage -> Z -> option eventDelta ->
    option messageUsage -> option eventError -> B) (x : A) (e : streamEvent) : B :=
  f x e.(ev_Type) e.(ev_Message) e.(ev_Index) e.(ev_Delta) e.(ev_Usage) e.(ev_Error).

Definition event_fields : list (field streamEvent) :=
  [("type", via ev_Type (put_event (fun x _ m i d u r => Build_streamEvent x m i d u r)) set_string);
   ("message", via ev_Message (put_event (fun x t _ i d u r => Build_streamEvent t x i d u r))
                 (set_ptr (Build_startMessage "" "" usage0) (set_struct start_fields)));
   ("index", via ev_Index (put_event (fun x t m _ d u r => Build_streamEvent t m x d u r)) set_int);
   ("delta", via ev_Delta (put_event (fun x t m i _ u r => Build_streamEvent t m i x u r))
               (set_ptr (Build_eventDelta "" "" "") (set_struct delta_fields)));
   ("usage", via ev_Usage (put_event (fun x t m i d _ r => Build_streamEvent t m i d x r))
               (set_ptr usage0 (set_struct usage_fields)));
   ("error", via ev_Error (put_event (fun x t m i d u _ => Build_streamEvent t m i d u x))
               (set_ptr (Build_eventError "" "") (set_struct error_fields)))].
Definition event0 : streamEvent := Build_streamEvent "" None 0 None None None.

Definition unmarshal_event (j : json) : option streamEvent := set_struct event_fields j event0.

(** ** Conversion *)

Definition paragraph : string := String (ascii_of_byte 10) (String (ascii_of_byte 10) "").

(** The loop over the messages: the system texts and the rest. *)
Definition split_message (acc : list string * list anthMsg) (m : Message) : list string * list anthMsg :=
  let '(systems, out) := acc in
  if bool_decide (m.(msg_Role) = "system") then
    (if bool_decide (m.(msg_Content) = "") then systems else systems ++ [m.(msg_Content)], out)
  else (systems, out ++ [{| am_Role := m.(msg_Role); am_Content := m.(msg_Content) |}]).

Definition toAnthropicRequest (req : ChatRequest) (defaultMaxTokens : Z) (stream : bool) : messagesRequest :=
  let '(systems, out) := fold_left split_message req.(req_Messages) ([], []) in
  {| mr_Model := req.(req_Model);
     mr_Messages := out;
     mr_System := match systems with [] => "" | _ => Strings.Join systems paragraph end;
     mr_MaxTokens := if 0 <? req.(req_MaxTokens) then req.(req_MaxTokens) else defaultMaxTokens;
     mr_Temperature := req.(req_Temperature); mr_TopP := req.(req_TopP);
     mr_StopSequences := req.(req_Stop); mr_Stream := stream |}.

(** The JSON of a request; a nil slice of messages is [null]. *)
Definition marshal_request `{!FloatText} (r : messagesRequest) : option json :=
  temperature ← ChatRequest.float_member "temperature" r.(mr_Temperature);
  top_p ← ChatRequest.float_member "top_p" r.(mr_TopP);
  Some (JObject (
    [("model", of_string r.(mr_Model));
     ("messages", match r.(mr_Messages) with
                  | [] => JNull
                  | ms => JArray (map (fun m => JObject [("role", of_string m.(am_Role));
                                                         ("content", of_string m.(am_Content))]) ms)
                  end)]
    ++ omit (bool_decide (r.(mr_System) = "")) "system" (of_string r.(mr_System))
    ++ [("max_tokens", of_int r.(mr_MaxTokens))]
    ++ temperature ++ top_p
    ++ omit (bool_decide (r.(mr_StopSequences) = [])) "stop_sequences"
         (JArray (map of_string r.(mr_StopSequences)))
    ++ omit (negb r.(mr_Stream)) "stream" (JBool true))).

Definition mapStopReason (r : string) : string :=
  if bool_decide (r = "end_turn") then "stop"
  else if bool_decide (r = "max_tokens") then "length"
  else if bool_decide (r = "stop_sequence") then "stop"
  else if bool_decide (r = "tool_use") then "tool_calls"
  else r.

#[local] Arguments mapStopReason : simpl never.

(** The concatenated text blocks. *)
Definition text_content (blocks : list contentBlock) : string :=
  fold_left (fun s b => if bool_decide (b.(cb_Type) = "text") then s +:+ b.(cb_Text) else s) blocks "".

Definition make_usage (input output : Z) : Usage := Build_Usage input output (input +i output)%go ∅.

(** [now] is [time.Now().Unix()]. *)
Definition fromAnthropicResponse (now : Z) (resp : messagesResponse) (providerName : string) : ChatResponse :=
  {| resp_ID := resp.(ms_ID); resp_Object := "chat.completion"; resp_Created := now;
     resp_Model := resp.(ms_Model);
     resp_Choices := [Build_Choice 0 (Build_Message "assistant" (text_content resp.(ms_Content)) "" "" ∅)
                        (mapStopReason resp.(ms_StopReason)) ∅];
     resp_Usage := Some (make_usage resp.(ms_Usage).(mu_InputTokens) resp.(ms_Usage).(mu_OutputTokens));
     resp_Provider := providerName |}.

(** ** The event state machine *)

Record anthStreamState := { ss_id : string; ss_model : string; ss_created : Z; ss_inputTokens : Z }.

Definition newStreamState (now : Z) : anthStreamState :=
  {| ss_id := ""; ss_model := ""; ss_created := now; ss_inputTokens := 0 |}.

Definition makeChunk (s : anthStreamState) (choices : list StreamChoice) (usage : option Usage)
    : ChatStreamChunk :=
  Build_ChatStreamChunk s.(ss_id) "chat.completion.chunk" s.(ss_created) s.(ss_model) choices usage.

Definition delta (role content finish : string) : StreamChoice :=
  Build_StreamChoice 0 (Build_MessageDelta role content ∅) finish.

Definition anth_error (name : string) (s : sentinel) (status : Z) (msg : string) : error :=
  Upstream (NewUpstreamError name s status msg).

(** [handleEvent]: [(done, ok)], the state and the channel. *)
Definition handleEvent (name : string) (s : anthStreamState) (ev : streamEvent) (c : chan)
    : bool * bool * anthStreamState * chan :=
  let ty t := bool_decide (ev.(ev_Type) = t) in
  if ty "message_start" then
    let s := match ev.(ev_Message) with
             | Some m => {| ss_id := m.(sm_ID); ss_model := m.(sm_Model); ss_created := s.(ss_created);
                            ss_inputTokens := m.(sm_Usage).(mu_InputTokens) |}
             | None => s
             end in
    let '(ok, c) := sendEvent (Chunk (makeChunk s [delta "assistant" "" ""] None)) c in
    (false, ok, s, c)
  else if ty "content_block_delta" then
    match ev.(ev_Delta) with
    | Some d =>
        if negb (bool_decide (d.(ed_Type) = "text_delta")) || bool_decide (d.(ed_Text) = "") then
          (false, true, s, c)
        else
          let '(ok, c) := sendEvent (Chunk (makeChunk s [delta "" d.(ed_Text) ""] None)) c in
          (false, ok, s, c)
    | None => (false, true, s, c)
    end
  else if ty "message_delta" then
    let finishReason := match ev.(ev_Delta) with Some d => mapStopReason d.(ed_StopReason) | None => "" end in
    let usage := match ev.(ev_Usage) with
                 | Some u => Some (make_usage s.(ss_inputTokens) u.(mu_OutputTokens))
                 | None => None
                 end in
    let '(ok, c) := sendEvent (Chunk (makeChunk s [delta "" "" finishReason] usage)) c in
    (false, ok, s, c)
  else if ty "message_stop" then (true, true, s, c)
  else if ty "error" then
    let err := match ev.(ev_Error) with
               | None => anth_error name ErrUpstream 0 "upstream sent 'error' event with no body"
               | Some e => anth_error name (Errors.anthropic.mapToSentinel 0 e.(ee_Type)) 0 e.(ee_Message)
               end in
    let '(ok, c) := sendEvent (Err err) c in (true, ok, s, c)
  else (false, true, s, c).

Section Calls.
Context `{parser : !JsonParser} `{floats : !FloatText}.
Context (decode_error Quote : string -> string) (ParseTime : string -> option Z) (now : Z)
  (UnmarshalError : string -> Errors.anthropic.apiError) (UserAgent : string).

Definition build_request (p : anthropic.Provider) (stream : bool) (urlErr : option error)
    (req : ChatRequest) : error + outbound :=
  match marshal_request (toAnthropicRequest req p.(anthropic.max_tokens) stream) with
  | None => inl (Errorf "anthropic: marshal request: %w" [] (Some (Foreign "json: unsupported value" [])))
  | Some body =>
      match urlErr with
      | Some err => inl (Errorf "anthropic: build request: %w" [] (Some err))
      | None =>
          let hs := anthropic.setHeaders UserAgent p in
          inr {| ob_url := p.(anthropic.baseURL) +:+ messagesPath;
                 ob_headers := if stream then set_header "accept" "text/event-stream" hs else hs;
                 ob_body := body |}
      end
  end.

(** [wall] is the Unix time at which the response is converted. *)
Definition ChatCompletion (p : anthropic.Provider) (urlErr : option error) (net : outbound -> exchange)
    (wall : Z) (req : option ChatRequest) : error + ChatResponse :=
  let name := anthropic.Name p in
  match req with
  | None => inl (anth_error name ErrInvalidRequest 0 "nil request")
  | Some req =>
      match build_request p false urlErr req with
      | inl err => inl err
      | inr ob =>
          match net ob with
          | DoFailed err => inl (mapRequestError Quote name err)
          | Responded _ _ _ (Some err) => inl (mapRequestError Quote name err)
          | Responded status header body None =>
              if 400 <=? status then
                inl (Errors.anthropic.mapHTTPError UnmarshalError ParseTime now name status body header)
              else match parse_json body ≫= unmarshal_response with
                   | None => inl (anth_error name ErrUpstream status
                                    ("decode response: " +:+ decode_error body))
                   | Some parsed => inr (fromAnthropicResponse wall parsed name)
                   end
          end
      end
  end.

(** [ForwardMessages]: the body goes out verbatim. *)
Record raw_outbound := { ro_url : string; ro_headers : list (string * string); ro_body : string }.

Definition ForwardMessages (p : anthropic.Provider) (urlErr : option error)
    (net : raw_outbound -> exchange) (body betaHeader : string) : error + exchange :=
  let name := anthropic.Name p in
  match urlErr with
  | Some err => inl (mapRequestError Quote name err)
  | None =>
      let hs := anthropic.setHeaders UserAgent p in
      let hs := if bool_decide (betaHeader = "") then hs else set_header "anthropic-beta" betaHeader hs in
      match net {| ro_url := p.(anthropic.baseURL) +:+ messagesPath; ro_headers := hs; ro_body := body |} with
      | DoFailed err => inl (mapRequestError Quote name err)
      | resp => inr resp
      end
  end.

(** The loop of [readSSE]: whether it returned, and the channel. *)
Fixpoint read_loop (name : string) (lines : list string) (s : anthStreamState) (c : chan) : bool * chan :=
  match lines with
  | [] => (false, c)
  | line :: rest =>
      match data_of line with
      | None => read_loop name rest s c
      | Some data =>
          match parse_json data ≫= unmarshal_event with
          | None =>
              (true, (sendEvent (Err (anth_error name ErrUpstream 0
                                        ("decode event: " +:+ decode_error data))) c).2)
          | Some ev =>
              let '(done, ok, s, c) := handleEvent name s ev c in
              if negb ok then (true, c)
              else if done : bool then (true, c)
              else read_loop name rest s c
          end
      end
  end.

Definition readSSE (name : string) (wall : Z) (text : string) (readErr : option string) (ctxDone : bool)
    (c : chan) : chan :=
  let '(lines, scanErr) := scan text readErr in
  let '(returned, c) := read_loop name lines (newStreamState wall) c in
  if returned : bool then c
  else if ctxDone then c
  else match scanErr with
       | Some e => (sendEvent (Err (anth_error name ErrUpstream 0 ("stream read: " +:+ e))) c).2
       | None => (sendEvent (Err (anth_error name ErrUpstream 0 "stream ended without message_stop")) c).2
       end.

Definition ChatCompletionStream (p : anthropic.Provider) (urlErr : option error) (net : outbound -> exchange)
    (wall : Z) (ctxDone : bool) (sends : list bool) (req : option ChatRequest) : error + list StreamEvent :=
  let name := anthropic.Name p in
  match req with
  | None => inl (anth_error name ErrInvalidRequest 0 "nil request")
  | Some req =>
      match build_request p true urlErr req with
      | inl err => inl err
      | inr ob =>
          match net ob with
          | DoFailed err => inl (mapRequestError Quote name err)
          | Responded status header body readErr =>
              if 400 <=? status then
                inl (Errors.anthropic.mapHTTPError UnmarshalError ParseTime now name status body header)
              else inr (readSSE name wall body (Error Quote <$> readErr) ctxDone (open_chan sends)).(received)
          end
      end
  end.
End Calls.

(** ** The conversion of a request *)

Definition is_system (m : Message) : bool := bool_decide (m.(msg_Role) = "system").
Definition to_anthMsg (m : Message) : anthMsg := {| am_Role := m.(msg_Role); am_Content := m.(msg_Content) |}.

Lemma split_messages ms sys out :
  fold_left split_message ms (sys, out) =
  (sys ++ List.filter (fun t => negb (bool_decide (t = ""))) (map msg_Content (List.filter is_system ms)),
   out ++ map to_anthMsg (List.filter (fun m => negb (is_system m)) ms)).
Proof.
  revert sys out. induction ms as [|m ms IH]; intros sys out; cbn [fold_left List.filter map].
  { by rewrite !app_nil_r. }
  unfold split_message at 2. fold (is_system m).
  destruct (is_system m); cbn [negb map List.filter]; rewrite IH; [|by rewrite <- app_assoc].
  destruct (bool_decide (msg_Content m = "")); cbn [negb]; by rewrite <- ?app_assoc.
Qed.

(** Nothing of the conversation is lost on the way to Anthropic.  The
    request carries the non-system messages in their order with their roles and
    texts, and no system message among them; the top-level system prompt is the
    non-empty system texts joined by a blank line; [max_tokens] is the caller's
    when positive and the provider's default otherwise, so it is always
    positive; model, sampling parameters and stop sequences are the caller's. *)
Theorem toAnthropicRequest_spec req def stream :
  0 < def ->
  let r := toAnthropicRequest req def stream in
  r.(mr_Messages) = map to_anthMsg (List.filter (fun m => negb (is_system m)) req.(req_Messages)) /\
  Forall (fun m => m.(am_Role) <> "system") r.(mr_Messages) /\
  r.(mr_System) = Strings.Join (List.filter (fun t => negb (bool_decide (t = "")))
                                  (map msg_Content (List.filter is_system req.(req_Messages)))) paragraph /\
  0 < r.(mr_MaxTokens) /\ (0 < req.(req_MaxTokens) -> r.(mr_MaxTokens) = req.(req_MaxTokens)) /\
  r.(mr_Model) = req.(req_Model) /\ r.(mr_Temperature) = req.(req_Temperature) /\
  r.(mr_TopP) = req.(req_TopP) /\ r.(mr_StopSequences) = req.(req_Stop) /\ r.(mr_Stream) = stream.
Proof.
  intros Hd r. subst r. unfold toAnthropicRequest. rewrite split_messages. cbn [app mr_Messages mr_System mr_MaxTokens].
  split_and!; try done.
  - apply Forall_fmap, list.Forall_forall. intros m Hm%list_elem_of_In%filter_In. destruct Hm as [_ Hm].
    unfold is_system in Hm. by case_bool_decide.
  - by destruct (List.filter _ (map msg_Content _)).
  - destruct (Z.ltb_spec 0 (req_MaxTokens req)); lia.
  - intros Hm. by rewrite (proj2 (Z.ltb_lt _ _)).
Qed.

(** ** Streams *)

Section Reader.
Context `{parser : !JsonParser} (decode_error : string -> string).

Lemma handleEvent_live name s ev c done ok s' c' :
  handleEvent name s ev c = (done, ok, s', c') -> c.(sends) = [] ->
  ok = true /\ c'.(sends) = [] /\
  ((exists cs, c'.(received) = c.(received) ++ map Chunk cs /\ (done = true -> ev.(ev_Type) = "message_stop")) \/
   (done = true /\ exists sen msg, c'.(received) = c.(received) ++ [Err (anth_error name sen 0 msg)] /\
      ev.(ev_Type) = "error")).
Proof.
  intros H Hs. unfold handleEvent, sendEvent in H. rewrite Hs in H.
  repeat case_bool_decide; repeat case_match; injection H as <- <- <- <-; subst; (split; [done|]);
    cbn [sends received]; (split; [done|]);
    try (by left; exists []; rewrite app_nil_r); try (by left; eexists [_]);
    try (right; split; [done|]; by do 2 eexists).
Qed.

Local Abbreviation read_loop := (read_loop decode_error).
Local Abbreviation readSSE := (readSSE decode_error).

Definition decode (data : string) : option streamEvent := parse_json data ≫= unmarshal_event.

(** A [message_stop] event arrived. *)
Definition stopped (lines : list string) : Prop :=
  exists data ev, data ∈ omap data_of lines /\ decode data = Some ev /\ ev.(ev_Type) = "message_stop".

Lemma anthropic_read_loop_spec name lines s c r c' :
  read_loop name lines s c = (r, c') -> c.(sends) = [] ->
  c'.(sends) = [] /\
  exists cs, (r = false /\ c'.(received) = c.(received) ++ map Chunk cs) \/
    (r = true /\ stopped lines /\ c'.(received) = c.(received) ++ map Chunk cs) \/
    (r = true /\ exists sen msg, c'.(received) = c.(received) ++ map Chunk cs ++
       [Err (anth_error name sen 0 msg)]).
Proof.
  revert s c. induction lines as [|line rest IH]; intros s c; cbn [Anthropic.read_loop].
  { intros [= <- <-] Hs. split; [done|]. exists []. left. by rewrite app_nil_r. }
  assert (Hmono : stopped rest -> stopped (line :: rest)).
  { intros (d & ev & Hd & He). exists d, ev. split; [|done]. cbn. destruct (data_of line); set_solver. }
  destruct (data_of line) as [data|] eqn:Ed.
  2: { intros H Hs. destruct (IH _ _ H Hs) as (Hs' & cs & Hor). split; [done|]. exists cs.
       destruct Hor as [?|[(? & ? & ?)|?]]; auto 10. }
  fold (decode data). destruct (decode data) as [ev|] eqn:Edec.
  2: { intros [= <- <-] Hs. rewrite sendEvent_live by done. split; [done|]. exists []. right; right.
       split; [done|]. by do 2 eexists. }
  destruct (handleEvent name s ev c) as [[[done ok] s1] c1] eqn:Eh. intros H Hs.
  destruct (handleEvent_live _ _ _ _ _ _ _ _ Eh Hs) as (-> & Hs1 & Hev). cbn [negb] in H.
  destruct Hev as [(cs1 & Hr1 & Hdone)|(-> & sen & msg & Hr1 & _)].
  2: { injection H as <- <-. split; [done|]. exists []. right; right. split; [done|]. by exists sen, msg. }
  destruct done.
  { injection H as <- <-. split; [done|]. exists cs1. right; left. split_and!; [done| |done].
    exists data, ev. split_and!; [cbn; rewrite Ed; set_solver|done|by apply Hdone]. }
  destruct (IH _ _ H Hs1) as (Hs' & cs & Hor). split; [done|]. exists (cs1 ++ cs).
  rewrite map_app. destruct Hor as [[-> ->]|[(-> & Hst & ->)|(-> & sen & msg & ->)]]; rewrite Hr1, <- ?app_assoc.
  - by left.
  - right; left. auto.
  - right; right. split; [done|]. exists sen, msg. by rewrite <- !app_assoc.
Qed.

(** A truncated Anthropic stream is never taken for a complete one: a
    staying consumer receives chunks and at most one final error, an upstream
    error of this provider, and the error is missing only if a [message_stop]
    event arrived. *)
Theorem anthropic_stream_complete name wall text readErr :
  exists cs,
    ((readSSE name wall text readErr false (open_chan [])).(received) = map Chunk cs /\
     stopped (scan text readErr).1) \/
    (exists e u, (readSSE name wall text readErr false (open_chan [])).(received) = map Chunk cs ++ [Err e] /\
     As e = Some u /\ u.(Errors.Provider) = name).
Proof.
  unfold Anthropic.readSSE. destruct (scan text readErr) as [lines scanErr].
  destruct (read_loop name lines (newStreamState wall) (open_chan [])) as [r c] eqn:E.
  destruct (anthropic_read_loop_spec name lines _ _ r c E eq_refl) as (Hs & cs & Hor). exists cs.
  cbn [received open_chan app] in Hor.
  destruct Hor as [[-> Hr]|[(-> & Hd & Hr)|(-> & sen & msg & Hr)]].
  - right. destruct scanErr; rewrite sendEvent_live by done; cbn [snd received]; rewrite Hr;
      do 2 eexists; (split; [done|]); by split.
  - left. by rewrite Hr.
  - right. do 2 eexists. rewrite Hr. split; [done|]. by split.
Qed.

(** *** The streamed answer and the plain answer *)

(** Events between the first and the last of a message: content deltas, block
    boundaries, pings, and types the adapter does not know. *)
Definition inner (ev : streamEvent) : Prop :=
  ev.(ev_Type) ∉ ["message_start"; "message_delta"; "message_stop"; "error"].

(** The visible text of an event. *)
Definition event_text (ev : streamEvent) : string :=
  if bool_decide (ev.(ev_Type) = "content_block_delta") then
    match ev.(ev_Delta) with
    | Some d => if bool_decide (d.(ed_Type) = "text_delta") then d.(ed_Text) else ""
    | None => ""
    end
  else "".

Definition content_chunk (s : anthStreamState) (t : string) : ChatStreamChunk :=
  makeChunk s [delta "" t ""] None.

Lemma handleEvent_inner name s ev c :
  inner ev -> c.(sends) = [] ->
  handleEvent name s ev c =
  (false, true, s, {| sends := []; received := c.(received) ++
     if bool_decide (event_text ev = "") then [] else [Chunk (content_chunk s (event_text ev))] |}).
Proof.
  intros Hi Hs. unfold inner in Hi. rewrite !not_elem_of_cons in Hi. destruct Hi as (H1 & H2 & H3 & H4 & _).
  unfold handleEvent, event_text. rewrite (bool_decide_false _ H1), (bool_decide_false _ H2),
    (bool_decide_false _ H3), (bool_decide_false _ H4).
  destruct c as [sd rc]. cbn in Hs. subst sd.
  destruct (bool_decide (ev_Type ev = "content_block_delta")); [|by rewrite bool_decide_true, app_nil_r].
  destruct (ev_Delta ev) as [d|]; [|by rewrite bool_decide_true, app_nil_r].
  destruct (bool_decide (ed_Type d = "text_delta")); cbn [negb orb]; [|by rewrite bool_decide_true, app_nil_r].
  case_bool_decide; [by rewrite app_nil_r|done].
Qed.

(** The lines of a body carry these events. *)
Definition carries (lines : list string) (evs : list streamEvent) : Prop :=
  mapM decode (omap data_of lines) = Some evs.

(** What the reader does with the events it decodes. *)
Fixpoint feed (name : string) (evs : list streamEvent) (s : anthStreamState) (c : chan) : bool * chan :=
  match evs with
  | [] => (false, c)
  | ev :: evs' =>
      let '(done, ok, s, c) := handleEvent name s ev c in
      if negb ok then (true, c) else if done : bool then (true, c) else feed name evs' s c
  end.

Lemma read_loop_feed name lines evs s c :
  carries lines evs -> read_loop name lines s c = feed name evs s c.
Proof.
  unfold carries. revert evs s c. induction lines as [|line lines IH]; intros evs s c; cbn [Anthropic.read_loop].
  { cbn. by intros [= <-]. }
  cbn [omap list_omap]. destruct (data_of line) as [data|]; [|apply IH]. cbn [mapM].
  fold (decode data). destruct (decode data) as [ev|]; [|done]. cbn [mbind option_bind].
  destruct (mapM decode (omap data_of lines)) as [evs'|]; [|done]. intros [= <-]. cbn [feed].
  destruct (handleEvent name s ev c) as [[[done ok] s1] c1]. destruct ok; [|done]. destruct done; [done|].
  cbn [negb]. by apply IH.
Qed.

Lemma feed_inner name mid rest s c :
  Forall inner mid -> c.(sends) = [] ->
  exists ts, String.concat "" ts = String.concat "" (map event_text mid) /\
    feed name (mid ++ rest) s c =
    feed name rest s {| sends := []; received := c.(received) ++ map Chunk (map (content_chunk s) ts) |}.
Proof.
  intros Hm. revert c. induction Hm as [|ev mid Hev Hm IH]; intros c Hs.
  { exists []. split; [done|]. destruct c as [sd rc]. cbn in *. by rewrite Hs, app_nil_r. }
  cbn [app feed]. rewrite handleEvent_inner by done. cbn [negb].
  set (c1 := {| sends := []; received := _ |}). destruct (IH c1 eq_refl) as (ts & Ht & ->).
  pose proof (Stream.concat_app [event_text ev] (map event_text mid)) as Hc. cbn [app map] in *.
  change (String.concat "" [event_text ev]) with (event_text ev) in Hc. rewrite Hc, <- Ht.
  subst c1. cbn [received]. case_bool_decide as E.
  - exists ts. rewrite E, app_nil_r. done.
  - exists (event_text ev :: ts). pose proof (Stream.concat_app [event_text ev] ts) as Hc2. cbn [app] in Hc2.
    change (String.concat "" [event_text ev]) with (event_text ev) in Hc2. rewrite Hc2.
    split; [done|]. cbn [map]. by rewrite <- app_assoc.
Qed.

(** Accumulating the content chunks of one message. *)
Lemma observe_contents_of s ts st :
  st.(id) = s.(ss_id) -> st.(created) = s.(ss_created) -> st.(model) = s.(ss_model) ->
  fold_left observe (map (content_chunk s) ts) st =
  set_text (st.(contentBuf) +:+ String.concat "" ts) st.(finishReason) st.
Proof.
  intros H1 H2 H3. revert st H1 H2 H3. induction ts as [|t ts IH]; intros st H1 H2 H3; cbn [map fold_left].
  { cbn [String.concat]. rewrite Strings.append_nil. by destruct st. }
  assert (Hobs : observe st (content_chunk s t) = set_text (st.(contentBuf) +:+ t) st.(finishReason) st).
  { unfold observe, content_chunk, makeChunk, delta.
    cbn [chk_ID chk_Created chk_Model chk_Usage chk_Choices fold_left].
    unfold observe_choice, set_text.
    cbn [provider id created model contentBuf finishReason promptUsage outputUsage sch_Delta sch_FinishReason del_Content].
    rewrite <- H1, <- H2, <- H3. rewrite (bool_decide_true ("" = "")) by done.
    destruct (bool_decide (id st = "")), (created st =? 0), (bool_decide (model st = "")),
      (bool_decide_reflect (t = "")) as [->|]; by rewrite ?Strings.append_nil. }
  rewrite Hobs, IH by done. unfold set_text. cbn [contentBuf finishReason provider id created model promptUsage outputUsage].
  pose proof (Stream.concat_app [t] ts) as Hc. cbn [app] in Hc. change (String.concat "" [t]) with t in Hc.
  by rewrite Hc, Strings.append_assoc.
Qed.

Lemma text_content_concat blocks :
  text_content blocks = String.concat "" (map cb_Text (List.filter (fun b => bool_decide (b.(cb_Type) = "text")) blocks)).
Proof.
  unfold text_content.
  assert (H : forall s, fold_left (fun s b => if bool_decide (b.(cb_Type) = "text") then s +:+ b.(cb_Text) else s) blocks s
     = s +:+ String.concat "" (map cb_Text (List.filter (fun b => bool_decide (b.(cb_Type) = "text")) blocks))).
  { induction blocks as [|b blocks IH]; intros s; cbn [fold_left List.filter map].
    - cbn [String.concat]. by rewrite Strings.append_nil.
    - rewrite IH. destruct (bool_decide (cb_Type b = "text")); [|done]. cbn [map].
      pose proof (Stream.concat_app [cb_Text b] (map cb_Text (List.filter (fun b => bool_decide (cb_Type b = "text")) blocks))) as Hc.
      cbn [app] in Hc. change (String.concat "" [cb_Text b]) with (cb_Text b) in Hc.
      by rewrite Hc, Strings.append_assoc. }
  apply H.
Qed.

(** The events of a complete message: how Anthropic streams the answer [resp]. *)
Inductive streamed_form (resp : messagesResponse) : list streamEvent -> Prop :=
  | streamed start m mid fin d u stop rest :
      start.(ev_Type) = "message_start" -> start.(ev_Message) = Some m ->
      m.(sm_ID) = resp.(ms_ID) -> m.(sm_Model) = resp.(ms_Model) ->
      m.(sm_Usage).(mu_InputTokens) = resp.(ms_Usage).(mu_InputTokens) ->
      Forall inner mid -> String.concat "" (map event_text mid) = text_content resp.(ms_Content) ->
      fin.(ev_Type) = "message_delta" ->
      fin.(ev_Delta) = Some d -> d.(ed_StopReason) = resp.(ms_StopReason) ->
      fin.(ev_Usage) = Some u -> u.(mu_OutputTokens) = resp.(ms_Usage).(mu_OutputTokens) ->
      stop.(ev_Type) = "message_stop" ->
      streamed_form resp (start :: mid ++ fin :: stop :: rest).

(** The opening and the closing event of a message, as the reader turns them
    into chunks. *)
Definition open_state (wall : Z) (resp : messagesResponse) : anthStreamState :=
  Build_anthStreamState resp.(ms_ID) resp.(ms_Model) wall resp.(ms_Usage).(mu_InputTokens).
Definition open_chunk (s : anthStreamState) : ChatStreamChunk := makeChunk s [delta "assistant" "" ""] None.
Definition close_chunk (s : anthStreamState) (resp : messagesResponse) : ChatStreamChunk :=
  makeChunk s [delta "" "" (mapStopReason resp.(ms_StopReason))]
    (Some (make_usage resp.(ms_Usage).(mu_InputTokens) resp.(ms_Usage).(mu_OutputTokens))).

(** A streamed message is read as an opening chunk, content chunks that carry
    its text, and a closing chunk. *)
Lemma read_message name wall text readErr resp evs :
  carries (scan text readErr).1 evs -> streamed_form resp evs ->
  exists ts, (readSSE name wall text readErr false (open_chan [])).(received) =
    map Chunk (open_chunk (open_state wall resp) :: map (content_chunk (open_state wall resp)) ts ++
               [close_chunk (open_state wall resp) resp]) /\
    String.concat "" ts = text_content resp.(ms_Content).
Proof.
  intros Hc Hf.
  destruct Hf as [start m0 mid fin d u stop rest Ht0 Hm0 Hi0 Hmo0 Hu0 Hmid Htext Htf Hd Hds Hu Hus Hts].
  unfold Anthropic.readSSE. destruct (scan text readErr) as [lines scanErr]. cbn [fst] in Hc.
  rewrite (read_loop_feed name lines _ _ _ Hc). cbn [feed]. set (s := open_state wall resp).
  assert (Hstart : forall c, c.(sends) = [] -> handleEvent name (newStreamState wall) start c =
    (false, true, s, Build_chan [] (c.(received) ++ [Chunk (open_chunk s)]))).
  { intros c Hs. unfold handleEvent. rewrite Ht0, Hm0, Hi0, Hmo0, Hu0, sendEvent_live by done. done. }
  rewrite Hstart by done. cbn [negb open_chan received app].
  destruct (feed_inner name mid (fin :: stop :: rest) s
              (Build_chan [] [Chunk (open_chunk s)]) Hmid eq_refl) as (ts & Hts' & ->).
  cbn [feed received]. set (c1 := Build_chan [] _).
  assert (Hfinal : handleEvent name s fin c1 =
    (false, true, s, Build_chan [] (c1.(received) ++ [Chunk (close_chunk s resp)]))).
  { unfold handleEvent. rewrite Htf, Hd, Hds, Hu, Hus, sendEvent_live by done. done. }
  rewrite Hfinal. cbn [negb]. unfold handleEvent at 1. rewrite Hts. cbn [negb received].
  exists ts. split; [by rewrite map_cons, map_app|by rewrite Hts'].
Qed.

(** C27: Streaming does not change the answer.  When Anthropic streams a message
    (start, any text deltas, block boundaries and pings, the final delta, stop),
    the chunks the adapter emits accumulate, in the gateway's own stream
    accounting, to the very response the non-streaming call would have returned
    for that message: same id, model, text, finish reason and token usage. *)
Theorem stream_agrees_with_plain name wall wall' text readErr resp evs m :
  carries (scan text readErr).1 evs -> streamed_form resp evs ->
  resp.(ms_ID) <> "" -> resp.(ms_Model) <> "" -> wall <> 0 -> mapStopReason resp.(ms_StopReason) <> "" ->
  0 < resp.(ms_Usage).(mu_InputTokens) -> 0 < resp.(ms_Usage).(mu_OutputTokens) ->
  exists cs, (readSSE name wall text readErr false (open_chan [])).(received) = map Chunk cs /\
    toCachedResponse wall' (fold_left observe cs stats0) m =
    ChatResponse.put_Provider "" (fromAnthropicResponse wall resp name).
Proof.
  intros Hc Hf Hid Hmod Hwall Hfin Hin Hout.
  destruct (read_message name wall text readErr resp evs Hc Hf) as (ts & -> & Htext).
  eexists. split; [reflexivity|]. cbn [fold_left]. rewrite fold_left_app. set (st1 := observe stats0 _).
  assert (Hst1 : st1 = Build_streamStats "" resp.(ms_ID) wall resp.(ms_Model) "" "" 0 0).
  { unfold st1, observe, open_chunk, makeChunk. cbn. rewrite !bool_decide_false by done.
    by rewrite (proj2 (Z.eqb_neq _ _)). }
  rewrite observe_contents_of by by rewrite Hst1. rewrite Hst1, Htext. cbn [fold_left].
  unfold observe, close_chunk, makeChunk, make_usage. cbn. unfold observe_choice, set_text, delta. cbn.
  rewrite !(bool_decide_false (ms_ID resp = "")), !(bool_decide_false (ms_Model resp = "")),
    !(bool_decide_false (mapStopReason _ = "")), !(proj2 (Z.eqb_neq wall 0)),
    !(proj2 (Z.ltb_lt 0 (mu_InputTokens _))), !(proj2 (Z.ltb_lt 0 (mu_OutputTokens _))) by done.
  unfold toCachedResponse, fromAnthropicResponse, ChatResponse.put_Provider. cbn.
  rewrite !(bool_decide_false (ms_ID resp = "")), !(bool_decide_false (ms_Model resp = "")),
    !(proj2 (Z.eqb_neq wall 0)), !(proj2 (Z.ltb_lt 0 (mu_InputTokens _))) by done.
  done.
Qed.
End Reader.

Module Example.
Definition conv : ChatRequest := Compressor.chat
  [Compressor.msg "system" "be brief"; Compressor.msg "user" "hi"; Compressor.msg "system" "in French"].

Lemma toAnthropicRequest_spec_witness :
  (toAnthropicRequest conv 4096 false).(mr_System) =
    Strings.Join ["be brief"; "in French"] paragraph /\
  (toAnthropicRequest conv 4096 false).(mr_Messages) = [{| am_Role := "user"; am_Content := "hi" |}].
Proof.
  destruct (toAnthropicRequest_spec conv 4096 false) as (Hm & _ & Hs & _); [lia|].
  split; [exact Hs|exact Hm].
Defined.

#[local] Existing Instance Syntax.Unmarshal.

(** A stream with a ping and a heartbeat. *)
Definition event (ms : members) : option string := Some (Syntax.Marshal (JObject ms)).
Definition delta : members :=
  [("type", JString "content_block_delta"); ("index", JNumber "0");
   ("delta", JObject [("type", JString "text_delta"); ("text", JString "bon")])].
Definition body : string := sse_text
  [event [("type", JString "message_start"); ("message", JObject [("id", JString "msg_1");
            ("model", JString "claude"); ("usage", JObject [("input_tokens", JNumber "9")])])];
   event [("type", JString "ping")]; event delta; None; event delta;
   event [("type", JString "message_delta"); ("delta", JObject [("stop_reason", JString "end_turn")]);
          ("usage", JObject [("output_tokens", JNumber "2")])];
   event [("type", JString "message_stop")]].

Definition answer : messagesResponse :=
  {| ms_ID := "msg_1"; ms_Type := "message"; ms_Role := "assistant";
     ms_Content := [{| cb_Type := "text"; cb_Text := "bonbon" |}]; ms_Model := "claude";
     ms_StopReason := "end_turn"; ms_StopSequence := "";
     ms_Usage := {| mu_InputTokens := 9; mu_OutputTokens := 2 |} |}.

Definition id_text (s : string) : string := s.

Lemma stream_agrees_with_plain_witness :
  exists cs, (readSSE id_text "claude" 7 body None false (open_chan [])).(received) = map Chunk cs /\
    toCachedResponse 8 (fold_left observe cs stats0) "m" =
    ChatResponse.put_Provider "" (fromAnthropicResponse 7 answer "claude").
Proof.
  destruct (mapM decode (omap data_of (scan body None).1)) as [evs|] eqn:E; [|by vm_compute in E].
  apply (stream_agrees_with_plain id_text "claude" 7 8 body None answer evs "m").
  - exact E.
  - vm_compute in E. injection E as <-.
    match goal with |- streamed_form _ [?a; ?b; ?c; ?d; ?f; ?g] =>
      apply (streamed answer a (Build_startMessage "msg_1" "claude" (Build_messageUsage 9 0)) [b; c; d] f
               (Build_eventDelta "" "" "end_turn") (Build_messageUsage 0 2) g []) end;
      try reflexivity.
    repeat apply Forall_cons_2; [| | |apply Forall_nil_2]; apply (bool_decide_eq_true_1 (_ ∉ _)); reflexivity.
  - discriminate.
  - discriminate.
  - discriminate.
  - discriminate.
  - reflexivity.
  - reflexivity.
Defined.
End Example.
