(* ===== verification/Chat.v ===== *)
(** * Chat: the /v1/chat/completions handler

    [internal/server/chat.go]: reading and validating the body, smart routing,
    prompt compression, the model pre-flight, token rate limits, the exact
    cache, the router, the write-back and the billing event, composed in the
    handler's order for streaming and non-streaming requests.  The components
    are the ones modelled elsewhere; the router is an interface
    ([Upstream]) that [Gateway] instantiates with the real router.  Prometheus
    counters, trace spans and log lines have no effect on the response and are
    left out. *)

From S2P Require Import Prelude GoStd Float64 Calendar Errors Types Encoding JsonSyntax Wire Billing Auth Prompt Route RateLimit Cache Stream.
From stdpp Require Import base list gmap.
Import errmap.
Local Open Scope Z_scope.

(** The router as the handler uses it, in state [U]. *)
Class Upstream (U : Type) := {
  up_ResolveModel : U -> string -> bool;
  up_ChatCompletion : ChatRequest -> U -> (error + ChatResponse) * U;
  up_ChatCompletionStream : ChatRequest -> U -> (error + list StreamEvent) * U
}.

(** ** Reading the request *)

Definition maxRequestBytes : Z := Z.shiftl 1 20.

(** What the body reader delivers: the bytes, and whether it fails after
    them. *)
Record body := { raw : string; broken : bool }.

Definition invalid_request (status : Z) (code message : string) : mappedError :=
  {| Status := status; Type_ := "invalid_request_error"; Code := code; Message := message;
     RetryAfter := 0 |}.

Section Read.
Context `{!JsonParser, !FloatText}.
(** The text of the decoding error of a body that is not a request. *)
Context (decode_error : string -> string).

Definition readChatRequest (b : option body) : mappedError + ChatRequest :=
  match b with
  | None => inl (invalid_request 400 "" "Empty request body")
  | Some b =>
      if maxRequestBytes <? Z.of_nat (String.length b.(raw)) then
        inl (invalid_request 413 "request_too_large" "Request body exceeds 1 MiB")
      else if b.(broken) then inl (invalid_request 400 "" "Failed to read request body")
      else if bool_decide (b.(raw) = "") then inl (invalid_request 400 "" "Empty request body")
      else match parse_json b.(raw) ≫= UnmarshalJSON with
           | None => inl (invalid_request 400 "" ("Malformed JSON: " +:+ decode_error b.(raw)))
           | Some req =>
               if bool_decide (req.(req_Model) = "") then
                 inl (invalid_request 400 "missing_model" "Field 'model' is required")
               else if bool_decide (req.(req_Messages) = []) then
                 inl (invalid_request 400 "missing_messages"
                        "Field 'messages' must contain at least one message")
               else inr req
           end
  end.
End Read.

(** [apiKeyIDFrom]. *)
Definition apiKeyIDFrom (principal : option Principal) : string :=
  match principal with Some p => p.(p_ID) | None => "" end.

Section Tokens.
Context {T : Type} `{!Tokenizer T}.

Definition tokenCounts (tk : option (string -> T)) (req : ChatRequest) (resp : option ChatResponse)
    : Z * Z :=
  let '(prompt, completion) :=
    match resp ≫= resp_Usage with
    | Some u => (u.(use_PromptTokens), u.(use_CompletionTokens))
    | None => (0, 0)
    end in
  match tk with
  | None => (prompt, completion)
  | Some For =>
      let t := For req.(req_Model) in
      (if prompt =? 0 then CountMessages t req.(req_Messages) else prompt,
       match resp with
       | Some resp =>
           if completion =? 0 then
             fold_left (fun n ch => (n +i CountText t ch.(cho_Message).(msg_Content))%go)
               resp.(resp_Choices) 0
           else completion
       | None => completion
       end)
  end.
End Tokens.

(** [emitBillingEvent]; [None] is the panic of a send on a closed channel. *)
Definition emitBillingEvent (now : Z) (bill : option Worker.Worker) (ev : Worker.Event)
    : option (option Worker.Worker) :=
  match bill with
  | None => Some None
  | Some w => '(_, w') ← Worker.Enqueue now ev w; Some (Some w')
  end.

(** ** The handler *)

Inductive answer :=
  | AnsError (r : errmap.response)
  | AnsJson (encoded : option json)
  | AnsSse (frames : list frame).

Definition status_of (a : answer) : Z :=
  match a with AnsError r => r.(code) | AnsJson _ | AnsSse _ => 200 end.

Section Handler.
Context {T U W : Type} `{!Tokenizer T} `{!Upstream U} `{sha : !Sha256} `{text : !JsonText}
  `{parser : !JsonParser} `{floats : !FloatText}.
Context (decode_error Quote ToLower : string -> string).

(** What the handler is built with. *)
Record handler := {
  tk : option (string -> T);
  exactCache : bool;
  cacheTTL : Z;
  classifier : option (RuleClassifier (T := T));
  compressor : option (Compressor.SlidingWindow * (string -> T));
  rl : list (Rule W)
}.

(** What one request brings and meets. *)
Record request := {
  rq_body : option body;
  rq_principal : option Principal;
  rq_id : string;
  rq_started : Z; rq_latency : Z; rq_wall : Z;
  rq_flusher : bool; rq_ctx1 : bool; rq_ctx2 : bool; rq_wire : list bool;
  rq_get_err : option error; rq_lookup : Z; rq_set : db_outcome; rq_store : Z
}.

(** The state shared by all requests. *)
Record world := {
  limits : W; store : redis; upstream : U; rolls : list float64
}.

Definition with_limits (l : W) (w : world) : world :=
  {| limits := l; store := w.(store); upstream := w.(upstream); rolls := w.(rolls) |}.
Definition with_store (r : redis) (w : world) : world :=
  {| limits := w.(limits); store := r; upstream := w.(upstream); rolls := w.(rolls) |}.
Definition with_upstream (u : U) (w : world) : world :=
  {| limits := w.(limits); store := w.(store); upstream := u; rolls := w.(rolls) |}.
Definition with_rolls (l : list float64) (w : world) : world :=
  {| limits := w.(limits); store := w.(store); upstream := w.(upstream); rolls := l |}.

Abbreviation headers := (gmap string string).

Record outcome := { out_headers : headers; out_answer : answer; out_billed : list Worker.Event }.

Definition set_Model (m : string) (r : ChatRequest) : ChatRequest :=
  {| req_Model := m; req_Messages := r.(req_Messages); req_MaxTokens := r.(req_MaxTokens);
     req_Temperature := r.(req_Temperature); req_TopP := r.(req_TopP); req_N := r.(req_N);
     req_Stream := r.(req_Stream); req_Stop := r.(req_Stop); req_User := r.(req_User);
     req_Extra := r.(req_Extra) |}.

(** Smart routing: the request, the headers and the remaining rolls. *)
Definition classify (h : handler) (principal : option Principal) (req : ChatRequest)
    (hd : headers) (rng : list float64) : ChatRequest * headers * list float64 :=
  match h.(classifier) with
  | None => (req, hd, rng)
  | Some c =>
      if HasScope principal "smart_route" "disable" then
        (req, <["X-X-Beacon-Route-Rule" := "skip:scope"]> hd, rng)
      else
        let '(d, rng) := Classify ToLower c req rng in
        if Route.Empty d then (req, hd, rng)
        else (set_Model d.(d_Model) req,
              <["X-X-Beacon-Route-To" := d.(d_Model)]>
                (<["X-X-Beacon-Route-From" := req.(req_Model)]>
                  (<["X-X-Beacon-Route-Rule" := d.(d_Rule)]> hd)), rng)
  end.

Definition compress (h : handler) (req : ChatRequest) (hd : headers) : ChatRequest * headers :=
  match h.(compressor) with
  | None => (req, hd)
  | Some (c, For) =>
      let '(res, req) := Compressor.Compress For (Some c) req in
      (req, if res.(Compressor.Compressed) then <["X-X-Beacon-Prompt-Compressed" := "1"]> hd else hd)
  end.

Definition model_not_found (model : string) : mappedError :=
  invalid_request 400 "model_not_found" ("Model " +:+ model +:+ " is not configured on this gateway").

(** The token rate limits: the refusal, if any, with its headers. *)
Definition token_gate (h : handler) (principal : option Principal) (req : ChatRequest)
    (hd : headers) (l : W) : option (mappedError * headers) * W :=
  match h.(tk), h.(rl) with
  | Some For, _ :: _ =>
      let kctx := {| APIKeyID := apiKeyIDFrom principal; RateLimit.Model := req.(req_Model) |} in
      let promptTok := CountMessages (For req.(req_Model)) req.(req_Messages) in
      let '(res, l) := CheckTokens h.(rl) kctx promptTok l in
      match res with
      | inl _ => (None, l)
      | inr d =>
          if d.(Allowed) then (None, l)
          else
            let ra := d.(RateLimit.RetryAfter) in
            let hd := if 0 <? ra
                      then <["Retry-After" := Strconv.Itoa ((ra +i Second -i 1) /i Second)%go]> hd
                      else hd in
            (Some ({| Status := 429; Type_ := "rate_limit_error"; Code := "rate_limit_exceeded";
                      Message := Sprintf Quote
                        "Token rate limit exceeded for rule %q. Retry after %s."
                        [ArgS d.(RuleName); ArgS (Duration.format (Duration.Round ra Second))] "";
                      RetryAfter := 0 |}, hd), l)
      end
  | _, _ => (None, l)
  end.

(** The cache lookup both branches do: the key under which the response will
    be stored and the entry found. *)
Definition lookup_cache (h : handler) (e : request) (req : ChatRequest) (r : redis)
    : string * option ChatResponse :=
  if h.(exactCache) then
    match Key (Some req) with
    | inl _ => ("", None)
    | inr key => (key, match Get e.(rq_get_err) e.(rq_lookup) key r with
                       | inr cached => Some cached
                       | inl _ => None
                       end)
    end
  else ("", None).

Definition miss_header (h : handler) (hd : headers) : headers :=
  if h.(exactCache) then <["X-X-Beacon-Cache" := "miss"]> hd else hd.

Definition json_header (hd : headers) : headers := <["Content-Type" := "application/json"]> hd.

(** The headers [writeError] adds. *)
Definition error_outcome (m : mappedError) (reqID : string) (hd : headers) (billed : list Worker.Event)
    : outcome :=
  let r := writeError m reqID in
  {| out_headers := fold_left (fun hd kv => <[kv.1 := kv.2]> hd) r.(errmap.headers) hd;
     out_answer := AnsError r; out_billed := billed |}.

Definition no_streaming : mappedError :=
  {| Status := 500; Type_ := "internal_error"; Code := "";
     Message := "Server does not support streaming"; RetryAfter := 0 |}.

Definition stream_env (e : request) : request_env :=
  {| reqID := e.(rq_id); apiKeyID := apiKeyIDFrom e.(rq_principal); started := e.(rq_started);
     latency := e.(rq_latency); wall := e.(rq_wall); flusher := e.(rq_flusher);
     ctx1 := e.(rq_ctx1); ctx2 := e.(rq_ctx2); wire := e.(rq_wire) |}.

(** The streaming branch. *)
Definition serve_streaming (h : handler) (e : request) (req : ChatRequest) (hd : headers) (w : world)
    : outcome * world :=
  let '(key, hit) := lookup_cache h e req w.(store) in
  match hit with
  | Some cached =>
      let hd := <["X-X-Beacon-Cache" := "hit"]> hd in
      if negb e.(rq_flusher) then (error_outcome no_streaming e.(rq_id) hd [], w)
      else
        let k := replayCachedStream e.(rq_wall) e.(rq_id) cached
                   {| outcomes := e.(rq_wire); sent := [] |} in
        ({| out_headers := sse_headers ∪ hd; out_answer := AnsSse k.(sent); out_billed := [] |}, w)
  | None =>
      let hd := miss_header h hd in
      let '(res, u) := up_ChatCompletionStream req w.(upstream) in
      let w := with_upstream u w in
      let '(r, eff) := handleChatStream (stream_env e) h.(tk) h.(exactCache) h.(cacheTTL) key req res in
      let w := match eff.(cache_set) with
               | Some (k, resp) =>
                   with_store (Cache.Set_ e.(rq_set) e.(rq_store) k (Some resp) h.(cacheTTL) w.(store)).2 w
               | None => w
               end in
      (match r with
       | HttpError m => error_outcome m e.(rq_id) hd eff.(billed)
       | Sse frames => {| out_headers := sse_headers ∪ hd; out_answer := AnsSse frames;
                          out_billed := eff.(billed) |}
       end, w)
  end.

(** The non-streaming branch. *)
Definition serve_plain (h : handler) (e : request) (req : ChatRequest) (hd : headers) (w : world)
    : outcome * world :=
  let '(key, hit) := lookup_cache h e req w.(store) in
  match hit with
  | Some cached =>
      ({| out_headers := json_header (<["X-X-Beacon-Cache" := "hit"]> hd);
          out_answer := AnsJson (ChatResponse.marshal cached); out_billed := [] |}, w)
  | None =>
      let hd := miss_header h hd in
      let '(res, u) := up_ChatCompletion req w.(upstream) in
      let w := with_upstream u w in
      let bill := billing_event e.(rq_started) e.(rq_id) (apiKeyIDFrom e.(rq_principal)) in
      match res with
      | inl err =>
          let m := mapProviderError err in
          (error_outcome m e.(rq_id) hd
             [bill "" req.(req_Model) 0 0 e.(rq_latency) m.(Status) false m.(Code)], w)
      | inr resp =>
          let '(promptTok, completionTok) := tokenCounts h.(tk) req (Some resp) in
          let w := if negb (bool_decide (key = "")) && (0 <? h.(cacheTTL))
                      && shouldCacheResponse (Some resp) promptTok
                   then with_store (Cache.Set_ e.(rq_set) e.(rq_store) key (Some resp) h.(cacheTTL) w.(store)).2 w
                   else w in
          ({| out_headers := json_header hd;
              out_answer := AnsJson (ChatResponse.marshal resp);
              out_billed := [bill resp.(resp_Provider) req.(req_Model) promptTok completionTok
                               e.(rq_latency) 200 false ""] |}, w)
      end
  end.

(** Everything before the cache: the refusal, or the request the upstream will
    see. *)
Definition admit_request (h : handler) (e : request) (w : world)
    : (outcome + ChatRequest * headers) * world :=
  match readChatRequest decode_error e.(rq_body) with
  | inl m => (inl (error_outcome m e.(rq_id) ∅ []), w)
  | inr req =>
      let '(req, hd, rng) := classify h e.(rq_principal) req ∅ w.(rolls) in
      let w := with_rolls rng w in
      let '(req, hd) := compress h req hd in
      if negb (up_ResolveModel w.(upstream) req.(req_Model)) then
        (inl (error_outcome (model_not_found req.(req_Model)) e.(rq_id) hd []), w)
      else
        let '(refusal, l) := token_gate h e.(rq_principal) req hd w.(limits) in
        let w := with_limits l w in
        match refusal with
        | Some (m, hd) => (inl (error_outcome m e.(rq_id) hd []), w)
        | None => (inr (req, hd), w)
        end
  end.

Definition chatCompletionsHandler (h : handler) (e : request) (w : world) : outcome * world :=
  let '(r, w) := admit_request h e w in
  match r with
  | inl o => (o, w)
  | inr (req, hd) =>
      if req.(req_Stream) then serve_streaming h e req hd w else serve_plain h e req hd w
  end.

(** ** What a request changes *)

Lemma admit_request_inert h e w :
  (admit_request h e w).2.(upstream) = w.(upstream) /\
  (admit_request h e w).2.(store) = w.(store) /\
  (forall o, (admit_request h e w).1 = inl o -> o.(out_billed) = []).
Proof.
  unfold admit_request. destruct (readChatRequest _ _) as [m|req]; [by split_and!; intros; simplify_eq/=|].
  destruct (classify _ _ _ _ _) as [[req1 hd1] rng]. destruct (compress _ _ _) as [req2 hd2].
  destruct (up_ResolveModel _ _); cbn [negb]; [|by split_and!; intros; simplify_eq/=].
  destruct (token_gate _ _ _ _ _) as [[[m hd]|] l]; by split_and!; intros; simplify_eq/=.
Qed.

(** What happens after admission depends on the store and the upstream only
    through the lookup and one upstream call. *)
Lemma serve_plain_cases h e req hd w :
  let '(o, w') := serve_plain h e req hd w in
  (exists cached, (lookup_cache h e req w.(store)).2 = Some cached /\ w' = w /\ o.(out_billed) = [] /\
     o.(out_answer) = AnsJson (ChatResponse.marshal cached)) \/
  ((lookup_cache h e req w.(store)).2 = None /\
   w'.(upstream) = (up_ChatCompletion req w.(upstream)).2 /\
   exists ev, o.(out_billed) = [ev] /\ ev.(Worker.Status) = status_of o.(out_answer) /\
     ev.(Worker.Model) = req.(req_Model) /\ ev.(Worker.RequestID) = e.(rq_id) /\
     ev.(Worker.APIKeyID) = apiKeyIDFrom e.(rq_principal) /\ ev.(Worker.Streamed) = false /\
     ev.(Worker.Provider) = match (up_ChatCompletion req w.(upstream)).1 with
                            | inr resp => resp.(resp_Provider) | inl _ => "" end).
Proof.
  unfold serve_plain. destruct (lookup_cache h e req (store w)) as [key [cached|]]; [left; by exists cached|].
  destruct (up_ChatCompletion req (upstream w)) as [[err|resp] u].
  - right. split_and!; [done..|]. by eexists.
  - destruct (tokenCounts _ _ _) as [p c].
    match goal with |- context [if ?b then _ else _] => destruct b end;
      right; (split_and!; [done..|]); by eexists.
Qed.

(** A billing row of a request: who asked, for which model. *)
Definition bills (e : request) (req : ChatRequest) (streamed : bool) (ev : Worker.Event) : Prop :=
  ev.(Worker.RequestID) = e.(rq_id) /\ ev.(Worker.APIKeyID) = apiKeyIDFrom e.(rq_principal) /\
  ev.(Worker.Model) = req.(req_Model) /\ ev.(Worker.Streamed) = streamed.

Lemma serve_streaming_cases h e req hd w :
  let '(o, w') := serve_streaming h e req hd w in
  (exists cached, (lookup_cache h e req w.(store)).2 = Some cached /\ w' = w /\ o.(out_billed) = []) \/
  ((lookup_cache h e req w.(store)).2 = None /\
   w'.(upstream) = (up_ChatCompletionStream req w.(upstream)).2 /\
   ((exists ev, o.(out_billed) = [ev] /\ bills e req true ev /\
       match o.(out_answer) with
       | AnsError r => ev.(Worker.Status) = r.(code)
       | AnsJson _ => False
       | AnsSse _ => exists evs, (up_ChatCompletionStream req w.(upstream)).1 = inr evs /\
           (ev.(Worker.Status), ev.(Worker.ErrorCode)) = stream_ending e.(rq_wire) evs
       end) \/
    (e.(rq_flusher) = false /\ (exists evs, (up_ChatCompletionStream req w.(upstream)).1 = inr evs) /\
     o.(out_billed) = [] /\ status_of o.(out_answer) = 500))).
Proof.
  unfold serve_streaming. destruct (lookup_cache h e req (store w)) as [key [cached|]].
  { destruct (rq_flusher e); left; by exists cached. }
  destruct (up_ChatCompletionStream req (upstream w)) as [[err|evs] u].
  - right. split_and!; [done..|]. left. by eexists.
  - unfold handleChatStream. cbn [stream_env flusher wire reqID ctx1 ctx2 wall].
    destruct (rq_flusher e) eqn:Hf; cbn [negb]; [|right; split_and!; [done..|]; right; split_and!; [done|by eexists|done..]].
    pose proof (relay_ending evs (rq_id e) stats0 {| outcomes := rq_wire e; sent := [] |}) as Hend.
    destruct (relay evs (rq_id e) stats0 _) as [[[st code] s'] k'] eqn:Er. cbn [fst outcomes] in Hend.
    destruct (stream_tokenCounts _ _ _) as [p c]. cbn [cache_set billed].
    match goal with |- context [if ?b then Some _ else None] => destruct b end;
      right; (split_and!; [done..|]); left; eexists; (split_and!; [done..|]); exists evs; by split.
Qed.

(** A request that does not need the router: it is refused, or the cache has its
    answer. *)
Definition unrouted (h : handler) (e : request) (w : world) (o : outcome) : Prop :=
  match admit_request h e w with
  | (inl refusal, _) => o = refusal
  | (inr (req, _), _) => exists cached, (lookup_cache h e req w.(store)).2 = Some cached
  end.

(** What the billing worker makes of the events of a request, handed over as the
    last act of the handler. *)
Definition emit_all (now : Z) (bill : option Worker.Worker) (evs : list Worker.Event)
    : option (option Worker.Worker) :=
  fold_left (fun b ev => b ≫= fun b => emitBillingEvent now b ev) evs (Some bill).

Definition room (wk : Worker.Worker) : bool :=
  Z.of_nat (length wk.(Worker.ch)) <? wk.(Worker.cfg).(Worker.BufferSize).

(** A running worker takes an event when its queue has room, and otherwise
    counts it as dropped. *)
Lemma emit_one now wk evs :
  wk.(Worker.closed) = false -> (length evs <= 1)%nat ->
  exists wk', emit_all now (Some wk) evs = Some (Some wk') /\
    wk'.(Worker.accepted) = wk.(Worker.accepted) ++ (if room wk then Worker.stamp now <$> evs else []) /\
    wk'.(Worker.dropped) = wk.(Worker.dropped) + (if room wk then 0 else Z.of_nat (length evs)).
Proof.
  intros Hcl Hl. destruct evs as [|ev [|? ?]]; [exists wk|clear Hl|cbn in Hl; lia].
  - cbn. destruct (room wk); rewrite app_nil_r, Z.add_0_r; done.
  - unfold emit_all, emitBillingEvent, Worker.Enqueue, room. cbn. rewrite Hcl.
    destruct (_ <? _); eexists; (split; [reflexivity|]); cbn; split; [done|lia|by rewrite app_nil_r|lia].
Qed.

(** C7: Billing follows the router, once.  A request that is refused before the
    router (malformed, unknown model, over a token limit) or answered from the
    cache changes neither the upstreams nor the cache and is not billed.  Any
    other request makes exactly one router call, for the routed and compressed
    request.  A plain one produces exactly one billing event, with that model,
    the caller's key and request id and the status the client was sent.  A
    streaming one that fails before the stream starts is billed the same way;
    once the stream has started the client has its 200 whatever follows, and the
    row has the status and code of the stream's first error event if the client
    took all chunks before it, and 200 otherwise.  The one routed request that is
    not billed is a stream that started on a connection that cannot be flushed,
    which is answered 500.  The event is handed to the worker: while that is
    open it accepts the event if its queue has room and counts it as dropped if
    not. *)
Theorem chat_billed_iff_routed h e w :
  let '(o, w') := chatCompletionsHandler h e w in
  ((unrouted h e w o /\ w'.(upstream) = w.(upstream) /\ w'.(store) = w.(store) /\ o.(out_billed) = []) \/
   exists req hd w1, admit_request h e w = (inr (req, hd), w1) /\
     (lookup_cache h e req w.(store)).2 = None /\
     if req.(req_Stream) then
       w'.(upstream) = (up_ChatCompletionStream req w.(upstream)).2 /\
       ((exists ev, o.(out_billed) = [ev] /\ bills e req true ev /\
           match o.(out_answer) with
           | AnsError r => ev.(Worker.Status) = r.(code)
           | AnsJson _ => False
           | AnsSse _ => exists evs, (up_ChatCompletionStream req w.(upstream)).1 = inr evs /\
               (ev.(Worker.Status), ev.(Worker.ErrorCode)) = stream_ending e.(rq_wire) evs
           end) \/
        (e.(rq_flusher) = false /\ (exists evs, (up_ChatCompletionStream req w.(upstream)).1 = inr evs) /\
         o.(out_billed) = [] /\ status_of o.(out_answer) = 500))
     else
       w'.(upstream) = (up_ChatCompletion req w.(upstream)).2 /\
       exists ev, o.(out_billed) = [ev] /\ bills e req false ev /\
         ev.(Worker.Status) = status_of o.(out_answer)) /\
  forall now wk, wk.(Worker.closed) = false ->
    exists wk', emit_all now (Some wk) o.(out_billed) = Some (Some wk') /\
      wk'.(Worker.accepted) =
        wk.(Worker.accepted) ++ (if room wk then Worker.stamp now <$> o.(out_billed) else []) /\
      wk'.(Worker.dropped) = wk.(Worker.dropped) + (if room wk then 0 else Z.of_nat (length o.(out_billed))).
Proof.
  unfold chatCompletionsHandler. destruct (admit_request_inert h e w) as (Hu & Hs & Hb).
  unfold unrouted. destruct (admit_request h e w) as [[o|[req hd]] w1]; cbn [fst snd] in *.
  { rewrite (Hb o eq_refl). split; [left; by auto|]. intros. by apply emit_one; [|cbn; lia]. }
  rewrite <- Hu, <- Hs. destruct (req_Stream req) eqn:Hstr.
  - pose proof (serve_streaming_cases h e req hd w1) as H. destruct (serve_streaming h e req hd w1) as [o w'].
    destruct H as [(c & Hc & -> & Hb')|(Hl & Hup & H)].
    { rewrite Hb'. split; [left; split_and!; [by exists c|done..]|]. intros. by apply emit_one; [|cbn; lia]. }
    split; [right; exists req, hd, w1; by rewrite Hstr|]. intros now wk Hcl. apply emit_one; [done|].
    destruct H as [(ev & -> & _)|(_ & _ & -> & _)]; cbn; lia.
  - pose proof (serve_plain_cases h e req hd w1) as H. destruct (serve_plain h e req hd w1) as [o w'].
    destruct H as [(c & Hc & -> & Hb' & _)|(Hl & Hup & ev & Hev & H)].
    { rewrite Hb'. split; [left; split_and!; [by exists c|done..]|]. intros. by apply emit_one; [|cbn; lia]. }
    split; [|intros now wk Hcl; apply emit_one; [done|by rewrite Hev; cbn; lia]].
    right. exists req, hd, w1. rewrite Hstr. split_and!; [done..|].
    destruct H as (? & ? & ? & ? & ? & _). exists ev. by split_and!.
Qed.

(** ** Failing open *)

Definition redis_down (err : error) (o : db_outcome) (e : request) : request :=
  {| rq_body := e.(rq_body); rq_principal := e.(rq_principal); rq_id := e.(rq_id);
     rq_started := e.(rq_started); rq_latency := e.(rq_latency); rq_wall := e.(rq_wall);
     rq_flusher := e.(rq_flusher); rq_ctx1 := e.(rq_ctx1); rq_ctx2 := e.(rq_ctx2);
     rq_wire := e.(rq_wire); rq_get_err := Some err; rq_lookup := e.(rq_lookup);
     rq_set := o; rq_store := e.(rq_store) |}.

Definition no_limits (h : handler) : handler :=
  {| tk := h.(tk); exactCache := h.(exactCache); cacheTTL := h.(cacheTTL);
     classifier := h.(classifier); compressor := h.(compressor); rl := [] |}.

Definition same_upstream (x y : outcome * world) : Prop :=
  x.1 = y.1 /\ x.2.(upstream) = y.2.(upstream) /\ x.2.(rolls) = y.2.(rolls).

Lemma lookup_down h e err o req r :
  lookup_cache h (redis_down err o e) req r = lookup_cache h e req ∅.
Proof.
  unfold lookup_cache. destruct (exactCache h); [|done]. destruct (Key (Some req)) as [|key]; [done|].
  f_equal. cbn [redis_down rq_get_err]. unfold Get, redis_get. rewrite lookup_empty.
  destruct (Is err RedisNil); by destruct (rq_get_err e) as [e0|]; [destruct (Is e0 RedisNil)|].
Qed.

Lemma lookup_cache_rl h e req r : lookup_cache (no_limits h) e req r = lookup_cache h e req r.
Proof. done. Qed.

(** The branches see the store only through the lookup, and answer before they
    store. *)
Lemma serve_plain_store h e err o req hd w w' :
  w.(upstream) = w'.(upstream) -> w.(rolls) = w'.(rolls) -> w'.(store) = ∅ ->
  same_upstream (serve_plain h (redis_down err o e) req hd w) (serve_plain (no_limits h) e req hd w').
Proof.
  intros Hu Hr Hs. unfold serve_plain. rewrite lookup_down, Hs, Hu.
  change (lookup_cache (no_limits h) e req ∅) with (lookup_cache h e req ∅).
  destruct (lookup_cache h e req ∅) as [key [cached|]]; [by split_and!|].
  destruct (up_ChatCompletion req (upstream w')) as [[err'|resp] u]; [by split_and!|].
  change (tokenCounts (tk (no_limits h)) req (Some resp)) with (tokenCounts (tk h) req (Some resp)).
  change (cacheTTL (no_limits h)) with (cacheTTL h).
  destruct (tokenCounts _ _ _) as [p c].
  by match goal with |- context [if ?b then with_store _ _ else _] => destruct b end; split_and!.
Qed.

Lemma serve_streaming_store h e err o req hd w w' :
  w.(upstream) = w'.(upstream) -> w.(rolls) = w'.(rolls) -> w'.(store) = ∅ ->
  same_upstream (serve_streaming h (redis_down err o e) req hd w) (serve_streaming (no_limits h) e req hd w').
Proof.
  intros Hu Hr Hs. unfold serve_streaming. rewrite lookup_down, Hs, Hu.
  change (lookup_cache (no_limits h) e req ∅) with (lookup_cache h e req ∅).
  destruct (lookup_cache h e req ∅) as [key [cached|]].
  { cbn [redis_down rq_flusher]. destruct (rq_flusher e); by split_and!. }
  destruct (up_ChatCompletionStream req (upstream w')) as [res u].
  change (stream_env (redis_down err o e)) with (stream_env e).
  change (tk (no_limits h)) with (tk h). change (cacheTTL (no_limits h)) with (cacheTTL h).
  change (exactCache (no_limits h)) with (exactCache h).
  destruct (handleChatStream _ _ _ _ _ _ _) as [[m|frames] [[[k resp]|] bl]]; by split_and!.
Qed.

(** C20: A broken Redis or a broken limiter backend never costs an answer.  When
    every Redis read fails, writes fare as they may, and every token limiter
    returns an error, the client receives exactly the response (headers, body,
    billing) it would get from the same gateway with an empty cache and no
    token limits, and the upstreams see the same calls. *)
Theorem chat_fail_open h e w err o :
  (forall kctx n l, exists err' l', CheckTokens h.(rl) kctx n l = (inl err', l')) ->
  same_upstream (chatCompletionsHandler h (redis_down err o e) w)
    (chatCompletionsHandler (no_limits h) e (with_store ∅ w)).
Proof.
  intros Hrl. unfold chatCompletionsHandler, admit_request.
  cbn [redis_down rq_body rq_principal rq_id with_store rolls].
  destruct (readChatRequest _ _) as [m|req]; [by split_and!|].
  change (classify (no_limits h)) with (classify h).
  destruct (classify _ _ _ _ _) as [[req1 hd1] rng].
  change (compress (no_limits h)) with (compress h).
  destruct (compress _ _ _) as [req2 hd2]. cbn [with_rolls upstream limits].
  destruct (up_ResolveModel _ _); cbn [negb]; [|by split_and!].
  assert (Hg : forall l, exists l', token_gate h (rq_principal e) req2 hd2 l = (None, l')).
  { intros l. unfold token_gate. destruct (tk h) as [For|]; [|by eexists].
    destruct (rl h) as [|r rs] eqn:E; [by eexists|]. rewrite <- E in *.
    match goal with |- context [CheckTokens _ ?k ?n l] => destruct (Hrl k n l) as (err' & l' & ->) end.
    by eexists. }
  destruct (Hg (limits w)) as [l' ->].
  assert (Hn : forall l, token_gate (no_limits h) (rq_principal e) req2 hd2 l = (None, l)).
  { intros l. unfold token_gate. by destruct (tk (no_limits h)). }
  rewrite Hn. destruct (req_Stream req2); [by apply serve_streaming_store|by apply serve_plain_store].
Qed.

(** ** Serving the second request from the cache *)

Context `{!FloatTextLaws}.

Lemma marshal_put_Provider n resp : ChatResponse.marshal (ChatResponse.put_Provider n resp) = ChatResponse.marshal resp.
Proof. done. Qed.

(** C21: Cached answers are the upstream's answers.  When a plain request was
    answered by the upstream and its response passed the gate, a later request
    that is admitted with the same fields before the TTL has run out gets the
    same body with no router call and no billing row, on the word of the cache
    alone. *)
Theorem chat_second_request h e1 e2 w1 req hd1 hd2 wa wb resp u key :
  admit_request h e1 w1 = (inr (req, hd1), wa) -> req.(req_Stream) = false ->
  lookup_cache h e1 req w1.(store) = (key, None) -> key <> "" ->
  up_ChatCompletion req w1.(upstream) = (inr resp, u) -> ChatResponse.wf resp ->
  0 < h.(cacheTTL) -> shouldCacheResponse (Some resp) (tokenCounts h.(tk) req (Some resp)).1 = true ->
  e1.(rq_set) = DbOk ->
  let '(o1, w2) := chatCompletionsHandler h e1 w1 in
  admit_request h e2 w2 = (inr (req, hd2), wb) ->
  e2.(rq_get_err) = None -> e2.(rq_lookup) < e1.(rq_store) + h.(cacheTTL) ->
  let '(o2, w3) := chatCompletionsHandler h e2 w2 in
  o2.(out_answer) = o1.(out_answer) /\ status_of o2.(out_answer) = 200 /\
  o2.(out_headers) !! "X-X-Beacon-Cache" = Some "hit" /\
  o2.(out_billed) = [] /\ w3.(upstream) = w2.(upstream) /\ w3.(store) = w2.(store).
Proof.
  intros Ha Hst Hl Hk Hup Hwf Httl Hsc Hset. unfold chatCompletionsHandler at 1.
  destruct (admit_request_inert h e1 w1) as (Hu & Hs & _). rewrite Ha in *. cbn [fst snd] in Hu, Hs.
  rewrite Hst. unfold serve_plain at 1. rewrite Hs, Hl, Hu, Hup.
  destruct (tokenCounts (tk h) req (Some resp)) as [p c] eqn:Et. cbn [fst] in Hsc.
  rewrite bool_decide_false, (proj2 (Z.ltb_lt _ _)), Hsc, Hset by done. cbn [negb andb].
  intros Ha2 Hge Hlt. unfold chatCompletionsHandler.
  match type of Ha2 with admit_request _ _ ?w = _ =>
    destruct (admit_request_inert h e2 w) as (Hu2 & Hs2 & _) end.
  rewrite Ha2 in *. cbn [fst snd] in Hu2, Hs2. rewrite Hst. unfold serve_plain.
  assert (Hl2 : lookup_cache h e2 req (store wb) = (key, Some (ChatResponse.put_Provider "" resp))).
  { unfold lookup_cache in *. destruct (exactCache h); [|by simplify_eq].
    destruct (Key (Some req)) as [|key']; [by simplify_eq|]. simplify_eq. f_equal.
    rewrite Hs2, Hge. cbn [with_store with_upstream store]. unfold Cache.Set_.
    rewrite (proj2 (Z.leb_gt _ _)) by lia.
    destruct (ChatResponse.response_wire_roundtrip resp Hwf) as (j & -> & Hj). cbn [snd].
    unfold Get, redis_get. rewrite lookup_insert_eq, (proj2 (Z.ltb_lt _ _)) by lia.
    cbn [mbind option_bind]. by rewrite Hj. }
  rewrite Hl2. cbn [out_answer out_headers out_billed]. rewrite marshal_put_Provider.
  split_and!; try done. unfold json_header. by rewrite lookup_insert_ne, lookup_insert_eq by done.
Qed.
End Handler.

Module Example.
#[local] Existing Instance Keystore.toy_digest.
#[local] Existing Instance Wire.Example.coded.
#[local] Existing Instance Wire.Example.coded_laws.
#[local] Existing Instance Syntax.Marshal.
#[local] Existing Instance Syntax.Unmarshal.
#[local] Instance toy : Tokenizer openai_only := openai_impl Compressor.toy_Encode.

(** An upstream that answers everything and counts its calls. *)
#[local] Instance counting : Upstream nat := {
  up_ResolveModel _ m := bool_decide (m = "gpt-4o");
  up_ChatCompletion _ n := (inr Wire.Example.sample_response, S n);
  up_ChatCompletionStream _ n := (inr [Chunk Wire.Example.sample_chunk], S n)
}.

Definition id_text (s : string) : string := s.

(** A token rule whose backend is down. *)
Definition broken_rule : Rule unit :=
  Build_Rule "tpm" [KeyByAPIKey] (fun _ _ w => (inl (Foreign "dial tcp: refused" []), w)) (Some UnitTokens).

Definition h (rules : list (Rule unit)) : handler (T := openai_only) (W := unit) :=
  {| tk := Some (fun _ => the_openai); exactCache := true; cacheTTL := 60; classifier := None;
     compressor := None; rl := rules |}.

Definition body (stream : bool) : string :=
  Syntax.Marshal (JObject (Wire.Example.sample_json ++
    [("messages", JArray Wire.Example.sample_items); ("stream", JBool stream)])).

Definition asked (stream : bool) (at_ : Z) : request :=
  {| rq_body := Some {| raw := body stream; broken := false |}; rq_principal := None; rq_id := "r1";
     rq_started := at_; rq_latency := 1; rq_wall := 0; rq_flusher := true; rq_ctx1 := false;
     rq_ctx2 := false; rq_wire := []; rq_get_err := None; rq_lookup := at_; rq_set := DbOk;
     rq_store := at_ |}.
Definition ask : Z -> request := asked false.

Definition w0 : world (U := nat) (W := unit) := {| limits := tt; store := ∅; upstream := 0%nat; rolls := [] |}.

(** An upstream whose stream breaks after one chunk. *)
Definition breaking : Upstream nat := {|
  up_ResolveModel _ m := bool_decide (m = "gpt-4o");
  up_ChatCompletion _ n := (inr Wire.Example.sample_response, S n);
  up_ChatCompletionStream _ n :=
    (inr [Chunk Wire.Example.sample_chunk; Err ErrRateLimited; Chunk Wire.Example.sample_chunk], S n)
|}.

Definition open_worker : Worker.Worker :=
  {| Worker.cfg := Worker.one_consumer; Worker.ch := []; Worker.closed := false; Worker.started := true;
     Worker.canceled := false; Worker.idle := 1; Worker.busy := []; Worker.exited := 0; Worker.dropped := 0;
     Worker.written := 0; Worker.partOK := ∅; Worker.rows := []; Worker.accepted := []; Worker.failed := [];
     Worker.lost := [] |}.

(** The client of a broken stream has a 200 and one frame before the error
    frame, and the row the worker accepts has the error's 429. *)
Lemma chat_billed_iff_routed_witness :
  let o := (chatCompletionsHandler (Upstream0 := breaking) id_text id_text id_text (h []) (asked true 5) w0).1 in
  status_of o.(out_answer) = 200 /\
  exists ev wk wk', o.(out_billed) = [ev] /\ ev.(Worker.Status) = 429 /\
    emit_all 6 (Some wk) o.(out_billed) = Some (Some wk') /\ wk'.(Worker.accepted) = [ev].
Proof.
  pose proof (chat_billed_iff_routed (Upstream0 := breaking) id_text id_text id_text (h []) (asked true 5) w0) as H.
  destruct (chatCompletionsHandler (Upstream0 := breaking) id_text id_text id_text (h []) (asked true 5) w0)
    as [o w'] eqn:Eo.
  destruct H as [_ He]. vm_compute in Eo. injection Eo as <- _. split; [reflexivity|].
  destruct (He 6 open_worker eq_refl) as (wk' & E1 & E2 & _).
  do 3 eexists. split; [reflexivity|]. split; [reflexivity|]. split; [exact E1|exact E2].
Defined.

Lemma chat_fail_open_witness :
  same_upstream
    (chatCompletionsHandler id_text id_text id_text (h [broken_rule]) (redis_down (Foreign "EOF" []) DbOk (ask 5)) w0)
    (chatCompletionsHandler id_text id_text id_text (no_limits (h [broken_rule])) (ask 5) (with_store ∅ w0)).
Proof.
  apply (chat_fail_open id_text id_text id_text (h [broken_rule]) (ask 5) w0 (Foreign "EOF" []) DbOk).
  intros kctx n l. exists (Foreign "dial tcp: refused" []), l. reflexivity.
Defined.

Definition admitted : ChatRequest :=
  match (admit_request id_text id_text id_text (h []) (ask 5) w0).1 with
  | inr (req, _) => req | inl _ => Wire.Example.sample end.

Definition w1 : world (U := nat) (W := unit) :=
  (chatCompletionsHandler id_text id_text id_text (h []) (ask 5) w0).2.

Lemma admitted_ask at_ w :
  w.(rolls) = [] -> admit_request id_text id_text id_text (h []) (ask at_) w = (inr (admitted, ∅), w).
Proof. intros Hr. destruct w as [[] r u l]. cbn in Hr. subst l. by vm_compute. Qed.

Lemma chat_second_request_witness :
  (chatCompletionsHandler id_text id_text id_text (h []) (ask 20) w1).2.(upstream) = 1%nat.
Proof.
  pose proof (chat_second_request id_text id_text id_text (h []) (ask 5) (ask 20) w0 admitted ∅ ∅ w0 w1
    Wire.Example.sample_response 1%nat (lookup_cache (h []) (ask 5) admitted ∅).1) as H.
  destruct (chatCompletionsHandler id_text id_text id_text (h []) (ask 5) w0) as [o1 w2] eqn:E1.
  assert (Hw : w2 = w1) by (unfold w1; by rewrite E1). subst w2.
  destruct (chatCompletionsHandler id_text id_text id_text (h []) (ask 20) w1) as [o2 w3].
  destruct H as (_ & _ & _ & _ & Hu & _).
  - by apply admitted_ask.
  - by vm_compute.
  - by vm_compute.
  - by vm_compute.
  - by vm_compute.
  - exact Wire.Example.sample_response_wf.
  - by vm_compute.
  - by vm_compute.
  - by vm_compute.
  - apply admitted_ask. by vm_compute.
  - by vm_compute.
  - by vm_compute.
  - cbn. rewrite Hu. by vm_compute.
Defined.
End Example.
