(* ===== verification/Http.v ===== *)
(** * Http: the middleware chain and the route table

    [internal/server/middleware] and [internal/server/server.go].  A handler
    is a function of the request and the server state; what it does to the
    [http.ResponseWriter] is the ordered list of its effects, interpreted by
    the rules of net/http (the first status wins, a body write implies 200).
    Header maps are keyed by canonical names.  Trace spans have no effect on
    the response: the [Tracing] middleware is the identity. *)

From S2P Require Import Prelude GoStd Errors Types Encoding JsonSyntax Wire Auth RateLimit.
From stdpp Require Import base list gmap.
Local Open Scope Z_scope.

(** ** Requests, effects, handlers *)

Inductive logline :=
  | LAccess (method path : string) (status : Z) (reqID : string)
  | LPanic (reqID : string).

Inductive payload := PJson (j : json) | PText (s : string).

Inductive effect :=
  | ESet (k v : string)
  | EAdd (k v : string)
  | EWriteHeader (status : Z)
  | EWrite (p : payload)
  | EFlush
  | ELog (l : logline).

Record hreq := {
  Method : string; Path : string; Header : gmap string string;
  ctx_principal : option Principal; ctx_reqID : option string
}.

Definition header_Get (h : gmap string string) (k : string) : string := default "" (h !! k).

Definition WithPrincipal (p : Principal) (r : hreq) : hreq :=
  {| Method := r.(Method); Path := r.(Path); Header := r.(Header); ctx_principal := Some p;
     ctx_reqID := r.(ctx_reqID) |}.
Definition PrincipalFrom (r : hreq) : option Principal := r.(ctx_principal).

Definition WithRequestID (id : string) (r : hreq) : hreq :=
  {| Method := r.(Method); Path := r.(Path); Header := r.(Header);
     ctx_principal := r.(ctx_principal); ctx_reqID := Some id |}.
Definition RequestIDFrom (r : hreq) : string := default "" r.(ctx_reqID).

(** [abort] is a panic with [http.ErrAbortHandler]. *)
Inductive completion := Returned | Panicked (abort : bool).

Definition handler (S : Type) : Type := hreq -> S -> completion * list effect * S.

(** ** The connection under it *)

Record writer := {
  live : gmap string (list string);
  head_sent : option (Z * gmap string (list string));
  sent_body : list payload
}.

Definition new_writer : writer := {| live := ∅; head_sent := None; sent_body := [] |}.

Definition write_head (c : Z) (w : writer) : writer :=
  match w.(head_sent) with
  | None => {| live := w.(live); head_sent := Some (c, w.(live)); sent_body := w.(sent_body) |}
  | Some _ => w
  end.

Definition apply_effect (w : writer) (e : effect) : writer :=
  match e with
  | ESet k v => {| live := <[k := [v]]> w.(live); head_sent := w.(head_sent);
                   sent_body := w.(sent_body) |}
  | EAdd k v => {| live := <[k := default [] (w.(live) !! k) ++ [v]]> w.(live);
                   head_sent := w.(head_sent); sent_body := w.(sent_body) |}
  | EWriteHeader c => write_head c w
  | EWrite p => let w := write_head 200 w in
                {| live := w.(live); head_sent := w.(head_sent); sent_body := w.(sent_body) ++ [p] |}
  | EFlush => write_head 200 w
  | ELog _ => w
  end.

Definition apply_effects (es : list effect) (w : writer) : writer := fold_left apply_effect es w.

(** A handler that returns without writing is answered 200. *)
Definition wire_status (w : writer) : Z :=
  match w.(head_sent) with Some (c, _) => c | None => 200 end.

Section Middleware.
Context {S : Type}.
Implicit Types (next : handler S) (r : hreq).

(** ** RequestID *)

Definition HeaderRequestID : string := "X-Request-Id".
Definition maxInboundLen : nat := 128.

(** The ID of a request: its own, or a fresh UUID. *)
Definition request_id (NewString : S -> string * S) r (s : S) : string * S :=
  let id := header_Get r.(Header) HeaderRequestID in
  if bool_decide (id = "") || (maxInboundLen <? String.length id)%nat then NewString s else (id, s).

Definition RequestID (NewString : S -> string * S) next : handler S := fun r s =>
  let '(id, s) := request_id NewString r s in
  let '(c, es, s) := next (WithRequestID id r) s in
  (c, ESet HeaderRequestID id :: es, s).

(** ** Recovery *)

Definition recovery_body : payload :=
  PJson (JObject [("error", JObject [("message", JString "internal server error");
                                     ("type", JString "internal_error")])]).

Definition Recovery next : handler S := fun r s =>
  let '(c, es, s) := next r s in
  match c with
  | Returned => (Returned, es, s)
  | Panicked true => (Panicked true, es, s)
  | Panicked false =>
      (Returned, es ++ [ELog (LPanic (RequestIDFrom r)); ESet "Content-Type" "application/json";
                        EWriteHeader 500; EWrite recovery_body], s)
  end.

(** ** Logging *)

(** [loggingResponseWriter]: its fields and what it forwards. *)
Record loggingResponseWriter := { lrw_status : Z; wroteHeader : bool }.

Definition newLoggingResponseWriter : loggingResponseWriter :=
  {| lrw_status := 200; wroteHeader := false |}.

Definition lrw_effect (l : loggingResponseWriter) (e : effect) : loggingResponseWriter * list effect :=
  match e with
  | EWriteHeader c =>
      if l.(wroteHeader) then (l, [])
      else ({| lrw_status := c; wroteHeader := true |}, [EWriteHeader c])
  | EWrite p => ({| lrw_status := l.(lrw_status); wroteHeader := true |}, [EWrite p])
  | _ => (l, [e])
  end.

Fixpoint lrw_effects (l : loggingResponseWriter) (es : list effect)
    : loggingResponseWriter * list effect :=
  match es with
  | [] => (l, [])
  | e :: es =>
      let '(l, out) := lrw_effect l e in
      let '(l, rest) := lrw_effects l es in (l, out ++ rest)
  end.

Definition Logging (skip : list string) next : handler S := fun r s =>
  if bool_decide (r.(Path) ∈ skip) then next r s
  else
    let '(c, es, s) := next r s in
    let '(l, out) := lrw_effects newLoggingResponseWriter es in
    match c with
    | Returned =>
        (Returned, out ++ [ELog (LAccess r.(Method) r.(Path) l.(lrw_status) (RequestIDFrom r))], s)
    | Panicked _ => (c, out, s)
    end.

(** ** CORS *)

Definition corsMaxAgeSeconds : Z := 600.

Definition cors_allowed (origins : list string) : gset string :=
  list_to_set (List.filter (fun o => negb (bool_decide (o = ""))) origins).

Definition CORS (allowedOrigins : list string) next : handler S := fun r s =>
  let origin := header_Get r.(Header) "Origin" in
  let es :=
    (if bool_decide (origin = "") then [] else [EAdd "Vary" "Origin"]) ++
    (if bool_decide (origin ∈ cors_allowed allowedOrigins) && negb (bool_decide (origin = "")) then
       [ESet "Access-Control-Allow-Origin" origin;
        ESet "Access-Control-Allow-Credentials" "true";
        ESet "Access-Control-Allow-Methods" "GET, POST, PUT, DELETE, OPTIONS";
        ESet "Access-Control-Allow-Headers" "Authorization, Content-Type";
        ESet "Access-Control-Max-Age" (Strconv.Itoa corsMaxAgeSeconds)]
     else []) in
  if bool_decide (r.(Method) = "OPTIONS") then (Returned, es ++ [EWriteHeader 204], s)
  else let '(c, es', s) := next r s in (c, es ++ es', s).

(** ** Auth *)

(** [bearerToken]; the scheme has no letter with a fold outside ASCII. *)
Definition bearerToken (header : string) : option string :=
  if (String.length header <=? 7)%nat then None
  else if negb (bool_decide (Strings.ToLowerASCII (Strings.slice_to 7 header) = "bearer ")) then None
  else
    let token := Strings.TrimSpace (Strings.slice_from 7 header) in
    if bool_decide (token = "") then None else Some token.

Definition credentialFrom r : option string :=
  match bearerToken (header_Get r.(Header) "Authorization") with
  | Some key => Some key
  | None => let key := Strings.TrimSpace (header_Get r.(Header) "X-Api-Key") in
            if bool_decide (key = "") then None else Some key
  end.

Definition error_json (type code message : string) : json :=
  JObject [("error", JObject [("code", of_string code); ("message", of_string message);
                              ("type", of_string type)])].

Definition writeAuthError (status : Z) (code message : string) : list effect :=
  [ESet "Content-Type" "application/json"; EWriteHeader status;
   EWrite (PJson (error_json "authentication_error" code message))].

Definition Auth (Authenticate : string -> S -> (error + Principal) * S) next : handler S := fun r s =>
  match credentialFrom r with
  | None =>
      (Returned, writeAuthError 401 "missing_credentials"
         "Missing credentials (expected: Authorization: Bearer <key>, or x-api-key header)", s)
  | Some key =>
      let '(res, s) := Authenticate key s in
      match res with
      | inl err =>
          (Returned,
           if Is err ErrMissingCredentials then
             writeAuthError 401 "missing_credentials" "Missing Authorization header (expected: Bearer <key>)"
           else if Is err ErrInvalidCredentials then
             writeAuthError 401 "invalid_credentials" "Invalid API key"
           else writeAuthError 500 "internal_error" "Authentication backend error", s)
      | inr principal => next (WithPrincipal principal r) s
      end
  end.

(** ** RequireScope *)

Definition writeScopeError (category value : string) : list effect :=
  [ESet "Content-Type" "application/json"; EWriteHeader 403;
   EWrite (PJson (error_json "permission_error" "insufficient_scope"
                    ("API key lacks required scope " +:+ category +:+ ":" +:+ value)))].

Definition RequireScope (category value : string) next : handler S := fun r s =>
  if HasScope (PrincipalFrom r) category value then next r s
  else (Returned, writeScopeError category value, s).
End Middleware.

(** [jsonEncode]: how the handlers put a JSON body on the wire; the encoder
    writes a newline after the value. *)
Definition jsonEncode (v : json) : string := Syntax.MarshalRaw v +:+ String (ascii_of_byte 10) "".

Lemma jsonEncode_reads v :
  Syntax.json_ok Syntax.maxNestingDepth v = true -> Syntax.Unmarshal (jsonEncode v) = Some v.
Proof. intros Hv. by apply Syntax.Unmarshal_print. Qed.

(** ** Health and readiness *)

Definition healthzHandler {S} : handler S := fun _ s =>
  (Returned, [EWriteHeader 200; EWrite (PText ("ok" +:+ String (ascii_of_byte 10) ""))], s).

(** What the checks found: the name of each and its error text, in order. *)
Definition check_body (ok : bool) (err : string) : json :=
  JObject (("ok", JBool ok) :: if bool_decide (err = "") then [] else [("error", of_string err)]).

Definition readyz_body (ready : bool) (checks : gmap string json) : payload :=
  PJson (JObject [("ready", JBool ready); ("checks", Json.of_map checks)]).

Definition readyzHandler {S} (checkers : list (string * (S -> option string * S))) (draining : S -> bool)
    : handler S := fun _ s =>
  let reply status ready checks :=
    [ESet "Content-Type" "application/json"; EWriteHeader status; EWrite (readyz_body ready checks)] in
  if draining s then
    (Returned, reply 503 false {["draining" := check_body false "server is shutting down"]}, s)
  else
    let '(results, allOK, s) :=
      fold_left (fun '(results, allOK, s) '(name, check) =>
        let '(err, s) := check s in
        (<[name := check_body (negb (bool_decide (is_Some err))) (default "" err)]> results,
         allOK && negb (bool_decide (is_Some err)), s)) checkers (∅, true, s) in
    (Returned, reply (if allOK : bool then 200 else 503) allOK results, s).

(** ** The route table *)

Inductive endpoint :=
  | Healthz | Readyz | Metrics_
  | Models | ChatCompletions | Messages
  | AdminPricing | AdminKeys | AdminAudit | AdminLogs
  | AdminStatsSummary | AdminStatsTimeseries | AdminStatsCache
  | AdminMe | AdminRoutingRules | AdminProviders | AdminProvidersReload | AdminRateLimitRules.

Definition is_admin (ep : endpoint) : bool :=
  match ep with
  | Healthz | Readyz | Metrics_ | Models | ChatCompletions | Messages => false
  | _ => true
  end.

Definition is_v1 (ep : endpoint) : bool :=
  match ep with Models | ChatCompletions | Messages => true | _ => false end.

(** Which optional dependencies [Deps] carries. *)
Record Deps := {
  d_Logger : bool; d_Registry : bool; d_MetricsReg : bool; d_Authn : bool; d_Router : bool;
  d_Pricing : bool; d_Keystore : bool; d_StoragePool : bool; d_Stats : bool; d_CacheStats : bool;
  d_Metrics : bool; d_MetricsEnabled : bool; d_MetricsPath : string;
  d_AdminCORSOrigins : list string
}.

Definition errMissingDep (name : string) : error :=
  Errorf ("server: missing dependency: " +:+ name) [] None.

(** The validation at the head of [New]. *)
Definition validateDeps (d : Deps) : option error :=
  if negb d.(d_Logger) then Some (errMissingDep "Logger")
  else if negb d.(d_Registry) then Some (errMissingDep "Registry")
  else if negb d.(d_Router) then Some (errMissingDep "Router")
  else if d.(d_MetricsEnabled) && negb d.(d_MetricsReg) then
    Some (errMissingDep "MetricsReg (required when MetricsEnabled)")
  else None.

(** The server: what it was built with and whether it is draining.  The defaults
    [New] fills in (a service name for the traces, an audit recorder that drops
    everything) are those of [Deps]'s users. *)
Record Server := { srv_deps : Deps; srv_draining : bool }.

Definition New (d : Deps) : error + Server :=
  match validateDeps d with
  | Some e => inl e
  | None => inr {| srv_deps := d; srv_draining := false |}
  end.

Definition StartDraining (s : Server) : Server := {| srv_deps := s.(srv_deps); srv_draining := true |}.
Definition IsDraining (s : Server) : bool := s.(srv_draining).

(** A middleware of a subrouter. *)
Inductive guard := GAuth | GRateLimit | GCORS | GScope (category value : string).

(** The subrouter middlewares of an endpoint, outermost first; [None] when the
    endpoint is not mounted. *)
Definition routes (d : Deps) (ep : endpoint) : option (list guard) :=
  let admin (mounted : bool) (gs : list guard) :=
    if d.(d_Authn) && mounted then Some (GCORS :: GAuth :: gs) else None in
  match ep with
  | Healthz | Readyz => Some []
  | Metrics_ => if d.(d_MetricsEnabled) then Some [] else None
  | Models | ChatCompletions | Messages => Some ((if d.(d_Authn) then [GAuth] else []) ++ [GRateLimit])
  | AdminPricing => admin d.(d_Pricing) [GScope "admin" "pricing"]
  | AdminKeys => admin d.(d_Keystore) [GScope "admin" "webui"]
  | AdminAudit => admin true [GScope "admin" "webui"]
  | AdminLogs => admin d.(d_StoragePool) [GScope "admin" "webui"]
  | AdminStatsSummary | AdminStatsTimeseries =>
      admin (d.(d_Stats) && d.(d_Metrics)) [GScope "admin" "webui"]
  | AdminStatsCache =>
      admin (d.(d_Stats) && d.(d_Metrics) && d.(d_CacheStats)) [GScope "admin" "webui"]
  | AdminMe => admin true []
  | AdminRoutingRules | AdminProviders | AdminProvidersReload | AdminRateLimitRules =>
      admin true [GScope "admin" "webui"]
  end.

(** Once the server drains, /readyz answers 503 and asks no checker; /healthz
    still answers 200, so that only the balancer, not the supervisor, lets go. *)
Lemma draining_unready d srv r (checkers : list (string * (Server -> option string * Server))) :
  New d = inr srv ->
  IsDraining srv = false /\
  (exists es, readyzHandler checkers IsDraining r (StartDraining srv) = (Returned, es, StartDraining srv) /\
     fst <$> (fold_left apply_effect es new_writer).(head_sent) = Some 503) /\
  exists es, healthzHandler r (StartDraining srv) = (Returned, es, StartDraining srv) /\
    fst <$> (fold_left apply_effect es new_writer).(head_sent) = Some 200.
Proof.
  unfold New. destruct (validateDeps d); [done|]. intros [= <-].
  split; [done|]. split; eexists; (split; [reflexivity|]); reflexivity.
Qed.

Section Serve.
Context {S : Type}.
Context (Authenticate : string -> S -> (error + Principal) * S).
Context (rate_limit : handler S -> handler S).
Context (NewString : S -> string * S).

Definition run_guard (d : Deps) (g : guard) (next : handler S) : handler S :=
  match g with
  | GAuth => Auth Authenticate next
  | GRateLimit => rate_limit next
  | GCORS => CORS d.(d_AdminCORSOrigins) next
  | GScope c v => RequireScope c v next
  end.

Definition run_guards (d : Deps) (gs : list guard) (h : handler S) : handler S :=
  foldr (run_guard d) h gs.

Definition skipPaths (d : Deps) : list string :=
  "/healthz" :: if d.(d_MetricsEnabled) then [d.(d_MetricsPath)] else [].

(** The whole chain of a request that the mux resolves to [ep]. *)
Definition serve (d : Deps) (handlers : endpoint -> handler S) (ep : endpoint) : option (handler S) :=
  gs ← routes d ep;
  Some (Recovery (RequestID NewString (Logging (skipPaths d) (run_guards d gs (handlers ep))))).

(** ** Facts *)

(** The credential of the request authenticates as [p], leaving state [s']. *)
Definition authenticates (r : hreq) (s : S) (p : Principal) (s' : S) : Prop :=
  exists key, credentialFrom r = Some key /\ Authenticate key s = (inr p, s').

(** The state the guards start from. *)
Definition after_id (r : hreq) (s : S) : S := (request_id NewString r s).2.

(** The scope an endpoint demands, besides a valid key. *)
Definition demanded (ep : endpoint) : option (string * string) :=
  match ep with
  | AdminPricing => Some ("admin", "pricing")
  | AdminMe => None
  | _ => if is_admin ep then Some ("admin", "webui") else None
  end.

Definition authorized (r : hreq) (s : S) (ep : endpoint) : Prop :=
  exists p s', authenticates r s p s' /\
    match demanded ep with None => True | Some (c, v) => HasScope (Some p) c v = true end.

Lemma routes_admin d ep gs :
  is_admin ep = true -> routes d ep = Some gs ->
  gs = GCORS :: GAuth :: match demanded ep with None => [] | Some (c, v) => [GScope c v] end.
Proof.
  intros Ha. unfold routes. destruct ep; try done;
    (match goal with |- (if ?b then _ else _) = _ -> _ => destruct b end; [|done]); by intros [= <-].
Qed.

Lemma routes_authn d ep gs : is_admin ep = true -> routes d ep = Some gs -> d.(d_Authn) = true.
Proof. unfold routes. by destruct ep, (d_Authn d). Qed.

Lemma guarded_inert d ep h h' r s :
  ~ authorized r s ep ->
  run_guards d (GCORS :: GAuth :: match demanded ep with None => [] | Some (c, v) => [GScope c v] end) h r s =
  run_guards d (GCORS :: GAuth :: match demanded ep with None => [] | Some (c, v) => [GScope c v] end) h' r s.
Proof.
  intros Hna. cbn [run_guards foldr run_guard]. unfold CORS. case_bool_decide; [done|].
  unfold Auth. destruct (credentialFrom r) as [key|] eqn:Hk; [|done].
  destruct (Authenticate key s) as [[err|p] s'] eqn:Hau; [done|].
  destruct (demanded ep) as [[c v]|] eqn:Hd; cbn [foldr run_guard].
  - unfold RequireScope, PrincipalFrom. cbn [ctx_principal WithPrincipal].
    destruct (HasScope (Some p) c v) eqn:Hs; [|done]. exfalso. apply Hna. exists p, s'.
    rewrite Hd. split; [by exists key|done].
  - exfalso. apply Hna. exists p, s'. rewrite Hd. split; [by exists key|done].
Qed.

Lemma v1_inert d ep h h' r s :
  is_v1 ep = true -> ~ authorized r s ep ->
  run_guards d [GAuth; GRateLimit] h r s = run_guards d [GAuth; GRateLimit] h' r s.
Proof.
  intros Hv Hna. cbn [run_guards foldr run_guard]. unfold Auth.
  destruct (credentialFrom r) as [key|] eqn:Hk; [|done].
  destruct (Authenticate key s) as [[err|p] s'] eqn:Hau; [done|].
  exfalso. apply Hna. exists p, s'. split; [by exists key|]. by destruct ep.
Qed.

(** C8: The protected surface is closed.  Unless the request carries a
    credential that authenticates, as a principal holding the scope the endpoint
    demands (admin:pricing, admin:webui, none for /admin/me and /v1), the
    endpoint's handler has no influence whatever: the response and the state
    after the request are the same for every handler that could be mounted
    there.  Without an authenticator nothing under /admin is mounted. *)
Theorem protected_endpoints d handlers handlers' ep r s h :
  is_admin ep || (is_v1 ep && d.(d_Authn)) = true -> serve d handlers ep = Some h ->
  d.(d_Authn) = true /\
  exists h', serve d handlers' ep = Some h' /\ (~ authorized r (after_id r s) ep -> h r s = h' r s).
Proof.
  intros Ha. unfold serve. destruct (routes d ep) as [gs|] eqn:Hr; [|done]. intros [= <-].
  assert (Hauthn : d.(d_Authn) = true).
  { destruct (is_admin ep) eqn:E; [by eapply routes_authn|]. by destruct (is_v1 ep). }
  split; [done|]. eexists. split; [done|]. intros Hna.
  unfold Recovery, RequestID, Logging.
  unfold after_id in Hna. destruct (request_id NewString r s) as [id' s']. cbn [snd] in Hna.
  assert (Hna' : ~ authorized (WithRequestID id' r) s' ep).
  { intros (p & s1 & (key & Hk & Hau) & Hs). apply Hna. exists p, s1. split; [by exists key|done]. }
  assert (Heq : run_guards d gs (handlers ep) (WithRequestID id' r) s' =
                run_guards d gs (handlers' ep) (WithRequestID id' r) s'); [|by rewrite Heq].
  destruct (is_admin ep) eqn:E.
  - rewrite (routes_admin d ep gs E Hr). by apply guarded_inert.
  - destruct (is_v1 ep) eqn:E1; [|done]. assert (gs = [GAuth; GRateLimit]) as ->.
    { unfold routes in Hr. rewrite Hauthn in Hr. destruct ep; try done; by injection Hr. }
    by apply (v1_inert d ep).
Qed.

End Serve.

(** ** The access log *)

(** No flush before the status line, as [sse.New] and every JSON writer do. *)
Fixpoint head_first (es : list effect) : bool :=
  match es with
  | [] => true
  | EFlush :: _ => false
  | EWriteHeader _ :: _ | EWrite _ :: _ => true
  | _ :: es => head_first es
  end.

(** The wrapper's fields agree with the connection under it. *)
Definition lrw_agrees (l : loggingResponseWriter) (w : writer) (es : list effect) : Prop :=
  if l.(wroteHeader) then exists h, w.(head_sent) = Some (l.(lrw_status), h)
  else w.(head_sent) = None /\ l.(lrw_status) = 200 /\ head_first es = true.

Lemma lrw_transparent es l w :
  lrw_agrees l w es ->
  apply_effects (lrw_effects l es).2 w = apply_effects es w /\
  wire_status (apply_effects es w) = (lrw_effects l es).1.(lrw_status).
Proof.
  revert l w. induction es as [|e es IH]; intros [st wrote] w Hag; unfold lrw_agrees in Hag; cbn in Hag.
  - split; [done|]. unfold wire_status. cbn. destruct wrote; [by destruct Hag as [h ->]|].
    destruct Hag as (-> & -> & _). done.
  - cbn [lrw_effects].
    destruct (lrw_effect {| lrw_status := st; wroteHeader := wrote |} e) as [l1 out] eqn:El.
    assert (Hstep : apply_effects out w = apply_effect w e /\ lrw_agrees l1 (apply_effect w e) es).
    { unfold lrw_agrees. destruct wrote; cbn in Hag.
      - destruct Hag as [h Hh]. destruct e; cbn in El; injection El as <- <-; cbn;
          unfold write_head; rewrite ?Hh; cbn; eauto.
      - destruct Hag as (Hh & -> & Hf). destruct e; cbn in El, Hf; try done; injection El as <- <-; cbn;
          unfold write_head; rewrite ?Hh; cbn; eauto. }
    destruct Hstep as [Ho Ha]. destruct (lrw_effects l1 es) as [l2 rest] eqn:El2.
    destruct (IH l1 (apply_effect w e) Ha) as [H1 H2]. rewrite El2 in H1, H2. cbn [fst snd] in *.
    split; [|done]. unfold apply_effects in *. rewrite fold_left_app, Ho. exact H1.
Qed.

Lemma apply_log es l w : apply_effects (es ++ [ELog l]) w = apply_effects es w.
Proof. unfold apply_effects. by rewrite fold_left_app. Qed.

Section Chain.
Context {S : Type}.
Implicit Types (next : handler S).

(** The access log tells the truth and changes nothing: for a handler that
    returns and does not flush before the status line, the client receives
    exactly what it would without the middleware, and the status in the one
    access line is the status on the wire (200 when the handler wrote
    nothing). *)
Theorem logging_exact skip next r s es s' w :
  next r s = (Returned, es, s') -> r.(Path) ∉ skip -> head_first es = true -> w.(head_sent) = None ->
  exists out, Logging skip next r s =
      (Returned, out ++ [ELog (LAccess r.(Method) r.(Path) (wire_status (apply_effects es w))
                                (RequestIDFrom r))], s') /\
    apply_effects (out ++ [ELog (LAccess r.(Method) r.(Path) (wire_status (apply_effects es w))
                                   (RequestIDFrom r))]) w = apply_effects es w.
Proof.
  intros Hn Hp Hf Hw. unfold Logging. rewrite bool_decide_false, Hn by done.
  destruct (lrw_transparent es newLoggingResponseWriter w) as [H1 H2]; [by split_and!|].
  destruct (lrw_effects newLoggingResponseWriter es) as [l out]. cbn [fst snd] in *.
  exists out. rewrite apply_log, H2. by split.
Qed.

(** No panic leaves the chain: whatever the handler does, a served request
    either returns or aborts with [http.ErrAbortHandler], and when the handler
    panicked before anything was written the client gets a 500. *)
Theorem recovery_contains next r s :
  let '(c, es, _) := Recovery next r s in
  c <> Panicked false /\
  ((next r s).1.1 = Panicked false -> c = Returned /\
   forall w, (apply_effects (next r s).1.2 w).(head_sent) = None ->
     wire_status (apply_effects es w) = 500).
Proof.
  unfold Recovery. destruct (next r s) as [[[|[]] es] s']; cbn [fst snd]; (split; [done|]); try done.
  intros _. split; [done|]. intros w Hw. unfold apply_effects in *. rewrite fold_left_app. cbn.
  unfold write_head. cbn. rewrite Hw. done.
Qed.

(** The panic log line of the server's chain never carries the request ID:
    [Recovery] wraps [RequestID], so its request has no ID in its context. *)
Theorem panic_log_anonymous (NewString : S -> string * S) next r s :
  r.(ctx_reqID) = None ->
  (RequestID NewString next r s).1.1 = Panicked false ->
  exists es, (Recovery (RequestID NewString next) r s).1.2 =
    es ++ [ELog (LPanic ""); ESet "Content-Type" "application/json"; EWriteHeader 500;
           EWrite recovery_body].
Proof.
  intros Hr Hp. unfold Recovery. destruct (RequestID NewString next r s) as [[c es] s']. cbn in Hp.
  subst c. cbn [fst snd]. unfold RequestIDFrom. rewrite Hr. by exists es.
Qed.
End Chain.

(** ** Credentials *)

(** Printable ASCII without the space, the alphabet of generated secrets. *)
Definition graphic (b : Z) : Prop := 33 <= b <= 126.

Lemma DecodeRune_graphic b l : graphic b -> Utf8.DecodeRune (b :: l) = (b, 1%nat).
Proof.
  unfold graphic. intros Hb. unfold Utf8.DecodeRune, Utf8.decode_ok.
  rewrite (proj2 (Z.ltb_lt _ _)) by lia. done.
Qed.

Lemma segments_graphic f l :
  Forall graphic l -> (length l <= f)%nat -> Strings.segments_fuel f l = map (fun b => (b, [b])) l.
Proof.
  revert f. induction l as [|b l IH]; intros f Hl Hf; [by destruct f|].
  apply Forall_cons_1 in Hl as [Hb Hl]. destruct f as [|f]; cbn in Hf; [lia|].
  cbn [Strings.segments_fuel]. rewrite DecodeRune_graphic by done. cbn [map]. f_equal. cbn.
  rewrite drop_0. apply IH; [done|lia].
Qed.

Lemma IsSpace_graphic b : graphic b -> Strings.IsSpace b = false.
Proof.
  unfold graphic, Strings.IsSpace, Utf8.within. intros Hb.
  repeat match goal with
  | |- context [?a <=? ?b] => destruct (Z.leb_spec a b); try lia
  | |- context [?a =? ?b] => destruct (Z.eqb_spec a b); try lia
  end; done.
Qed.

Lemma drop_spaces_graphic l :
  Forall (fun s => Strings.IsSpace s.1 = false) l -> Strings.drop_spaces l = l.
Proof. intros Hl. destruct Hl as [|[r b] l H]; cbn in *; [done|]. by rewrite H. Qed.

Lemma TrimSpace_graphic s : Forall graphic (bytes_of s) -> Strings.TrimSpace s = s.
Proof.
  intros Hs. unfold Strings.TrimSpace. rewrite segments_graphic by done.
  assert (Hn : Forall (fun s => Strings.IsSpace s.1 = false) (map (fun b => (b, [b])) (bytes_of s))).
  { apply Forall_fmap. eapply list.Forall_impl; [exact Hs|]. intros b. apply IsSpace_graphic. }
  rewrite (drop_spaces_graphic _ Hn), drop_spaces_graphic, rev_involutive, map_map by (by apply Forall_rev).
  assert (E : forall l : bytes, concat (map (fun x => (x, [x]).2) l) = l)
    by (induction l as [|b l IH]; [done|]; cbn in *; by rewrite IH).
  rewrite E. apply string_of_bytes_of.
Qed.

Lemma slice_to_app p t : Strings.slice_to (String.length p) (p +:+ t) = p.
Proof. induction p as [|a p IH]; simpl; [by destruct t|]. f_equal. exact IH. Qed.

(** A key of printable characters is read back from an [Authorization] header
    with any capitalisation of the scheme. *)
Lemma bearerToken_key scheme key :
  Strings.ToLowerASCII scheme = "bearer " -> String.length scheme = 7%nat ->
  Forall graphic (bytes_of key) -> key <> "" -> bearerToken (scheme +:+ key) = Some key.
Proof.
  intros Hs Hl Hk Hne. unfold bearerToken.
  assert (Hlen : forall a b, String.length (a +:+ b) = (String.length a + String.length b)%nat).
  { intros a b. induction a as [|x a IH]; simpl; [done|]. f_equal. exact IH. }
  rewrite Hlen, Hl. destruct (Nat.leb_spec (7 + String.length key) 7) as [H|_].
  { destruct key; cbn in H; [done|lia]. }
  rewrite <- Hl, slice_to_app, Strings.slice_from_app, Hs, TrimSpace_graphic by done.
  by rewrite bool_decide_true, bool_decide_false by done.
Qed.

Lemma secret_graphic buf s :
  Forall is_byte buf -> Keystore.generateSecret (inr buf) = inr s -> Forall graphic (bytes_of s) /\ s <> "".
Proof.
  intros Hb [= <-]. split; [|done]. rewrite bytes_of_app. apply Forall_app. split.
  { repeat constructor; by vm_compute. }
  unfold Base64.EncodeToString. rewrite bytes_of_string_of by by apply Base64.encode_is_byte.
  assert (HL : forall n, graphic (Base64.letter n) \/ n < 0 \/ 64 <= n).
  { intros n. unfold Base64.letter, graphic.
    destruct (Z.ltb_spec n 26), (Z.ltb_spec n 52), (Z.ltb_spec n 62), (Z.eqb_spec n 62); lia. }
  assert (HL' : forall n, 0 <= n < 64 -> graphic (Base64.letter n))
    by (intros n Hn; destruct (HL n) as [|[]]; [done|lia|lia]).
  induction buf as [|a|a b|a b c l IH] using Base64.triple_ind; [constructor|..];
    repeat match goal with H : Forall _ (_ :: _) |- _ => apply Forall_cons_1 in H as [? H] end;
    cbn [Base64.encode_bytes]; repeat (constructor; [apply HL'; Base64.byte_arith|]); auto.
Qed.

Section Login.
Context `{sha : !Sha256}.

(** The request of a client that holds [secret]. *)
Definition bearer_request (r : hreq) (secret : string) : Prop :=
  r.(Header) !! "Authorization" = Some ("Bearer " +:+ secret).

Definition pg_authenticate (now : Z) (key : string) (t : list row) : (error + Principal) * list row :=
  Postgres_Authenticate true DbOk now key t.

(** From key creation to the admin surface.  A secret the key store
    returns, sent as a bearer token, is read back whole from the header and
    authenticates at once as the new key; the request is authorized at an admin
    endpoint exactly when the scope that endpoint demands was among the scopes
    the key was created with. *)
Theorem created_key_authorized pool o now id buf name scopes t rec secret t' now' r ep :
  Forall is_byte buf ->
  Keystore.Create pool o now id (inr buf) name scopes t = (inr (rec, secret), t') ->
  bearer_request r secret ->
  credentialFrom r = Some secret /\
  (exists p t'', authenticates (pg_authenticate now') r t' p t'' /\ p.(p_ID) = id) /\
  (authorized (pg_authenticate now') r t' ep <->
   match demanded ep with
   | None => True
   | Some (c, v) => exists vs, scopes !! c = Some vs /\ v ∈ vs
   end).
Proof.
  intros Hb Hc Hr.
  assert (Hcred : credentialFrom r = Some secret).
  { destruct (secret_graphic buf secret Hb) as [Hg Hne]; [by eapply Keystore.Create_secret|].
    unfold credentialFrom, header_Get. rewrite Hr.
    change (default "" (Some ("Bearer " +:+ secret))) with ("Bearer " +:+ secret).
    by rewrite (bearerToken_key "Bearer ") by (done || by vm_compute). }
  split; [done|].
  destruct (Keystore.Create_authenticates pool o now id (inr buf) name scopes t rec secret t' now' "" "" Hc)
    as (p & t'' & Hp & Hid & _).
  split; [exists p, t''; split; [by exists secret|done]|].
  assert (Hauth : authorized (pg_authenticate now') r t' ep <->
            match demanded ep with None => True | Some (c, v) => HasScope (Some p) c v = true end).
  { split.
    - intros (p' & s' & (key & Hk & Ha) & Hs). rewrite Hcred in Hk. injection Hk as <-.
      unfold pg_authenticate in Ha. rewrite Hp in Ha. injection Ha as <- <-. exact Hs.
    - intros Hs. exists p, t''. split; [by exists secret|exact Hs]. }
  rewrite Hauth. destruct (demanded ep) as [[c v]|]; [|done].
  destruct (Keystore.Create_authenticates pool o now id (inr buf) name scopes t rec secret t' now' c v Hc)
    as (p' & t3 & Hp' & _ & _ & Hs & _). rewrite Hp in Hp'. injection Hp' as <- <-. exact Hs.
Qed.
End Login.

Module Example.
Definition deps : Deps :=
  {| d_Logger := true; d_Registry := true; d_MetricsReg := true; d_Authn := true; d_Router := true;
     d_Pricing := true; d_Keystore := true; d_StoragePool := true; d_Stats := true;
     d_CacheStats := true; d_Metrics := true; d_MetricsEnabled := true; d_MetricsPath := "/metrics";
     d_AdminCORSOrigins := ["https://ui.example.com"] |}.

(** One principal, without admin scopes. *)
Definition plain_key : Principal := {| p_ID := "k1"; p_Name := "ci"; p_Scopes := ∅ |}.
Definition authn (key : string) (s : nat) : (error + Principal) * nat :=
  if bool_decide (key = "sk-1") then (inr plain_key, S s)
  else (inl (Sentinel_ ErrInvalidCredentials), S s).
Definition uuid (s : nat) : string * nat := ("uuid", s).
Definition no_limit (next : handler nat) : handler nat := next.

Definition ask (key : string) : hreq :=
  {| Method := "GET"; Path := "/admin/keys"; Header := {["Authorization" := "Bearer " +:+ key]};
     ctx_principal := None; ctx_reqID := None |}.

Definition says (status : Z) : endpoint -> handler nat := fun _ _ s =>
  (Returned, [EWriteHeader status; EWrite (PText "ok")], s).

Definition keys_at (status : Z) : handler nat :=
  Recovery (RequestID uuid (Logging (skipPaths deps)
    (run_guards authn no_limit deps [GCORS; GAuth; GScope "admin" "webui"] (says status AdminKeys)))).

Lemma protected_endpoints_witness : keys_at 200 (ask "sk-1") 0%nat = keys_at 418 (ask "sk-1") 0%nat.
Proof.
  destruct (protected_endpoints authn no_limit uuid deps (says 200) (says 418) AdminKeys (ask "sk-1") 0%nat
              (keys_at 200)) as (_ & h' & Hh' & H); [reflexivity|reflexivity|].
  injection Hh' as <-. apply H. intros (p & s' & (key & Hk & Ha) & Hs).
  assert (Hk' : key = "sk-1") by (vm_compute in Hk; congruence). subst key.
  vm_compute in Ha. injection Ha as <- <-. by vm_compute in Hs.
Defined.

Lemma logging_exact_witness :
  exists out, Logging [] (says 404 Healthz) (ask "") 0%nat =
    (Returned, out ++ [ELog (LAccess "GET" "/admin/keys" 404 "")], 0%nat).
Proof.
  destruct (logging_exact [] (says 404 Healthz) (ask "") 0%nat [EWriteHeader 404; EWrite (PText "ok")] 0%nat
              new_writer) as (out & H & _); [reflexivity|apply not_elem_of_nil|reflexivity|reflexivity|].
  exists out. exact H.
Defined.

(** The status the log would report for a handler that flushes first. *)
Example flush_first_misreported :
  let es := [EFlush; EWriteHeader 500] in
  (lrw_effects newLoggingResponseWriter es).1.(lrw_status) = 500 /\
  wire_status (apply_effects es new_writer) = 200.
Proof. by vm_compute. Qed.

Lemma created_key_authorized_witness :
  exists rec secret t', @Keystore.Create Keystore.toy_digest true DbOk 5 "id-1" (inr (repeat 7 32)) "ci"
      {["admin" := ["webui"]]} [] = (inr (rec, secret), t') /\
    authorized (@pg_authenticate Keystore.toy_digest 9) (ask secret) t' AdminKeys.
Proof.
  destruct (@Keystore.Create Keystore.toy_digest true DbOk 5 "id-1" (inr (repeat 7 32)) "ci"
              {["admin" := ["webui"]]} []) as [[e|[rec secret]] t'] eqn:E; [by vm_compute in E|].
  exists rec, secret, t'. split; [reflexivity|].
  apply (@created_key_authorized Keystore.toy_digest true DbOk 5 "id-1" (repeat 7 32) "ci"
           {["admin" := ["webui"]]} [] rec secret t' 9 (ask secret) AdminKeys).
  - repeat constructor; unfold is_byte; lia.
  - exact E.
  - reflexivity.
  - exists ["webui"]. split; [reflexivity|apply list_elem_of_singleton; reflexivity].
Defined.
End Example.
