(* ===== verification/Messages.v ===== *)
(** * Messages: the native /v1/messages endpoint

    [internal/server/messages.go]: the request is forwarded to an Anthropic
    provider byte for byte, the answer is piped back byte for byte, and the
    token usage is read off the side for billing.  The response is the list of
    effects on the [http.ResponseWriter] (see [Http]); Prometheus counters and
    log lines are left out. *)

From Stdlib Require Import Ascii.
From S2P Require Import Prelude GoStd Errors Types Encoding JsonSyntax Wire Registry Billing Auth Stream Adapter Anthropic Chat Http.
From stdpp Require Import base list gmap.
Import Json.
Local Open Scope Z_scope.

(** ** Usage *)

(** [anthropicUsage] has the fields and tags of the adapter's [messageUsage]. *)
Definition anthropicUsage : Type := messageUsage.

(** [json.Unmarshal] whose error is ignored: a member of the wrong type is
    skipped, the others are stored. *)
Fixpoint keep_fields {A} (fs : list (field A)) (ms : members) (a : A) : A :=
  match ms with
  | [] => a
  | (k, v) :: ms' =>
      keep_fields fs ms'
        match find_field fs k with Some set => default a (set v a) | None => a end
  end.
Definition keep_struct {A} (fs : list (field A)) (j : json) (a : A) : A :=
  match j with JObject ms => keep_fields fs ms a | _ => a end.

(** The envelope of a plain answer. *)
Definition envelope_fields : list (field anthropicUsage) :=
  [("usage", fun v u => Some (keep_struct usage_fields v u))].

Section Usage.
Context `{parser : !JsonParser}.

Definition envelope_usage (respBody : string) : anthropicUsage :=
  match parse_json respBody with
  | Some j => keep_struct envelope_fields j usage0
  | None => usage0
  end.

(** The event struct of [scanUsageLine]. *)
Record scanEvent := { sc_Type : string; sc_Message : anthropicUsage; sc_Usage : anthropicUsage }.

Definition scan_message_fields : list (field anthropicUsage) := [("usage", set_struct usage_fields)].
Definition scan_fields : list (field scanEvent) :=
  [("type", via sc_Type (fun x e => Build_scanEvent x e.(sc_Message) e.(sc_Usage)) set_string);
   ("message", via sc_Message (fun x e => Build_scanEvent e.(sc_Type) x e.(sc_Usage))
                 (set_struct scan_message_fields));
   ("usage", via sc_Usage (fun x e => Build_scanEvent e.(sc_Type) e.(sc_Message) x)
               (set_struct usage_fields))].
Definition scan0 : scanEvent := Build_scanEvent "" usage0 usage0.

(** The word usage in double quotes. *)
Definition quoted_usage : string := String (ascii_of_byte 34) ("usage" +:+ String (ascii_of_byte 34) "").

Definition scanUsageLine (line : string) (usage : anthropicUsage) : anthropicUsage :=
  if negb (Strings.HasPrefix line "data: ") then usage
  else
    let payload := Strings.slice_from 6 line in
    if negb (Strings.Contains payload quoted_usage) then usage
    else match parse_json payload ≫= fun j => set_struct scan_fields j scan0 with
         | None => usage
         | Some ev =>
             if bool_decide (ev.(sc_Type) = "message_start") then
               Build_messageUsage ev.(sc_Message).(mu_InputTokens) usage.(mu_OutputTokens)
             else if bool_decide (ev.(sc_Type) = "message_delta") then
               Build_messageUsage usage.(mu_InputTokens) ev.(sc_Usage).(mu_OutputTokens)
             else usage
         end.

(** ** The pipe *)

(** What [ReadBytes] delivers, call by call: lines with their terminator, and
    what is left when the body ends or breaks off. *)
Fixpoint read_lines (s : string) : list string :=
  match s with
  | EmptyString => []
  | String a s' =>
      if Ascii.eqb a nl then String a "" :: read_lines s'
      else match read_lines s' with
           | l :: ls => String a l :: ls
           | [] => [String a ""]
           end
  end.

(** The loop over the lines; [wire] says whether each next write succeeds. *)
Fixpoint pipe_lines (flusher : bool) (wire : list bool) (lines : list string) (usage : anthropicUsage)
    : list effect * anthropicUsage :=
  match lines with
  | [] => ([], usage)
  | line :: rest =>
      match wire with
      | false :: _ => ([], usage)
      | _ =>
          let '(es, usage) := pipe_lines flusher (tl wire) rest (scanUsageLine line usage) in
          (EWrite (PText line) :: (if flusher then [EFlush] else []) ++ es, usage)
      end
  end.

Definition pipeAnthropicSSE (flusher : bool) (wire : list bool) (text : string)
    : list effect * anthropicUsage :=
  pipe_lines flusher wire (read_lines text) usage0.

(** ** The handler *)

Definition writeAnthropicError (status : Z) (errType message : string) : list effect :=
  [ESet "Content-Type" "application/json"; EWriteHeader status;
   EWrite (PJson (JObject [("error", JObject [("message", of_string message); ("type", of_string errType)]);
                           ("type", JString "error")]))].

(** The two members of the body the gateway looks at. *)
Record peeked := { pk_Model : string; pk_Stream : bool }.
Definition peek_fields : list (field peeked) :=
  [("model", via pk_Model (fun x p => Build_peeked x p.(pk_Stream)) set_string);
   ("stream", via pk_Stream (fun x p => Build_peeked p.(pk_Model) x) set_bool)].
Definition peek (text : string) : option peeked :=
  parse_json text ≫= fun j => set_struct peek_fields j (Build_peeked "" false).

(** What one request brings and meets. *)
Record request := {
  mq_body : body;
  mq_beta : string;
  mq_principal : option Principal;
  mq_id : string;
  mq_started : Z; mq_latency : Z;
  mq_flusher : bool;
  mq_wire : list bool
}.

Definition passthrough_headers : list string :=
  ["Content-Type"; "Retry-After"; "Request-Id"; "Anthropic-Ratelimit-Requests-Remaining";
   "Anthropic-Ratelimit-Tokens-Remaining"].

Definition pass_headers (header : string -> string) : list effect :=
  map (fun h => ESet h (header h))
    (List.filter (fun h => negb (bool_decide (header h = ""))) passthrough_headers).

(** [prov.(messagesForwarder)]: only the Anthropic adapter has the method. *)
Definition messagesForwarder (p : adapter) : option anthropic.Provider :=
  match p with Anthropic p => Some p | OpenAI _ => None end.

Section Handler.
Context (Quote : string -> string) (UserAgent : string).
(** Building the outgoing request, and the network. *)
Context (urlErr : anthropic.Provider -> option error) (net : raw_outbound -> exchange).

(** The part after the upstream has answered. *)
Definition relay_response (q : request) (fwd : anthropic.Provider) (model : string) (status : Z)
    (header : string -> string) (text : string) (readErr : option error) : list effect * list Worker.Event :=
  let bill streamed (usage : anthropicUsage) :=
    if status =? 200 then
      [billing_event q.(mq_started) q.(mq_id) (apiKeyIDFrom q.(mq_principal)) (anthropic.Name fwd) model
         usage.(mu_InputTokens) usage.(mu_OutputTokens) q.(mq_latency) 200 streamed ""]
    else [] in
  if Strings.HasPrefix (header "Content-Type") "text/event-stream" then
    let '(es, usage) := pipeAnthropicSSE q.(mq_flusher) q.(mq_wire) text in
    (pass_headers header ++ EWriteHeader status :: es, bill true usage)
  else
    match readErr with
    | Some _ => (pass_headers header ++ writeAnthropicError 502 "api_error" "Upstream read failed", [])
    | None =>
        (pass_headers header ++ [EWriteHeader status; EWrite (PText text)],
         bill false (if status =? 200 then envelope_usage text else usage0))
    end.

Definition messagesHandler (reg : Registry adapter) (q : request) : list effect * list Worker.Event :=
  let refuse status errType message := (writeAnthropicError status errType message, []) in
  if maxRequestBytes <? Z.of_nat (String.length q.(mq_body).(raw)) then
    refuse 413 "invalid_request_error" "Request body too large"
  else if q.(mq_body).(broken) then
    refuse 400 "invalid_request_error" "Failed to read request body"
  else
    let malformed := refuse 400 "invalid_request_error" "Request body must be valid JSON with a model field" in
    match peek q.(mq_body).(raw) with
    | None => malformed
    | Some pk =>
        if bool_decide (pk.(pk_Model) = "") then malformed
        else match ResolveModel reg pk.(pk_Model) with
             | inl _ => refuse 404 "not_found_error" ("model: " +:+ pk.(pk_Model))
             | inr prov =>
                 match messagesForwarder prov with
                 | None => refuse 404 "not_found_error"
                             ("model " +:+ pk.(pk_Model) +:+ " is not served by an Anthropic-protocol provider")
                 | Some fwd =>
                     match ForwardMessages Quote UserAgent fwd (urlErr fwd) net q.(mq_body).(raw) q.(mq_beta) with
                     | inl _ | inr (DoFailed _) => refuse 502 "api_error" "Upstream request failed"
                     | inr (Responded status header text readErr) =>
                         relay_response q fwd pk.(pk_Model) status header text readErr
                     end
                 end
             end
    end.
End Handler.
End Usage.

(** ** Bytes *)

Lemma read_lines_concat s : foldr String.append "" (read_lines s) = s.
Proof.
  induction s as [|a s IH]; [done|]. cbn [read_lines]. destruct (Ascii.eqb_spec a nl) as [->|].
  - cbn [foldr]. by rewrite IH.
  - destruct (read_lines s) as [|l ls]; cbn [foldr] in *; by rewrite <- IH.
Qed.

(** The text of a response body made of text writes. *)
Definition body_text (ps : list payload) : option string :=
  foldr String.append "" <$> mapM (fun p => match p with PText t => Some t | PJson _ => None end) ps.

Lemma body_text_texts ts : body_text (map PText ts) = Some (foldr String.append "" ts).
Proof.
  unfold body_text. replace (mapM _ (map PText ts)) with (Some ts); [done|].
  symmetry. induction ts as [|t ts IH]; [done|]. cbn [map mapM]. by rewrite IH.
Qed.

Lemma apply_effects_app es1 es2 w : apply_effects (es1 ++ es2) w = apply_effects es2 (apply_effects es1 w).
Proof. apply fold_left_app. Qed.

(** Once the status line is out, text writes and flushes only extend the body. *)
Lemma apply_writes c h es ts w :
  w.(head_sent) = Some (c, h) ->
  omap (fun e => match e with EWrite p => Some p | _ => None end) es = map PText ts ->
  Forall (fun e => match e with EWrite _ | EFlush => True | _ => False end) es ->
  let w' := apply_effects es w in
  w'.(head_sent) = Some (c, h) /\ w'.(sent_body) = w.(sent_body) ++ map PText ts.
Proof.
  intros Hh Ht Hf. revert w ts Hh Ht. induction Hf as [|e es He Hf IH]; intros w ts Hh Ht.
  { destruct ts; [|done]. cbn. by rewrite app_nil_r. }
  destruct e; try done; cbn in Ht.
  - destruct ts as [|t ts]; [done|]. injection Ht as -> Ht. cbn.
    assert (Hw : write_head 200 w = w) by (unfold write_head; by rewrite Hh). rewrite Hw.
    destruct (IH (Build_writer w.(live) w.(head_sent) (w.(sent_body) ++ [PText t])) ts Hh Ht) as [H1 H2].
    unfold apply_effects in *. rewrite H1, H2. cbn. by rewrite <- app_assoc.
  - cbn. assert (Hw : write_head 200 w = w) by (unfold write_head; by rewrite Hh). rewrite Hw. by apply IH.
Qed.

Section Pipe.
Context `{parser : !JsonParser}.

(** The writes of the pipe, and the usage it returns, for a client that stays. *)
Lemma pipe_lines_live flusher lines u :
  let '(es, u') := pipe_lines flusher [] lines u in
  omap (fun e => match e with EWrite p => Some p | _ => None end) es = map PText lines /\
  Forall (fun e => match e with EWrite _ | EFlush => True | _ => False end) es /\
  u' = fold_left (fun u l => scanUsageLine l u) lines u.
Proof.
  revert u. induction lines as [|l lines IH]; intros u; [done|]. cbn [pipe_lines tl].
  specialize (IH (scanUsageLine l u)). destruct (pipe_lines flusher [] lines _) as [es u'].
  destruct IH as (H1 & H2 & ->). split_and!; [|destruct flusher; by repeat constructor|done].
  destruct flusher; cbn; by rewrite H1.
Qed.

(** Whatever the client does, the pipe writes a prefix of the lines. *)
Lemma pipe_lines_prefix flusher wire lines u :
  let '(es, _) := pipe_lines flusher wire lines u in
  exists n, omap (fun e => match e with EWrite p => Some p | _ => None end) es = map PText (take n lines) /\
    Forall (fun e => match e with EWrite _ | EFlush => True | _ => False end) es.
Proof.
  revert wire u. induction lines as [|l lines IH]; intros wire u; [by exists 0%nat|]. cbn [pipe_lines].
  assert (Hgo : let '(es, _) :=
      (let '(es, usage) := pipe_lines flusher (tl wire) lines (scanUsageLine l u) in
       (EWrite (PText l) :: (if flusher then [EFlush] else []) ++ es, usage)) in
    exists n, omap (fun e => match e with EWrite p => Some p | _ => None end) es = map PText (take n (l :: lines)) /\
    Forall (fun e => match e with EWrite _ | EFlush => True | _ => False end) es).
  { specialize (IH (tl wire) (scanUsageLine l u)). destruct (pipe_lines flusher (tl wire) lines _) as [es u'].
    destruct IH as (n & H1 & H2). exists (S n).
    split; [destruct flusher; cbn; by rewrite H1|destruct flusher; by repeat constructor]. }
  destruct wire as [|[] wire]; [exact Hgo|exact Hgo|by exists 0%nat].
Qed.
End Pipe.

Lemma pass_headers_head header w :
  let w' := apply_effects (pass_headers header) w in
  w'.(head_sent) = w.(head_sent) /\ w'.(sent_body) = w.(sent_body) /\
  forall k, w'.(live) !! k =
    if bool_decide (k ∈ passthrough_headers /\ header k <> "") then Some [header k] else w.(live) !! k.
Proof.
  unfold pass_headers. generalize passthrough_headers. intros hs. revert w.
  induction hs as [|h hs IH]; intros w; cbn [List.filter map].
  { split_and!; [done..|]. intros k. rewrite bool_decide_false; [done|]. intros [H%elem_of_nil _]. done. }
  destruct (bool_decide_reflect (header h = "")) as [E|E]; cbn [negb map].
  - destruct (IH w) as (H1 & H2 & H3). split_and!; [done..|]. intros k. rewrite H3.
    case_bool_decide as A; case_bool_decide as B; rewrite elem_of_cons in B; naive_solver.
  - cbn. destruct (IH (Build_writer (<[h := [header h]]> w.(live)) w.(head_sent) w.(sent_body))) as (H1 & H2 & H3).
    unfold apply_effects in *. split_and!; [done..|]. intros k. rewrite H3. cbn.
    case_bool_decide as A; case_bool_decide as B; rewrite elem_of_cons in B;
      destruct (decide (h = k)) as [->|]; rewrite ?lookup_insert_eq, ?lookup_insert_ne by done; naive_solver.
Qed.

(** ** Transparency *)

(** What a byte-transparent answer to the client is: the upstream's status and
    body, and of its headers the ones SDKs act on. *)
Definition transparent (status : Z) (header : string -> string) (text : string) (w : writer) : Prop :=
  wire_status w = status /\ body_text w.(sent_body) = Some text /\
  exists h, w.(head_sent) = Some (status, h) /\
    forall k, h !! k = if bool_decide (k ∈ passthrough_headers /\ header k <> "") then Some [header k] else None.

Section Transparent.
Context `{parser : !JsonParser}.
Context (Quote : string -> string) (UserAgent : string).
Context (urlErr : anthropic.Provider -> option error) (net : raw_outbound -> exchange).
Local Abbreviation messagesHandler := (messagesHandler Quote UserAgent urlErr net).

(** The request reaches the forwarding call. *)
Definition admitted (reg : Registry adapter) (q : request) (fwd : anthropic.Provider) (model : string) : Prop :=
  Z.of_nat (String.length q.(mq_body).(raw)) <= maxRequestBytes /\ q.(mq_body).(broken) = false /\
  (exists pk, peek q.(mq_body).(raw) = Some pk /\ pk.(pk_Model) = model) /\ model <> "" /\
  ResolveModel reg model = inr (Anthropic fwd) /\ urlErr fwd = None.

(** The request as the upstream sees it. *)
Definition forwarded (q : request) (fwd : anthropic.Provider) : raw_outbound :=
  {| ro_url := fwd.(anthropic.baseURL) +:+ messagesPath;
     ro_headers := if bool_decide (q.(mq_beta) = "") then anthropic.setHeaders UserAgent fwd
                   else set_header "anthropic-beta" q.(mq_beta) (anthropic.setHeaders UserAgent fwd);
     ro_body := q.(mq_body).(raw) |}.

Lemma messagesHandler_admitted reg q fwd model :
  admitted reg q fwd model ->
  messagesHandler reg q =
  match net (forwarded q fwd) with
  | DoFailed _ => (writeAnthropicError 502 "api_error" "Upstream request failed", [])
  | Responded status header text readErr => relay_response q fwd model status header text readErr
  end.
Proof.
  intros (Hlen & Hb & (pk & Hpk & Hm) & Hne & Hres & Hurl). unfold Messages.messagesHandler.
  rewrite (proj2 (Z.ltb_ge _ _)) by done. rewrite Hb, Hpk, Hm, bool_decide_false, Hres by done.
  cbn [messagesForwarder]. unfold ForwardMessages. rewrite Hurl. fold (forwarded q fwd).
  by destruct (net (forwarded q fwd)).
Qed.

Lemma relay_response_transparent q fwd model status header text readErr :
  q.(mq_wire) = [] ->
  Strings.HasPrefix (header "Content-Type") "text/event-stream" = true \/ readErr = None ->
  transparent status header text
    (apply_effects (relay_response q fwd model status header text readErr).1 new_writer).
Proof.
  intros Hw Hr. unfold relay_response.
  assert (Hgo : forall es ts, foldr String.append "" ts = text ->
     omap (fun e => match e with EWrite p => Some p | _ => None end) es = map PText ts ->
     Forall (fun e => match e with EWrite _ | EFlush => True | _ => False end) es ->
     transparent status header text (apply_effects (pass_headers header ++ EWriteHeader status :: es) new_writer)).
  { intros es ts Hts Hes Hf. rewrite apply_effects_app.
    destruct (pass_headers_head header new_writer) as (H1 & H2 & H3). set (w := apply_effects _ new_writer) in *.
    change (apply_effects (EWriteHeader status :: es) w) with (apply_effects es (write_head status w)).
    unfold write_head. rewrite H1. cbn [head_sent new_writer].
    destruct (apply_writes status w.(live) es ts (Build_writer w.(live) (Some (status, w.(live))) w.(sent_body))
                eq_refl Hes Hf) as [H4 H5].
    unfold transparent, wire_status. rewrite H4, H5. cbn [sent_body]. rewrite H2. cbn [new_writer sent_body app].
    rewrite body_text_texts, Hts. split_and!; [done..|]. exists w.(live). split; [done|].
    intros k. rewrite H3. done. }
  destruct (Strings.HasPrefix _ _).
  - rewrite Hw. unfold pipeAnthropicSSE. pose proof (pipe_lines_live (mq_flusher q) (read_lines text) usage0) as Hp.
    destruct (pipe_lines _ _ _ _) as [es u]. destruct Hp as (H1 & H2 & _). cbn [fst].
    apply (Hgo es (read_lines text)); [apply read_lines_concat|done..].
  - destruct Hr as [?| ->]; [done|]. cbn [fst]. apply (Hgo [EWrite (PText text)] [text]); [|done|by repeat constructor].
    cbn. apply Strings.append_nil.
Qed.

(** C22: The native endpoint is a transparent proxy.  For every admitted
    request, whatever the upstream answers to [forwarded q fwd] (the client's
    body byte for byte, sent to the Anthropic provider the model resolves to
    with that provider's credentials and the client's beta header), a staying
    client receives that status and that body byte for byte, streamed or not,
    with exactly the five headers SDKs act on. *)
Theorem messages_transparent reg q fwd model status header text readErr :
  admitted reg q fwd model -> q.(mq_wire) = [] ->
  net (forwarded q fwd) = Responded status header text readErr ->
  Strings.HasPrefix (header "Content-Type") "text/event-stream" = true \/ readErr = None ->
  transparent status header text (apply_effects (messagesHandler reg q).1 new_writer).
Proof.
  intros Ha Hw Hn Hr. rewrite (messagesHandler_admitted _ _ _ _ Ha), Hn.
  by apply relay_response_transparent.
Qed.

Lemma relay_response_status q fwd model status header text readErr :
  wire_status (apply_effects (relay_response q fwd model status header text readErr).1 new_writer) =
  if negb (Strings.HasPrefix (header "Content-Type") "text/event-stream") && bool_decide (is_Some readErr)
  then 502 else status.
Proof.
  unfold relay_response. destruct (pass_headers_head header new_writer) as (H1 & _ & _).
  destruct (Strings.HasPrefix _ _); cbn [negb andb].
  - unfold pipeAnthropicSSE. pose proof (pipe_lines_prefix (mq_flusher q) (mq_wire q) (read_lines text) usage0) as Hp.
    destruct (pipe_lines _ _ _ _) as [es u]. destruct Hp as (n & H2 & H3). cbn [fst].
    rewrite apply_effects_app. set (w := apply_effects _ new_writer) in *.
    change (apply_effects (EWriteHeader status :: es) w) with (apply_effects es (write_head status w)).
    unfold write_head. rewrite H1. cbn [head_sent new_writer].
    destruct (apply_writes status w.(live) es _ (Build_writer w.(live) (Some (status, w.(live))) w.(sent_body))
                eq_refl H2 H3) as [H4 _].
    unfold wire_status. by rewrite H4.
  - destruct readErr as [e|]; cbn [fst];
      [rewrite bool_decide_true by done|rewrite bool_decide_false by (by intros [? ?])];
      rewrite apply_effects_app;
      set (w := apply_effects (pass_headers header) new_writer) in *;
      unfold apply_effects, wire_status; cbn [fold_left apply_effect writeAnthropicError]; unfold write_head;
      cbn [head_sent live sent_body]; rewrite H1; done.
Qed.

(** The native endpoint bills exactly what it serves.  A billing event is
    emitted only for a request an Anthropic provider answered with 200, only
    when the client is told 200 as well, at most once, and it names that
    provider and the client's model; a refused or failed request is answered
    with an error status and never billed. *)
Theorem messages_billed reg q :
  let '(es, billed) := messagesHandler reg q in
  (billed = [] /\ wire_status (apply_effects es new_writer) <> 200) \/
  (exists fwd model header text readErr ev,
     admitted reg q fwd model /\ net (forwarded q fwd) = Responded 200 header text readErr /\
     billed = [ev] /\ wire_status (apply_effects es new_writer) = 200 /\
     ev.(Worker.Provider) = anthropic.Name fwd /\ ev.(Worker.Model) = model /\
     ev.(Worker.APIKeyID) = apiKeyIDFrom q.(mq_principal) /\ ev.(Worker.Status) = 200).
Proof.
  unfold Messages.messagesHandler.
  destruct (Z.ltb_spec maxRequestBytes (Z.of_nat (String.length q.(mq_body).(raw)))) as [|Hlen]; [by left|].
  destruct (broken (mq_body q)) eqn:Hb; [by left|].
  destruct (peek _) as [pk|] eqn:Hpk; [|by left]. case_bool_decide as Hm; [by left|].
  destruct (ResolveModel reg (pk_Model pk)) as [e|prov] eqn:Hres; [by left|].
  destruct prov as [p|fwd]; [by left|]. cbn [messagesForwarder]. unfold ForwardMessages.
  destruct (urlErr fwd) eqn:Hurl; [by left|]. fold (forwarded q fwd).
  destruct (net (forwarded q fwd)) as [err|status header text readErr] eqn:Hn; [by left|].
  pose proof (relay_response_status q fwd (pk_Model pk) status header text readErr) as Hst.
  assert (Hadm : admitted reg q fwd (pk_Model pk)) by (unfold admitted; eauto 10).
  revert Hst. unfold relay_response.
  destruct (Z.eqb_spec status 200) as [->|Hne].
  - destruct (Strings.HasPrefix _ _).
    + destruct (pipeAnthropicSSE _ _ _) as [es u]. cbn [negb andb fst]. intros Hst. right.
      do 6 eexists. split_and!; [exact Hadm|exact Hn|reflexivity|exact Hst|reflexivity..].
    + destruct readErr as [e|].
      * rewrite bool_decide_true by done. cbn [fst negb andb]. intros Hst. left. by rewrite Hst.
      * rewrite bool_decide_false by (by intros [? ?]). cbn [fst negb andb]. intros Hst. right.
        do 6 eexists. split_and!; [exact Hadm|exact Hn|reflexivity|exact Hst|reflexivity..].
  - destruct (Strings.HasPrefix _ _); [destruct (pipeAnthropicSSE _ _ _)|destruct readErr];
      cbn [fst negb andb]; intros Hst; left; (split; [done|]); by rewrite Hst.
Qed.
End Transparent.

(** ** The usage that is billed *)

(** A decoder with fewer fields accepts what one with more does. *)
Lemma store_simulation {A B} (fs : list (field A)) (gs : list (field B)) (R : A -> B -> Prop)
    (ok : string * json -> Prop) ms a a' b :
  (forall k v a a' b, ok (k, v) -> R a b ->
     match find_field fs k with Some set => set v a | None => Some a end = Some a' ->
     exists b', match find_field gs k with Some set => set v b | None => Some b end = Some b' /\ R a' b') ->
  Forall ok ms -> R a b -> store fs ms a = Some a' -> exists b', store gs ms b = Some b' /\ R a' b'.
Proof.
  intros Hstep Hok. revert a b. induction Hok as [|[k v] ms Hkv Hok IH]; intros a b HR.
  { intros [= <-]. by exists b. }
  cbn [store]. destruct (match find_field fs k with Some set => set v a | None => Some a end) as [a1|] eqn:E; [|done].
  destruct (Hstep k v a a1 b Hkv HR E) as (b1 & -> & HR1). cbn [mbind option_bind]. by apply IH.
Qed.

(** Which field a member of a short list goes to. *)
Lemma find_field_cases {A} name set (fs : list (field A)) k :
  find_field ((name, set) :: fs) k =
  if bool_decide (foldName name = foldName k) then Some set else find_field fs k.
Proof. done. Qed.

(** Stepping through the fields of two lists that share names. *)
Ltac pick_field :=
  repeat match goal with
  | H : foldName ?a = foldName ?k, H' : foldName ?b = foldName ?k |- _ =>
      rewrite <- H in H'; vm_compute in H'; discriminate H'
  | |- context [bool_decide (foldName ?a = foldName ?k)] => destruct (bool_decide_reflect (foldName a = foldName k))
  | H : context [bool_decide (foldName ?a = foldName ?k)] |- _ =>
      destruct (bool_decide_reflect (foldName a = foldName k))
  end.

Lemma set_ptr_nonnull {A} (zero : A) set v a :
  v <> JNull -> set_ptr zero set v a = Some <$> set v (default zero a).
Proof. by destruct v. Qed.

Lemma via_inv {A B} (get : A -> B) put set v a a' :
  via get put set v a = Some a' -> exists b, set v (get a) = Some b /\ a' = put b a.
Proof. unfold via. destruct (set v (get a)); [|done]. intros [= <-]. by eexists. Qed.

Lemma scan_message_simulation j m m' u :
  m.(sm_Usage) = u -> set_struct start_fields j m = Some m' ->
  set_struct scan_message_fields j u = Some m'.(sm_Usage).
Proof.
  intros Hu Hs. destruct j as [| | | | |ms]; cbn [set_struct] in *; simplify_eq; try done.
  destruct (store_simulation start_fields scan_message_fields (fun m u => m.(sm_Usage) = u) (fun _ => True)
              ms m m' m.(sm_Usage)) as (b & Hb & ->); [|by apply Forall_true|done..].
  intros k v a a' b _ <-. unfold start_fields, scan_message_fields. rewrite !find_field_cases. cbn [find_field].
  pick_field; try (intros (x & Hx & ->)%via_inv; eexists; split; [first [exact Hx|reflexivity]|reflexivity]).
  intros [= <-]. by eexists.
Qed.

Lemma scan_event_simulation ms ev :
  Forall (fun kv => kv.2 <> JNull) ms -> unmarshal_event (JObject ms) = Some ev ->
  exists sc, set_struct scan_fields (JObject ms) scan0 = Some sc /\ sc.(sc_Type) = ev.(ev_Type) /\
    sc.(sc_Message) = from_option sm_Usage usage0 ev.(ev_Message) /\
    sc.(sc_Usage) = default usage0 ev.(ev_Usage).
Proof.
  intros Hn Hev. cbn [set_struct]. unfold unmarshal_event in Hev. cbn [set_struct] in Hev.
  apply (store_simulation event_fields scan_fields (fun ev sc => sc.(sc_Type) = ev.(ev_Type) /\
    sc.(sc_Message) = from_option sm_Usage usage0 ev.(ev_Message) /\
    sc.(sc_Usage) = default usage0 ev.(ev_Usage)) (fun kv => kv.2 <> JNull) ms event0 ev scan0); [|done..].
  clear. intros k v e e' sc Hv (Ht & Hm & Hu). cbn in Hv. unfold event_fields, scan_fields.
  rewrite !find_field_cases. cbn [find_field]. unfold via, put_event. pick_field; cbn; intros H.
  - rewrite Ht. destruct (set_string v (ev_Type e)); cbn in *; simplify_eq. by eexists.
  - rewrite Hm. rewrite set_ptr_nonnull in H by done.
    destruct (set_struct start_fields v _) as [m|] eqn:E; cbn in H; simplify_eq.
    rewrite (scan_message_simulation v (default (Build_startMessage "" "" usage0) (ev_Message e)) m);
      [by eexists|by destruct (ev_Message e)|done].
  - destruct (set_int v _); cbn in H; simplify_eq. by eexists.
  - destruct (set_ptr _ _ v (ev_Delta e)); cbn in H; simplify_eq. by eexists.
  - rewrite Hu. rewrite set_ptr_nonnull in H by done.
    destruct (set_struct usage_fields v _) as [u|] eqn:E; cbn in H; simplify_eq. by eexists.
  - destruct (set_ptr _ _ v (ev_Error e)); cbn in H; simplify_eq. by eexists.
  - simplify_eq. by eexists.
Qed.

(** Ignoring errors changes nothing where there are none. *)
Lemma keep_fields_store {A} (fs gs : list (field A)) ms a a' :
  (forall k v a a', match find_field fs k with Some set => set v a | None => Some a end = Some a' ->
     match find_field gs k with Some set => default a (set v a) | None => a end = a') ->
  store fs ms a = Some a' -> keep_fields gs ms a = a'.
Proof.
  intros Hstep. revert a. induction ms as [|[k v] ms IH]; intros a; [by intros [= <-]|]. cbn [store keep_fields].
  destruct (match find_field fs k with Some set => set v a | None => Some a end) as [a1|] eqn:E; [|done].
  rewrite (Hstep k v a a1 E). apply IH.
Qed.

Lemma keep_struct_set {A} (fs : list (field A)) j a a' :
  set_struct fs j a = Some a' -> keep_struct fs j a = a'.
Proof.
  destruct j; cbn; try done; [by intros [= <-]|]. apply keep_fields_store.
  intros k v b b'. destruct (find_field fs k); [|by intros [= <-]]. by intros ->.
Qed.

Section Agreement.
#[local] Existing Instance Syntax.Unmarshal.

Lemma envelope_usage_plain respBody j resp :
  parse_json respBody = Some j -> unmarshal_response j = Some resp -> envelope_usage respBody = resp.(ms_Usage).
Proof.
  intros Hp Hr. unfold envelope_usage. rewrite Hp.
  destruct j as [| | | | |ms]; cbn in Hr; simplify_eq; try done. cbn [keep_struct].
  destruct (store_simulation response_fields scan_message_fields (fun r u => r.(ms_Usage) = u) (fun _ => True)
              ms response0 resp usage0) as (u & Hu & ->); [|by apply Forall_true|done..|].
  - intros k v a a' b _ <-. unfold response_fields, scan_message_fields. rewrite !find_field_cases. cbn [find_field].
    pick_field; try (intros (x & Hx & ->)%via_inv; eexists; split; [first [exact Hx|reflexivity]|reflexivity]).
    intros [= <-]. by eexists.
  - apply (keep_fields_store scan_message_fields); [|done]. intros k v a a'.
    unfold envelope_fields, scan_message_fields. rewrite !find_field_cases. cbn [find_field].
    destruct (bool_decide _); cbn; [apply keep_struct_set|by intros [= ->]].
Qed.

(** What one event of a message adds to the account. *)
Definition ev_usage (u : messageUsage) (ev : streamEvent) : messageUsage :=
  if bool_decide (ev.(ev_Type) = "message_start") then
    Build_messageUsage (from_option sm_Usage usage0 ev.(ev_Message)).(mu_InputTokens) u.(mu_OutputTokens)
  else if bool_decide (ev.(ev_Type) = "message_delta") then
    Build_messageUsage u.(mu_InputTokens) (default usage0 ev.(ev_Usage)).(mu_OutputTokens)
  else u.

(** [p] is a one-line text of the event [ev], and the events that report usage
    spell the member out. *)
Definition event_payload (p : string) (ev : streamEvent) : Prop :=
  one_line p /\
  (exists ms, parse_json p = Some (JObject ms) /\ Forall (fun kv => kv.2 <> JNull) ms /\
     unmarshal_event (JObject ms) = Some ev) /\
  (ev.(ev_Type) ∈ ["message_start"; "message_delta"] -> Strings.Contains p quoted_usage = true).

Lemma parse_newline s : parse_json (s +:+ String nl "") = parse_json s.
Proof. apply Syntax.Unmarshal_newline. Qed.

Lemma HasPrefix_weaken s p t : Strings.HasPrefix s p = true -> Strings.HasPrefix (s +:+ t) p = true.
Proof. rewrite !Strings.HasPrefix_spec. intros [r ->]. exists (r +:+ t). by rewrite Strings.append_assoc. Qed.

Lemma Contains_weaken s p t : Strings.Contains s p = true -> Strings.Contains (s +:+ t) p = true.
Proof.
  induction s as [|a s IH]; cbn.
  - rewrite orb_false_r. intros H. destruct p; [|done]. by destruct t.
  - intros [H|H]%orb_true_iff; apply orb_true_iff; [left|right; by apply IH].
    exact (HasPrefix_weaken (String a s) p t H).
Qed.

Lemma scan_data_line p ev u :
  event_payload p ev -> scanUsageLine ("data: " +:+ p +:+ String nl "") u = ev_usage u ev.
Proof.
  intros (_ & (ms & Hp & Hn & Hev) & Hc). unfold scanUsageLine.
  rewrite Strings.HasPrefix_app. cbn [negb]. rewrite (Strings.slice_from_app "data: ").
  destruct (scan_event_simulation ms ev Hn Hev) as (sc & Hsc & Ht & Hm & Hu).
  rewrite parse_newline, Hp. cbn [mbind option_bind]. rewrite Hsc, Ht, Hm, Hu. unfold ev_usage.
  destruct (decide (ev_Type ev ∈ ["message_start"; "message_delta"])) as [Hin|Hin].
  - rewrite Contains_weaken by auto. done.
  - rewrite !not_elem_of_cons in Hin. destruct Hin as (H1 & H2 & _).
    rewrite (bool_decide_false _ H1), (bool_decide_false _ H2). by case (negb _).
Qed.

Lemma read_lines_line a t : one_line a -> read_lines (a +:+ String nl t) = (a +:+ String nl "") :: read_lines t.
Proof.
  unfold one_line. induction a as [|x a IH]; intros H; [done|].
  change (String x a +:+ String nl t) with (String x (a +:+ String nl t)).
  cbn [Strings.IndexByte] in H. cbn [read_lines]. destruct (Ascii.eqb x nl); [done|].
  rewrite IH; [done|]. by destruct (Strings.IndexByte a nl).
Qed.

Lemma read_lines_sse items :
  Forall (fun i => match i with Some p => one_line p | None => True end) items ->
  read_lines (sse_text items) = concat (map (fun i => [item_line i +:+ String nl ""; String nl ""]) items).
Proof.
  induction 1 as [|i items Hi Hall IH]; [done|]. cbn [sse_text foldr]. fold (sse_text items).
  rewrite item_text, Strings.append_assoc.
  change (String nl (String nl "") +:+ sse_text items) with (String nl ("" +:+ String nl (sse_text items))).
  rewrite read_lines_line; [|destruct i as [p|]; [by apply one_line_app|done]].
  rewrite read_lines_line by done. by rewrite IH.
Qed.

Lemma scan_sse_usage items evs u :
  Forall2 event_payload (omap (fun i => i) items) evs ->
  fold_left (fun u l => scanUsageLine l u) (read_lines (sse_text items)) u = fold_left ev_usage evs u.
Proof.
  intros H. rewrite read_lines_sse.
  2: { clear u. revert evs H. induction items as [|[p|] items IH]; intros evs H; cbn in H; [constructor|..].
       - inversion H as [|? ev ? evs' Hp Hr]; subst. constructor; [apply Hp|by eapply IH].
       - constructor; [done|by eapply IH]. }
  revert evs u H. induction items as [|[p|] items IH]; intros evs u H; cbn in H.
  - by inversion H.
  - inversion H as [|? ev ? evs' Hp Hr]; subst. cbn [map concat app fold_left item_line].
    rewrite Strings.append_assoc, (scan_data_line p ev) by done. by apply IH.
  - cbn [map concat app fold_left]. by apply IH.
Qed.

(** Exactly one event of the stream starts a message, and one closes its account. *)
Definition single_message (evs : list streamEvent) : Prop :=
  forall ty, ty ∈ ["message_start"; "message_delta"] ->
    length (List.filter (fun ev => bool_decide (ev.(ev_Type) = ty)) evs) = 1%nat.

Lemma ev_usage_other evs u :
  Forall (fun ev => ev.(ev_Type) <> "message_start" /\ ev.(ev_Type) <> "message_delta") evs ->
  fold_left ev_usage evs u = u.
Proof.
  induction 1 as [|ev evs [H1 H2] _ IH]; [done|]. cbn [fold_left]. unfold ev_usage at 2.
  by rewrite (bool_decide_false _ H1), (bool_decide_false _ H2).
Qed.

Lemma single_none ty (a b : list streamEvent) ev :
  length (List.filter (fun ev => bool_decide (ev.(ev_Type) = ty)) (a ++ ev :: b)) = 1%nat ->
  ev.(ev_Type) = ty -> Forall (fun ev => ev.(ev_Type) <> ty) (a ++ b).
Proof.
  rewrite List.filter_app, length_app. cbn [List.filter]. intros Hl He. rewrite bool_decide_true in Hl by done.
  cbn [length] in Hl.
  assert (Hf : forall l, length (List.filter (fun ev => bool_decide (ev_Type ev = ty)) l) = 0%nat ->
                 Forall (fun ev => ev_Type ev <> ty) l).
  { intros l. induction l as [|x l IH]; cbn; [constructor|]. case_bool_decide; [done|]. constructor; auto. }
  apply list.Forall_app. split; apply Hf; lia.
Qed.

Lemma single_message_usage resp evs :
  streamed_form resp evs -> single_message evs ->
  fold_left ev_usage evs usage0 = resp.(ms_Usage).
Proof.
  intros Hf Hs. destruct Hf as [start m mid fin d u stop rest Ht0 Hm0 _ _ Hu0 Hmid _ Htf _ _ Hu Hus Hts].
  pose proof (single_none "message_start" [] (mid ++ fin :: stop :: rest) start
    (Hs "message_start" ltac:(set_solver)) Ht0) as H1. cbn [app] in H1.
  pose proof (single_none "message_delta" (start :: mid) (stop :: rest) fin
    (Hs "message_delta" ltac:(set_solver)) Htf) as H2.
  apply list.Forall_app in H1 as [Hm1 Hr1]. apply Forall_cons in Hr1 as [_ Hr1].
  apply list.Forall_app in H2 as [Hm2 Hr2]. apply Forall_cons in Hm2 as [_ Hm2].
  cbn [fold_left]. rewrite fold_left_app. cbn [fold_left].
  rewrite (ev_usage_other mid) by (apply Forall_and; auto).
  pose proof (ev_usage_other (stop :: rest)
    (ev_usage (ev_usage usage0 start) fin) ltac:(apply Forall_and; auto)) as Hend.
  cbn [fold_left] in Hend. rewrite Hend. unfold ev_usage. rewrite Ht0, Htf, Hm0, Hu. cbn.
  rewrite Hu0, Hus. by destruct (ms_Usage resp).
Qed.

(** C23: The native endpoint charges the same tokens for a message whether it
    is streamed or not, and the same as the OpenAI-compatible endpoint would:
    when the upstream streams the message [resp] (any heartbeats in between,
    any further events around it), the usage scanned from the piped lines is
    the usage of the plain answer [resp], and the usage the adapter's
    conversion reports for it. *)
Theorem messages_usage_agrees flusher items evs resp plain j wall name :
  Forall2 event_payload (omap (fun i => i) items) evs -> streamed_form resp evs -> single_message evs ->
  parse_json plain = Some j -> unmarshal_response j = Some resp ->
  (pipeAnthropicSSE flusher [] (sse_text items)).2 = envelope_usage plain /\
  (let u := envelope_usage plain in
   (fromAnthropicResponse wall resp name).(resp_Usage) =
   Some (make_usage u.(mu_InputTokens) u.(mu_OutputTokens))).
Proof.
  intros Hp Hf Hs Hj Hr. rewrite (envelope_usage_plain plain j resp Hj Hr). split; [|done].
  unfold pipeAnthropicSSE. pose proof (pipe_lines_live flusher (read_lines (sse_text items)) usage0) as Hl.
  destruct (pipe_lines _ _ _ _) as [es u]. destruct Hl as (_ & _ & ->). cbn [snd].
  rewrite (scan_sse_usage items evs) by done. by apply single_message_usage.
Qed.
End Agreement.

Module Example.
#[local] Existing Instance Syntax.Unmarshal.

(** A streamed message, with a ping and a heartbeat, the same message in one
    piece, and a request. *)
Definition m_start : members :=
  [("type", JString "message_start"); ("message", JObject [("id", JString "msg_1");
     ("model", JString "claude"); ("usage", JObject [("input_tokens", JNumber "9")])])].
Definition m_ping : members := [("type", JString "ping")].
Definition m_delta : members :=
  [("type", JString "content_block_delta"); ("index", JNumber "0");
   ("delta", JObject [("type", JString "text_delta"); ("text", JString "bon")])].
Definition m_final : members :=
  [("type", JString "message_delta"); ("delta", JObject [("stop_reason", JString "end_turn")]);
   ("usage", JObject [("output_tokens", JNumber "2")])].
Definition m_stop : members := [("type", JString "message_stop")].
Definition plain_json : json :=
  JObject [("id", JString "msg_1"); ("type", JString "message"); ("role", JString "assistant");
           ("content", JArray [JObject [("type", JString "text"); ("text", JString "bon")]]);
           ("model", JString "claude"); ("stop_reason", JString "end_turn");
           ("usage", JObject [("input_tokens", JNumber "9"); ("output_tokens", JNumber "2")])].
Definition request_json : json :=
  JObject [("model", JString "claude-x"); ("stream", JBool true); ("thinking", JNull)].

Definition event_text (ms : members) : string := Syntax.Marshal (JObject ms).
Definition items : list (option string) :=
  [Some (event_text m_start); Some (event_text m_ping); None; Some (event_text m_delta);
   Some (event_text m_final); Some (event_text m_stop)].

Definition resp : messagesResponse :=
  {| ms_ID := "msg_1"; ms_Type := "message"; ms_Role := "assistant";
     ms_Content := [{| cb_Type := "text"; cb_Text := "bon" |}]; ms_Model := "claude";
     ms_StopReason := "end_turn"; ms_StopSequence := "";
     ms_Usage := {| mu_InputTokens := 9; mu_OutputTokens := 2 |} |}.

Definition evs : list streamEvent :=
  [Build_streamEvent "message_start"
     (Some (Build_startMessage "msg_1" "claude" (Build_messageUsage 9 0))) 0 None None None;
   Build_streamEvent "ping" None 0 None None None;
   Build_streamEvent "content_block_delta" None 0 (Some (Build_eventDelta "text_delta" "bon" "")) None None;
   Build_streamEvent "message_delta" None 0 (Some (Build_eventDelta "" "" "end_turn"))
     (Some (Build_messageUsage 0 2)) None;
   Build_streamEvent "message_stop" None 0 None None None].

Lemma payload_at ev ms :
  Syntax.json_ok Syntax.maxNestingDepth (JObject ms) = true -> Forall (fun kv => kv.2 <> JNull) ms ->
  unmarshal_event (JObject ms) = Some ev ->
  bool_decide (ev.(ev_Type) ∈ ["message_start"; "message_delta"]) &&
    negb (Strings.Contains (event_text ms) quoted_usage) = false ->
  event_payload (event_text ms) ev.
Proof.
  intros H2 H3 H4 H5. split_and!.
  - by apply (Syntax.Marshal_one_line _ Syntax.maxNestingDepth).
  - exists ms. split_and!; [by apply Syntax.Unmarshal_Marshal|done|done].
  - intros Hin. rewrite bool_decide_true in H5 by done. by destruct (Strings.Contains _ quoted_usage).
Qed.

Lemma messages_usage_agrees_witness :
  (pipeAnthropicSSE true [] (sse_text items)).2 = envelope_usage (Syntax.Marshal plain_json) /\
  (fromAnthropicResponse 7 resp "claude").(resp_Usage) = Some (make_usage 9 2).
Proof.
  eapply (messages_usage_agrees true items evs resp (Syntax.Marshal plain_json) plain_json 7 "claude").
  - change (Forall2 event_payload (map event_text [m_start; m_ping; m_delta; m_final; m_stop]) evs).
    repeat (apply Forall2_cons_2;
      [apply payload_at; [vm_compute; reflexivity|by repeat constructor|reflexivity|vm_compute; reflexivity]|]).
    apply Forall2_nil_2.
  - unfold evs. match goal with |- streamed_form _ [?a; ?b; ?c; ?d; ?f] =>
      apply (streamed resp a (Build_startMessage "msg_1" "claude" (Build_messageUsage 9 0)) [b; c] d
               (Build_eventDelta "" "" "end_turn") (Build_messageUsage 0 2) f []) end;
      try reflexivity.
    repeat apply Forall_cons_2; [| |apply Forall_nil_2]; apply (bool_decide_eq_true_1 (_ ∉ _)); reflexivity.
  - intros ty Hty. apply elem_of_cons in Hty as [->|Hty]; [reflexivity|].
    apply list_elem_of_singleton in Hty as ->. reflexivity.
  - vm_compute. reflexivity.
  - reflexivity.
Defined.

(** A registry whose only provider speaks Anthropic's protocol. *)
Definition file : providersFile :=
  {| Providers := [test_pc "claude" "anthropic" ["claude-x"] []]; DefaultProvider := "" |}.
Definition reg : Registry adapter := match build file with inr r => r | inl _ => NewEmpty end.
Definition fwd : anthropic.Provider :=
  match ResolveModel reg "claude-x" with
  | inr (Anthropic p) => p
  | _ => {| anthropic.cfg := {| anthropic.cfg_Name := ""; anthropic.cfg_Endpoint := ""; anthropic.cfg_APIKey := "";
              anthropic.cfg_APIVersion := ""; anthropic.cfg_Timeout := 0; anthropic.cfg_DefaultMaxTokens := 0;
              anthropic.cfg_Models := {| Exact := []; Glob := [] |} |};
            anthropic.baseURL := ""; anthropic.max_tokens := 0 |}
  end.

Definition q : request :=
  {| mq_body := {| raw := Syntax.Marshal request_json; broken := false |}; mq_beta := "b1"; mq_principal := None; mq_id := "r";
     mq_started := 0; mq_latency := 1; mq_flusher := true; mq_wire := [] |}.
Definition header (h : string) : string :=
  if bool_decide (h = "Content-Type") then "text/event-stream" else if bool_decide (h = "X-Other") then "1" else "".
Definition net (_ : raw_outbound) : exchange := Responded 200 header (sse_text items) None.
Definition no_err (_ : anthropic.Provider) : option error := None.
Definition id_text (s : string) : string := s.

Lemma messages_transparent_witness :
  transparent 200 header (sse_text items)
    (apply_effects (messagesHandler id_text "ua" no_err net reg q).1 new_writer).
Proof.
  apply (messages_transparent id_text "ua" no_err net reg q fwd "claude-x" 200 header (sse_text items) None).
  - split_and!; try (by vm_compute). by eexists.
  - reflexivity.
  - reflexivity.
  - left. reflexivity.
Defined.
End Example.
