(* ===== verification/Gateway.v ===== *)
(** * Gateway: the chat path put together

    The router of [Router] over the registry of [Registry] is an [Upstream] for
    the handler of [Chat], and the handler and the rate-limit middleware are
    handlers of [Http]; the theorems here are about the composition. *)

From S2P Require Import Prelude GoStd Float64 Errors Types Encoding JsonSyntax Wire Registry Policy Router RouterSpec RouterLive RateLimit Billing Auth Prompt Route Cache Stream Chat Http.
From stdpp Require Import base list gmap.
Import Retry Breaker.
Local Open Scope Z_scope.

Section RouterUpstream.
Context {E P CB Permit : Type} `{!Env E P} `{!Provider P} `{!GoBreaker CB Permit}.

(** A router with its breakers, clock and history. *)
Record live_router := { lr_router : Router (Registry P); lr_state : rstate E CB }.

(** The loops have fuel for every run ([ChatCompletion_session]); what is
    returned without any is immaterial. *)
Definition no_fuel : error := Errorf "unreachable" [] None.

Definition total_run {A} (r : Router (Registry P)) (x : option (error + A) * rstate E CB)
    : (error + A) * live_router :=
  (default (inl no_fuel) x.1, {| lr_router := r; lr_state := x.2 |}).

#[export] Instance router_upstream : Upstream live_router := {
  up_ResolveModel u model :=
    match ResolveModel u.(lr_router).(resolver) model with inl _ => false | inr _ => true end;
  up_ChatCompletion req u := total_run u.(lr_router) (ChatCompletion u.(lr_router) req u.(lr_state));
  up_ChatCompletionStream req u := total_run u.(lr_router) (serve_stream u.(lr_router) req u.(lr_state))
}.

Context `{!GoBreakerLaws CB Permit}.

(** The provider [n] of the model's chain answered the request with [resp]. *)
Definition answered (u : live_router) (req : ChatRequest) (n : string) (resp : ChatResponse) : Prop :=
  exists p (e : E), p ∈ ResolveChain u.(lr_router).(resolver) req.(req_Model) /\ Types.Name p = n /\
    (env_chat p req e).1 = inr resp.

(** The real router's answer and what it did for it. *)
Lemma router_upstream_spec req (u : live_router) :
  let '(res, u') := up_ChatCompletion req u in
  u'.(lr_router) = u.(lr_router) /\
  exists tr, u'.(lr_state).(history) = u.(lr_state).(history) ++ tr /\
    match res with
    | inr resp => count is_success tr = 1 /\ exists n tr0,
        n ∈ Types.Name <$> ResolveChain u.(lr_router).(resolver) req.(req_Model) /\
        answered u req n resp /\ tr = tr0 ++ [EvAllow n; EvCall n None; EvDone n None]
    | inl _ => count is_success tr = 0
    end.
Proof.
  cbn. split; [done|]. destruct (ChatCompletion_success (lr_router u) req (lr_state u)) as (tr & Htr & x & Hx & Hs).
  exists tr. rewrite Hx. split; [done|]. destruct x; exact Hs.
Qed.

Section Chat.
Context {T W : Type} `{!Tokenizer T} `{sha : !Sha256} `{text : !JsonText} `{parser : !JsonParser}
  `{floats : !FloatText}.
Context (decode_error Quote ToLower : string -> string).

(** The pre-flight test of the handler: an admitted model has a provider. *)
Lemma admitted_chain h (e : request) (w : world (U := live_router) (W := W)) req hd w1 :
  admit_request (T := T) decode_error Quote ToLower h e w = (inr (req, hd), w1) ->
  ResolveChain w.(upstream).(lr_router).(resolver) req.(req_Model) <> [].
Proof.
  unfold admit_request. destruct (readChatRequest _ _) as [m|req0]; [done|].
  destruct (classify _ _ _ _ _ _) as [[req1 hd1] rng]. destruct (compress _ _ _) as [req2 hd2].
  destruct (up_ResolveModel _ _) eqn:Hres; cbn [negb]; [|done].
  destruct (token_gate _ _ _ _ _ _) as [[[m hd3]|] l]; [done|]. intros [= -> _ _].
  cbn in Hres. unfold ResolveModel in Hres. by destruct (ResolveChain _ _).
Qed.

(** What the client of a plain request is sent is the router's answer. *)
Lemma plain_answer h (e : request) (w : world (U := live_router) (W := W)) req hd w1 :
  admit_request decode_error Quote ToLower h e w = (inr (req, hd), w1) -> req.(req_Stream) = false ->
  (lookup_cache h e req w.(store)).2 = None ->
  let '(o, w') := chatCompletionsHandler (T := T) decode_error Quote ToLower h e w in
  w'.(upstream) = (up_ChatCompletion req w.(upstream)).2 /\
  match (up_ChatCompletion req w.(upstream)).1 with
  | inr resp => o.(out_answer) = AnsJson (ChatResponse.marshal resp)
  | inl _ => exists r, o.(out_answer) = AnsError r
  end.
Proof.
  intros Ha Hst Hl. unfold chatCompletionsHandler.
  destruct (admit_request_inert decode_error Quote ToLower h e w) as (Hu & Hs & _). rewrite Ha in *.
  cbn [fst snd] in Hu, Hs. rewrite Hst. unfold serve_plain. rewrite Hs, Hu.
  destruct (lookup_cache h e req (store w)) as [key hit]. cbn in Hl. subst hit.
  destruct (up_ChatCompletion req (upstream w)) as [[err|resp] u]; [by split; [|eexists]|].
  destruct (tokenCounts (tk h) req (Some resp)). cbn [fst snd].
  match goal with |- context [if ?b then with_store _ _ else _] => destruct b end; done.
Qed.

(** The client is there to the end: the connection can stream, its writes
    succeed and nothing is cancelled. *)
Definition stays (e : request) : Prop :=
  e.(rq_flusher) = true /\ e.(rq_wire) = [] /\ e.(rq_ctx1) = false /\
  forall x, (env_send (E := E) (P := P) x).1 = true.

(** What the client of a stream is sent for the events of a call: its chunks, at
    least one, and the end of the stream, with the status it is billed with. *)
Definition relayed (evs : list StreamEvent) (frames : list frame) (status : Z) : Prop :=
  exists cs c0 cs0, cs = c0 :: cs0 /\
    ((evs = map Chunk cs /\ frames = map FChunk cs ++ [FDone] /\ status = 200) \/
     (exists err rest b, evs = map Chunk cs ++ Err err :: rest /\
        frames = map FChunk cs ++ [FError b] /\ b.(errmap.ebMessage) = (errmap.mapProviderError err).(errmap.Message) /\
        status = (errmap.mapProviderError err).(errmap.Status))).

Lemma stream_answer h (e : request) (w : world (U := live_router) (W := W)) req hd w1 :
  admit_request decode_error Quote ToLower h e w = (inr (req, hd), w1) -> req.(req_Stream) = true ->
  (lookup_cache h e req w.(store)).2 = None -> stays e ->
  let '(o, w') := chatCompletionsHandler (T := T) decode_error Quote ToLower h e w in
  w'.(upstream) = (up_ChatCompletionStream req w.(upstream)).2 /\
  exists ev, o.(out_billed) = [ev] /\
    match (up_ChatCompletionStream req w.(upstream)).1 with
    | inl _ => exists r, o.(out_answer) = AnsError r /\ r.(errmap.code) <> 200 /\ ev.(Worker.Status) = r.(errmap.code)
    | inr evs => exists frames p x, o.(out_answer) = AnsSse frames /\
        p ∈ ResolveChain w.(upstream).(lr_router).(resolver) req.(req_Model) /\
        (env_stream p req x).1 = inr evs /\ relayed evs frames ev.(Worker.Status)
    end.
Proof.
  intros Ha Hst Hl (Hf & Hw & Hc & Hsend). unfold chatCompletionsHandler.
  destruct (admit_request_inert decode_error Quote ToLower h e w) as (Hu & Hs & _). rewrite Ha in *.
  cbn [fst snd] in Hu, Hs. rewrite Hst. unfold serve_streaming. rewrite Hs, Hu.
  destruct (lookup_cache h e req (store w)) as [key hit]. cbn in Hl. subst hit.
  destruct (stream_whole (lr_router (upstream w)) req Hsend (lr_state (upstream w))) as (tr & _ & x & Hx & Hout).
  cbn [up_ChatCompletionStream router_upstream]. unfold total_run. rewrite Hx. cbn [default fst snd].
  destruct x as [err|evs].
  - cbn. split; [done|]. eexists. split; [done|]. eexists. split; [done|]. split; [apply mapped_status_not_200|done].
  - destruct (Hout evs eq_refl) as (p & x & c & rest & Hp & He & ->).
    pose proof (stream_delivery (stream_env e) h.(tk) h.(exactCache) h.(cacheTTL) key req (Chunk c :: rest)
      Hf Hw Hc) as Hd. cbn [default from_option].
    destruct (handleChatStream _ _ _ _ _ _ _) as [r eff]. destruct Hd as (cs & ev & Hb & Hor).
    split; [by destruct (cache_set eff) as [[? ?]|]|]. exists ev.
    destruct Hor as [(Hcs & -> & Hv)|(err & rest' & b & Hcs & -> & Hm & _ & Hv)];
      (destruct cs as [|c0 cs0]; [done|]); (split; [done|]); eexists _, p, x; (split_and!; [done..|]);
      exists (c0 :: cs0), c0, cs0; (split; [done|]); [by left|right; exists err, rest', b; by split_and!].
Qed.

(** C2: From the client's answer back to the providers.  For a plain request
    that the gateway admits and the cache does not answer, the model has a
    non-empty fail-over chain, and the client is told the truth about what
    happened in it: a 200 with a body means that exactly one provider call
    succeeded, of a provider of the chain, that it was the last thing the router
    did and that the body is its response; an error status means that no call
    succeeded.  The billing row names
    that status, and the provider of the response. *)
Theorem gateway_chat h (e : request) (w : world (U := live_router) (W := W)) req hd w1 :
  admit_request decode_error Quote ToLower h e w = (inr (req, hd), w1) -> req.(req_Stream) = false ->
  (lookup_cache h e req w.(store)).2 = None ->
  let '(o, w') := chatCompletionsHandler (T := T) decode_error Quote ToLower h e w in
  let reg := w.(upstream).(lr_router).(resolver) in
  ResolveChain reg req.(req_Model) <> [] /\
  exists tr ev, w'.(upstream).(lr_state).(history) = w.(upstream).(lr_state).(history) ++ tr /\
    o.(out_billed) = [ev] /\ ev.(Worker.Status) = status_of o.(out_answer) /\
    match o.(out_answer) with
    | AnsJson j => count is_success tr = 1 /\
        exists n tr0 resp, answered w.(upstream) req n resp /\
          tr = tr0 ++ [EvAllow n; EvCall n None; EvDone n None] /\
          j = ChatResponse.marshal resp /\ ev.(Worker.Provider) = resp.(resp_Provider)
    | AnsError r => count is_success tr = 0 /\ r.(errmap.code) <> 200
    | AnsSse _ => False
    end.
Proof.
  intros Ha Hst Hl. pose proof (admitted_chain _ _ _ _ _ _ Ha) as Hchain.
  unfold chatCompletionsHandler.
  destruct (admit_request_inert decode_error Quote ToLower h e w) as (Hu & Hs & _). rewrite Ha in *.
  cbn [fst snd] in Hu, Hs. rewrite Hst. unfold serve_plain. rewrite Hs, Hu.
  destruct (lookup_cache h e req (store w)) as [key hit]. cbn in Hl. subst hit.
  pose proof (router_upstream_spec req (upstream w)) as Hup.
  destruct (up_ChatCompletion req (upstream w)) as [[err|resp] u]; destruct Hup as [Hr (tr & Htr & Hx)].
  - split; [done|]. exists tr. eexists. split_and!; [done|done|done|]. cbn. split; [done|].
    apply mapped_status_not_200.
  - destruct (tokenCounts _ _ _) as [p c]. destruct Hx as (Hc & n & tr0 & _ & Hn & Ht).
    match goal with |- context [if ?b then with_store _ _ else _] => destruct b end;
      (split; [done|]); exists tr; eexists; (split_and!; [done|done|done|]); cbn;
      (split; [done|]); by exists n, tr0, resp.
Qed.

(** C3: The same for a stream.  For a streaming request that the gateway admits
    and the cache does not answer, with a client that stays to the end: if the
    answer is a stream, it is the whole stream of one call to one provider of
    the model's chain, from its first chunk to its end ([DONE]) or to the error
    that ended it (one error event), nothing of any other call mixed in;
    otherwise it is an error.  There is one billing row, with the status of
    that ending. *)
Theorem gateway_stream h (e : request) (w : world (U := live_router) (W := W)) req hd w1 :
  admit_request decode_error Quote ToLower h e w = (inr (req, hd), w1) -> req.(req_Stream) = true ->
  (lookup_cache h e req w.(store)).2 = None ->
  e.(rq_flusher) = true -> e.(rq_wire) = [] -> e.(rq_ctx1) = false ->
  (forall x, (env_send (E := E) (P := P) x).1 = true) ->
  exists ev, (chatCompletionsHandler (T := T) decode_error Quote ToLower h e w).1.(out_billed) = [ev] /\
    match (chatCompletionsHandler (T := T) decode_error Quote ToLower h e w).1.(out_answer) with
    | AnsJson _ => False
    | AnsError r => r.(errmap.code) <> 200 /\ ev.(Worker.Status) = r.(errmap.code)
    | AnsSse frames => exists p x evs cs c0 cs0,
        p ∈ ResolveChain w.(upstream).(lr_router).(resolver) req.(req_Model) /\
        (env_stream p req x).1 = inr evs /\ cs = c0 :: cs0 /\
        ((evs = map Chunk cs /\ frames = map FChunk cs ++ [FDone] /\ ev.(Worker.Status) = 200) \/
         (exists err rest b, evs = map Chunk cs ++ Err err :: rest /\
            frames = map FChunk cs ++ [FError b] /\ b.(errmap.ebMessage) = (errmap.mapProviderError err).(errmap.Message) /\
            ev.(Worker.Status) = (errmap.mapProviderError err).(errmap.Status)))
    end.
Proof.
  intros Ha Hst Hl Hf Hw Hc Hsend.
  pose proof (stream_answer h e w req hd w1 Ha Hst Hl ltac:(by split_and!)) as Hans.
  destruct (chatCompletionsHandler _ _ _ _ _ _) as [o w']. destruct Hans as (_ & ev & Hb & Hans).
  exists ev. split; [done|]. cbn [fst].
  destruct (up_ChatCompletionStream req (upstream w)).1 as [err|evs]; [by destruct Hans as (r & -> & ?)|].
  destruct Hans as (frames & p & x & -> & Hp & He & cs & c0 & cs0 & Hcs & Hor). by exists p, x, evs, cs, c0, cs0.
Qed.

(** [p] of the model's chain is up for this request, see [RouterLive]. *)
Definition upstream_up (u : live_router) (req : ChatRequest) (p : P) : Prop :=
  if req.(req_Stream) then stream_serviceable u.(lr_router) req p u.(lr_state)
  else serviceable u.(lr_router) req p u.(lr_state).

(** C4: One healthy provider of the chain is enough for the client.  An admitted
    request that the cache does not answer is answered with status 200, with
    a JSON body or with a stream that begins with a chunk as it asked, whatever the
    providers before the healthy one fail with, provided those failures are
    ones fail-over handles; the only error there can be is that the time budget
    of the router ran out on the way. *)
Theorem gateway_available h (e : request) (w : world (U := live_router) (W := W)) req hd w1 p :
  admit_request decode_error Quote ToLower h e w = (inr (req, hd), w1) ->
  (lookup_cache h e req w.(store)).2 = None ->
  stays e -> upstream_up w.(upstream) req p ->
  let '(o, w') := chatCompletionsHandler (T := T) decode_error Quote ToLower h e w in
  match o.(out_answer) with
  | AnsJson _ => req.(req_Stream) = false
  | AnsSse frames => req.(req_Stream) = true /\ exists c rest, frames = FChunk c :: rest
  | AnsError _ => out_of_time w.(upstream).(lr_router) w.(upstream).(lr_state) w'.(upstream).(lr_state)
  end.
Proof.
  intros Ha Hl Hstay Hup. unfold upstream_up in Hup. destruct (req_Stream req) eqn:Hst.
  - pose proof (serve_stream_live _ _ _ _ Hup) as Hlive.
    pose proof (stream_answer h e w req hd w1 Ha Hst Hl Hstay) as Hans.
    destruct (chatCompletionsHandler _ _ _ _ _ _) as [o w']. destruct Hans as (-> & ev & _ & Hans).
    cbn [up_ChatCompletionStream router_upstream] in *. unfold total_run in *.
    destruct Hlive as [[evs He]|[[err He] Ht]]; rewrite He in Hans; cbn in Hans.
    + destruct Hans as (frames & p' & x & -> & _ & _ & cs & c0 & cs0 & -> & [(_ & -> & _)|(? & ? & ? & _ & -> & _)]);
        (split; [done|]); by eexists _, _.
    + destruct Hans as (r & -> & _). exact Ht.
  - pose proof (ChatCompletion_live _ _ _ _ Hup) as Hlive.
    pose proof (plain_answer h e w req hd w1 Ha Hst Hl) as Hans.
    destruct (chatCompletionsHandler _ _ _ _ _ _) as [o w']. destruct Hans as [-> Hans].
    cbn [up_ChatCompletion router_upstream] in *. unfold total_run in *.
    destruct Hlive as [[resp He]|[[err He] Ht]]; rewrite He in Hans; cbn in Hans; [by rewrite Hans|].
    destruct Hans as [r ->]. exact Ht.
Qed.
End Chat.
End RouterUpstream.

Module Example.
#[local] Existing Instance Keystore.toy_digest.
#[local] Existing Instance Wire.Example.coded.
#[local] Existing Instance Syntax.Marshal.
#[local] Existing Instance Syntax.Unmarshal.
#[local] Existing Instance Chat.Example.toy.
#[local] Existing Instance RouterSpec.Example.toy_breaker.
#[local] Existing Instance RouterSpec.Example.toy_laws.
#[local] Existing Instance RouterSpec.Example.name_Provider.
#[local] Existing Instance RouterSpec.Example.toy_env.
Import Chat.Example.

Definition two_providers : Registry string :=
  {| state := {| names := ["primary"; "backup"];
                 byName := {["primary" := "primary"; "backup" := "backup"]};
                 exactIndex := {["gpt-4o" := "primary"]}; globRules := [];
                 defaultProvider := Some "backup" |} |}.

(** The primary fails, the backup answers. *)
Definition w0 : world (U := live_router (E := RouterSpec.Example.toy) (P := string) (CB := bool)) (W := unit) :=
  {| limits := tt; store := ∅; rolls := [];
     upstream := {| lr_router := {| resolver := two_providers; policy := DefaultPolicy |};
                    lr_state := RouterSpec.Example.start_state
                      [inl (Sentinel_ ErrUpstream); inr Wire.Example.sample_response] [] |} |}.

Lemma gateway_chat_witness :
  exists tr, (chatCompletionsHandler id_text id_text id_text (h []) (ask 5) w0).2.(upstream).(lr_state).(history) = tr /\
    count is_success tr = 1.
Proof.
  pose proof (gateway_chat id_text id_text id_text (h []) (ask 5) w0 admitted ∅ w0) as H.
  assert (Ha : exists j, (chatCompletionsHandler id_text id_text id_text (h []) (ask 5) w0).1.(out_answer) = AnsJson j)
    by (eexists; vm_compute; reflexivity).
  destruct (chatCompletionsHandler id_text id_text id_text (h []) (ask 5) w0) as [o w'].
  destruct Ha as [j Hj]. cbn [fst snd] in *.
  destruct H as (_ & tr & ev & Htr & _ & _ & Hm); [by vm_compute|by vm_compute|by vm_compute|].
  exists tr. rewrite Hj in Hm. split; [exact Htr|]. apply Hm.
Defined.
End Example.

Module StreamExample.
#[local] Existing Instance Keystore.toy_digest.
#[local] Existing Instance Wire.Example.coded.
#[local] Existing Instance Syntax.Marshal.
#[local] Existing Instance Syntax.Unmarshal.
#[local] Existing Instance Chat.Example.toy.
#[local] Existing Instance RouterSpec.Example.toy_breaker.
#[local] Existing Instance RouterSpec.Example.toy_laws.
#[local] Existing Instance RouterSpec.Example.name_Provider.
#[local] Existing Instance RouterSpec.Example.toy_env.
Import Chat.Example.

(** The primary's stream fails before its first chunk, the backup's breaks off
    after one. *)
Definition w0 : world (U := live_router (E := RouterSpec.Example.toy) (P := string) (CB := bool)) (W := unit) :=
  {| limits := tt; store := ∅; rolls := [];
     upstream := {| lr_router := {| resolver := Example.two_providers; policy := DefaultPolicy |};
                    lr_state := RouterSpec.Example.start_state []
                      [inr [Err (Sentinel_ ErrUpstream)];
                       inr [Chunk Wire.Example.sample_chunk; Err (Sentinel_ ErrTimeout)]] |} |}.

Definition req0 : ChatRequest :=
  match (admit_request id_text id_text id_text (h []) (asked true 5) w0).1 with
  | inr (req, _) => req | inl _ => Wire.Example.sample end.

Lemma gateway_stream_witness :
  exists b, (chatCompletionsHandler id_text id_text id_text (h []) (asked true 5) w0).1.(out_answer) =
    AnsSse [FChunk Wire.Example.sample_chunk; FError b].
Proof.
  destruct (gateway_stream id_text id_text id_text (h []) (asked true 5) w0 req0 ∅ w0) as (ev & Hb & Hm);
    [by vm_compute..|done|].
  destruct (out_answer (chatCompletionsHandler id_text id_text id_text (h []) (asked true 5) w0).1) as [r|j|frames] eqn:E.
  - vm_compute in E. discriminate E.
  - destruct Hm.
  - vm_compute in E. injection E as <-. by eexists.
Defined.
End StreamExample.

Module LiveExample.
#[local] Existing Instance Keystore.toy_digest.
#[local] Existing Instance Wire.Example.coded.
#[local] Existing Instance Syntax.Marshal.
#[local] Existing Instance Syntax.Unmarshal.
#[local] Existing Instance Chat.Example.toy.
#[local] Existing Instance RouterSpec.Example.toy_breaker.
#[local] Existing Instance RouterSpec.Example.toy_laws.
#[local] Existing Instance RouterSpec.Example.name_Provider.
Import Chat.Example.

(** The primary is down for good, the backup always answers; the state of the
    world is its clock. *)
#[local] Instance half_up : Env Z string := {
  env_now t := (t, t); env_wall t := (t, t); env_random t := (lit 1 2, t);
  env_sleep d t := (None, t + Z.max 0 d);
  env_chat n _ t := (if bool_decide (n = "backup") then inr Wire.Example.sample_response
                     else inl (Sentinel_ ErrUpstream), t + Second);
  env_stream n _ t := (if bool_decide (n = "backup") then inr [Chunk Wire.Example.sample_chunk]
                       else inr [Err (Sentinel_ ErrTimeout)], t + Second);
  env_peek t := (RecvOk, t); env_send t := (true, t)
}.

(** No time budget. *)
Definition patient : RetryPolicy :=
  {| MaxRetries := 2; MaxTotal := 0; BaseBackoff := 100 * Millisecond; MaxBackoff := 5 * Second |}.

Definition w0 : world (U := live_router (E := Z) (P := string) (CB := bool)) (W := unit) :=
  {| limits := tt; store := ∅; rolls := [];
     upstream := {| lr_router := {| resolver := Example.two_providers; policy := patient |};
                    lr_state := {| env := 0; pool := newBreakerPool DefaultBreakerSettings; history := [] |} |} |}.

Definition req_of (stream : bool) : ChatRequest :=
  match (admit_request id_text id_text id_text (h []) (asked stream 5) w0).1 with
  | inr (req, _) => req | inl _ => Wire.Example.sample end.

Lemma backup_up stream : upstream_up w0.(upstream) (req_of stream) "backup".
Proof.
  assert (Hin : "backup" ∈ resolve w0.(upstream).(lr_router) (req_of stream).(req_Model))
    by (destruct stream; apply (bool_decide_unpack _); vm_compute; exact I).
  unfold upstream_up. destruct stream; [rewrite (eq_refl : req_Stream (req_of true) = true)|
    rewrite (eq_refl : req_Stream (req_of false) = false)]; split; try done; try by (intros t; eexists; eauto).
  - intros q _ e. cbn. by case_bool_decide.
  - intros q _ e err. cbn. case_bool_decide; [done|]. by intros [= <-].
Qed.

Lemma req_of_stream stream : req_Stream (req_of stream) = stream.
Proof. by destruct stream; vm_compute. Qed.

Lemma client_stays stream : stays (E := Z) (P := string) (asked stream 5).
Proof. by split_and!. Qed.

Lemma gateway_available_witness :
  (exists j, (chatCompletionsHandler id_text id_text id_text (h []) (asked false 5) w0).1.(out_answer) = AnsJson j) /\
  exists c rest, (chatCompletionsHandler id_text id_text id_text (h []) (asked true 5) w0).1.(out_answer) =
    AnsSse (FChunk c :: rest).
Proof.
  assert (Hlate : forall s', ~ out_of_time (lr_router (upstream w0)) (lr_state (upstream w0)) s').
  { intros s' (tr & el & _ & H). cbn in H. lia. }
  split.
  - pose proof (gateway_available id_text id_text id_text (h []) (asked false 5) w0 (req_of false) ∅ w0 "backup") as H.
    destruct (chatCompletionsHandler id_text id_text id_text (h []) (asked false 5) w0) as [o w']. cbn [fst].
    specialize (H ltac:(by vm_compute) ltac:(by vm_compute) (client_stays false) (backup_up false)).
    destruct (out_answer o) as [r|j|fr]; [destruct (Hlate _ H)|exists j; reflexivity|].
    destruct H as [H _]. rewrite req_of_stream in H. discriminate H.
  - pose proof (gateway_available id_text id_text id_text (h []) (asked true 5) w0 (req_of true) ∅ w0 "backup") as H.
    destruct (chatCompletionsHandler id_text id_text id_text (h []) (asked true 5) w0) as [o w']. cbn [fst].
    specialize (H ltac:(by vm_compute) ltac:(by vm_compute) (client_stays true) (backup_up true)).
    destruct (out_answer o) as [r|j|fr]; [destruct (Hlate _ H)|rewrite req_of_stream in H; discriminate H|].
    destruct H as (_ & c & rest & ->). exists c, rest. reflexivity.
Defined.
End LiveExample.
