(* ===== verification/EndToEnd.v ===== *)
(** * EndToEnd: the gateway between its client and its upstreams

    The last parameter of [Gateway] is filled in: the providers are the
    adapters the registry constructs, and what is left of the environment is
    the network they send HTTP requests to, the clock and the context
    ([Network]).  The theorem goes from the text the client posts to the text
    an upstream reads, and back. *)

From S2P Require Import Prelude GoStd Float64 Errors Types Encoding JsonSyntax Wire WireText Registry Policy Router RouterSpec RouterLive RateLimit Billing Auth Prompt Route Cache Stream Adapter OpenAI Mock Anthropic Chat Http Gateway.
From stdpp Require Import base list gmap.
Import Retry Breaker.
Local Open Scope Z_scope.

(** What the process sees of the outside while it serves one request. *)
Class Network (N : Type) := {
  net_now : N -> Z * N;
  net_wall : N -> Z * N;
  net_random : N -> float64 * N;
  net_sleep : Z -> N -> option error * N;
  net_exchange : outbound -> N -> exchange * N;
  net_peek : N -> recv * N;
  net_send : N -> bool * N;
  (** Whether the context is done, as the reader of a stream sees it, and how
      its sends go. *)
  net_ctxDone : N -> bool;
  net_sends : N -> list bool;
  (** [time.Now()] in the adapters: the clock and its Unix seconds. *)
  net_clock : N -> Z;
  net_unix : N -> Z
}.

Section EndToEnd.
Context {N CB Permit : Type} `{!Network N} `{!GoBreaker CB Permit} `{!GoBreakerLaws CB Permit}.
Context `{parser : !JsonParser} `{floats : !FloatText}.
Context (decode_error Quote : string -> string) (ParseTime : string -> option Z)
  (openai_error : string -> Errors.openai.apiError) (anthropic_error : string -> Errors.anthropic.apiError)
  (UserAgent : string).

(** ** The environment of the router *)

(** The request an adapter sends; the base URLs are ones [http.NewRequest]
    accepts. *)
Definition outbound_of (a : adapter) (stream : bool) (req : ChatRequest) : error + outbound :=
  match a with
  | Registry.OpenAI p => OpenAI.build_request UserAgent p stream None req
  | Registry.Anthropic p => Anthropic.build_request UserAgent p stream None req
  end.

(** The network after a call: it saw a request if one could be built. *)
Definition after (a : adapter) (stream : bool) (req : ChatRequest) (n : N) : N :=
  match outbound_of a stream req with inl _ => n | inr ob => (net_exchange ob n).2 end.

Definition exchange_at (n : N) (ob : outbound) : exchange := (net_exchange ob n).1.

(** [ChatCompletion] and [ChatCompletionStream] of the provider interface. *)
Definition adapter_chat (a : adapter) (req : ChatRequest) (n : N) : (error + ChatResponse) * N :=
  (match a with
   | Registry.OpenAI p =>
       OpenAI.ChatCompletion decode_error Quote ParseTime (net_clock n) openai_error UserAgent p None
         (exchange_at n) (Some req)
   | Registry.Anthropic p =>
       Anthropic.ChatCompletion decode_error Quote ParseTime (net_clock n) anthropic_error UserAgent p None
         (exchange_at n) (net_unix n) (Some req)
   end, after a false req n).

Definition adapter_stream (a : adapter) (req : ChatRequest) (n : N) : (error + list StreamEvent) * N :=
  (match a with
   | Registry.OpenAI p =>
       OpenAI.ChatCompletionStream decode_error Quote ParseTime (net_clock n) openai_error UserAgent p None
         (exchange_at n) (net_ctxDone n) (net_sends n) (Some req)
   | Registry.Anthropic p =>
       Anthropic.ChatCompletionStream decode_error Quote ParseTime (net_clock n) anthropic_error UserAgent p None
         (exchange_at n) (net_unix n) (net_ctxDone n) (net_sends n) (Some req)
   end, after a true req n).

#[local] Instance adapters : Env N adapter := {
  env_now := net_now; env_wall := net_wall; env_random := net_random; env_sleep := net_sleep;
  env_chat := adapter_chat; env_stream := adapter_stream; env_peek := net_peek; env_send := net_send
}.

(** ** What an upstream may do *)

(** The response an exchange carries. *)
Definition replied (a : adapter) (n : N) (x : exchange) : option ChatResponse :=
  match x with
  | Responded status _ body None =>
      if 400 <=? status then None
      else match a with
           | Registry.OpenAI p => ChatResponse.put_Provider (openai.Name p) <$> (parse_json body ≫= ChatResponse.unmarshal)
           | Registry.Anthropic p =>
               (fun m => fromAnthropicResponse (net_unix n) m (anthropic.Name p)) <$> (parse_json body ≫= unmarshal_response)
           end
  | _ => None
  end.

(** A failure that is worth trying elsewhere: the connection fails or breaks
    off for any reason but a cancelled context, or the upstream answers with
    any status that does not blame the request. *)
Definition tolerable (a : adapter) (x : exchange) : Prop :=
  match x with
  | DoFailed err | Responded _ _ _ (Some err) => Is err Canceled = false
  | Responded status _ body None =>
      match a with
      | Registry.OpenAI _ => status ∉ [400; 401; 403; 404; 422]
      | Registry.Anthropic _ =>
          400 <= status -> retryable_sentinel (Errors.anthropic.mapToSentinel status
            (Errors.anthropic.Type_ (Errors.anthropic.Error (anthropic_error body)))) = true
      end
  end.

Lemma mapRequestError_retryable name err :
  Is err Canceled = false -> IsRetryable (mapRequestError Quote name err) = true.
Proof. intros H. unfold mapRequestError. rewrite H. by case_goal. Qed.

Lemma status_retryable a clock status hd body :
  400 <= status -> tolerable a (Responded status hd body None) ->
  IsRetryable (match a with
               | Registry.OpenAI p => openai.mapHTTPError openai_error ParseTime clock (openai.Name p) status body hd
               | Registry.Anthropic p =>
                   anthropic.mapHTTPError anthropic_error ParseTime clock (anthropic.Name p) status body hd
               end) = true.
Proof.
  intros H4. destruct a as [p|p]; cbn; intros Hst.
  - destruct (openai_category openai_error ParseTime clock (openai.Name p) status body hd) as [Hl Hc].
    rewrite (IsRetryable_category _ Hl), Hc. cbn. rewrite openai_sentinel_retryable.
    by rewrite bool_decide_eq_false_2.
  - destruct (anthropic_category anthropic_error ParseTime clock (anthropic.Name p) status body hd) as [Hl Hc].
    rewrite (IsRetryable_category _ Hl), Hc. cbn. by apply Hst.
Qed.

(** One call, from the exchange it makes. *)
Lemma adapter_chat_spec a req n ob :
  outbound_of a false req = inr ob ->
  match replied a n (exchange_at n ob) with
  | Some resp => (adapter_chat a req n).1 = inr resp
  | None => exists err, (adapter_chat a req n).1 = inl err /\
      (tolerable a (exchange_at n ob) -> IsRetryable err = true)
  end.
Proof.
  unfold outbound_of, adapter_chat, replied, tolerable. destruct a as [p|p]; intros Hob; cbn [fst];
    unfold OpenAI.ChatCompletion, Anthropic.ChatCompletion; rewrite Hob;
    (destruct (exchange_at n ob) as [err|status hd body [err|]];
      [eexists; split; [done|apply mapRequestError_retryable]..|]);
    (destruct (Z.leb_spec 400 status) as [H4|_]; [eexists; split; [done|]|]).
  - exact (status_retryable (Registry.OpenAI p) (net_clock n) status hd body H4).
  - destruct (parse_json body ≫= ChatResponse.unmarshal); cbn; [done|]. by eexists.
  - exact (status_retryable (Registry.Anthropic p) (net_clock n) status hd body H4).
  - destruct (parse_json body ≫= unmarshal_response); cbn; [done|]. by eexists.
Qed.

(** ** Streams *)

(** The events the stream of a response delivers. *)
Definition streamed (a : adapter) (n : N) (x : exchange) : option (list StreamEvent) :=
  match x with
  | DoFailed _ => None
  | Responded status _ body readErr =>
      if 400 <=? status then None
      else Some (match a with
                 | Registry.OpenAI p =>
                     OpenAI.readSSE decode_error (openai.Name p) body (Error Quote <$> readErr) (net_ctxDone n)
                       (open_chan (net_sends n))
                 | Registry.Anthropic p =>
                     Anthropic.readSSE decode_error (anthropic.Name p) (net_unix n) body (Error Quote <$> readErr)
                       (net_ctxDone n) (open_chan (net_sends n))
                 end).(received)
  end.

(** The streams of the OpenAI reader break off with retryable errors only. *)
Definition retryable_errors (evs : list StreamEvent) : Prop :=
  Forall (fun ev => match ev with Err e => IsRetryable e = true | Chunk _ => True end) evs.

Lemma send_retryable ev c :
  match ev with Err e => IsRetryable e = true | Chunk _ => True end ->
  retryable_errors c.(received) -> retryable_errors (sendEvent ev c).2.(received).
Proof.
  intros Hev Hc. unfold sendEvent. destruct c as [[|[] sends] rc]; cbn in *; [| |done];
    (apply list.Forall_app; split; [done|by constructor]).
Qed.

Lemma read_loop_retryable name lines c :
  retryable_errors c.(received) -> retryable_errors (OpenAI.read_loop decode_error name lines c).2.(received).
Proof.
  revert c. induction lines as [|line lines IH]; intros c Hc; [done|]. cbn [OpenAI.read_loop].
  destruct (data_of line) as [data|]; [|by apply IH]. case_bool_decide; [done|].
  destruct (parse_json data ≫= unmarshal_payload) as [pl|]; [|by apply send_retryable].
  destruct (pw_Error pl) as [e|]; [by apply send_retryable|].
  pose proof (send_retryable (Chunk (pw_Chunk pl)) c I Hc) as Hs.
  destruct (sendEvent (Chunk (pw_Chunk pl)) c) as [[] c']; [by apply IH|done].
Qed.

Lemma readSSE_retryable name text readErr ctxDone sends :
  retryable_errors (OpenAI.readSSE decode_error name text readErr ctxDone (open_chan sends)).(received).
Proof.
  unfold OpenAI.readSSE. destruct (scan text readErr) as [lines scanErr].
  pose proof (read_loop_retryable name lines (open_chan sends) (list.Forall_nil_2 _)) as H.
  destruct (OpenAI.read_loop decode_error name lines (open_chan sends)) as [[] c]; [done|].
  destruct ctxDone; [done|]. by destruct scanErr; apply send_retryable.
Qed.

(** A streaming exchange that is worth trying elsewhere when it fails: as for
    plain calls, and for Anthropic also what its stream may break off with
    before the first chunk. *)
Definition stream_tolerable (a : adapter) (n : N) (x : exchange) : Prop :=
  match x with
  | DoFailed err => Is err Canceled = false
  | Responded status hd body _ => tolerable a (Responded status hd body None)
  end /\
  match a with
  | Registry.OpenAI _ => True
  | Registry.Anthropic _ => forall e rest, streamed a n x = Some (Err e :: rest) -> eligible e = true
  end.

Lemma adapter_stream_spec a req n ob :
  outbound_of a true req = inr ob ->
  match streamed a n (exchange_at n ob) with
  | Some evs => (adapter_stream a req n).1 = inr evs
  | None => exists err, (adapter_stream a req n).1 = inl err /\
      (stream_tolerable a n (exchange_at n ob) -> IsRetryable err = true)
  end.
Proof.
  unfold outbound_of, adapter_stream, streamed, stream_tolerable. destruct a as [p|p]; intros Hob; cbn [fst];
    unfold OpenAI.ChatCompletionStream, Anthropic.ChatCompletionStream; rewrite Hob;
    (destruct (exchange_at n ob) as [err|status hd body rerr];
      [eexists; split; [done|]; intros [H _]; by apply mapRequestError_retryable|]);
    (destruct (Z.leb_spec 400 status) as [H4|_]; [eexists; split; [done|]; intros [H _]|done]).
  - exact (status_retryable (Registry.OpenAI p) (net_clock n) status hd body H4 H).
  - exact (status_retryable (Registry.Anthropic p) (net_clock n) status hd body H4 H).
Qed.

(** ** When an upstream is up *)

(** The upstreams of one plain request: every provider of the chain can encode
    it and fails, if it does, in a way another may make up for; [a] is up, and
    its breaker admits; nothing interrupts the waits. *)
Record upstreams_up (u : live_router (E := N) (P := adapter) (CB := CB)) (req : ChatRequest) (a : adapter) : Prop := {
  uu_chain : a ∈ ResolveChain u.(lr_router).(resolver) req.(req_Model);
  uu_others : forall b, b ∈ ResolveChain u.(lr_router).(resolver) req.(req_Model) ->
    exists ob, outbound_of b false req = inr ob /\ forall n, tolerable b (exchange_at n ob);
  uu_replies : forall ob n, outbound_of a false req = inr ob -> is_Some (replied a n (exchange_at n ob));
  uu_waits : forall d n, (net_sleep d n).1 = None;
  uu_breaker : admits (Types.Name a) u.(lr_state).(pool)
}.

Lemma upstreams_serviceable u req a :
  upstreams_up u req a -> serviceable u.(lr_router) req a u.(lr_state).
Proof.
  intros [Hc Ho Hr Hw Hb]. split; [done|done| | |done].
  - intros b Hin n err Herr. destruct (Ho b Hin) as (ob & Hob & Ht).
    pose proof (adapter_chat_spec b req n ob Hob) as Hs. change ((adapter_chat b req n).1 = inl err) in Herr.
    destruct (replied b n (exchange_at n ob)) as [resp|]; [congruence|].
    destruct Hs as (err' & He & Hret). rewrite Herr in He. injection He as <-.
    by apply retryable_eligible, Hret.
  - intros n. destruct (Ho a Hc) as (ob & Hob & _). pose proof (adapter_chat_spec a req n ob Hob) as Hs.
    destruct (Hr ob n Hob) as [resp Hresp]. rewrite Hresp in Hs. by exists resp.
Qed.

(** The same for a stream, which the client must also stay for. *)
Record streams_up (u : live_router (E := N) (P := adapter) (CB := CB)) (req : ChatRequest) (a : adapter) : Prop := {
  su_chain : a ∈ ResolveChain u.(lr_router).(resolver) req.(req_Model);
  su_others : forall b, b ∈ ResolveChain u.(lr_router).(resolver) req.(req_Model) ->
    exists ob, outbound_of b true req = inr ob /\ forall n, stream_tolerable b n (exchange_at n ob);
  su_streams : forall ob n, outbound_of a true req = inr ob ->
    exists c rest, streamed a n (exchange_at n ob) = Some (Chunk c :: rest);
  su_waits : forall d n, (net_sleep d n).1 = None;
  su_peeks : forall n, (net_peek n).1 = RecvOk;
  su_breaker : admits (Types.Name a) u.(lr_state).(pool)
}.

Lemma first_error_eligible b n x e rest :
  stream_tolerable b n x -> streamed b n x = Some (Err e :: rest) -> eligible e = true.
Proof.
  intros [_ Ht] Hs. destruct b as [p|p]; [|by eapply Ht]. unfold streamed in Hs.
  destruct x as [|status hd body rerr]; [done|]. destruct (400 <=? status); [done|]. injection Hs as Hs.
  pose proof (readSSE_retryable (openai.Name p) body (Error Quote <$> rerr) (net_ctxDone n) (net_sends n)) as Hr.
  rewrite Hs in Hr. apply Forall_cons_1 in Hr as [Hr _]. by apply retryable_eligible.
Qed.

Lemma streams_serviceable u req a :
  streams_up u req a -> stream_serviceable u.(lr_router) req a u.(lr_state).
Proof.
  intros [Hc Ho Hr Hw Hp Hb]. split; [done|done|done| | |done].
  - intros b Hin n. destruct (Ho b Hin) as (ob & Hob & Ht). specialize (Ht n).
    pose proof (adapter_stream_spec b req n ob Hob) as Hs.
    change ((env_stream b req n).1) with ((adapter_stream b req n).1).
    destruct (streamed b n (exchange_at n ob)) as [evs|] eqn:Hst.
    + rewrite Hs. destruct evs as [|[c|e] rest]; [done|done|]. by eapply first_error_eligible.
    + destruct Hs as (err & -> & Hret). by apply retryable_eligible, Hret.
  - intros n. destruct (Ho a Hc) as (ob & Hob & _). pose proof (adapter_stream_spec a req n ob Hob) as Hs.
    destruct (Hr ob n Hob) as (c & rest & Hst). rewrite Hst in Hs. by exists c, rest.
Qed.

(** An answer of the router is the reply of one of its upstreams. *)
Lemma answered_replied (u : live_router (E := N) (P := adapter) (CB := CB)) req name resp :
  (forall b, b ∈ ResolveChain u.(lr_router).(resolver) req.(req_Model) ->
     exists ob, outbound_of b false req = inr ob) ->
  answered u req name resp ->
  exists b ob n, b ∈ ResolveChain u.(lr_router).(resolver) req.(req_Model) /\
    outbound_of b false req = inr ob /\ replied b n (exchange_at n ob) = Some resp.
Proof.
  intros Hall (b & n & Hb & _ & Hr). destruct (Hall b Hb) as [ob Hob]. exists b, ob, n. split_and!; [done..|].
  pose proof (adapter_chat_spec b req n ob Hob) as Hs. change ((adapter_chat b req n).1 = inr resp) in Hr.
  destruct (replied b n (exchange_at n ob)) as [resp'|]; [congruence|]. destruct Hs as (err & He & _). congruence.
Qed.
Lemma events_streamed (b : adapter) req ob n evs :
  outbound_of b true req = inr ob -> (adapter_stream b req n).1 = inr evs ->
  streamed b n (exchange_at n ob) = Some evs.
Proof.
  intros Hob Hev. pose proof (adapter_stream_spec b req n ob Hob) as Hs.
  destruct (streamed b n (exchange_at n ob)); [congruence|]. destruct Hs as (err & He & _). congruence.
Qed.
End EndToEnd.

(** ** The theorems *)

Section Texts.
#[local] Existing Instance Syntax.Marshal.
#[local] Existing Instance Syntax.Unmarshal.
Context {N CB Permit T W : Type} `{!Network N} `{!GoBreaker CB Permit} `{!GoBreakerLaws CB Permit}
  `{!Tokenizer T} `{sha : !Sha256} `{floats : !FloatText} `{laws : !FloatTextLaws}.
Context (decode_error Quote ToLower : string -> string) (ParseTime : string -> option Z)
  (openai_error : string -> Errors.openai.apiError) (anthropic_error : string -> Errors.anthropic.apiError)
  (UserAgent : string).
#[local] Instance the_adapters : Env N adapter :=
  adapters decode_error Quote ParseTime openai_error anthropic_error UserAgent.

(** What an OpenAI-style upstream reads from the adapter's request is the
    request, with the streaming flag of the call. *)
Lemma outbound_reads p stream req ob :
  ChatRequest.wf (set_Stream stream req) -> Extra_clean (set_Stream stream req) -> request_ok depth_left req ->
  outbound_of UserAgent (Registry.OpenAI p) stream req = inr ob -> upstream_reads ob = Some (set_Stream stream req).
Proof.
  intros Hw Hc Hok. destruct (request_reads_back (set_Stream stream req) Hw Hc Hok) as (j & Hm & Hu).
  cbn. unfold OpenAI.build_request. rewrite Hm. by intros [= <-].
Qed.

(** C5: Through the whole gateway and back, over the adapters the registry
    built.  Take a plain request that is admitted, is not in the cache and has no
    content outside what the JSON layer carries, and a network on which every
    upstream of its chain can be sent the request and fails, when it does, only in
    ways that fail-over makes up for: connections refused or cut, rate limits,
    server errors, bodies that do not decode, but no cancelled context and none of
    the statuses 400, 401, 403, 404 and 422, which end the request (for an
    Anthropic upstream, no error type that is not retryable).  If one
    upstream of the chain is up and its breaker admits, and no wait is
    interrupted, the client is answered 200 unless the time budget runs out.  Its
    body is what one upstream of the chain replied to the text it was sent; if
    that upstream speaks the OpenAI protocol, that text reads as exactly the
    client's request as it was routed, every unknown member included.  (An
    Anthropic upstream is sent the converted request, which drops some.) *)
Theorem end_to_end h (e : request) (w : world (U := live_router (E := N) (P := adapter) (CB := CB)) (W := W)) req hd w1 a :
  admit_request (T := T) decode_error Quote ToLower h e w = (inr (req, hd), w1) -> req.(req_Stream) = false ->
  (lookup_cache h e req w.(store)).2 = None ->
  ChatRequest.wf (set_Stream false req) -> Extra_clean (set_Stream false req) -> request_ok depth_left req ->
  upstreams_up anthropic_error UserAgent w.(upstream) req a ->
  let '(o, w') := chatCompletionsHandler decode_error Quote ToLower h e w in
  match o.(out_answer) with
  | AnsJson j => exists b ob n resp,
      b ∈ ResolveChain w.(upstream).(lr_router).(resolver) req.(req_Model) /\
      outbound_of UserAgent b false req = inr ob /\ replied b n (exchange_at n ob) = Some resp /\
      j = ChatResponse.marshal resp /\
      forall p, b = Registry.OpenAI p -> upstream_reads ob = Some (set_Stream false req)
  | AnsSse _ => False
  | AnsError _ => out_of_time w.(upstream).(lr_router) w.(upstream).(lr_state) w'.(upstream).(lr_state)
  end.
Proof.
  intros Ha Hst Hl Hwf Hcl Hok Hup.
  pose proof (plain_answer decode_error Quote ToLower h e w req hd w1 Ha Hst Hl) as Hans.
  destruct (chatCompletionsHandler _ _ _ _ _ _) as [o w']. destruct Hans as [-> Hans].
  pose proof (router_upstream_spec req (upstream w)) as Hspec.
  pose proof (ChatCompletion_live (Env0 := the_adapters) _ _ _ _
    (upstreams_serviceable decode_error Quote ParseTime openai_error anthropic_error UserAgent _ _ _ Hup)) as Hlive.
  cbn [up_ChatCompletion router_upstream] in *. unfold total_run in *. cbn [fst snd] in *.
  destruct Hlive as [[resp He]|[[err He] Ht]]; cbn [fst] in He; rewrite He in Hans, Hspec; cbn [default] in *.
  - rewrite Hans. destruct Hspec as (_ & tr & _ & _ & name & tr0 & _ & Hn & _).
    destruct (answered_replied decode_error Quote ParseTime openai_error anthropic_error UserAgent _ _ _ _
      (fun b Hb => match uu_others _ _ _ _ _ Hup b Hb with ex_intro _ ob (conj Hob _) => ex_intro _ ob Hob end) Hn)
      as (b & ob & n & Hb & Hob & Hr).
    exists b, ob, n, resp. split_and!; try done. intros p ->. by eapply outbound_reads.
  - destruct Hans as [r ->]. exact Ht.
Qed.

(** C6: The same for a stream, to a client that stays connected and reads every
    write, under the same conditions on the request, the cache, the breaker and
    the waits.  Every upstream of the chain can be sent the request and fails
    before its first chunk, when it does, only in ways that fail-over makes up for
    (as for a plain request, and no non-retryable error event of an Anthropic
    stream); one of them starts a stream.  Then the client is sent a stream unless
    the time budget runs out; its frames are the chunks that one upstream of
    the chain sent, all of them and nothing else, ended by [DONE] if that stream
    was complete and by one error event if it broke off; and if that upstream
    speaks the OpenAI protocol, the text it was sent reads as exactly the
    client's request as it was routed. *)
Theorem end_to_end_stream h (e : request) (w : world (U := live_router (E := N) (P := adapter) (CB := CB)) (W := W)) req hd w1 a :
  admit_request (T := T) decode_error Quote ToLower h e w = (inr (req, hd), w1) -> req.(req_Stream) = true ->
  (lookup_cache h e req w.(store)).2 = None -> stays (E := N) (P := adapter) e ->
  ChatRequest.wf (set_Stream true req) -> Extra_clean (set_Stream true req) -> request_ok depth_left req ->
  streams_up decode_error Quote anthropic_error UserAgent w.(upstream) req a ->
  let '(o, w') := chatCompletionsHandler decode_error Quote ToLower h e w in
  match o.(out_answer) with
  | AnsSse frames => exists b ob n evs cs c0 cs0,
      b ∈ ResolveChain w.(upstream).(lr_router).(resolver) req.(req_Model) /\
      outbound_of UserAgent b true req = inr ob /\
      streamed decode_error Quote b n (exchange_at n ob) = Some evs /\ cs = c0 :: cs0 /\
      ((evs = map Chunk cs /\ frames = map FChunk cs ++ [FDone]) \/
       (exists err rest m, evs = map Chunk cs ++ Err err :: rest /\ frames = map FChunk cs ++ [FError m])) /\
      forall p, b = Registry.OpenAI p -> upstream_reads ob = Some (set_Stream true req)
  | AnsJson _ => False
  | AnsError _ => out_of_time w.(upstream).(lr_router) w.(upstream).(lr_state) w'.(upstream).(lr_state)
  end.
Proof.
  intros Ha Hst Hl Hstay Hwf Hcl Hok Hup.
  pose proof (stream_answer decode_error Quote ToLower h e w req hd w1 Ha Hst Hl Hstay) as Hans.
  destruct (chatCompletionsHandler _ _ _ _ _ _) as [o w']. destruct Hans as (-> & ev & _ & Hans).
  pose proof (serve_stream_live (Env0 := the_adapters) _ _ _ _
    (streams_serviceable decode_error Quote ParseTime openai_error anthropic_error UserAgent _ _ _ Hup)) as Hlive.
  cbn [up_ChatCompletionStream router_upstream] in *. unfold total_run in *. cbn [fst snd] in *.
  destruct Hlive as [[evs He]|[[err He] Ht]]; rewrite He in Hans; cbn [default] in *;
    [|destruct Hans as (r & -> & _); exact Ht].
  destruct Hans as (frames & b & n & -> & Hb & Hev & cs & c0 & cs0 & Hcs & Hor).
  destruct (su_others _ _ _ _ _ _ _ Hup b Hb) as (ob & Hob & _).
  exists b, ob, n, evs, cs, c0, cs0. split_and!; try done; 
    [exact (events_streamed decode_error Quote ParseTime openai_error anthropic_error UserAgent b req ob n evs Hob Hev)| |].
  - destruct Hor as [(? & ? & _)|(err & rest & m & ? & ? & _)]; [by left|right]. by exists err, rest, m.
  - intros p ->. by eapply outbound_reads.
Qed.
End Texts.

Module Example.
#[local] Existing Instance Keystore.toy_digest.
#[local] Existing Instance Wire.Example.coded.
#[local] Existing Instance Wire.Example.coded_laws.
#[local] Existing Instance Syntax.Marshal.
#[local] Existing Instance Syntax.Unmarshal.
#[local] Existing Instance Chat.Example.toy.
#[local] Existing Instance RouterSpec.Example.toy_breaker.
#[local] Existing Instance RouterSpec.Example.toy_laws.
Import Chat.Example.

Definition upstream_at (name url : string) : openai.Provider :=
  {| openai.cfg := {| openai.cfg_Name := name; openai.cfg_Endpoint := url; openai.cfg_APIKey := "sk-u";
                      openai.cfg_Organization := ""; openai.cfg_Timeout := Second;
                      openai.cfg_Models := {| Exact := ["gpt-4o"]; Glob := [] |}; openai.cfg_OwnedBy := "openai" |};
     openai.baseURL := url |}.
Definition acme : openai.Provider := upstream_at "acme" "https://acme.test".
Definition spare : openai.Provider := upstream_at "spare" "https://spare.test".

(** Nobody listens at the first address; the mock upstream of the compatibility
    suite is at the second. *)
#[local] Instance one_down : Network Z := {
  net_now t := (t, t); net_wall t := (t, t); net_random t := (lit 1 2, t);
  net_sleep d t := (None, t + Z.max 0 d);
  net_exchange ob t :=
    (if Strings.HasPrefix ob.(ob_url) "https://acme.test" then DoFailed (Foreign "dial tcp: connection refused" [])
     else Mock.mock_net 7 ob, t + Second);
  net_peek t := (RecvOk, t); net_send t := (true, t); net_ctxDone _ := false; net_sends _ := [];
  net_clock t := t; net_unix t := t
}.

Definition reg : Registry adapter :=
  {| state := {| names := ["acme"; "spare"];
                 byName := {["acme" := Registry.OpenAI acme; "spare" := Registry.OpenAI spare]};
                 exactIndex := {["gpt-4o" := Registry.OpenAI acme]}; globRules := [];
                 defaultProvider := Some (Registry.OpenAI spare) |} |}.

Definition w0 : world (U := live_router (E := Z) (P := adapter) (CB := bool)) (W := unit) :=
  {| limits := tt; store := ∅; rolls := [];
     upstream := {| lr_router := {| resolver := reg; policy := Gateway.LiveExample.patient |};
                    lr_state := {| env := 0; pool := newBreakerPool DefaultBreakerSettings; history := [] |} |} |}.

Definition no_anthropic (s : string) : Errors.anthropic.apiError :=
  {| Errors.anthropic.EnvelopeType := ""; Errors.anthropic.Error :=
       {| Errors.anthropic.Type_ := ""; Errors.anthropic.Message := "" |} |}.

#[local] Instance net_env : Env Z adapter :=
  the_adapters id_text id_text (fun _ => None) OpenAI.Example.no_error no_anthropic "xb".

(** What the client asks for, decoded. *)
Definition sent : ChatRequest :=
  {| req_Model := "gpt-4o"; req_Messages := [Wire.Example.msg "user" "hi" {["tool_calls" := JArray []]}];
     req_MaxTokens := 0; req_Temperature := None; req_TopP := None; req_N := 0; req_Stream := false;
     req_Stop := []; req_User := ""; req_Extra := {["seed" := JNumber "7"]} |}.

Lemma sent_admitted :
  admit_request id_text id_text id_text (h []) (ask 5) w0 = (inr (sent, ∅), w0).
Proof. vm_compute. reflexivity. Qed.

Lemma sent_ok :
  ChatRequest.wf (set_Stream false sent) /\ Extra_clean (set_Stream false sent) /\ request_ok depth_left sent.
Proof.
  split_and!.
  - unfold ChatRequest.wf, Message.wf, valid_string, in_int64. cbn. Wire.Example.wf_solve.
  - Wire.Example.clean.
  - split; [by WireText.Example.extra|constructor; [by WireText.Example.extra|constructor]].
Qed.

Lemma chain_of_sent : ResolveChain reg sent.(req_Model) = [Registry.OpenAI acme; Registry.OpenAI spare].
Proof. vm_compute. reflexivity. Qed.

Lemma spare_up : upstreams_up no_anthropic "xb" w0.(upstream) sent (Registry.OpenAI spare).
Proof.
  pose proof chain_of_sent as Hc. change reg with (w0.(upstream).(lr_router).(resolver)) in Hc.
  split; [rewrite Hc; by right; left| | |done|by intros t; eexists _, _, _].
  - intros b. rewrite Hc.
    intros [->|[->|[]%elem_of_nil]%elem_of_cons]%elem_of_cons; (eexists; split; [vm_compute; reflexivity|]);
      intros n; vm_compute; [reflexivity|].
    intros H. repeat (apply elem_of_cons in H as [H|H]; [discriminate H|]). by apply elem_of_nil in H.
  - intros ob n Hob. vm_compute in Hob. injection Hob as <-. eexists. vm_compute. reflexivity.
Qed.

Lemma end_to_end_witness :
  exists b ob n resp, b ∈ [Registry.OpenAI acme; Registry.OpenAI spare] /\
    replied b n (exchange_at (N := Z) n ob) = Some resp /\
    (chatCompletionsHandler id_text id_text id_text (h []) (ask 5) w0).1.(out_answer) =
      AnsJson (ChatResponse.marshal resp).
Proof.
  pose proof (end_to_end id_text id_text id_text (fun _ => None) OpenAI.Example.no_error no_anthropic "xb"
    (h []) (ask 5) w0 sent ∅ w0 (Registry.OpenAI spare) sent_admitted eq_refl ltac:(by vm_compute)
    (proj1 sent_ok) (proj1 (proj2 sent_ok)) (proj2 (proj2 sent_ok)) spare_up) as H.
  change (the_adapters id_text id_text (fun _ => None) OpenAI.Example.no_error no_anthropic "xb") with net_env in H.
  destruct (chatCompletionsHandler id_text id_text id_text (h []) (ask 5) w0) as [o w']. cbn [fst].
  destruct (out_answer o) as [r|j|fr]; [|clear -H|destruct H].
  - destruct H as (tr & el & _ & Hlate). cbn in Hlate. exfalso. lia.
  - destruct H as (b & ob & n & resp & Hb & _ & Hr & -> & _). exists b, ob, n, resp.
    split_and!; [|exact Hr|reflexivity]. rewrite <- chain_of_sent. exact Hb.
Defined.

(** The same question, to be answered as a stream. *)
Definition sent_stream : ChatRequest := set_Stream true sent.

Lemma stream_admitted :
  admit_request id_text id_text id_text (h []) (asked true 5) w0 = (inr (sent_stream, ∅), w0).
Proof. vm_compute. reflexivity. Qed.

Lemma sent_stream_ok :
  ChatRequest.wf (set_Stream true sent_stream) /\ Extra_clean (set_Stream true sent_stream) /\
  request_ok depth_left sent_stream.
Proof.
  split_and!.
  - unfold ChatRequest.wf, Message.wf, valid_string, in_int64. cbn. Wire.Example.wf_solve.
  - Wire.Example.clean.
  - split; [by WireText.Example.extra|constructor; [by WireText.Example.extra|constructor]].
Qed.

Lemma spare_streams : streams_up id_text id_text no_anthropic "xb" w0.(upstream) sent_stream (Registry.OpenAI spare).
Proof.
  pose proof (chain_of_sent : ResolveChain (w0.(upstream).(lr_router).(resolver)) sent_stream.(req_Model) = _) as Hc.
  split; [rewrite Hc; by right; left| | |done|done|by intros t; eexists _, _, _].
  - intros b. rewrite Hc.
    intros [->|[->|[]%elem_of_nil]%elem_of_cons]%elem_of_cons; (eexists; split; [vm_compute; reflexivity|]);
      intros n; (split; [|exact I]); vm_compute; [reflexivity|].
    intros H. repeat (apply elem_of_cons in H as [H|H]; [discriminate H|]). by apply elem_of_nil in H.
  - intros ob n Hob. vm_compute in Hob. injection Hob as <-. eexists _, _. vm_compute. reflexivity.
Qed.

Lemma end_to_end_stream_witness :
  exists c rest, (chatCompletionsHandler id_text id_text id_text (h []) (asked true 5) w0).1.(out_answer) =
    AnsSse (FChunk c :: rest).
Proof.
  pose proof (end_to_end_stream id_text id_text id_text (fun _ => None) OpenAI.Example.no_error no_anthropic "xb"
    (h []) (asked true 5) w0 sent_stream ∅ w0 (Registry.OpenAI spare) stream_admitted eq_refl ltac:(by vm_compute)
    ltac:(by split_and!) (proj1 sent_stream_ok) (proj1 (proj2 sent_stream_ok)) (proj2 (proj2 sent_stream_ok))
    spare_streams) as H.
  change (the_adapters id_text id_text (fun _ => None) OpenAI.Example.no_error no_anthropic "xb") with net_env in H.
  destruct (chatCompletionsHandler id_text id_text id_text (h []) (asked true 5) w0) as [o w']. cbn [fst].
  destruct (out_answer o) as [r|j|fr]; [|destruct H|].
  - destruct H as (tr & el & _ & Hlate). cbn in Hlate. exfalso. lia.
  - destruct H as (b & ob & n & evs & cs & c0 & cs0 & _ & _ & _ & -> & Hor & _).
    destruct Hor as [[_ ->]|(err & rest & m & _ & ->)]; eexists _, _; reflexivity.
Defined.
End Example.
