(* ===== verification/Tracing.v ===== *)
(** * Tracing: the tracer provider and the build metadata

    [internal/observability/tracing.go] and [pkg/version].  The OpenTelemetry
    SDK is a parameter: [Merge] is [resource.Merge] of the default resource with
    the service name, [NewExporter] the OTLP exporter for an endpoint.  What the
    gateway decides, and what is modelled, is which options the provider is
    built with and when its construction fails. *)

From S2P Require Import Prelude GoStd Float64 Errors.
Local Open Scope Z_scope.

(** ** The tracer provider *)

Record TracingConfig := {
  Enabled : bool; Endpoint : string; ServiceName : string; SampleRatio : float64
}.

Section Provider.
Context {Resource Exporter : Type} (Merge : string -> error + Resource) (NewExporter : string -> error + Exporter).

Inductive TracerProviderOption :=
  | WithResource (r : Resource)
  | WithSampler (ratio : float64)
  | WithBatcher (e : Exporter) (timeout : Z).

(** The options [sdktrace.NewTracerProvider] is given. *)
Definition NewTracerProvider (cfg : TracingConfig) : error + list TracerProviderOption :=
  match Merge cfg.(ServiceName) with
  | inl err => inl (Errorf "build resource: %w" [] (Some err))
  | inr res =>
      let opts := [WithResource res; WithSampler cfg.(SampleRatio)] in
      if cfg.(Enabled) then
        match NewExporter cfg.(Endpoint) with
        | inl err => inl (Errorf "create otlp exporter: %w" [] (Some err))
        | inr exporter => inr (opts ++ [WithBatcher exporter (5 * Second)])
        end
      else inr opts
  end.

(** Spans leave the process through a span processor only. *)
Definition exports (opts : list TracerProviderOption) : Prop := exists e t, WithBatcher e t ∈ opts.

(** Spans are exported exactly when tracing is enabled, to the configured
    endpoint. *)
Lemma exports_iff cfg opts : NewTracerProvider cfg = inr opts -> exports opts <-> cfg.(Enabled) = true.
Proof.
  unfold NewTracerProvider, exports. destruct (Merge _) as [|res]; [done|].
  destruct (Enabled cfg); [destruct (NewExporter _) as [|x]; [done|]|]; intros [= <-]; split; try done.
  - intros _. exists x, (5 * Second). set_solver.
  - intros (e & t & H). set_solver.
Qed.
End Provider.

(** ** Build metadata *)

Record BuildInfo := { Version : string; Commit : string; BuildTime : string }.

(** The values without [-ldflags]. *)
Definition dev_build : BuildInfo := {| Version := "dev"; Commit := "none"; BuildTime := "unknown" |}.

Definition UserAgent (b : BuildInfo) : string := "x-beacon/" +:+ b.(Version).
Definition Banner (b : BuildInfo) : string :=
  "x-beacon " +:+ b.(Version) +:+ " (commit " +:+ b.(Commit) +:+ ", built " +:+ b.(BuildTime) +:+ ")".
