(* ===== verification/Startup.v ===== *)
(** * Startup: building, running and stopping the gateway

    [cmd/gateway/main.go] ([runWithCtx]) and [cmd/gateway/handlers.go] (the
    builders), with the logger options of [internal/observability/logger.go].
    The outcome of every call that leaves the process (the configuration file,
    the database, Redis, the tracer, the listener) is a field of [boot]; what
    the program opens, closes and waits for is a trace of [action]s, deferred
    calls included. *)

From S2P Require Import Prelude GoStd Float64 Errors Types Config Registry Policy Router RateLimit Billing Auth Prompt Route Http Tracing.
From stdpp Require Import base list gmap.
Local Open Scope Z_scope.

(** ** The logger *)

Inductive Level := DebugLevel | InfoLevel | WarnLevel | ErrorLevel.

Section Logger.
Context (ToLower : string -> string).

Definition parseLevel (s : string) : error + Level :=
  let l := ToLower s in
  if bool_decide (l = "") || bool_decide (l = "info") then inr InfoLevel
  else if bool_decide (l = "debug") then inr DebugLevel
  else if bool_decide (l = "warn") || bool_decide (l = "warning") then inr WarnLevel
  else if bool_decide (l = "error") then inr ErrorLevel
  else inl (Errorf "invalid log level %q" [ArgS s] None).

(** [build] is the error of [zap.Config.Build]; the result is the level and the
    encoding. *)
Definition NewLogger (build : option error) (level format : string) : error + Level * string :=
  match parseLevel level with
  | inl err => inl err
  | inr lvl =>
      let f := ToLower format in
      let finish enc := match build with
                        | Some err => inl (Errorf "build logger: %w" [] (Some err))
                        | None => inr (lvl, enc)
                        end in
      if bool_decide (f = "") || bool_decide (f = "json") then finish "json"
      else if bool_decide (f = "console") then finish "console"
      else inl (Errorf "invalid log format %q" [ArgS format] None)
  end.
End Logger.

(** ** The builders *)

(** A Go interface value made from a pointer: it is nil only when no pointer
    was ever put in it; a nil pointer inside makes it non-nil. *)
Inductive iface := INil | IPtr (present : bool).
Definition is_nil (i : iface) : bool := match i with INil => true | IPtr _ => false end.

(** Passing a [*redis.Client] where a [redis.UniversalClient] is expected. *)
Definition UniversalClient (rdb : bool) : iface := IPtr rdb.

Definition buildRouter (cfg : Config) : Retry.RetryPolicy * Breaker.BreakerSettings :=
  let r := cfg.(c_Router).(roc_Retry) in
  let b := cfg.(c_Router).(roc_Breaker) in
  ({| Retry.MaxRetries := r.(rrc_MaxRetries); Retry.MaxTotal := r.(rrc_MaxTotal);
      Retry.BaseBackoff := r.(rrc_BaseBackoff); Retry.MaxBackoff := r.(rrc_MaxBackoff) |},
   {| Breaker.MaxRequests := b.(rbc_MaxRequests); Breaker.Interval := b.(rbc_Interval);
      Breaker.Timeout := b.(rbc_Timeout); Breaker.FailureRatio := b.(rbc_FailureRatio);
      Breaker.MinRequests := b.(rbc_MinRequests) |}).

Definition rule_config (r : RateLimitRule) : RuleConfig :=
  {| rc_Name := r.(rlr_Name); rc_Algorithm := r.(rlr_Algorithm); rc_Rate := r.(rlr_Rate);
     rc_Burst := r.(rlr_Burst); rc_Window := r.(rlr_Window); rc_Limit := r.(rlr_Limit);
     rc_KeyBy := r.(rlr_KeyBy); rc_Unit := r.(rlr_Unit) |}.

Definition buildRateLimiter (cfg : Config) (rdb : iface) : error + option (list BuiltRule) :=
  match cfg.(c_RateLimits) with
  | [] => inr None
  | rules =>
      match Build (negb (is_nil rdb)) (map rule_config rules) with
      | inl err => inl err
      | inr rs => inr (Some rs)
      end
  end.

Definition buildExactCache (cfg : Config) (rdb : bool) : bool * Z :=
  if negb cfg.(c_Cache).(ec_Enabled) then (false, 0)
  else if negb rdb then (false, 0)
  else (true, cfg.(c_Cache).(ec_TTL)).

Definition route_rule (r : RoutingRule) : Route.Rule :=
  {| Route.Name := r.(rr_Name); Route.RouteTo := r.(rr_RouteTo);
     Route.When := {| Route.MaxTokens := r.(rr_When).(rcd_MaxTokens);
                      Route.MinTokens := r.(rr_When).(rcd_MinTokens);
                      Route.KeywordsAny := r.(rr_When).(rcd_KeywordsAny);
                      Route.KeywordsNone := r.(rr_When).(rcd_KeywordsNone);
                      Route.Model := r.(rr_When).(rcd_Model);
                      Route.Weight := r.(rr_When).(rcd_Weight) |} |}.

Definition buildTokenizer (Get : string -> error + (string -> option nat)) : error + Selector :=
  match NewSelector Get with
  | inl err => inl err
  | inr sel => inr sel
  end.

(** What [runWithCtx] passes on to the tracer provider. *)
Definition tracing_config (cfg : Config) : Tracing.TracingConfig :=
  let t := cfg.(c_Observability).(oc_Tracing) in
  {| Tracing.Enabled := t.(tc_Enabled); Tracing.Endpoint := t.(tc_Endpoint);
     Tracing.ServiceName := t.(tc_ServiceName); Tracing.SampleRatio := t.(tc_SampleRatio) |}.

Definition buildClassifier {T} (cfg : Config) (tk : option (string -> T))
    : option (Route.RuleClassifier (T := T)) :=
  let rc := cfg.(c_Routing) in
  if negb rc.(rtc_Enabled) then None
  else match rc.(rtc_Rules) with
       | [] => None
       | rules => match NewRuleClassifier (map route_rule rules) tk with
                  | inl _ => None
                  | inr c => Some c
                  end
       end.

Definition buildCompressor (cfg : Config) (tk : bool) : option Compressor.SlidingWindow :=
  let pc := cfg.(c_Prompt) in
  if negb pc.(pcc_Enabled) then None
  else if negb tk then None
  else Compressor.NewSlidingWindow
         {| Compressor.opt_Tokenizer := tk; Compressor.opt_DefaultWindow := pc.(pcc_DefaultWindow);
            Compressor.opt_Windows := pc.(pcc_ModelWindows); Compressor.opt_TriggerRatio := pc.(pcc_TriggerRatio);
            Compressor.opt_MinKeepMessages := pc.(pcc_MinKeepMessages) |}.

(** The probes of /readyz, by name, with the outcome of each ping. *)
Definition buildReadinessCheckers {S} (pool rdb : bool) (ping_db ping_redis : S -> option string * S)
    : list (string * (S -> option string * S)) :=
  (if pool then [("postgres", ping_db)] else []) ++ (if rdb then [("redis", ping_redis)] else []).

(** What [buildBilling] hands out: the started worker and its price cache as the
    initial reload left it, with the interval [PeriodicReload] was called with. *)
Record billing := {
  bg_worker : Worker.Worker;
  bg_pricing : Pricing.state;
  bg_interval : Z
}.

(** The cache after some turns of the reload goroutine. *)
Definition reloaded (bg : billing) (turns : list (list Pricing.op * option error)) : Pricing.state :=
  Pricing.PeriodicReload bg.(bg_interval) turns bg.(bg_pricing).

(** [table] is the content of [model_pricing] at start-up and [reload] the
    database error of the initial reload, which is only logged.  The reload
    goroutine and the consumers are started under the context of the gateway. *)
Definition buildBilling (cfg : Config) (pool : bool) (table : gmap string Pricing.Rate) (reload : option error)
    : error + option billing :=
  if negb pool then inr None
  else
    let pricing := Pricing.SetMetrics (Pricing.NewPricingCache pool table) in
    let pricing := (Pricing.Reload reload pricing).2 in
    match Worker.NewWorker pool
            {| Worker.BufferSize := cfg.(c_Billing).(bc_Worker).(bwc_BufferSize);
               Worker.Workers := cfg.(c_Billing).(bc_Worker).(bwc_Workers);
               Worker.FlushTimeout := cfg.(c_Billing).(bc_Worker).(bwc_FlushTimeout) |} with
    | inl err => inl err
    | inr w => inr (Some {| bg_worker := Worker.Start w; bg_pricing := pricing;
                            bg_interval := cfg.(c_Billing).(bc_PricingReloadInterval) |})
    end.

(** The authenticators main can build. *)
Inductive authenticator :=
  | AStatic (s : Static.StaticAuthenticator)
  | APostgres
  | ACached (inner : authenticator) (positiveTTL negativeTTL : Z).

Section Auth.
Context `{!Sha256}.

Definition static_entry (k : StaticAuthKey) : Static.StaticEntry :=
  {| Static.ID := k.(sak_ID); Static.Name := k.(sak_Name); Static.Secret := k.(sak_Secret);
     Static.Scopes := k.(sak_Scopes) |}.

(** [ping] is the outcome of the database ping. *)
Definition loadAuth (staticKeys : list StaticAuthKey) (pool : bool) (ping : option error)
    : error + option authenticator :=
  match staticKeys with
  | [] =>
      if negb pool then inr None
      else match ping with
           | Some _ => inr None
           | None => inr (Some APostgres)
           end
  | _ =>
      match Static.NewStatic (map static_entry staticKeys) with
      | inl err => inl (Errorf "static auth: %w" [] (Some err))
      | inr a => inr (Some (AStatic a))
      end
  end.
End Auth.

Inductive stat_result := StatOk | StatNotExist | StatErr (err : error).

Definition loadRegistry (stat : stat_result) (path : string) (load : string -> error + Registry adapter)
    : error + Registry adapter :=
  match stat with
  | StatNotExist => inr NewEmpty
  | StatErr err => inl (Errorf "stat %q: %w" [ArgS path] (Some err))
  | StatOk => load path
  end.

(** ** The life of the process *)

Inductive resource := RLogger | RPool | RRedis | RTracer | RBilling.
Inductive action :=
  | Acquire (r : resource)
  | Release (r : resource)
  | ListenAndServe
  | StartDraining
  | Wait (d : Z)
  | Shutdown (timeout : Z).

Record pstate := { trace : list action; defers : list action }.

(** A step of [runWithCtx] may fail, which returns from it; the deferred calls
    run in any case. *)
Definition P (A : Type) : Type := pstate -> (error + A) * pstate.
Definition ret {A} (a : A) : P A := fun s => (inr a, s).
Definition bind {A B} (m : P A) (k : A -> P B) : P B := fun s =>
  match m s with
  | (inl e, s') => (inl e, s')
  | (inr a, s') => k a s'
  end.
Definition act (a : action) : P unit := fun s =>
  (inr tt, {| trace := s.(trace) ++ [a]; defers := s.(defers) |}).
Definition defer (a : action) : P unit := fun s =>
  (inr tt, {| trace := s.(trace); defers := a :: s.(defers) |}).
Definition try_ {A} (wrap : string) (r : error + A) : P A := fun s =>
  match r with
  | inl e => (inl (Errorf wrap [] (Some e)), s)
  | inr a => (inr a, s)
  end.
Definition when (b : bool) (m : P unit) : P unit := if b then m else ret tt.

Notation "'let!' x := m 'in' k" := (bind m (fun x => k))
  (at level 200, x name, m at level 100, k at level 200).
Notation "'do!' m 'in' k" := (bind m (fun _ => k)) (at level 200, m at level 100, k at level 200).

(** How the listener ends: an error, a clean close, or the shutdown signal. *)
Inductive served := ListenErr (err : error) | ListenClosed | CtxDone.

Record boot := {
  bt_args : error + string * bool;
  bt_zap : option error;
  bt_metrics : option error;
  bt_stat : stat_result;
  bt_registry : string -> error + Registry adapter;
  bt_pool : option error;
  bt_ping_db : option error;
  bt_ping_redis : option error;
  bt_pricing : gmap string Pricing.Rate;
  bt_reload : option error;
  bt_resource : string -> error + unit;
  bt_exporter : string -> error + unit;
  bt_codec : string -> error + (string -> option nat);
  bt_served : served;
  bt_shutdown : option error
}.

(** What [server.New] is given. *)
Record built := {
  bl_deps : Deps;
  bl_registry : Registry adapter;
  bl_router : Retry.RetryPolicy * Breaker.BreakerSettings;
  bl_authn : option authenticator;
  bl_limits : option (list BuiltRule);
  bl_billing : option billing;
  bl_cache : bool * Z;
  bl_tokenizer : Selector;
  bl_classifier : option (Route.RuleClassifier (T := counter));
  bl_compressor : option Compressor.SlidingWindow;
  bl_pool : bool; bl_rdb : bool
}.

Section Run.
Context `{!Sha256}.
Context (ToLower : string -> string) (loadConfig : string -> error + Config).

Definition of_opt (e : option error) : error + unit := match e with Some e => inl e | None => inr tt end.

Definition loadPool (cfg : Config) (b : boot) : P bool :=
  if bool_decide (cfg.(c_Database).(dc_DSN) = "") then ret false
  else do! try_ "init storage pool: %w" (of_opt b.(bt_pool)) in
       do! act (Acquire RPool) in ret true.

(** A client that does not answer the ping is closed again. *)
Definition loadRedis (cfg : Config) (b : boot) : P bool :=
  if bool_decide (cfg.(c_Redis).(rdc_Addr) = "") then ret false
  else do! act (Acquire RRedis) in
       match b.(bt_ping_redis) with
       | Some _ => do! act (Release RRedis) in ret false
       | None => ret true
       end.

(** From the configuration to [server.New]. *)
Definition build_server (cfg : Config) (b : boot) : P built :=
  do! try_ "init logger: %w" (NewLogger ToLower b.(bt_zap) cfg.(c_Log).(lc_Level) cfg.(c_Log).(lc_Format)) in
  do! act (Acquire RLogger) in
  do! defer (Release RLogger) in
  do! try_ "init metrics: %w" (of_opt b.(bt_metrics)) in
  let! reg := try_ "init provider registry: %w"
                (loadRegistry b.(bt_stat) cfg.(c_ProvidersFile) b.(bt_registry)) in
  let! pool := loadPool cfg b in
  do! when pool (defer (Release RPool)) in
  let! authn := try_ "init auth: %w" (loadAuth cfg.(c_Auth).(ac_StaticKeys) pool b.(bt_ping_db)) in
  let! rdb := loadRedis cfg b in
  do! when rdb (defer (Release RRedis)) in
  let ttl := cfg.(c_Auth).(ac_Cache) in
  let authn := match authn with
               | Some a => if rdb && (0 <? ttl.(acc_PositiveTTL))
                           then Some (ACached a ttl.(acc_PositiveTTL) ttl.(acc_NegativeTTL)) else Some a
               | None => None
               end in
  do! try_ "init tracer: %w" (NewTracerProvider b.(bt_resource) b.(bt_exporter) (tracing_config cfg)) in
  do! act (Acquire RTracer) in
  do! defer (Release RTracer) in
  let! limits := try_ "init rate limiter: %w" (buildRateLimiter cfg (UniversalClient rdb)) in
  let! tk := try_ "init tokenizer: %w" (buildTokenizer b.(bt_codec)) in
  let! billing := try_ "init billing: %w" (buildBilling cfg pool b.(bt_pricing) b.(bt_reload)) in
  do! when (bool_decide (is_Some billing)) (do! act (Acquire RBilling) in defer (Release RBilling)) in
  let deps :=
    {| d_Logger := true; d_Registry := true; d_MetricsReg := true;
       d_Authn := bool_decide (is_Some authn); d_Router := true; d_Pricing := pool; d_Keystore := pool;
       d_StoragePool := pool; d_Stats := true; d_CacheStats := true; d_Metrics := true;
       d_MetricsEnabled := cfg.(c_Observability).(oc_Metrics).(mc_Enabled);
       d_MetricsPath := cfg.(c_Observability).(oc_Metrics).(mc_Path);
       d_AdminCORSOrigins := cfg.(c_Server).(sc_AdminCORSOrigins) |} in
  do! try_ "init server: %w" (of_opt (validateDeps deps)) in
  ret {| bl_deps := deps; bl_registry := reg; bl_router := buildRouter cfg; bl_authn := authn;
         bl_limits := limits; bl_billing := billing; bl_cache := buildExactCache cfg rdb;
         bl_tokenizer := tk; bl_classifier := buildClassifier cfg (Some (select tk)); bl_compressor := buildCompressor cfg true;
         bl_pool := pool; bl_rdb := rdb |}.

(** Serving until the listener fails or the context ends, then draining. *)
Definition serve_and_stop (cfg : Config) (b : boot) : P unit :=
  do! act ListenAndServe in
  match b.(bt_served) with
  | ListenErr err => try_ "listen: %w" (inl err)
  | ListenClosed => ret tt
  | CtxDone =>
      let s := cfg.(c_Server) in
      do! act StartDraining in
      do! when (0 <? s.(sc_PreShutdownDelay))
            (act (Wait (Z.min s.(sc_PreShutdownDelay) s.(sc_ShutdownTimeout)))) in
      do! act (Shutdown s.(sc_ShutdownTimeout)) in
      try_ "server shutdown: %w" (of_opt b.(bt_shutdown))
  end.

(** The deferred [billingWorker.Stop].  The consumers run under the context of
    [runWithCtx], so when that ended the serving phase it has already ended for
    them. *)
Definition stop_billing (sv : served) (w : Worker.Worker) : Worker.Worker :=
  Worker.Stop match sv with
              | CtxDone => Worker.set_flags w.(Worker.closed) w.(Worker.started) true w
              | ListenErr _ | ListenClosed => w
              end.

Definition run_body (b : boot) : P unit :=
  match b.(bt_args) with
  | inl err => fun s => (inl err, s)
  | inr (_, true) => ret tt
  | inr (configPath, false) =>
      let! cfg := try_ "load config: %w" (loadConfig configPath) in
      let! _srv := build_server cfg b in
      serve_and_stop cfg b
  end.

(** The error [runWithCtx] returns, and everything it did. *)
Definition runWithCtx (b : boot) : option error * list action :=
  let '(r, s) := run_body b {| trace := []; defers := [] |} in
  (match r with inl e => Some e | inr _ => None end, s.(trace) ++ s.(defers)).
End Run.

(** ** What is closed, and in which order *)

#[export] Instance resource_eq_dec : EqDecision resource.
Proof. solve_decision. Defined.
#[export] Instance action_eq_dec : EqDecision action.
Proof. solve_decision. Defined.

(** The resources that are open after the actions, last opened first; [None]
    when something is closed that is not the last one opened. *)
Fixpoint replay (open : list resource) (tr : list action) : option (list resource) :=
  match tr with
  | [] => Some open
  | Acquire r :: tr' => replay (r :: open) tr'
  | Release r :: tr' =>
      match open with
      | r' :: open' => if bool_decide (r = r') then replay open' tr' else None
      | [] => None
      end
  | _ :: tr' => replay open tr'
  end.

(** The actions before the HTTP server is shut down, when it is. *)
Fixpoint before_shutdown (tr : list action) : option (list action) :=
  match tr with
  | [] => None
  | Shutdown _ :: _ => Some []
  | a :: tr' => cons a <$> before_shutdown tr'
  end.

(** A [Shutdown] comes after the drain flag, and before the billing worker
    stops and the pool closes; nothing waits longer than it should. *)
Definition orderly (cfg : Config) (tr : list action) : Prop :=
  replay [] tr = Some [] /\
  (forall pre, before_shutdown tr = Some pre ->
     StartDraining ∈ pre /\ Release RBilling ∉ pre /\ Release RPool ∉ pre) /\
  (forall d, Wait d ∈ tr -> 0 < d /\ d <= cfg.(c_Server).(sc_PreShutdownDelay) /\
                           d <= cfg.(c_Server).(sc_ShutdownTimeout)).

Section Orderly.
Context `{sha : !Sha256}.
Context (ToLower : string -> string) (FormatFloat : float64 -> string) (ReadInConfig : string -> option error)
  (Unmarshal : string -> error + Config).
Local Abbreviation Load := (Config.Load ToLower FormatFloat ReadInConfig Unmarshal).

(** What the serving phase adds between the start-up and the deferred calls. *)
Definition serving (cfg : Config) (tail : list action) : Prop :=
  tail = [] \/ exists w t, tail = StartDraining :: w ++ [Shutdown t] /\
    (w = [] \/ exists d, w = [Wait d] /\ 0 < d /\ d <= cfg.(c_Server).(sc_PreShutdownDelay) /\
                       d <= cfg.(c_Server).(sc_ShutdownTimeout)).

(** The last phase, from any state of the start-up. *)
Lemma serve_and_stop_spec cfg b s :
  0 < cfg.(c_Server).(sc_ShutdownTimeout) ->
  exists tail, (serve_and_stop cfg b s).2 = {| trace := s.(trace) ++ ListenAndServe :: tail; defers := s.(defers) |} /\
    serving cfg tail.
Proof.
  intros Ht. unfold serving, serve_and_stop, bind, act, try_, when, ret.
  destruct (bt_served b) as [err| |]; [exists []; by split; [|left]..|].
  assert (Hend : forall (x : pstate), (match of_opt (bt_shutdown b) with
     | inl e => (inl (Errorf "server shutdown: %w" [] (Some e)), x) | inr a => (inr a, x) end : _ * _).2 = x)
    by (intros x; by destruct (of_opt _)).
  destruct (Z.ltb_spec 0 (sc_PreShutdownDelay (c_Server cfg))) as [Hd|Hd]; rewrite Hend; cbn [trace defers];
    eexists; (split; [by rewrite <- !app_assoc|]); right.
  - exists [Wait (Z.min (sc_PreShutdownDelay (c_Server cfg)) (sc_ShutdownTimeout (c_Server cfg)))],
      (sc_ShutdownTimeout (c_Server cfg)).
    split; [done|]. right. eexists. split; [done|]. lia.
  - exists [], (sc_ShutdownTimeout (c_Server cfg)). split; [done|]. by left.
Qed.

(** The trace of the start-up: everything opened so far is deferred to be
    closed, last first, and only a Redis client that did not answer has been
    closed already. *)
Definition opened (s : pstate) (pending : list resource) : Prop :=
  exists open, replay [] s.(trace) = Some (pending ++ open) /\ s.(defers) = map Release open /\
    Forall (fun a => match a with Acquire _ | Release RRedis => True | _ => False end) s.(trace).

Lemma replay_app open tr1 tr2 : replay open (tr1 ++ tr2) = replay open tr1 ≫= fun o => replay o tr2.
Proof.
  revert open. induction tr1 as [|a tr1 IH]; intros open; [done|]. destruct a; cbn; try apply IH.
  destruct open as [|r' open]; [done|]. by case_bool_decide.
Qed.

Lemma before_shutdown_app pre rest :
  Forall (fun a => match a with Shutdown _ => False | _ => True end) pre ->
  before_shutdown (pre ++ rest) = app pre <$> before_shutdown rest.
Proof.
  induction 1 as [|a pre Ha Hp IH]; [cbn [app]; by destruct (before_shutdown rest)|].
  destruct a; try done; cbn [app before_shutdown]; rewrite IH; by destruct (before_shutdown rest).
Qed.

Lemma replay_close open : replay open (map Release open) = Some [].
Proof. induction open as [|r open IH]; [done|]. cbn. by rewrite bool_decide_true. Qed.

(** Opening and closing only. *)
Definition bookkeeping (a : action) : Prop :=
  match a with Acquire _ | Release _ => True | _ => False end.

Lemma bookkeeping_quiet tr :
  Forall bookkeeping tr -> before_shutdown tr = None /\ forall d, Wait d ∉ tr.
Proof.
  induction 1 as [|a tr Ha Htr [IH1 IH2]]; [split; [done|set_solver]|].
  destruct a; try done; cbn; rewrite IH1; (split; [done|]); intros d; rewrite not_elem_of_cons; by split.
Qed.

Lemma opened_acquire s r : opened s [] -> opened (act (Acquire r) s).2 [r].
Proof.
  intros (open & Hr & Hd & Hf). exists open. cbn. rewrite replay_app, Hr. split_and!; [done..|].
  apply list.Forall_app. split; [done|by constructor].
Qed.
Lemma opened_defer s r : opened s [r] -> opened (defer (Release r) s).2 [].
Proof. intros (open & Hr & Hd & Hf). exists (r :: open). cbn. rewrite Hd. by split_and!. Qed.
Lemma opened_close s : opened s [RRedis] -> opened (act (Release RRedis) s).2 [].
Proof.
  intros (open & Hr & Hd & Hf). exists open. cbn. rewrite replay_app, Hr. cbn. rewrite bool_decide_true by done.
  split_and!; [done..|]. apply list.Forall_app. split; [done|by constructor].
Qed.
Lemma opened_init : opened {| trace := []; defers := [] |} [].
Proof. by exists []. Qed.

(** A step keeps the books, and so do two in a row. *)
Definition keeps {A} (m : P A) : Prop := forall s, opened s [] -> opened (m s).2 [].

Lemma keeps_bind {A B} (m : P A) (k : A -> P B) : keeps m -> (forall a, keeps (k a)) -> keeps (bind m k).
Proof. intros Hm Hk s Hs. unfold bind. specialize (Hm s Hs). destruct (m s) as [[e|a] s']; [done|by apply Hk]. Qed.
Lemma keeps_try {A} w (r : error + A) : keeps (try_ w r).
Proof. intros s Hs. unfold try_. by destruct r. Qed.
Lemma keeps_ret {A} (a : A) : keeps (ret a).
Proof. by intros s. Qed.
Lemma keeps_open {A} r (k : P A) : keeps k ->
  keeps (bind (act (Acquire r)) (fun _ => bind (defer (Release r)) (fun _ => k))).
Proof. intros Hk s Hs. apply Hk. by apply opened_defer, opened_acquire. Qed.

Lemma keeps_pool {A} cfg b (k : bool -> P A) : (forall x, keeps (k x)) ->
  keeps (bind (loadPool cfg b) (fun pool => bind (when pool (defer (Release RPool))) (fun _ => k pool))).
Proof.
  intros Hk s Hs. unfold loadPool. case_bool_decide; [by apply Hk|].
  unfold bind, try_. destruct (of_opt (bt_pool b)) as [e|]; [done|].
  apply Hk. by apply opened_defer, opened_acquire.
Qed.

Lemma keeps_redis {A} cfg b (k : bool -> P A) : (forall x, keeps (k x)) ->
  keeps (bind (loadRedis cfg b) (fun rdb => bind (when rdb (defer (Release RRedis))) (fun _ => k rdb))).
Proof.
  intros Hk s Hs. unfold loadRedis. case_bool_decide; [by apply Hk|].
  destruct (bt_ping_redis b); apply Hk; [by apply opened_close, opened_acquire|].
  by apply opened_defer, opened_acquire.
Qed.

Lemma keeps_build_server cfg b : keeps (build_server ToLower cfg b).
Proof.
  unfold build_server.
  repeat match goal with
  | |- forall _, _ => intros ?
  | |- keeps (bind (act _) _) => apply keeps_open
  | |- keeps (bind (loadPool _ _) _) => apply keeps_pool
  | |- keeps (bind (loadRedis _ _) _) => apply keeps_redis
  | |- keeps (bind (try_ _ _) _) => apply keeps_bind; [apply keeps_try|]
  end.
  apply keeps_bind; [|intros _; apply keeps_bind; [apply keeps_try|intros ?; apply keeps_ret]].
  unfold when. destruct (bool_decide _); [|apply keeps_ret].
  intros s Hs. by apply opened_defer, opened_acquire.
Qed.

Lemma opened_bookkeeping s : opened s [] -> Forall bookkeeping s.(trace) /\ Forall bookkeeping s.(defers).
Proof.
  intros (open & _ & Hd & Hf). split; [eapply list.Forall_impl; [exact Hf|]; by intros []|].
  rewrite Hd. by apply Forall_fmap, Forall_true.
Qed.

(** A start-up that fails runs the deferred calls. *)
Lemma failed_orderly cfg s : opened s [] -> orderly cfg (s.(trace) ++ s.(defers)).
Proof.
  intros Ho. destruct (opened_bookkeeping s Ho) as [Ht Hd]. destruct Ho as (open & Hr & Hd' & _).
  destruct (bookkeeping_quiet _ (proj2 (list.Forall_app _ _ _) (conj Ht Hd))) as [Hb Hw]. unfold orderly.
  split_and!; [by rewrite replay_app, Hr, Hd'; apply replay_close|by rewrite Hb|]. by intros d ?%Hw.
Qed.

Lemma serving_prefix s mid rest :
  opened s [] -> Forall (fun a => match a with Shutdown _ => False | _ => True end) mid ->
  before_shutdown (s.(trace) ++ mid ++ rest) = app (s.(trace) ++ mid) <$> before_shutdown rest.
Proof.
  intros (open & _ & _ & Hf) Hmid. rewrite app_assoc. apply before_shutdown_app, list.Forall_app.
  split; [|done]. eapply list.Forall_impl; [exact Hf|]. by intros [].
Qed.

(** Shutting down comes after draining and before the worker and the pool are
    released. *)
Lemma serving_shutdown cfg s tail pre :
  opened s [] -> serving cfg tail ->
  before_shutdown ((s.(trace) ++ ListenAndServe :: tail) ++ s.(defers)) = Some pre ->
  StartDraining ∈ pre /\ Release RBilling ∉ pre /\ Release RPool ∉ pre.
Proof.
  intros Ho Htail. rewrite <- app_assoc. cbn [app].
  destruct Htail as [->|(w & t & -> & Hw)].
  - change (ListenAndServe :: [] ++ s.(defers)) with ([ListenAndServe] ++ s.(defers)).
    rewrite serving_prefix by (done || by repeat constructor).
    destruct (bookkeeping_quiet _ (proj2 (opened_bookkeeping s Ho))) as [-> _]. done.
  - replace (ListenAndServe :: (StartDraining :: w ++ [Shutdown t]) ++ s.(defers))
      with ((ListenAndServe :: StartDraining :: w) ++ Shutdown t :: s.(defers)) by (cbn; by rewrite <- app_assoc).
    rewrite serving_prefix by (done || (destruct Hw as [->|(d & -> & _)]; by repeat constructor)).
    cbn [before_shutdown fmap option_fmap option_map]. rewrite app_nil_r. intros [= <-].
    assert (Hnr : forall r, r <> RRedis -> Release r ∉ s.(trace)).
    { destruct Ho as (open & _ & _ & Hf). intros r Hne Hin. rewrite list.Forall_forall in Hf.
      specialize (Hf _ Hin). by destruct r. }
    split_and!; [set_solver|..]; rewrite not_elem_of_app; (split; [by apply Hnr|]);
      destruct Hw as [->|(d & -> & _)]; rewrite !not_elem_of_cons; split_and!; done || set_solver.
Qed.

Lemma serving_wait cfg tail d :
  serving cfg tail -> Wait d ∈ tail ->
  0 < d /\ d <= cfg.(c_Server).(sc_PreShutdownDelay) /\ d <= cfg.(c_Server).(sc_ShutdownTimeout).
Proof.
  intros [->|(w & t & -> & Hw)]; [by intros ?%elem_of_nil|].
  intros [?|[Hin|?%list_elem_of_singleton]%elem_of_app]%elem_of_cons; [done| |done].
  destruct Hw as [->|(d' & -> & Hb)]; [by apply elem_of_nil in Hin|].
  apply list_elem_of_singleton in Hin as [= ->]. done.
Qed.

(** A run that served and stopped. *)
Lemma served_orderly cfg s tail :
  opened s [] -> serving cfg tail -> orderly cfg ((s.(trace) ++ ListenAndServe :: tail) ++ s.(defers)).
Proof.
  intros Ho Htail. unfold orderly. split_and!.
  - destruct Ho as (open & Hr & Hd & _). rewrite !replay_app, Hr. cbn [app mbind option_bind replay].
    replace (replay open tail) with (Some open); [by rewrite Hd; apply replay_close|].
    destruct Htail as [->|(w & t & -> & [->|(d & -> & _)])]; done.
  - intros pre. by apply (serving_shutdown cfg).
  - destruct (opened_bookkeeping s Ho) as [Ht Hd]. intros d. rewrite !elem_of_app.
    intros [[Hin|[?|Hin]%elem_of_cons]|Hin]; [by apply bookkeeping_quiet in Hin|done|
      by apply (serving_wait cfg tail)|by apply bookkeeping_quiet in Hin].
Qed.

(** C32: The process cleans up after itself.  On every run, whichever step
    fails and however the server ends, each resource that was opened (logger,
    connection pool, Redis client, tracer, billing worker) is closed exactly
    once, in reverse order of opening; when the server is shut down, /readyz
    has been turned off before, the drain wait exceeds neither its setting nor
    the shutdown budget, and the billing worker is stopped and the pool closed
    only afterwards, in that order. *)
Theorem run_orderly b path cfg :
  b.(bt_args) = inr (path, false) -> Load path = inr cfg ->
  orderly cfg (runWithCtx ToLower Load b).2.
Proof.
  intros Ha Hl. pose proof (v_timeouts _ _ (Load_valid _ _ _ _ _ _ Hl)) as (_ & _ & Ht & _).
  unfold runWithCtx, run_body. rewrite Ha, Hl. unfold bind at 1, try_ at 1. unfold bind.
  pose proof (keeps_build_server cfg b _ opened_init) as Ho.
  destruct (build_server ToLower cfg b _) as [[e|srv] s]; [by apply failed_orderly|]. cbn [snd] in Ho.
  destruct (serve_and_stop_spec cfg b s Ht) as (tail & Hst & Htail).
  destruct (serve_and_stop cfg b s) as [res2 s2]. cbn [snd] in Hst. subst s2.
  exact (served_orderly cfg s tail Ho Htail).
Qed.

(** A gateway with tracing switched off comes up, or not, whatever the trace
    collector does. *)
Definition with_exporter (x : string -> error + unit) (b : boot) : boot :=
  {| bt_args := b.(bt_args); bt_zap := b.(bt_zap); bt_metrics := b.(bt_metrics); bt_stat := b.(bt_stat);
     bt_registry := b.(bt_registry); bt_pool := b.(bt_pool); bt_ping_db := b.(bt_ping_db);
     bt_ping_redis := b.(bt_ping_redis); bt_pricing := b.(bt_pricing); bt_reload := b.(bt_reload);
     bt_resource := b.(bt_resource); bt_exporter := x;
     bt_codec := b.(bt_codec); bt_served := b.(bt_served); bt_shutdown := b.(bt_shutdown) |}.

Lemma tracing_off_needs_no_collector cfg b x :
  cfg.(c_Observability).(oc_Tracing).(tc_Enabled) = false ->
  build_server ToLower cfg (with_exporter x b) = build_server ToLower cfg b.
Proof.
  intros Hoff. unfold build_server, NewTracerProvider, tracing_config, loadPool, loadRedis.
  cbn [Tracing.Enabled]. by rewrite Hoff.
Qed.

(** ** Who may call an instance *)

(** Which gateways run without authentication. *)
Definition open_deployment (cfg : Config) (b : boot) : Prop :=
  cfg.(c_Auth).(ac_StaticKeys) = [] /\
  (cfg.(c_Database).(dc_DSN) = "" \/ is_Some b.(bt_ping_db)).

Lemma loadPool_inv cfg b s pool s' :
  loadPool cfg b s = (inr pool, s') -> pool = negb (bool_decide (cfg.(c_Database).(dc_DSN) = "")).
Proof.
  unfold loadPool, bind, try_, act, ret. case_bool_decide; [by intros [= <- <-]|].
  destruct (of_opt _); [done|]. by intros [= <- <-].
Qed.

Lemma build_server_inv cfg b s srv s' :
  build_server ToLower cfg b s = (inr srv, s') ->
  exists authn,
    loadAuth cfg.(c_Auth).(ac_StaticKeys) (negb (bool_decide (cfg.(c_Database).(dc_DSN) = ""))) b.(bt_ping_db)
      = inr authn /\
    srv.(bl_deps).(d_Authn) = bool_decide (is_Some authn) /\
    bool_decide (is_Some srv.(bl_authn)) = bool_decide (is_Some authn).
Proof.
  unfold build_server. unfold bind at 1 2 3 4 5. intros H.
  destruct (try_ _ _ s) as [[|] s1]; [done|]. cbn in H. destruct (try_ _ _ _) as [[|] s2]; [done|].
  unfold bind at 1 in H. destruct (try_ "init provider registry: %w" _ _) as [[|] s3]; [done|].
  unfold bind at 1 in H. destruct (loadPool cfg b s3) as [[|pool] s4] eqn:Ep; [done|].
  apply loadPool_inv in Ep. rewrite <- Ep. clear Ep.
  unfold try_, when, act, defer, ret, bind in H.
  destruct (loadAuth _ pool _) as [e|authn]; [by destruct pool|]. exists authn. split; [done|].
  repeat (case_match; simplify_eq/=); by split.
Qed.

Lemma loadAuth_None keys pool ping :
  loadAuth keys pool ping = inr None <-> keys = [] /\ (pool = false \/ is_Some ping).
Proof.
  unfold loadAuth. destruct keys as [|k ks]; [|destruct (Static.NewStatic _); naive_solver].
  destruct pool; cbn; [|naive_solver]. destruct ping; naive_solver.
Qed.

(** C33: Which gateways are open.  Among all gateways that come up, the ones
    serving /v1 without authentication are exactly those with no static keys
    and a database that is unconfigured or did not answer the ping at
    start-up; on such a gateway no admin endpoint is mounted at all, and on
    every other one each /v1 and /admin endpoint has the authentication
    middleware in front. *)
Theorem auth_posture cfg b s srv s' ep :
  build_server ToLower cfg b s = (inr srv, s') -> is_v1 ep = true \/ is_admin ep = true ->
  (open_deployment cfg b -> srv.(bl_authn) = None /\
     (if is_admin ep then routes srv.(bl_deps) ep = None
      else exists gs, routes srv.(bl_deps) ep = Some gs /\ GAuth ∉ gs)) /\
  (~ open_deployment cfg b -> is_Some srv.(bl_authn) /\
     forall gs, routes srv.(bl_deps) ep = Some gs -> GAuth ∈ gs).
Proof.
  intros H Hep. destruct (build_server_inv _ _ _ _ _ H) as (authn & Ha & Hd & Hn).
  assert (Hopen : open_deployment cfg b <-> authn = None).
  { transitivity (loadAuth (ac_StaticKeys (c_Auth cfg)) (negb (bool_decide (dc_DSN (c_Database cfg) = "")))
                    (bt_ping_db b) = inr None); [|rewrite Ha; naive_solver].
    rewrite loadAuth_None. unfold open_deployment. by rewrite negb_false_iff, bool_decide_eq_true. }
  destruct authn as [a|].
  - rewrite (bool_decide_true (is_Some (Some a))) in Hd, Hn by done. apply bool_decide_eq_true in Hn. split; [by intros ?%Hopen|].
    intros _. split; [done|]. intros gs. unfold routes. rewrite Hd.
    destruct ep; destruct Hep as [Hep|Hep]; try done; cbn [andb app];
      try (intros [= <-]; set_solver); case_match; try done; intros [= <-]; set_solver.
  - rewrite (bool_decide_false (is_Some None)) in Hd, Hn by (by intros [? ?]). apply bool_decide_eq_false in Hn.
    split; [|by intros []; apply Hopen]. intros _. split; [by apply eq_None_not_Some|].
    unfold routes. rewrite Hd.
    destruct ep; destruct Hep as [Hep|Hep]; try done; cbn [is_admin app]; eexists; (split; [done|]); set_solver.
Qed.

(** ** What a loaded configuration becomes *)

Lemma valid_logger cfg : valid ToLower cfg ->
  exists lvl enc, NewLogger ToLower None cfg.(c_Log).(lc_Level) cfg.(c_Log).(lc_Format) = inr (lvl, enc).
Proof.
  intros Hv. pose proof (v_level _ _ Hv) as Hl. pose proof (v_format _ _ Hv) as Hf.
  unfold NewLogger, parseLevel.
  assert (Hf' : ToLower (lc_Format (c_Log cfg)) = "json" \/ ToLower (lc_Format (c_Log cfg)) = "console") by set_solver.
  assert (Hl' : ToLower (lc_Level (c_Log cfg)) = "debug" \/ ToLower (lc_Level (c_Log cfg)) = "info" \/
    ToLower (lc_Level (c_Log cfg)) = "warn" \/ ToLower (lc_Level (c_Log cfg)) = "error") by set_solver.
  destruct Hf' as [-> | ->], Hl' as [-> | [-> | [-> | ->]]]; by do 2 eexists.
Qed.

Lemma Forall2_fmap_2_names has_rdb rules rs :
  Forall2 (built_from has_rdb) (map rule_config rules) rs -> br_Name <$> rs = rlr_Name <$> rules.
Proof.
  revert rs. induction rules as [|r rules IH]; intros rs H; inversion H as [|? b ? rs' Hb Hr]; subst; [done|].
  rewrite !fmap_cons, (IH rs') by done. destruct Hb as [-> _]. done.
Qed.

(** A configuration that loads is used as written.  The logger accepts its
    level and format; an enabled prompt compressor gets exactly its window,
    trigger ratio and per-model windows, none of them replaced by a fallback,
    and its minimum of kept messages unless that is zero; the rate limiter, if
    it is built, has one rule per entry, in order and with the entry's name. *)
Theorem loaded_config_respected path cfg :
  Load path = inr cfg ->
  (exists lvl enc, NewLogger ToLower None cfg.(c_Log).(lc_Level) cfg.(c_Log).(lc_Format) = inr (lvl, enc)) /\
  (cfg.(c_Prompt).(pcc_Enabled) = true ->
     exists c, buildCompressor cfg true = Some c /\
       c.(Compressor.defaultWindow) = cfg.(c_Prompt).(pcc_DefaultWindow) /\
       c.(Compressor.triggerRatio) = cfg.(c_Prompt).(pcc_TriggerRatio) /\
       c.(Compressor.windows) = cfg.(c_Prompt).(pcc_ModelWindows) /\
       (0 < cfg.(c_Prompt).(pcc_MinKeepMessages) ->
          c.(Compressor.minKeepMessages) = cfg.(c_Prompt).(pcc_MinKeepMessages))) /\
  (forall rdb rs, buildRateLimiter cfg rdb = inr (Some rs) ->
     br_Name <$> rs = rlr_Name <$> cfg.(c_RateLimits)).
Proof.
  intros Hl. pose proof (Load_valid _ _ _ _ _ _ Hl) as Hv. split_and!; [by apply valid_logger|..].
  - intros He. destruct (v_prompt _ _ Hv He) as (H1 & H2 & H3 & H4). unfold buildCompressor. rewrite He. cbn [negb].
    eexists. split; [reflexivity|].
    cbn [Compressor.defaultWindow Compressor.triggerRatio Compressor.windows Compressor.minKeepMessages
         Compressor.opt_DefaultWindow Compressor.opt_TriggerRatio Compressor.opt_Windows Compressor.opt_MinKeepMessages].
    rewrite H1, H2, (proj2 (Z.leb_gt _ _)) by done. split_and!; [done..|].
    intros H5. by rewrite (proj2 (Z.leb_gt _ _)).
  - intros rdb rs. unfold buildRateLimiter. destruct (c_RateLimits cfg) as [|r rules]; [done|].
    destruct (Build _ _) as [|rs'] eqn:Eb; [done|]. intros [= <-].
    apply Build_ok in Eb as [Hf _]. apply Forall2_fmap_2_names in Hf. exact Hf.
Qed.
End Orderly.

(** ** Billing from the start to the end of the process *)

Lemma buildBilling_inv cfg pool table reload bg :
  buildBilling cfg pool table reload = inr (Some bg) ->
  pool = true /\ bg.(bg_pricing) = (Pricing.Reload reload (Pricing.SetMetrics (Pricing.NewPricingCache true table))).2 /\
  bg.(bg_interval) = cfg.(c_Billing).(bc_PricingReloadInterval) /\
  exists c, Worker.reachable c bg.(bg_worker) /\ bg.(bg_worker).(Worker.started) = true.
Proof.
  unfold buildBilling. destruct pool; [|done]. cbn [negb].
  match goal with |- context [Worker.NewWorker true ?c] => destruct (Worker.NewWorker true c) as [|w] eqn:Ew; [done|] end.
  intros [= <-]. split_and!; [done..|]. eexists. split.
  - eapply Worker.reach_step; [by apply Worker.reach_new|apply Worker.w_start].
  - injection Ew as <-. reflexivity.
Qed.

(** The prices a gateway starts with: all those of the table when the initial
    reload succeeded, none when it failed; in that case the gateway starts all
    the same, and the first reload of the goroutine that succeeds brings them. *)
Lemma billing_starts_priced cfg table reload bg model :
  buildBilling cfg true table reload = inr (Some bg) -> Pricing.wf_table table ->
  Pricing.Lookup bg.(bg_pricing) model = (if reload is Some _ then None else table !! model) /\
  (0 < cfg.(c_Billing).(bc_PricingReloadInterval) ->
   Pricing.Lookup (reloaded bg [([], None)]) model = table !! model).
Proof.
  intros H Hwf. apply buildBilling_inv in H as (_ & Hp & Hl & _). unfold reloaded. rewrite Hl, Hp.
  pose proof (Pricing.from_rows_table table (fun m r Hr => proj1 (Hwf m r Hr))) as Ht. unfold Pricing.PeriodicReload.
  split.
  - destruct reload; [done|]. cbn. unfold Pricing.Lookup. cbn. by rewrite Ht.
  - intros Hi. destruct (Z.leb_spec (bc_PricingReloadInterval (c_Billing cfg)) 0); [lia|].
    destruct reload; cbn; unfold Pricing.Lookup; cbn; by rewrite Ht.
Qed.

(** [reachable] carries over to whatever the running gateway does with the worker. *)
Lemma worker_steps c w w' : Worker.reachable c w -> rtc Worker.wstep w w' -> Worker.reachable c w'.
Proof. intros Hr Hs. induction Hs; [done|]. eauto using Worker.reach_step. Qed.

Lemma started_step w w' : Worker.wstep w w' -> w.(Worker.started) = true -> w'.(Worker.started) = true.
Proof.
  intros Hs Hst. destruct Hs as [pricing w w' Hc|w|now e w ok w' He|w|w]; try done.
  - destruct Hc as [| |w b1 e b2 ddl insert w' _ Hp|]; try done. by apply Worker.persist_frame in Hp as (_ & _ & _ & -> & _).
  - unfold Worker.Start. by rewrite Hst.
  - unfold Worker.Enqueue in He. destruct (Worker.closed w); [done|]. destruct (_ <? _); by injection He as <- <-.
Qed.

(** The end of the billing worker [main] built, whatever it did until the
    serving phase ended ([w]) and does after the deferred [Stop] ([w']).  A gateway
    whose listener ended, and that gets no signal while it stops, has written
    every accepted event, unless its insert failed, when the consumers have
    returned.  A gateway stopped by the signal does not flush its queue: only the
    events some consumer was just persisting can still be written. *)
Theorem billing_stopped cfg pool table reload bg sv w w' :
  buildBilling cfg pool table reload = inr (Some bg) ->
  rtc Worker.wstep bg.(bg_worker) w -> rtc Worker.wstep (stop_billing sv w) w' ->
  (w'.(Worker.canceled) = false -> w'.(Worker.exited) = Z.to_nat w'.(Worker.cfg).(Worker.Workers) ->
     w'.(Worker.accepted) ≡ₚ w'.(Worker.rows).*1 ++ w'.(Worker.failed)) /\
  (sv = CtxDone -> w'.(Worker.rows).*1 ⊆+ w.(Worker.rows).*1 ++ w.(Worker.busy)).
Proof.
  intros Hb Hw Hs. apply buildBilling_inv in Hb as (_ & _ & _ & c & Hr & Hst).
  assert (Hs' : rtc Worker.wstep w w').
  { destruct sv; [..|eapply rtc_l; [apply Worker.w_cancel|]]; (eapply rtc_l; [apply Worker.w_stop|exact Hs]). }
  assert (Hall : rtc Worker.wstep bg.(bg_worker) w') by (by etrans).
  split.
  - intros Hca Hex. assert (Hst' : w'.(Worker.started) = true) by (clear -Hall Hst; induction Hall; eauto using started_step).
    by destruct (Worker.drained c w' (worker_steps c _ _ Hr Hall) Hst' Hex Hca) as (_ & _ & _ & Hacc).
  - intros ->. by apply (Worker.after_cancel (stop_billing CtxDone w)).
Qed.

(** ** Deviations *)

(** The library defaults are the configuration defaults... *)
Lemma default_router :
  (buildRouter setDefaults).1 = Retry.DefaultPolicy /\
  Breaker.applyDefaults (buildRouter setDefaults).2 = Breaker.DefaultBreakerSettings.
Proof. split; vm_compute; reflexivity. Qed.

(** ...but a zero in the retry block is not replaced by a default, whereas a
    zero in the breaker block is. *)
Lemma zero_retry_taken_literally cfg :
  cfg.(c_Router) = {| roc_Retry := Build_RouterRetryConfig 0 0 0 0;
                      roc_Breaker := Build_RouterBreakerConfig 0 0 0 f_zero 0 |} ->
  (buildRouter cfg).1 = Retry.Build_RetryPolicy 0 0 0 0 /\
  Breaker.applyDefaults (buildRouter cfg).2 = Breaker.DefaultBreakerSettings.
Proof. unfold buildRouter. intros ->. by split. Qed.

(** A nil client makes a non-nil interface, so that the check for a missing
    Redis never fires: the limiter built without Redis is the one built with
    it. *)
Theorem redis_check_never_fires cfg :
  buildRateLimiter cfg (UniversalClient false) = buildRateLimiter cfg (UniversalClient true) /\
  buildRateLimiter cfg (UniversalClient false) =
    match cfg.(c_RateLimits) with
    | [] => inr None
    | rules => match Build true (map rule_config rules) with inl e => inl e | inr rs => inr (Some rs) end
    end.
Proof. by split. Qed.

(** A Redis that was unreachable at start-up is not probed by /readyz. *)
Lemma dead_redis_not_probed {S} pool (ping_db ping_redis : S -> option string * S) :
  "redis" ∉ (buildReadinessCheckers pool false ping_db ping_redis).*1.
Proof. destruct pool; cbn; set_solver. Qed.

Module Example.
#[local] Instance toy : Sha256 := fun _ => [].
Definition low (s : string) : string := s.
Definition show_f (_ : float64) : string := "?".
Definition no_read (_ : string) : option error := None.
Definition with_db : Config :=
  let d := setDefaults in
  {| c_Server := d.(c_Server); c_Log := d.(c_Log); c_Observability := d.(c_Observability);
     c_Database := {| dc_DSN := "postgres://db"; dc_MaxOpenConns := 20; dc_MaxIdleConns := 5;
                      dc_ConnMaxLifetime := 30 * Minute |};
     c_Redis := {| rdc_Addr := "redis:6379"; rdc_Password := ""; rdc_DB := 0; rdc_PoolSize := 50 |};
     c_ProvidersFile := d.(c_ProvidersFile); c_Auth := d.(c_Auth);
     c_RateLimits := [{| rlr_Name := "tpm"; rlr_Algorithm := "redis_window"; rlr_Rate := ""; rlr_Window := Minute;
                         rlr_Limit := 100; rlr_Burst := 0; rlr_KeyBy := ["api_key"]; rlr_Unit := "tokens" |}];
     c_Router := d.(c_Router); c_Routing := d.(c_Routing); c_Billing := d.(c_Billing); c_Cache := d.(c_Cache);
     c_Prompt := {| pcc_Enabled := true; pcc_TriggerRatio := lit 1 2; pcc_MinKeepMessages := 3;
                    pcc_DefaultWindow := 8000; pcc_ModelWindows := ∅ |} |}.
Definition decode (_ : string) : error + Config := inr with_db.

Definition b0 : boot :=
  {| bt_args := inr ("config.yaml", false); bt_zap := None; bt_metrics := None; bt_stat := StatNotExist;
     bt_registry := fun _ => inr NewEmpty; bt_pool := None; bt_ping_db := None;
     bt_ping_redis := Some (Foreign "refused" []); bt_pricing := ∅; bt_reload := None; bt_resource := fun _ => inr tt;
     bt_exporter := fun _ => inl (Foreign "no collector" []); bt_codec := fun _ => inr (fun s => Some (String.length s)); bt_served := CtxDone;
     bt_shutdown := None |}.

(** A full life: Redis is down, everything else comes up, and is stopped. *)
Example full_life :
  runWithCtx low (Config.Load low show_f no_read decode) b0 =
  (None, [Acquire RLogger; Acquire RPool; Acquire RRedis; Release RRedis; Acquire RTracer; Acquire RBilling;
          ListenAndServe; StartDraining; Wait (5 * Second); Shutdown (30 * Second);
          Release RBilling; Release RTracer; Release RPool; Release RLogger]).
Proof. vm_compute. reflexivity. Qed.

Lemma run_orderly_witness :
  orderly with_db (runWithCtx low (Config.Load low show_f no_read decode) b0).2.
Proof. apply (run_orderly low show_f no_read decode b0 "config.yaml" with_db); reflexivity. Defined.

Lemma loaded_config_respected_witness :
  exists c, buildCompressor with_db true = Some c /\ c.(Compressor.defaultWindow) = 8000.
Proof.
  destruct (loaded_config_respected low show_f no_read decode "config.yaml" with_db eq_refl) as (_ & Hc & _).
  destruct (Hc eq_refl) as (c & Hb & Hw & _). exists c. split; [exact Hb|exact Hw].
Defined.

Definition s0 : pstate := {| trace := []; defers := [] |}.

Lemma auth_posture_witness :
  exists srv s', build_server low with_db b0 s0 = (inr srv, s') /\
    is_Some srv.(bl_authn) /\ forall gs, routes srv.(bl_deps) ChatCompletions = Some gs -> GAuth ∈ gs.
Proof.
  destruct (build_server low with_db b0 s0) as [[e|srv] s'] eqn:E; [vm_compute in E; discriminate E|].
  exists srv, s'. split; [reflexivity|].
  apply (auth_posture low with_db b0 s0 srv s' ChatCompletions E); [by left|].
  intros [_ [H|[? H]]]; discriminate H.
Defined.
End Example.
