(* ===== verification/Observability.v ===== *)
(** * Observability: counters, the dashboard projections and the minute ring

    [internal/observability]: the metric bundle ([gateway_metrics.go]), the
    summary and cache projections over it ([stats.go], [cache_stats.go]), the
    ring of the last sixty minutes ([timeseries.go]) and the redaction helpers
    ([redact.go]).  The Prometheus registry is a map from a family's name and
    label values to a value; counters are exact below 2^53 and modelled as
    integers.  Histograms keep their observations; what the registry gathers
    from one (its cumulative buckets) is an input of the projections.  A
    collector refuses label values that do not fit its labels, and a counter a
    negative increment: both panic.  Times are nanoseconds since the Unix
    epoch. *)

From S2P Require Import Prelude GoStd Float64 Errors Encoding Auth.
From stdpp Require Import base list gmap sorting.
Local Open Scope Z_scope.

(** ** The minute ring *)

Module TimeSeries.

Definition tsSlotCount : Z := 60.
Definition tsSlotDur : Z := Minute.

(** [start] is [None] in an unused slot. *)
Record tsSlot := { start : option Z; success : Z; error_ : Z }.
Definition unused : tsSlot := {| start := None; success := 0; error_ := 0 |}.

Record TimePoint := { T : Z; Success : Z; Error : Z }.

Definition NewTimeSeries : list tsSlot := repeat unused 60.

(** [Time.Truncate]. *)
Definition Truncate (t : Z) : Z := t - t mod tsSlotDur.

Definition slotIndex (bucket : Z) : Z :=
  Z.rem (Z.quot (bucket / Second) (Z.quot tsSlotDur Second)) tsSlotCount.

Definition Record_ (now status : Z) (slots : list tsSlot) : list tsSlot :=
  let bucket := Truncate now in
  let idx := Z.to_nat (slotIndex bucket) in
  alter (fun s =>
    let s := if bool_decide (s.(start) = Some bucket) then s
             else {| start := Some bucket; success := 0; error_ := 0 |} in
    if 400 <=? status
    then {| start := s.(start); success := s.(success); error_ := s.(error_) + 1 |}
    else {| start := s.(start); success := s.(success) + 1; error_ := s.(error_) |}) idx slots.

Definition Snapshot (now : Z) (slots : list tsSlot) : list TimePoint :=
  let now := Truncate now in
  map (fun i =>
    let bucket := now + - (tsSlotCount - 1 - Z.of_nat i) * tsSlotDur in
    match slots !! Z.to_nat (slotIndex bucket) with
    | Some s => if bool_decide (s.(start) = Some bucket)
                then {| T := bucket; Success := s.(success); Error := s.(error_) |}
                else {| T := bucket; Success := 0; Error := 0 |}
    | None => {| T := bucket; Success := 0; Error := 0 |}
    end) (seq 0 60).

(** *** Minutes *)

Definition minute (t : Z) : Z := t / Minute.

Lemma Truncate_minute t : Truncate t = minute t * Minute.
Proof. unfold Truncate, minute, tsSlotDur. pose proof (Z.div_mod t Minute). unfold Minute in *. lia. Qed.

Lemma slotIndex_minute m : 0 <= m -> slotIndex (m * Minute) = m mod 60.
Proof.
  intros Hm. unfold slotIndex, tsSlotCount, tsSlotDur. change (Z.quot Minute Second) with 60.
  replace (m * Minute / Second) with (m * 60).
  - rewrite Z.quot_div_nonneg, Z.div_mul, Z.rem_mod_nonneg by lia. done.
  - replace (m * Minute) with (m * 60 * Second) by (unfold Minute, Second; lia).
    by rewrite Z.div_mul by (unfold Second; lia).
Qed.

(** The requests recorded, as (time, status): how many of minute [m] failed or
    not. *)
Definition in_minute (m : Z) (failed : bool) (r : Z * Z) : bool :=
  (minute r.1 =? m) && eqb failed (400 <=? r.2).
Definition count_of (m : Z) (failed : bool) (rs : list (Z * Z)) : Z :=
  Z.of_nat (length (List.filter (in_minute m failed) rs)).

Lemma count_of_snoc m failed rs r :
  count_of m failed (rs ++ [r]) = count_of m failed rs + (if in_minute m failed r then 1 else 0).
Proof.
  unfold count_of. rewrite List.filter_app, length_app. cbn [List.filter].
  destruct (in_minute m failed r); cbn [length]; lia.
Qed.

Lemma count_of_none m failed rs : (forall r, r ∈ rs -> minute r.1 <> m) -> count_of m failed rs = 0.
Proof.
  intros H. unfold count_of. replace (List.filter _ rs) with (@nil (Z * Z)); [done|]. symmetry.
  induction rs as [|r rs IH]; [done|]. cbn [List.filter]. unfold in_minute at 1.
  rewrite (proj2 (Z.eqb_neq _ _)) by (apply H; set_solver). cbn [andb]. apply IH. set_solver.
Qed.

(** What the slot of a minute's index holds after the requests [rs]. *)
Definition slot_ok (rs : list (Z * Z)) (i : nat) (s : tsSlot) : Prop :=
  match s.(start) with
  | None => forall r, r ∈ rs -> minute r.1 mod 60 <> Z.of_nat i
  | Some b => exists m, b = m * Minute /\ 0 <= m /\ m mod 60 = Z.of_nat i /\
      s.(success) = count_of m false rs /\ s.(error_) = count_of m true rs /\
      (exists r, r ∈ rs /\ minute r.1 = m) /\
      forall r, r ∈ rs -> minute r.1 mod 60 = Z.of_nat i -> minute r.1 <= m
  end.

Definition ring_ok (rs : list (Z * Z)) (slots : list tsSlot) : Prop :=
  length slots = 60%nat /\ forall i s, slots !! i = Some s -> slot_ok rs i s.

Lemma ring_ok_init : ring_ok [] NewTimeSeries.
Proof.
  split; [done|]. intros i s Hs. apply list_elem_of_lookup_2, list_elem_of_In, repeat_spec in Hs as ->.
  intros r. set_solver.
Qed.

Lemma minute_mono t t' : t <= t' -> minute t <= minute t'.
Proof. intros H. apply Z.div_le_mono; [unfold Minute; lia|done]. Qed.

Lemma ring_ok_step rs slots t status :
  ring_ok rs slots -> 0 <= t -> (forall r, r ∈ rs -> r.1 <= t) ->
  ring_ok (rs ++ [(t, status)]) (Record_ t status slots).
Proof.
  intros [Hlen Hok] Ht Hlast. unfold Record_. rewrite Truncate_minute.
  assert (Hm0 : 0 <= minute t) by (apply Z.div_pos; unfold Minute; lia).
  rewrite slotIndex_minute by done. set (m := minute t) in *.
  split; [by rewrite length_alter|]. intros i s Hs.
  assert (Hsnoc : forall r, r ∈ rs ++ [(t, status)] <-> r ∈ rs \/ r = (t, status)) by set_solver.
  destruct (decide (i = Z.to_nat (m mod 60))) as [->|Hne].
  - rewrite list_lookup_alter_eq in Hs. apply fmap_Some in Hs as (s0 & Hs0 & ->).
    pose proof (Hok _ _ Hs0) as H0. pose proof (Z.mod_pos_bound m 60 ltac:(lia)) as Hb.
    assert (Hup : forall r, r ∈ rs ++ [(t, status)] -> minute r.1 <= m).
    { intros r [Hr| ->]%Hsnoc; [by apply minute_mono, Hlast|done]. }
    assert (Hz : bool_decide (start s0 = Some (m * Minute)) = false -> forall r, r ∈ rs -> minute r.1 <> m).
    { intros Hd%bool_decide_eq_false r Hr Hrm. unfold slot_ok in H0. destruct (start s0) as [b|].
      - destruct H0 as (m' & -> & _ & _ & _ & _ & (r0 & Hr0 & Hr0m) & H3).
        specialize (H3 r Hr ltac:(rewrite Hrm, Z2Nat.id; lia)).
        specialize (Hup r0 ltac:(set_solver)). apply Hd. do 2 f_equal. lia.
      - apply (H0 r Hr). rewrite Hrm, Z2Nat.id; lia. }
    assert (Hold : bool_decide (start s0 = Some (m * Minute)) = true ->
       s0.(success) = count_of m false rs /\ s0.(error_) = count_of m true rs).
    { intros Hd%bool_decide_eq_true. unfold slot_ok in H0. rewrite Hd in H0.
      destruct H0 as (m' & E & _ & _ & H1 & H2 & _). assert (m' = m) as -> by (unfold Minute in E; lia). done. }
    assert (Hnew : forall a b,
       a = count_of m false (rs ++ [(t, status)]) -> b = count_of m true (rs ++ [(t, status)]) ->
       slot_ok (rs ++ [(t, status)]) (Z.to_nat (m mod 60)) {| start := Some (m * Minute); success := a; error_ := b |}).
    { intros a b Ha Hb'. exists m. split_and!; try done; [rewrite Z2Nat.id; lia| |by auto].
      exists (t, status). split; [set_solver|done]. }
    assert (Hin : forall f, in_minute m f (t, status) = eqb f (400 <=? status)).
    { intros f. unfold in_minute. cbn [fst snd]. fold m. by rewrite Z.eqb_refl. }
    destruct (bool_decide (start s0 = Some (m * Minute))) eqn:Hd.
    + destruct (Hold eq_refl) as [H1 H2]. apply bool_decide_eq_true in Hd. rewrite Hd.
      destruct (400 <=? status); apply Hnew; rewrite count_of_snoc, Hin; cbn [eqb]; lia.
    + specialize (Hz eq_refl). pose proof (count_of_none m false rs Hz). pose proof (count_of_none m true rs Hz).
      destruct (400 <=? status); apply Hnew; rewrite count_of_snoc, Hin; cbn [eqb success error_]; lia.
  - rewrite list_lookup_alter_ne in Hs by done. specialize (Hok _ _ Hs). unfold slot_ok in *.
    assert (Hother : m mod 60 <> Z.of_nat i).
    { intros E. apply Hne. rewrite E. lia. }
    destruct (start s) as [b|].
    + destruct Hok as (m' & -> & Hm' & Hi & H1 & H2 & (r0 & Hr0 & Hr0m) & H3). exists m'.
      assert (Hmm : minute t =? m' = false) by (apply Z.eqb_neq; fold m; intros ->; done).
      rewrite !count_of_snoc. unfold in_minute. cbn [fst snd]. rewrite Hmm. cbn [andb].
      split_and!; try done; try lia; [exists r0; set_solver|].
      intros r [Hr| ->]%Hsnoc Hri; [by apply H3|]. done.
    + intros r [Hr| ->]%Hsnoc; [by apply Hok|done].
Qed.

(** Replaying a log of requests. *)
Definition record_all (rs : list (Z * Z)) : list tsSlot :=
  fold_left (fun slots r => Record_ r.1 r.2 slots) rs NewTimeSeries.

(** The clock does not run backwards between the requests and the snapshot. *)
Definition chronological (rs : list (Z * Z)) (now : Z) : Prop :=
  StronglySorted Z.le rs.*1 /\ forall r, r ∈ rs -> 0 <= r.1 <= now.

Lemma ring_ok_all rs now : chronological rs now -> ring_ok rs (record_all rs).
Proof.
  intros [Hs Hp]. unfold record_all. induction rs as [|[t st] rs IH] using rev_ind; [apply ring_ok_init|].
  rewrite fold_left_app. cbn [fold_left fst snd]. rewrite fmap_app in Hs. cbn in Hs.
  apply ring_ok_step.
  - apply IH; [by apply StronglySorted_app_1_l in Hs|set_solver].
  - apply (Hp (t, st)). set_solver.
  - intros r Hr. apply (StronglySorted_app_1_elem_of Z.le rs.*1 [t]); [done| |set_solver].
    apply list_elem_of_fmap. by exists r.
Qed.

(** C37: The ring is the last hour of the request log.  However many requests
    were recorded, and however often the ring wrapped around, a snapshot lists
    the sixty minutes up to the current one, oldest first, each with exactly
    the number of requests of that minute that succeeded and that failed. *)
Theorem ring_faithful rs now :
  chronological rs now -> 59 <= minute now ->
  Snapshot now (record_all rs) =
  map (fun i => let m := minute now - 59 + Z.of_nat i in
         {| T := m * Minute; Success := count_of m false rs; Error := count_of m true rs |}) (seq 0 60).
Proof.
  intros Hc Hn. destruct (ring_ok_all rs now Hc) as [Hlen Hok]. unfold Snapshot. rewrite Truncate_minute.
  apply map_ext_in. intros i Hi%in_seq. set (m := minute now - 59 + Z.of_nat i).
  replace (minute now * Minute + - (tsSlotCount - 1 - Z.of_nat i) * tsSlotDur) with (m * Minute)
    by (unfold m, tsSlotCount, tsSlotDur; lia).
  rewrite slotIndex_minute by lia. pose proof (Z.mod_pos_bound m 60 ltac:(lia)) as Hb.
  destruct (lookup_lt_is_Some_2 (record_all rs) (Z.to_nat (m mod 60))) as [s Hs]; [lia|].
  rewrite Hs. specialize (Hok _ _ Hs). unfold slot_ok in Hok. rewrite Z2Nat.id in Hok by lia.
  destruct (bool_decide_reflect (start s = Some (m * Minute))) as [E|E].
  - rewrite E in Hok. destruct Hok as (m' & Em & _ & _ & -> & -> & _).
    assert (m' = m) as -> by (unfold Minute in Em; lia). done.
  - assert (Hz : forall r, r ∈ rs -> minute r.1 <> m).
    { intros r Hr Hrm. destruct (start s) as [b|]; [|by apply (Hok r Hr); rewrite Hrm].
      destruct Hok as (m' & -> & _ & Hi' & _ & _ & (r0 & Hr0 & Hr0m) & H3).
      specialize (H3 r Hr ltac:(by rewrite Hrm)). rewrite Hrm in H3.
      pose proof (minute_mono r0.1 now (proj2 (proj2 Hc r0 Hr0))) as Hle.
      assert (m' <> m) by (intros ->; done).
      assert (m' - m <> 0 /\ (m' - m) mod 60 = 0) as [? Hmod].
      { split; [lia|]. rewrite Zminus_mod, Hi', Z.sub_diag. done. }
      apply Z.mod_divide in Hmod as [k Hk]; [|lia]. unfold m in *. lia. }
    by rewrite !count_of_none.
Qed.

(** Two requests an hour apart share a slot. *)
Lemma ring_faithful_witness :
  nth 59 (Snapshot (70 * Minute + 5) (record_all [(10 * Minute, 200); (70 * Minute, 500); (70 * Minute + 1, 200)]))
    {| T := 0; Success := 0; Error := 0 |} = {| T := 70 * Minute; Success := 1; Error := 1 |}.
Proof.
  rewrite (ring_faithful [(10 * Minute, 200); (70 * Minute, 500); (70 * Minute + 1, 200)] (70 * Minute + 5)).
  - vm_compute. reflexivity.
  - split; [repeat constructor; vm_compute; discriminate|]. intros r Hr. rewrite !elem_of_cons in Hr.
    destruct Hr as [->|[->|[->|Hr]]]; [cbn; unfold Minute; lia..|by apply elem_of_nil in Hr].
  - vm_compute. discriminate.
Defined.
End TimeSeries.

(** ** The metric bundle *)

Definition statusLabel (status : Z) : string :=
  if (200 <=? status) && (status <? 300) then "2xx"
  else if (300 <=? status) && (status <? 400) then "3xx"
  else if (400 <=? status) && (status <? 500) then
    if status =? 401 then "401" else if status =? 403 then "403" else if status =? 404 then "404"
    else if status =? 413 then "413" else if status =? 429 then "429" else "4xx"
  else if (500 <=? status) && (status <? 600) then
    if status =? 502 then "502" else if status =? 503 then "503" else if status =? 504 then "504" else "5xx"
  else "unknown".

(** A time series: the family and its label values, in the order they were
    declared. *)
Abbreviation series := (string * list string)%type.

Definition latencyBuckets : list float64 :=
  [lit 5 1000; lit 1 100; lit 25 1000; lit 5 100; lit 1 10; lit 25 100; lit 5 10; of_Z 1; lit 25 10; of_Z 5;
   of_Z 10; of_Z 30].
Definition cacheLookupBuckets : list float64 :=
  [lit 1 10000; lit 25 100000; lit 5 10000; lit 1 1000; lit 25 10000; lit 5 1000; lit 1 100; lit 25 1000; lit 1 10].
(** [prometheus.ExponentialBuckets(64, 2, 12)]. *)
Definition savedBuckets : list float64 := map (fun i => of_Z (64 * 2 ^ Z.of_nat i)) (seq 0 12).

Inductive kind := Counter | Gauge | Histogram (buckets : list float64).
Record family := { f_Name : string; f_Kind : kind; f_Labels : list string }.

(** The collectors of the bundle, in the order they are registered. *)
Definition collectors : list family :=
  [Build_family "gateway_requests_total" Counter ["provider"; "model"; "status"];
   Build_family "gateway_request_duration_seconds" (Histogram latencyBuckets) ["provider"; "model"];
   Build_family "gateway_tokens_total" Counter ["provider"; "model"; "type"];
   Build_family "gateway_cost_micro_total" Counter ["provider"; "model"; "api_key_id"];
   Build_family "gateway_cache_hits_total" Counter ["type"];
   Build_family "gateway_cache_writes_total" Counter ["type"];
   Build_family "gateway_cache_lookup_duration_seconds" (Histogram cacheLookupBuckets) ["result"];
   Build_family "gateway_router_decision_total" Counter ["from"; "to"; "rule"];
   Build_family "gateway_router_bypass_total" Counter ["reason"];
   Build_family "gateway_ratelimit_rejected_total" Counter ["rule"];
   Build_family "gateway_router_failover_total" Counter ["from"; "to"];
   Build_family "gateway_breaker_state" Gauge ["provider"];
   Build_family "gateway_billing_dropped_total" Counter [];
   Build_family "gateway_billing_written_total" Counter [];
   Build_family "gateway_pricing_cache_size" Gauge [];
   Build_family "gateway_prompt_compressed_total" Counter ["model"];
   Build_family "gateway_prompt_tokens_saved" (Histogram savedBuckets) []].

Record Metrics := {
  values : gmap series Z;
  observed : gmap series (list float64);
  timeseries : list TimeSeries.tsSlot;
  startedAt : Z
}.

Definition bundle (now : Z) : Metrics :=
  {| values := ∅; observed := ∅; timeseries := TimeSeries.NewTimeSeries; startedAt := now |}.

Section Register.
(** [prometheus.Registerer]. *)
Context {R : Type} (Register : family -> R -> option error * R).

Fixpoint register_all (cs : list family) (r : R) : option error * R :=
  match cs with
  | [] => (None, r)
  | c :: cs' => match Register c r with (Some e, r') => (Some e, r') | (None, r') => register_all cs' r' end
  end.

Definition NewMetrics (now : Z) (r : R) : (error + Metrics) * R :=
  match register_all collectors r with
  | (Some e, r') => (inl e, r')
  | (None, r') => (inr (bundle now), r')
  end.
End Register.

Definition value_at (k : series) (m : gmap series Z) : Z := default 0 (m !! k).

Definition collector_of (name : string) : option family :=
  List.find (fun f => bool_decide (f.(f_Name) = name)) collectors.

(** [WithLabelValues] of the collector of that name, here with its kind: [None]
    is its panic, when the number of values is not the declared one or a value
    is not valid UTF-8. *)
Definition WithLabelValues (k : series) : option kind :=
  f ← collector_of k.1;
  if (length f.(f_Labels) =? length k.2)%nat && forallb Utf8.ValidString k.2 then Some f.(f_Kind) else None.

(** [.Add], [.Set] and [.Observe] on a series; a counter panics when it would
    decrease.  (The compiler rules out the other kinds of collector.) *)
Definition Add (k : series) (n : Z) (m : Metrics) : option Metrics :=
  match WithLabelValues k with
  | Some Counter =>
      if n <? 0 then None
      else Some {| values := <[k := value_at k m.(values) + n]> m.(values); observed := m.(observed);
                   timeseries := m.(timeseries); startedAt := m.(startedAt) |}
  | _ => None
  end.
Definition SetGauge (k : series) (n : Z) (m : Metrics) : option Metrics :=
  match WithLabelValues k with
  | Some Gauge => Some {| values := <[k := n]> m.(values); observed := m.(observed);
                          timeseries := m.(timeseries); startedAt := m.(startedAt) |}
  | _ => None
  end.
Definition Observe (k : series) (x : float64) (m : Metrics) : option Metrics :=
  match WithLabelValues k with
  | Some (Histogram _) =>
      Some {| values := m.(values); observed := <[k := default [] (m.(observed) !! k) ++ [x]]> m.(observed);
              timeseries := m.(timeseries); startedAt := m.(startedAt) |}
  | _ => None
  end.
Definition record_point (now status : Z) (m : Metrics) : Metrics :=
  {| values := m.(values); observed := m.(observed);
     timeseries := TimeSeries.Record_ now status m.(timeseries); startedAt := m.(startedAt) |}.

Definition ObserveRequest (now : Z) (provider model : string) (status : Z) (durationSec : float64)
    (m : Metrics) : option Metrics :=
  m ← Add ("gateway_requests_total", [provider; model; statusLabel status]) 1 m;
  m ← Observe ("gateway_request_duration_seconds", [provider; model]) durationSec m;
  Some (record_point now status m).

Definition AddTokens (provider model : string) (prompt completion : Z) (m : Metrics) : option Metrics :=
  m ← (if 0 <? prompt then Add ("gateway_tokens_total", [provider; model; "prompt"]) prompt m else Some m);
  if 0 <? completion then Add ("gateway_tokens_total", [provider; model; "completion"]) completion m else Some m.

Definition AddCost (provider model apiKeyID : string) (micro : Z) (m : Metrics) : option Metrics :=
  if micro =? 0 then Some m
  else Add ("gateway_cost_micro_total", [provider; model; apiKeyID]) micro m.

Definition IncCacheHit (kind : string) : Metrics -> option Metrics := Add ("gateway_cache_hits_total", [kind]) 1.
Definition IncCacheWrite (kind : string) : Metrics -> option Metrics := Add ("gateway_cache_writes_total", [kind]) 1.
Definition ObserveCacheLookup (result : string) (d : float64) : Metrics -> option Metrics :=
  Observe ("gateway_cache_lookup_duration_seconds", [result]) d.
Definition IncRouterDecision (from to rule : string) : Metrics -> option Metrics :=
  Add ("gateway_router_decision_total", [from; to; rule]) 1.
Definition IncRouterBypass (reason : string) : Metrics -> option Metrics :=
  Add ("gateway_router_bypass_total", [reason]) 1.
Definition IncRatelimitReject (rule : string) : Metrics -> option Metrics :=
  Add ("gateway_ratelimit_rejected_total", [rule]) 1.
Definition IncFailover (from to : string) : Metrics -> option Metrics :=
  Add ("gateway_router_failover_total", [from; to]) 1.
Definition SetBreakerState (provider : string) (state : Z) : Metrics -> option Metrics :=
  SetGauge ("gateway_breaker_state", [provider]) state.
Definition IncBillingDropped : Metrics -> option Metrics := Add ("gateway_billing_dropped_total", []) 1.
Definition IncBillingWritten : Metrics -> option Metrics := Add ("gateway_billing_written_total", []) 1.
Definition SetPricingCacheSize (n : Z) : Metrics -> option Metrics := SetGauge ("gateway_pricing_cache_size", []) n.
Definition ObservePromptCompressed (model : string) (tokensSaved : Z) (m : Metrics) : option Metrics :=
  m ← Add ("gateway_prompt_compressed_total", [model]) 1 m;
  if 0 <? tokensSaved then Observe ("gateway_prompt_tokens_saved", []) (of_Z tokensSaved) m else Some m.

(** ** The summary *)

(** The sum, over all series, of the value times a weight: every total of the
    summary is one. *)
Definition total (weight : series -> Z) (m : gmap series Z) : Z :=
  map_fold (fun k v acc => weight k * v + acc) 0 m.

Definition if_1 (b : bool) : Z := if b then 1 else 0.

Definition in_family (name : string) (k : series) : bool := bool_decide (k.1 = name).
Definition label (i : nat) (k : series) : string := default "" (k.2 !! i).

Record ModelBreakdown := {
  mb_Provider : string; mb_Model : string; mb_Requests : Z; mb_PromptTokens : Z;
  mb_CompletionTokens : Z; mb_CostMicro : Z
}.

Record StatsSummary := {
  Window : string; Since : Z; AsOf : Z;
  RequestsTotal : Z; Errors4xx : Z; Errors5xx : Z; CostMicroTotal : Z; P99LatencySeconds : float64;
  TopModels : list ModelBreakdown
}.

Definition is_4xx (l : string) : bool := bool_decide (l ∈ ["401"; "403"; "404"; "413"; "429"; "4xx"]).
Definition is_5xx (l : string) : bool := bool_decide (l ∈ ["502"; "503"; "504"; "5xx"]).

(** The row of one (provider, model) pair. *)
Definition row_of (m : gmap series Z) (p mname : string) : ModelBreakdown :=
  let mine k := bool_decide (label 0 k = p) && bool_decide (label 1 k = mname) in
  {| mb_Provider := p; mb_Model := mname;
     mb_Requests := total (fun k => if_1 (in_family "gateway_requests_total" k && mine k)) m;
     mb_PromptTokens := total (fun k => if_1 (in_family "gateway_tokens_total" k && mine k
                                              && bool_decide (label 2 k = "prompt"))) m;
     mb_CompletionTokens := total (fun k => if_1 (in_family "gateway_tokens_total" k && mine k
                                                  && bool_decide (label 2 k = "completion"))) m;
     mb_CostMicro := total (fun k => if_1 (in_family "gateway_cost_micro_total" k && mine k)) m |}.

(** The pairs that have a row: those some series of the three families names. *)
Definition model_families : list string :=
  ["gateway_requests_total"; "gateway_cost_micro_total"; "gateway_tokens_total"].
Definition model_keys (m : gmap series Z) : list (string * string) :=
  elements (list_to_set (C := gset (string * string))
    (omap (fun kv : series * Z =>
       if bool_decide (kv.1.1 ∈ model_families)
          && negb (bool_decide (label 0 kv.1 = "") && bool_decide (label 1 kv.1 = ""))
       then Some (label 0 kv.1, label 1 kv.1) else None) (map_to_list m))).

Definition topModelsLimit : nat := 10.

Definition busier (r1 r2 : ModelBreakdown) : Prop :=
  r2.(mb_Requests) < r1.(mb_Requests) \/
  (r2.(mb_Requests) = r1.(mb_Requests) /\ r2.(mb_CostMicro) <= r1.(mb_CostMicro)).
#[export] Instance busier_dec r1 r2 : Decision (busier r1 r2).
Proof. unfold busier. apply _. Defined.

(** [topModels]; rows that tie in both columns come in no particular order. *)
Definition topModels (rows : list ModelBreakdown) : list ModelBreakdown :=
  take topModelsLimit (merge_sort busier rows).

(** *** The latency quantile *)

(** A gathered histogram ([dto.Histogram]). *)
Record bucket := { upper : float64; count : Z }.
Record histogram := { h_SampleCount : Z; h_SampleSum : float64; h_Bucket : list bucket }.

Record mergedHistogram := { sampleCount : Z; sampleSum : float64; buckets : list bucket }.
Definition empty_histogram : mergedHistogram := {| sampleCount := 0; sampleSum := f_zero; buckets := [] |}.

(** [out.buckets\[i\].count += ...], up to the shorter of the two lists. *)
Fixpoint add_counts (out : list bucket) (bs : list bucket) : list bucket :=
  match out, bs with
  | o :: out', b :: bs' => {| upper := o.(upper); count := o.(count) + b.(count) |} :: add_counts out' bs'
  | _, _ => out
  end.

Definition merge_one (out : mergedHistogram) (h : option histogram) : mergedHistogram :=
  match h with
  | None => out
  | Some h => {| sampleCount := out.(sampleCount) + h.(h_SampleCount);
                 sampleSum := f_add out.(sampleSum) h.(h_SampleSum);
                 buckets := add_counts out.(buckets) h.(h_Bucket) |}
  end.

Definition mergeHistograms (metrics : list (option histogram)) : mergedHistogram :=
  match metrics with
  | Some first :: _ =>
      fold_left merge_one metrics
        {| sampleCount := 0; sampleSum := f_zero;
           buckets := map (fun b => {| upper := b.(upper); count := 0 |}) first.(h_Bucket) |}
  | _ => empty_histogram
  end.

Definition f_sub (x y : float64) : float64 := SpecFloat.SFsub prec emax x y.

(** The scan of [histogramQuantile] from one bucket on; [last] is the upper
    bound of the last bucket. *)
Fixpoint quantile_scan (target last prevUpper : float64) (prevCount : Z) (bs : list bucket) : float64 :=
  match bs with
  | [] => last
  | b :: bs' =>
      if f_leb target (of_Z b.(count)) then
        let width := f_sub b.(upper) prevUpper in
        let countInBucket := of_Z ((b.(count) - prevCount) mod 2 ^ 64) in
        if f_leb countInBucket f_zero || f_leb width f_zero then b.(upper)
        else f_add prevUpper (f_mul (f_div (f_sub target (of_Z prevCount)) countInBucket) width)
      else quantile_scan target last b.(upper) b.(count) bs'
  end.

Definition histogramQuantile (q : float64) (h : mergedHistogram) : float64 :=
  match List.rev h.(buckets) with
  | [] => f_zero
  | last_ :: _ =>
      if h.(sampleCount) =? 0 then f_zero
      else quantile_scan (f_mul q (of_Z h.(sampleCount))) last_.(upper) f_zero 0 h.(buckets)
  end.

(** One gathering of the registry: the counters and gauges, and the metrics of
    the request duration histogram. *)
Record gathering := { g_values : gmap series Z; g_durations : list (option histogram) }.

(** The projection of [Summary] from one gathering of the registry. *)
Definition summarize (since now : Z) (g : gathering) : StatsSummary :=
  let m := g.(g_values) in
  {| Window := "process_uptime"; Since := since; AsOf := now;
     RequestsTotal := total (fun k => if_1 (in_family "gateway_requests_total" k)) m;
     Errors4xx := total (fun k => if_1 (in_family "gateway_requests_total" k && is_4xx (label 2 k))) m;
     Errors5xx := total (fun k => if_1 (in_family "gateway_requests_total" k && is_5xx (label 2 k))) m;
     CostMicroTotal := total (fun k => if_1 (in_family "gateway_cost_micro_total" k)) m;
     P99LatencySeconds := histogramQuantile (lit 99 100) (mergeHistograms g.(g_durations));
     TopModels := topModels (map (fun pm => row_of m pm.1 pm.2) (model_keys m)) |}.

(** The collector with its five-second cache; no gatherer is a nil one. *)
Record StatsCollector := { has_gatherer : bool; st_startedAt : Z; cached : option (StatsSummary * Z) }.
Definition cacheTTL : Z := 5 * Second.

Definition Summary (now : Z) (gather : error + gathering) (c : StatsCollector)
    : (error + StatsSummary) * StatsCollector :=
  if negb c.(has_gatherer) then (inl (Errorf "observability: stats collector has no gatherer" [] None), c)
  else
    let refresh :=
      match gather with
      | inl e => (inl e, c)
      | inr g => let s := summarize c.(st_startedAt) now g in
                 (inr s, {| has_gatherer := true; st_startedAt := c.(st_startedAt); cached := Some (s, now) |})
      end in
    match c.(cached) with
    | Some (s, at_) => if time_sub now at_ <? cacheTTL then (inr s, c) else refresh
    | None => refresh
    end.

(** [CacheStatsCollector.Stats], the projection part. *)
Definition computeHitRate (hits writes : Z) : option float64 :=
  let denom := hits + writes in
  if denom =? 0 then None else Some (f_div (of_Z hits) (of_Z denom)).

Record CacheLayerStats := { Hits : Z; Writes : Z; HitRate : option float64 }.
Definition cache_stats (m : gmap series Z) : CacheLayerStats :=
  let hits := total (fun k => if_1 (in_family "gateway_cache_hits_total" k && bool_decide (label 0 k = "exact"))) m in
  let writes := total (fun k => if_1 (in_family "gateway_cache_writes_total" k && bool_decide (label 0 k = "exact"))) m in
  {| Hits := hits; Writes := writes; HitRate := computeHitRate hits writes |}.

Record CacheStats := { cs_Window : string; cs_Since : Z; cs_AsOf : Z; Exact : CacheLayerStats }.
Record CacheStatsCollector := { cc_gatherer : bool; cc_startedAt : Z; cc_cached : option (CacheStats * Z) }.

Definition Stats (now : Z) (gather : error + gathering) (c : CacheStatsCollector)
    : (error + CacheStats) * CacheStatsCollector :=
  if negb c.(cc_gatherer) then (inl (Errorf "observability: cache stats collector has no gatherer" [] None), c)
  else
    let refresh :=
      match gather with
      | inl e => (inl e, c)
      | inr g => let s := {| cs_Window := "process_uptime"; cs_Since := c.(cc_startedAt); cs_AsOf := now;
                             Exact := cache_stats g.(g_values) |} in
                 (inr s, {| cc_gatherer := true; cc_startedAt := c.(cc_startedAt); cc_cached := Some (s, now) |})
      end in
    match c.(cc_cached) with
    | Some (s, at_) => if time_sub now at_ <? cacheTTL then (inr s, c) else refresh
    | None => refresh
    end.

(** *** Totals *)

Lemma total_insert_new w k v m : m !! k = None -> total w (<[k := v]> m) = w k * v + total w m.
Proof.
  intros Hk. unfold total. rewrite map_fold_insert_L; [done| |done].
  intros. lia.
Qed.

Lemma total_lookup w k v m : m !! k = Some v -> total w m = w k * v + total w (delete k m).
Proof. intros E. rewrite <- (insert_delete_id _ _ _ E) at 1. by rewrite total_insert_new by apply lookup_delete_eq. Qed.

Lemma total_Add w k n m m' : Add k n m = Some m' -> total w m'.(values) = total w m.(values) + w k * n.
Proof.
  unfold Add. destruct (WithLabelValues k) as [[]|]; try done. destruct (n <? 0); [done|]. intros [= <-]. cbn [values].
  unfold value_at. destruct (m.(values) !! k) as [v|] eqn:E; cbn.
  - rewrite (total_lookup w k v m.(values)), <- insert_delete_eq by done.
    rewrite total_insert_new by apply lookup_delete_eq. lia.
  - rewrite total_insert_new by done. lia.
Qed.

Lemma Observe_values k x m m' : Observe k x m = Some m' -> m'.(values) = m.(values).
Proof. unfold Observe. destruct (WithLabelValues k) as [[]|]; try done. by intros [= <-]. Qed.

Lemma is_4xx_label status : is_4xx (statusLabel status) = (400 <=? status) && (status <? 500).
Proof.
  unfold statusLabel. destruct (Z.leb_spec 200 status), (Z.ltb_spec status 300), (Z.leb_spec 300 status),
    (Z.ltb_spec status 400), (Z.leb_spec 400 status), (Z.ltb_spec status 500), (Z.leb_spec 500 status),
    (Z.ltb_spec status 600); try lia; cbn [andb]; repeat case_match; try lia; done.
Qed.

Lemma is_5xx_label status : is_5xx (statusLabel status) = (500 <=? status) && (status <? 600).
Proof.
  unfold statusLabel. destruct (Z.leb_spec 200 status), (Z.ltb_spec status 300), (Z.leb_spec 300 status),
    (Z.ltb_spec status 400), (Z.leb_spec 400 status), (Z.ltb_spec status 500), (Z.leb_spec 500 status),
    (Z.ltb_spec status 600); try lia; cbn [andb]; repeat case_match; try lia; done.
Qed.

(** One call of [ObserveRequest]. *)
Record call := { ca_now : Z; ca_provider : string; ca_model : string; ca_status : Z; ca_dur : float64 }.
Fixpoint observe_all (cs : list call) (m : Metrics) : option Metrics :=
  match cs with
  | [] => Some m
  | c :: cs' => m' ← ObserveRequest c.(ca_now) c.(ca_provider) c.(ca_model) c.(ca_status) c.(ca_dur) m;
                observe_all cs' m'
  end.

Definition howmany (p : call -> bool) (cs : list call) : Z := Z.of_nat (length (List.filter p cs)).

(** A total whose weight of a request's series is 1 or 0 counts requests. *)
Lemma total_observe_all w p cs m m' :
  (forall c, w ("gateway_requests_total", [c.(ca_provider); c.(ca_model); statusLabel c.(ca_status)]) = if_1 (p c)) ->
  observe_all cs m = Some m' ->
  total w m'.(values) = total w m.(values) + howmany p cs.
Proof.
  intros Hw. unfold howmany. revert m. induction cs as [|c cs IH]; intros m; cbn [observe_all List.filter].
  { intros [= <-]. cbn. lia. }
  unfold ObserveRequest. destruct (Add _ _ m) as [m1|] eqn:E1; [|done]. cbn [mbind option_bind].
  destruct (Observe _ _ m1) as [m2|] eqn:E2; [|done]. cbn [mbind option_bind]. intros H. rewrite (IH _ H).
  cbn [record_point values]. rewrite (Observe_values _ _ _ _ E2), (total_Add w _ _ _ _ E1), Hw.
  destruct (p c); cbn [if_1 length]; lia.
Qed.

(** The dashboard counts requests correctly.  After any sequence of
    observed requests, the summary's total is their number, its 4xx and 5xx
    columns are the numbers of requests answered with a status in those
    hundreds (individually labelled statuses included), and the row of each
    provider and model has the number of requests of that pair. *)
Theorem summary_counts cs provider model start now hs m' :
  observe_all cs (bundle start) = Some m' ->
  let m := m'.(values) in
  let s := summarize start now {| g_values := m; g_durations := hs |} in
  s.(RequestsTotal) = Z.of_nat (length cs) /\
  s.(Errors4xx) = howmany (fun c => (400 <=? c.(ca_status)) && (c.(ca_status) <? 500)) cs /\
  s.(Errors5xx) = howmany (fun c => (500 <=? c.(ca_status)) && (c.(ca_status) <? 600)) cs /\
  (row_of m provider model).(mb_Requests) =
    howmany (fun c => bool_decide (c.(ca_provider) = provider) && bool_decide (c.(ca_model) = model)) cs.
Proof.
  intros Hm. cbn zeta. unfold summarize, row_of. cbn [RequestsTotal Errors4xx Errors5xx mb_Requests g_values].
  split_and!.
  - rewrite (total_observe_all _ (fun _ => true) cs (bundle start)); [|done|exact Hm]. unfold howmany.
    replace (List.filter (fun _ => true) cs) with cs; [done|]. clear Hm. induction cs as [|c cs IH]; [done|]. cbn. by rewrite <- IH.
  - rewrite (total_observe_all _ (fun c => (400 <=? c.(ca_status)) && (c.(ca_status) <? 500)) cs (bundle start)); [done| |exact Hm].
    intros c. cbn. by rewrite is_4xx_label.
  - rewrite (total_observe_all _ (fun c => (500 <=? c.(ca_status)) && (c.(ca_status) <? 600)) cs (bundle start)); [done| |exact Hm].
    intros c. cbn. by rewrite is_5xx_label.
  - by rewrite (total_observe_all _ (fun c => bool_decide (c.(ca_provider) = provider) &&
                                               bool_decide (c.(ca_model) = model)) cs (bundle start)); [|done|exact Hm].
Qed.

#[export] Instance busier_total : Total busier.
Proof. intros r1 r2. unfold busier. lia. Qed.
#[export] Instance busier_trans : Transitive busier.
Proof. intros r1 r2 r3. unfold busier. lia. Qed.

(** The table of the dashboard is the top of the ranking: at most ten rows, in
    order, and no row left out is busier than one that is shown. *)
Lemma topModels_spec rows :
  exists rest, topModels rows ++ rest ≡ₚ rows /\ StronglySorted busier (topModels rows) /\
    (length (topModels rows) <= 10)%nat /\ (rest <> [] -> length (topModels rows) = 10%nat) /\
    (forall r r', r ∈ topModels rows -> r' ∈ rest -> busier r r').
Proof.
  pose proof (StronglySorted_merge_sort busier rows) as Hs. unfold topModels.
  rewrite <- (take_drop topModelsLimit (merge_sort busier rows)) in Hs.
  exists (drop topModelsLimit (merge_sort busier rows)). split_and!.
  - rewrite take_drop. apply merge_sort_Permutation.
  - by eapply StronglySorted_app_1_l.
  - rewrite length_take. unfold topModelsLimit. lia.
  - intros Hne. rewrite length_take. destruct (decide (topModelsLimit <= length (merge_sort busier rows))%nat).
    + unfold topModelsLimit in *. lia.
    + by rewrite drop_ge in Hne by lia.
  - intros r r' Hr Hr'. by eapply StronglySorted_app_1_elem_of.
Qed.

(** *** Labels

    Every call of a helper of the bundle. *)
Inductive helper :=
  | HObserveRequest (now : Z) (provider model : string) (status : Z) (d : float64)
  | HAddTokens (provider model : string) (prompt completion : Z)
  | HAddCost (provider model apiKeyID : string) (micro : Z)
  | HIncCacheHit (kind : string) | HIncCacheWrite (kind : string)
  | HObserveCacheLookup (result : string) (d : float64)
  | HIncRouterDecision (from to rule : string) | HIncRouterBypass (reason : string)
  | HIncRatelimitReject (rule : string) | HIncFailover (from to : string)
  | HSetBreakerState (provider : string) (state : Z)
  | HIncBillingDropped | HIncBillingWritten | HSetPricingCacheSize (n : Z)
  | HObservePromptCompressed (model : string) (tokensSaved : Z).

Definition run_helper (h : helper) (m : Metrics) : option Metrics :=
  match h with
  | HObserveRequest now p mo st d => ObserveRequest now p mo st d m
  | HAddTokens p mo pr co => AddTokens p mo pr co m
  | HAddCost p mo k c => AddCost p mo k c m
  | HIncCacheHit k => IncCacheHit k m
  | HIncCacheWrite k => IncCacheWrite k m
  | HObserveCacheLookup r d => ObserveCacheLookup r d m
  | HIncRouterDecision f t r => IncRouterDecision f t r m
  | HIncRouterBypass r => IncRouterBypass r m
  | HIncRatelimitReject r => IncRatelimitReject r m
  | HIncFailover f t => IncFailover f t m
  | HSetBreakerState p st => SetBreakerState p st m
  | HIncBillingDropped => IncBillingDropped m
  | HIncBillingWritten => IncBillingWritten m
  | HSetPricingCacheSize n => SetPricingCacheSize n m
  | HObservePromptCompressed mo n => ObservePromptCompressed mo n m
  end.

Fixpoint run_helpers (hs : list helper) (m : Metrics) : option Metrics :=
  match hs with [] => Some m | h :: hs' => m' ← run_helper h m; run_helpers hs' m' end.

(** **** What the calls mean

    Independently of the order in which a collector declares its labels: the
    family, the labels by name, and what is to happen to that series. *)
Inductive change := Incr (n : Z) | SetTo (n : Z) | Sample (x : float64).
Abbreviation event := (string * list (string * string) * change)%type.

Definition events (h : helper) : list event :=
  match h with
  | HObserveRequest _ p mo st d =>
      [("gateway_requests_total", [("provider", p); ("model", mo); ("status", statusLabel st)], Incr 1);
       ("gateway_request_duration_seconds", [("provider", p); ("model", mo)], Sample d)]
  | HAddTokens p mo pr co =>
      (if 0 <? pr then [("gateway_tokens_total", [("provider", p); ("model", mo); ("type", "prompt")], Incr pr)] else []) ++
      (if 0 <? co then [("gateway_tokens_total", [("provider", p); ("model", mo); ("type", "completion")], Incr co)] else [])
  | HAddCost p mo k c =>
      if c =? 0 then []
      else [("gateway_cost_micro_total", [("provider", p); ("model", mo); ("api_key_id", k)], Incr c)]
  | HIncCacheHit k => [("gateway_cache_hits_total", [("type", k)], Incr 1)]
  | HIncCacheWrite k => [("gateway_cache_writes_total", [("type", k)], Incr 1)]
  | HObserveCacheLookup r d => [("gateway_cache_lookup_duration_seconds", [("result", r)], Sample d)]
  | HIncRouterDecision f t r => [("gateway_router_decision_total", [("from", f); ("to", t); ("rule", r)], Incr 1)]
  | HIncRouterBypass r => [("gateway_router_bypass_total", [("reason", r)], Incr 1)]
  | HIncRatelimitReject r => [("gateway_ratelimit_rejected_total", [("rule", r)], Incr 1)]
  | HIncFailover f t => [("gateway_router_failover_total", [("from", f); ("to", t)], Incr 1)]
  | HSetBreakerState p st => [("gateway_breaker_state", [("provider", p)], SetTo st)]
  | HIncBillingDropped => [("gateway_billing_dropped_total", [], Incr 1)]
  | HIncBillingWritten => [("gateway_billing_written_total", [], Incr 1)]
  | HSetPricingCacheSize n => [("gateway_pricing_cache_size", [], SetTo n)]
  | HObservePromptCompressed mo n =>
      ("gateway_prompt_compressed_total", [("model", mo)], Incr 1) ::
      (if 0 <? n then [("gateway_prompt_tokens_saved", [], Sample (of_Z n))] else [])
  end.

(** The requests of the minute ring. *)
Definition points (h : helper) : list (Z * Z) :=
  match h with HObserveRequest now _ _ st _ => [(now, st)] | _ => [] end.

(** What Prometheus accepts: label values in UTF-8, no counter going down. *)
Definition event_ok (e : event) : bool :=
  forallb (fun lv => Utf8.ValidString lv.2) e.1.2 && match e.2 with Incr n => 0 <=? n | _ => true end.

(** The labels of a series by name, and the changes that concern it. *)
Definition named (f : family) (vals : list string) : gmap string string := list_to_map (zip f.(f_Labels) vals).
Definition concerns (f : family) (vals : list string) (e : event) : bool :=
  bool_decide (e.1.1 = f.(f_Name)) && bool_decide ((list_to_map e.1.2 : gmap string string) = named f vals).
Definition changes_of (f : family) (vals : list string) (es : list event) : list change :=
  (List.filter (concerns f vals) es).*2.

(** The value and the observations of a series. *)
Definition apply_change (v : Z * list float64) (c : change) : Z * list float64 :=
  match c with Incr n => (v.1 + n, v.2) | SetTo n => (n, v.2) | Sample x => (v.1, v.2 ++ [x]) end.
Definition reading (f : family) (vals : list string) (m : Metrics) : Z * list float64 :=
  (value_at (f.(f_Name), vals) m.(values), default [] (m.(observed) !! (f.(f_Name), vals))).

(** **** The helpers do what their events say *)

Lemma collectors_declared : Forall (fun f => collector_of f.(f_Name) = Some f /\ NoDup f.(f_Labels)) collectors.
Proof. repeat constructor; try reflexivity; set_solver. Qed.

Lemma named_inj f vs ws :
  NoDup f.(f_Labels) -> length vs = length f.(f_Labels) -> length ws = length f.(f_Labels) ->
  named f vs = named f ws -> vs = ws.
Proof.
  unfold named. generalize (f_Labels f) as ls. intros ls. revert vs ws.
  induction ls as [|l ls IH]; intros [|v vs] [|w ws]; try done. intros Hn [= Hv] [= Hw] E. cbn in E.
  apply NoDup_cons in Hn as [Hl Hn].
  assert (Hd : forall us, length us = length ls -> (list_to_map (zip ls us) : gmap string string) !! l = None).
  { intros us Hu. apply not_elem_of_list_to_map_1. by rewrite fst_zip by lia. }
  assert (v = w) as ->.
  { apply (f_equal (fun m => m !! l)) in E. rewrite !lookup_insert_eq in E. by injection E. }
  f_equal. apply IH; [done..|]. apply (f_equal (delete l)) in E. by rewrite !delete_insert_id in E by auto.
Qed.

(** Events concern a series exactly when they name it. *)
Lemma concerns_series f g vals ws c :
  f ∈ collectors -> length vals = length f.(f_Labels) ->
  collector_of g.(f_Name) = Some g -> length ws = length g.(f_Labels) ->
  concerns f vals (g.(f_Name), zip g.(f_Labels) ws, c) = bool_decide ((g.(f_Name), ws) = (f.(f_Name), vals)).
Proof.
  intros Hf Hv Hg Hw. pose proof (proj1 (Forall_forall _ _) collectors_declared f Hf) as [Hc Hn].
  unfold concerns. cbn [fst snd]. case_bool_decide as En; cbn [andb].
  - assert (g = f) as -> by (rewrite En in Hg; congruence). apply bool_decide_ext. split.
    + intros E. f_equal. by apply (named_inj f).
    + by intros [= ->].
  - symmetry. apply bool_decide_eq_false. by intros [= ? _].
Qed.

Definition fits (k : kind) (c : change) : bool :=
  match k, c with Counter, Incr _ | Gauge, SetTo _ | Histogram _, Sample _ => true | _, _ => false end.

(** The registry holds series of declared collectors only, in the right place,
    with counters that did not go down. *)
Record conform (m : Metrics) : Prop := {
  co_values : forall k v, m.(values) !! k = Some v ->
    WithLabelValues k = Some Gauge \/ (WithLabelValues k = Some Counter /\ 0 <= v);
  co_observed : forall k xs, m.(observed) !! k = Some xs -> exists bs, WithLabelValues k = Some (Histogram bs)
}.

(** [r] does what the events say: it runs exactly when they are acceptable, and
    then changes the series they name, and no others. *)
Definition performs (r : Metrics -> option Metrics) (es : list event) : Prop :=
  forall m, match r m with
            | Some m' => forallb event_ok es = true /\ (conform m -> conform m') /\
                forall f vals, f ∈ collectors -> length vals = length f.(f_Labels) ->
                  reading f vals m' = fold_left apply_change (changes_of f vals es) (reading f vals m)
            | None => forallb event_ok es = false
            end.

Lemma performs_nil : performs Some [].
Proof. intros m. by split_and!. Qed.

Lemma performs_bind r1 r2 es1 es2 :
  performs r1 es1 -> performs r2 es2 -> performs (fun m => m' ← r1 m; r2 m') (es1 ++ es2).
Proof.
  intros H1 H2 m. specialize (H1 m). rewrite forallb_app. destruct (r1 m) as [m1|]; cbn [mbind option_bind]; [|by rewrite H1].
  destruct H1 as (Ho1 & Hc1 & Hr1). rewrite Ho1. cbn [andb]. specialize (H2 m1). destruct (r2 m1) as [m2|]; [|done].
  destruct H2 as (Ho2 & Hc2 & Hr2). split_and!; [done|by auto|]. intros f vals Hf Hv.
  unfold changes_of. rewrite List.filter_app, fmap_app, fold_left_app. rewrite Hr2 by done. f_equal. by apply Hr1.
Qed.

Lemma performs_point r es now st : performs r es -> performs (fun m => m' ← r m; Some (record_point now st m')) es.
Proof.
  intros H m. specialize (H m). destruct (r m) as [m'|]; cbn [mbind option_bind]; [|done].
  destruct H as (Ho & Hc & Hr). split_and!; [done| |done]. intros Hm. by destruct (Hc Hm).
Qed.

(** What the primitives are asked to do. *)
Definition primitive (k : series) (c : change) (m : Metrics) : option Metrics :=
  match c with Incr n => Add k n m | SetTo n => SetGauge k n m | Sample x => Observe k x m end.

Lemma forallb_zip (p : string -> bool) (ls vs : list string) :
  length vs = length ls -> forallb (fun lv : string * string => p lv.2) (zip ls vs) = forallb p vs.
Proof. revert vs. induction ls as [|l ls IH]; intros [|v vs]; try done. intros [= H]. cbn. by rewrite IH. Qed.

Lemma performs_primitive g ws c :
  collector_of g.(f_Name) = Some g -> length ws = length g.(f_Labels) -> fits g.(f_Kind) c = true ->
  performs (primitive (g.(f_Name), ws) c) [(g.(f_Name), zip g.(f_Labels) ws, c)].
Proof.
  intros Hg Hw Hk m. cbn [forallb]. unfold event_ok. cbn [fst snd]. rewrite forallb_zip by done.
  assert (HW : WithLabelValues (g.(f_Name), ws) = if forallb Utf8.ValidString ws then Some g.(f_Kind) else None).
  { unfold WithLabelValues. cbn [fst snd]. rewrite Hg. cbn. by rewrite Hw, Nat.eqb_refl. }
  assert (Hread : forall f vals m', f ∈ collectors -> length vals = length f.(f_Labels) ->
    reading f vals m' = (if bool_decide ((g.(f_Name), ws) = (f.(f_Name), vals))
                         then apply_change (reading f vals m) c else reading f vals m) ->
    reading f vals m' = fold_left apply_change (changes_of f vals [(g.(f_Name), zip g.(f_Labels) ws, c)]) (reading f vals m)).
  { intros f vals m' Hf Hv ->. unfold changes_of. cbn [List.filter]. rewrite concerns_series by done.
    by case_bool_decide. }
  unfold primitive, Add, SetGauge, Observe. rewrite HW.
  destruct (forallb Utf8.ValidString ws); [|by destruct c]. cbn [andb].
  destruct (f_Kind g) as [| |bs], c as [n|n|x]; try done.
  - destruct (Z.ltb_spec n 0); [by rewrite (proj2 (Z.leb_gt _ _))|].
    split; [by rewrite (proj2 (Z.leb_le _ _))|]. split.
    + intros [Cv Co]. split; [|done]. intros k v. cbn [values]. rewrite lookup_insert_Some.
      intros [[<- <-]|[_ H']]; [|by apply Cv]. right. split; [done|]. unfold value_at.
      destruct (values m !! _) as [v'|] eqn:E; cbn; [|lia]. destruct (Cv _ _ E) as [E'|[_ ?]]; [congruence|lia].
    + intros f vals Hf Hv. apply Hread; [done..|]. unfold reading, value_at. cbn.
      case_bool_decide as Eq; [rewrite <- Eq; by rewrite lookup_insert_eq|by rewrite lookup_insert_ne].
  - split; [done|]. split.
    + intros [Cv Co]. split; [|done]. intros k v. cbn [values]. rewrite lookup_insert_Some.
      intros [[<- <-]|[_ H']]; [by left|by apply Cv].
    + intros f vals Hf Hv. apply Hread; [done..|]. unfold reading, value_at. cbn.
      case_bool_decide as Eq; [rewrite <- Eq; by rewrite lookup_insert_eq|by rewrite lookup_insert_ne].
  - split; [done|]. split.
    + intros [Cv Co]. split; [done|]. intros k xs. cbn [observed]. rewrite lookup_insert_Some.
      intros [[<- <-]|[_ H']]; [by eexists|by eapply Co].
    + intros f vals Hf Hv. apply Hread; [done..|]. unfold reading, value_at. cbn.
      case_bool_decide as Eq; [rewrite <- Eq; by rewrite lookup_insert_eq|by rewrite lookup_insert_ne].
Qed.

(** A primitive on the [i]-th collector. *)
Lemma performs_nth i g ws c :
  collectors !! i = Some g -> length ws = length g.(f_Labels) -> fits g.(f_Kind) c = true ->
  performs (primitive (g.(f_Name), ws) c) [(g.(f_Name), zip g.(f_Labels) ws, c)].
Proof.
  intros Hg. apply performs_primitive. apply list_elem_of_lookup_2 in Hg.
  exact (proj1 (proj1 (Forall_forall _ _) collectors_declared g Hg)).
Qed.

Ltac series i ws c := exact (performs_nth i _ ws c eq_refl eq_refl eq_refl).

Lemma helper_performs h : performs (run_helper h) (events h).
Proof.
  destruct h as [now p mo st d|p mo pr co|p mo k c|k|k|r d|f t r|r|r|f t|p st| | |n|mo n].
  - refine (performs_bind (primitive _ (Incr 1)) (fun m => m' ← primitive _ (Sample d) m; Some (record_point now st m'))
      [_] [_] _ _); [|apply performs_point].
    + series 0%nat [p; mo; statusLabel st] (Incr 1).
    + series 1%nat [p; mo] (Sample d).
  - apply (performs_bind
      (fun m => if 0 <? pr then Add ("gateway_tokens_total", [p; mo; "prompt"]) pr m else Some m)
      (fun m => if 0 <? co then Add ("gateway_tokens_total", [p; mo; "completion"]) co m else Some m)).
    + destruct (0 <? pr); [series 2%nat [p; mo; "prompt"] (Incr pr)|apply performs_nil].
    + destruct (0 <? co); [series 2%nat [p; mo; "completion"] (Incr co)|apply performs_nil].
  - intros m. cbn [run_helper events]. unfold AddCost. destruct (c =? 0); [apply performs_nil|]. revert m.
    series 3%nat [p; mo; k] (Incr c).
  - series 4%nat [k] (Incr 1).
  - series 5%nat [k] (Incr 1).
  - series 6%nat [r] (Sample d).
  - series 7%nat [f; t; r] (Incr 1).
  - series 8%nat [r] (Incr 1).
  - series 9%nat [r] (Incr 1).
  - series 10%nat [f; t] (Incr 1).
  - series 11%nat [p] (SetTo st).
  - series 12%nat (@nil string) (Incr 1).
  - series 13%nat (@nil string) (Incr 1).
  - series 14%nat (@nil string) (SetTo n).
  - refine (performs_bind (primitive _ (Incr 1))
      (fun m => if 0 <? n then Observe ("gateway_prompt_tokens_saved", []) (of_Z n) m else Some m) [_] _ _ _).
    + series 15%nat [mo] (Incr 1).
    + destruct (0 <? n); [series 16%nat (@nil string) (Sample (of_Z n))|apply performs_nil].
Qed.

Lemma helpers_perform hs : performs (run_helpers hs) (flat_map events hs).
Proof.
  induction hs as [|h hs IH]; [apply performs_nil|]. cbn [flat_map].
  exact (performs_bind (run_helper h) (run_helpers hs) _ _ (helper_performs h) IH).
Qed.

(** The ring sees the observed requests, in order. *)
Lemma Add_ring k n m m' : Add k n m = Some m' -> m'.(timeseries) = m.(timeseries).
Proof. unfold Add. repeat case_match; try done. by intros [= <-]. Qed.
Lemma SetGauge_ring k n m m' : SetGauge k n m = Some m' -> m'.(timeseries) = m.(timeseries).
Proof. unfold SetGauge. repeat case_match; try done. by intros [= <-]. Qed.
Lemma Observe_ring k x m m' : Observe k x m = Some m' -> m'.(timeseries) = m.(timeseries).
Proof. unfold Observe. repeat case_match; try done. by intros [= <-]. Qed.

Create HintDb ring.
#[export] Hint Immediate Add_ring SetGauge_ring Observe_ring : ring.

Lemma helper_ring h m m' :
  run_helper h m = Some m' ->
  m'.(timeseries) = fold_left (fun slots r => TimeSeries.Record_ r.1 r.2 slots) (points h) m.(timeseries).
Proof.
  destruct h as [now p mo st d|p mo pr co|p mo k c| | | | | | | | | | | |mo n];
    cbn [run_helper points fold_left]; try (by eauto with ring).
  - unfold ObserveRequest. intros (m1 & E1 & (m2 & E2 & [= <-])%bind_Some)%bind_Some. cbn.
    apply Add_ring in E1. apply Observe_ring in E2. congruence.
  - unfold AddTokens. intros (m1 & E1 & E2)%bind_Some. transitivity m1.(timeseries).
    + destruct (0 <? co); [by eauto with ring|congruence].
    + destruct (0 <? pr); [by eauto with ring|congruence].
  - unfold AddCost. destruct (c =? 0); [congruence|by eauto with ring].
  - unfold ObservePromptCompressed. intros (m1 & E1 & E2)%bind_Some. transitivity m1.(timeseries); [|by eauto with ring].
    destruct (0 <? n); [by eauto with ring|congruence].
Qed.

Lemma helpers_ring hs m m' :
  run_helpers hs m = Some m' ->
  m'.(timeseries) = fold_left (fun slots r => TimeSeries.Record_ r.1 r.2 slots) (flat_map points hs) m.(timeseries).
Proof.
  revert m. induction hs as [|h hs IH]; intros m; cbn [run_helpers flat_map]; [by intros [= <-]|].
  intros (m1 & E1 & E2)%bind_Some. rewrite fold_left_app, <- (helper_ring _ _ _ E1). by apply IH.
Qed.



(** A negative cost (the product in [Cost] wraps) takes the process down,
    whatever the labels. *)
Lemma negative_cost_panics provider model apiKeyID micro m :
  micro < 0 -> AddCost provider model apiKeyID micro m = None.
Proof.
  intros Hn. unfold AddCost, Add. destruct (Z.eqb_spec micro 0); [lia|]. rewrite (proj2 (Z.ltb_lt _ _)) by done.
  by repeat case_match.
Qed.

(** *** Histograms *)

(** [h] is what a histogram with the bounds [uppers] reports after the
    observations [xs]. *)
Definition at_most (u : float64) (xs : list float64) : Z :=
  Z.of_nat (length (List.filter (fun x => f_leb x u) xs)).
Definition reports (uppers xs : list float64) (n : Z) (bs : list bucket) : Prop :=
  n = Z.of_nat (length xs) /\ bs = map (fun u => {| upper := u; count := at_most u xs |}) uppers.

Lemma at_most_app u xs ys : at_most u (xs ++ ys) = at_most u xs + at_most u ys.
Proof. unfold at_most. rewrite List.filter_app, length_app. lia. Qed.

Lemma merge_one_reports uppers out xs h ys :
  reports uppers xs out.(sampleCount) out.(buckets) -> reports uppers ys h.(h_SampleCount) h.(h_Bucket) ->
  let out' := merge_one out (Some h) in reports uppers (xs ++ ys) out'.(sampleCount) out'.(buckets).
Proof.
  intros [Hn Hb] [Hn' Hb']. cbn. split; [rewrite length_app; lia|]. rewrite Hb, Hb'. clear.
  induction uppers as [|u us IH]; [done|]. cbn. by rewrite IH, at_most_app.
Qed.

Lemma merge_all_reports uppers hs xss out xs :
  reports uppers xs out.(sampleCount) out.(buckets) ->
  Forall2 (fun h ys => reports uppers ys h.(h_SampleCount) h.(h_Bucket)) hs xss ->
  let out' := fold_left merge_one (map Some hs) out in
  reports uppers (xs ++ concat xss) out'.(sampleCount) out'.(buckets).
Proof.
  intros Hout Hall. revert out xs Hout. induction Hall as [|h ys hs xss Hh _ IH]; intros out xs Hout; cbn.
  - by rewrite app_nil_r.
  - rewrite app_assoc. apply (IH (merge_one out (Some h))). by apply merge_one_reports.
Qed.

(** Merging the latency histograms loses nothing: if every series of the
    family reports its own observations in the same buckets, the merged
    histogram is the one a single series would report of all of them together:
    the dashboard's quantile is computed over every request. *)
Theorem mergeHistograms_spec uppers h hs xs xss :
  Forall2 (fun h ys => reports uppers ys h.(h_SampleCount) h.(h_Bucket)) (h :: hs) (xs :: xss) ->
  let merged := mergeHistograms (map Some (h :: hs)) in
  reports uppers (concat (xs :: xss)) merged.(sampleCount) merged.(buckets).
Proof.
  intros Hall. cbn zeta. unfold mergeHistograms. cbn [map].
  apply (merge_all_reports uppers (h :: hs) (xs :: xss) _ []); [|done].
  apply Forall2_cons_1 in Hall as [[_ Hb] _]. split; [done|]. cbn [buckets]. rewrite Hb. clear.
  induction uppers as [|u us IH]; [done|]. cbn. by rewrite IH.
Qed.

(** What a histogram with these bounds reports. *)
Definition report_of (uppers xs : list float64) : histogram :=
  {| h_SampleCount := Z.of_nat (length xs); h_SampleSum := fold_left f_add xs f_zero;
     h_Bucket := map (fun u => {| upper := u; count := at_most u xs |}) uppers |}.

Lemma mergeHistograms_spec_witness :
  (mergeHistograms [Some (report_of latencyBuckets [lit 2 10; lit 2 10]); Some (report_of latencyBuckets [of_Z 7])])
    .(sampleCount) = 3.
Proof.
  destruct (mergeHistograms_spec latencyBuckets (report_of latencyBuckets [lit 2 10; lit 2 10])
              [report_of latencyBuckets [of_Z 7]] [lit 2 10; lit 2 10] [[of_Z 7]]) as [H _]; [|exact H].
  repeat constructor.
Defined.

(** A hundred requests of 200ms put the 99th percentile inside the bucket from
    100ms to 250ms; no data gives 0. *)
Example p99_in_bucket :
  let p := histogramQuantile (lit 99 100) (mergeHistograms [Some (report_of latencyBuckets (repeat (lit 2 10) 100))]) in
  f_ltb (lit 1 10) p && f_leb p (lit 25 100) = true /\ histogramQuantile (lit 99 100) (mergeHistograms []) = f_zero.
Proof. by vm_compute. Qed.

(** *** Redaction *)

Section Redact.
Context `{!Sha256}.

Definition HashPreview (text : string) : string :=
  if bool_decide (text = "") then ""
  else "sha256:" +:+ Hex.EncodeToString (take 4 (Sum256 text)).
End Redact.

Definition KeyPreview (key : string) : string :=
  if (String.length key <? 12)%nat then "<short>" else Strings.slice_to 6 key +:+ "...".

(** A preview depends on the first six characters only, and not even on the
    length of a short key. *)
Lemma KeyPreview_leak a b :
  ((String.length a < 12)%nat /\ (String.length b < 12)%nat) \/
  ((12 <= String.length a)%nat /\ (12 <= String.length b)%nat /\ Strings.slice_to 6 a = Strings.slice_to 6 b) ->
  KeyPreview a = KeyPreview b.
Proof.
  unfold KeyPreview. intros [[Ha Hb]|(Ha & Hb & E)].
  - by rewrite !(proj2 (Nat.ltb_lt _ _)).
  - rewrite !(proj2 (Nat.ltb_ge _ _)) by done. by rewrite E.
Qed.
