(* ===== verification/Admin.v ===== *)
(** * Admin: the administration endpoints and the audit log

    [internal/audit/audit.go], [internal/server/audit_helper.go] and the
    handlers of [internal/server/admin_*.go]: API keys, pricing, the provider
    table, request and audit log queries, the caller's own identity.  A
    handler takes the decoded request and the outcomes of its database calls,
    and returns the reply and the new state.  Time stamps are printed and
    parsed by parameters ([FormatTime], [ParseTime], RFC 3339); log lines are
    left out. *)

From Stdlib Require Import Ascii.
From S2P Require Import Prelude GoStd Float64 Errors Types Encoding Wire Config Registry Billing Auth Route Http Observability.
From stdpp Require Import base list gmap sorting.
Import Json errmap.
Local Open Scope Z_scope.

(** ** The audit log *)

Module Audit.

Definition ActionKeyCreate : string := "key.create".
Definition ActionKeyRevoke : string := "key.revoke".
Definition ActionPricingUpsert : string := "pricing.upsert".
Definition ActionPricingDelete : string := "pricing.delete".
Definition ActionProvidersReload : string := "providers.reload".

(** [None] is a nil metadata. *)
Record Entry := {
  ActorID : string; ActorLabel : string; Action : string; TargetType : string; TargetID : string;
  Metadata : option json; RequestID : string
}.

Record Row := { r_ID : Z; r_OccurredAt : Z; r_Entry : Entry }.

(** [None] is the zero time. *)
Record QueryOpts := {
  Start : option Z; End_ : option Z; q_ActorID : string; q_Action : string; q_TargetType : string;
  Limit : Z; Offset : Z
}.

Definition maxAuditWindow : Z := 31 * 24 * Hour.
Definition maxAuditLimit : Z := 200.
Definition defAuditLimit : Z := 50.

Inductive audit_error :=
  | ErrNotConfigured | ErrWindowInvalid | ErrWindowTooWide | ErrInvalidAction | ErrMissingActorOrTgt
  | ErrDatabase (err : error).

(** The recorder of a gateway without a database, or the one over the pool. *)
Inductive Recorder := Nop | Postgres (pool : bool).

(** A dot strictly inside the action. *)
Definition well_formed_action (action : string) : bool :=
  existsb (fun i => bool_decide (bytes_of action !! i = Some 46)) (seq 1 (String.length action - 2)).

Definition Record_ (p : Recorder) (o : db_outcome) (id now : Z) (e : Entry) (t : list Row)
    : option audit_error * list Row :=
  match p with
  | Nop => (None, t)
  | Postgres pool =>
      if bool_decide (e.(ActorID) = "") || bool_decide (e.(TargetID) = "") || bool_decide (e.(TargetType) = "")
      then (Some ErrMissingActorOrTgt, t)
      else if negb (well_formed_action e.(Action)) then (Some ErrInvalidAction, t)
      else if negb pool then (Some ErrNotConfigured, t)
      else
        let t := if applied o then t ++ [{| r_ID := id; r_OccurredAt := now; r_Entry := e |}] else t in
        match o with
        | DbErr _ err => (Some (ErrDatabase (Errorf "audit: insert: %w" [] (Some err))), t)
        | DbOk => (None, t)
        end
  end.

Definition where_ (q : QueryOpts) (lo hi : Z) (r : Row) : bool :=
  (lo <=? r.(r_OccurredAt)) && (r.(r_OccurredAt) <? hi)
  && (bool_decide (q.(q_ActorID) = "") || bool_decide (r.(r_Entry).(ActorID) = q.(q_ActorID)))
  && (bool_decide (q.(q_Action) = "") || bool_decide (r.(r_Entry).(Action) = q.(q_Action)))
  && (bool_decide (q.(q_TargetType) = "") || bool_decide (r.(r_Entry).(TargetType) = q.(q_TargetType))).

Definition newest_first (r1 r2 : Row) : Prop := r2.(r_OccurredAt) <= r1.(r_OccurredAt).
#[export] Instance newest_first_dec r1 r2 : Decision (newest_first r1 r2) := Z_le_dec _ _.

(** The rows of a page, and the total that comes with each of them. *)
Definition page_of {A} (limit offset : Z) (hits : list A) : list A * Z :=
  let page := take (Z.to_nat limit) (drop (Z.to_nat offset) hits) in
  (page, match page with [] => 0 | _ => Z.of_nat (length hits) end).

(** [ORDER BY occurred_at DESC]: rows of the same instant in one fixed order. *)
Definition Query (p : Recorder) (dbErr : option error) (q : QueryOpts) (t : list Row)
    : audit_error + list Row * Z :=
  match p with
  | Nop => inl ErrNotConfigured
  | Postgres pool =>
      match q.(Start), q.(End_) with
      | Some lo, Some hi =>
          if negb (lo <? hi) then inl ErrWindowInvalid
          else if maxAuditWindow <? time_sub hi lo then inl ErrWindowTooWide
          else if negb pool then inl ErrNotConfigured
          else
            let limit := if (q.(Limit) <=? 0) || (maxAuditLimit <? q.(Limit)) then defAuditLimit
                         else q.(Limit) in
            let offset := if q.(Offset) <? 0 then 0 else q.(Offset) in
            match dbErr with
            | Some e => inl (ErrDatabase (Errorf "audit: query: %w" [] (Some e)))
            | None => inr (page_of limit offset (merge_sort newest_first (List.filter (where_ q lo hi) t)))
            end
      | _, _ => inl ErrWindowInvalid
      end
  end.

End Audit.

(** ** Replies *)

(** An error envelope, a JSON body with its extra headers, or no body. *)
Inductive reply :=
  | RError (m : mappedError)
  | RJson (status : Z) (headers : list (string * string)) (body : json)
  | REmpty (status : Z).

Definition reply_ok (r : reply) : bool := match r with RError _ => false | _ => true end.
Definition ok (body : json) : reply := RJson 200 [] body.

Definition bad (status : Z) (code message : string) : reply :=
  RError {| Status := status; Type_ := "invalid_request_error"; Code := code; Message := message; RetryAfter := 0 |}.
Definition failed (message : string) : reply :=
  RError {| Status := 500; Type_ := "internal_error"; Code := ""; Message := message; RetryAfter := 0 |}.

(** What the context of an authenticated request carries. *)
Record actor := { a_principal : option Principal; a_reqID : string }.

(** The state behind the admin endpoints. *)
Record state := {
  keys : list row;
  cache : redis;
  pricing : Pricing.state;
  registry : Registry adapter;
  audit : list Audit.Row
}.

Definition set_keys t r s : state :=
  {| keys := t; cache := r; pricing := s.(pricing); registry := s.(registry); audit := s.(audit) |}.
Definition set_pricing p s : state :=
  {| keys := s.(keys); cache := s.(cache); pricing := p; registry := s.(registry); audit := s.(audit) |}.
Definition set_registry r s : state :=
  {| keys := s.(keys); cache := s.(cache); pricing := s.(pricing); registry := r; audit := s.(audit) |}.
Definition set_audit t s : state :=
  {| keys := s.(keys); cache := s.(cache); pricing := s.(pricing); registry := s.(registry); audit := t |}.

(** The audit insert of a request: recorder, outcome, row id and clock. *)
Record auditing := { au_recorder : Audit.Recorder; au_db : db_outcome; au_id : Z; au_now : Z }.

Definition recordAudit (u : auditing) (a : actor) (action targetType targetID : string) (metadata : option json)
    (s : state) : state :=
  let '(actorID, actorLabel) := match a.(a_principal) with Some p => (p.(p_ID), p.(p_Name)) | None => ("", "") end in
  let actorID := if bool_decide (actorID = "") then "unknown" else actorID in
  let entry := {| Audit.ActorID := actorID; Audit.ActorLabel := actorLabel; Audit.Action := action;
                  Audit.TargetType := targetType; Audit.TargetID := targetID; Audit.Metadata := metadata;
                  Audit.RequestID := a.(a_reqID) |} in
  set_audit (Audit.Record_ u.(au_recorder) u.(au_db) u.(au_id) u.(au_now) entry s.(audit)).2 s.

Lemma recordAudit_keys u a action tt tid meta s : (recordAudit u a action tt tid meta s).(keys) = s.(keys).
Proof. unfold recordAudit. by destruct (a_principal a). Qed.
Lemma recordAudit_pricing u a action tt tid meta s : (recordAudit u a action tt tid meta s).(pricing) = s.(pricing).
Proof. unfold recordAudit. by destruct (a_principal a). Qed.

(** ** API keys *)

#[local] Existing Instance Strings.LessEq_dec.
#[local] Existing Instance Strings.LessEq_total.

(** [sort.Strings] over the tuples of all categories. *)
Definition flattenScopes (m : gmap string (list string)) : list string :=
  merge_sort Strings.LessEq
    (concat (map (fun cv : string * list string => map (fun v => cv.1 +:+ ":" +:+ v) cv.2) (map_to_list m))).

(** One tuple of [expandScopes]: the table and the tuples seen. *)
Definition expand_step (st : gmap string (list string) * gset string) (tuple : string)
    : string + gmap string (list string) * gset string :=
  let '(out, seen) := st in
  match Strings.IndexByte tuple ":"%char with
  | Some idx =>
      if (idx =? 0)%nat || (idx =? String.length tuple - 1)%nat then
        inl ("scope " +:+ tuple +:+ " must be in `category:value` form")
      else if bool_decide (tuple ∈ seen) then inr st
      else
        let cat := Strings.slice_to idx tuple in
        let val := Strings.slice_from (S idx) tuple in
        inr (<[cat := default [] (out !! cat) ++ [val]]> out, {[tuple]} ∪ seen)
  | None => inl ("scope " +:+ tuple +:+ " must be in `category:value` form")
  end.

Fixpoint expand_loop (flat : list string) (st : gmap string (list string) * gset string)
    : string + gmap string (list string) :=
  match flat with
  | [] => inr st.1
  | tuple :: rest => match expand_step st tuple with inl e => inl e | inr st => expand_loop rest st end
  end.

Definition expandScopes (flat : list string) : string + gmap string (list string) := expand_loop flat (∅, ∅).

Section Handlers.
Context `{sha : !Sha256} `{floats : !FloatText} `{parser : !JsonParser}.
(** [time.Time.MarshalJSON]; [time.Parse], with [Some None] the zero time;
    [strconv.Quote]; the error texts of [encoding/json]. *)
Context (FormatTime : Z -> string) (ParseTime : string -> option (option Z)) (Quote : string -> string)
        (UnmarshalError : json -> string) (SyntaxError : string -> string).

Definition of_time (t : Z) : json := JString (FormatTime t).
Definition of_strings (l : list string) : json := JArray (map of_string l).

Definition key_members (r : Keystore.KeyRecord) : members :=
  [("id", of_string r.(Keystore.k_ID)); ("id_preview", of_string r.(Keystore.k_IDPreview));
   ("label", of_string r.(Keystore.k_Name)); ("hash_hex_short", of_string r.(Keystore.k_HashHexShort));
   ("scopes", of_strings (flattenScopes r.(Keystore.k_Scopes))); ("created_at", of_time r.(Keystore.k_CreatedAt))]
  ++ match r.(Keystore.k_LastUsedAt) with Some t => [("last_used_at", of_time t)] | None => [] end
  ++ match r.(Keystore.k_RevokedAt) with Some t => [("revoked_at", of_time t)] | None => [] end.
Definition dtoFromRecord (r : Keystore.KeyRecord) : json := JObject (key_members r).

(** The first value of a query parameter, "" when absent. *)
Definition get (q : gmap string (list string)) (k : string) : string :=
  match q !! k with Some (v :: _) => v | _ => "" end.

(** [limit] and [offset]: 0 when absent, an error reply when out of range. *)
Definition parse_limit (q : gmap string (list string)) : reply + Z :=
  let v := get q "limit" in
  if bool_decide (v = "") then inr 0
  else match Strconv.Atoi v with
       | Some n => if n <? 1 then inl (bad 400 "invalid_limit" "Field 'limit' must be a positive integer (max 200)")
                   else inr n
       | None => inl (bad 400 "invalid_limit" "Field 'limit' must be a positive integer (max 200)")
       end.
Definition parse_offset (q : gmap string (list string)) : reply + Z :=
  let v := get q "offset" in
  if bool_decide (v = "") then inr 0
  else match Strconv.Atoi v with
       | Some n => if n <? 0 then inl (bad 400 "invalid_offset" "Field 'offset' must be a non-negative integer")
                   else inr n
       | None => inl (bad 400 "invalid_offset" "Field 'offset' must be a non-negative integer")
       end.

Definition listKeysHandler (pool : bool) (dbErr : option error) (q : gmap string (list string)) (s : state) : reply :=
  match parse_limit q with
  | inl r => r
  | inr limit =>
      match parse_offset q with
      | inl r => r
      | inr offset =>
          let opts := {| Keystore.NamePrefix := get q "q";
                         Keystore.IncludeRevoked := bool_decide (get q "include_revoked" = "true");
                         Keystore.Limit := limit; Keystore.Offset := offset |} in
          match Keystore.List_ (if pool then Some s.(keys) else None) dbErr opts with
          | inl _ => failed "Failed to list keys"
          | inr (records, total) =>
              ok (JObject [("items", JArray (map dtoFromRecord records)); ("object", JString "list");
                           ("total", of_int total)])
          end
      end
  end.

(** The substring search of [admin_keys.go], window by window. *)
Definition contains (s sub : string) : bool :=
  existsb (fun i => bool_decide (String.substring i (String.length sub) s = sub))
    (seq 0 (S (String.length s) - String.length sub)).

(** [isValidationError]: a heuristic on the text of the error. *)
Definition isValidationError (err : error) : bool :=
  let msg := Error Quote err in
  Strings.HasPrefix msg "auth: " && existsb (contains msg) ["must"; "required"; "invalid"; "has no values"].

Record createKeyRequest := { ck_Label : string; ck_Scopes : list string }.
Definition create_fields : list (field createKeyRequest) :=
  [("label", via ck_Label (fun x c => Build_createKeyRequest x c.(ck_Scopes)) set_string);
   ("scopes", via ck_Scopes (fun x c => Build_createKeyRequest c.(ck_Label) x) (set_slice "" set_string))].

(** [body] is the first JSON value of the request body; [pool], [o], [now],
    [id] and [rand] are those of [Keystore.Create]. *)
Definition createKeyHandler (u : auditing) (a : actor) (pool : bool) (o : db_outcome) (now : Z) (id : string)
    (rand : error + bytes) (body : string + json) (s : state) : reply * state :=
  match (match body with
         | inl e => inl e
         | inr j => match set_struct create_fields j (Build_createKeyRequest "" []) with
                    | Some r => inr r
                    | None => inl (UnmarshalError j)
                    end
         end) with
  | inl e => (bad 400 "" ("Malformed JSON: " +:+ e), s)
  | inr req =>
      if bool_decide (req.(ck_Label) = "") then (bad 400 "missing_label" "Field 'label' is required", s)
      else if bool_decide (req.(ck_Scopes) = []) then
        (bad 400 "missing_scopes" "Field 'scopes' must contain at least one entry", s)
      else match expandScopes req.(ck_Scopes) with
      | inl e => (bad 400 "invalid_scopes" e, s)
      | inr scopes =>
          let '(res, t) := Keystore.Create pool o now id rand req.(ck_Label) scopes s.(keys) in
          let s := set_keys t s.(cache) s in
          match res with
          | inl err =>
              (if isValidationError err then bad 400 "invalid_request" (Error Quote err)
               else failed "Failed to create key", s)
          | inr (rec, secret) =>
              (RJson 201 [] (JObject (key_members rec ++
                 [("key", of_string secret);
                  ("warning", JString "Store this key now. It is shown only once and cannot be recovered later.")])),
               recordAudit u a Audit.ActionKeyCreate "api_key" rec.(Keystore.k_ID)
                 (Some (JObject [("label", of_string rec.(Keystore.k_Name));
                                 ("scopes", of_strings (flattenScopes rec.(Keystore.k_Scopes)))])) s)
          end
      end
  end.

Definition revokeKeyHandler (u : auditing) (a : actor) (pool has_cache del : bool) (o : db_outcome) (now : Z)
    (id : string) (s : state) : reply * state :=
  if bool_decide (id = "") then (bad 400 "missing_id" "Path param 'id' is required", s)
  else
    let '(res, (t, r)) := Keystore.Revoke pool has_cache del o now id s.(keys) s.(cache) in
    let s := set_keys t r s in
    match res with
    | inl err =>
        (if Is err ErrKeyNotFound then bad 404 "key_not_found" ("No key with id " +:+ id)
         else failed "Failed to revoke key", s)
    | inr rec =>
        (ok (dtoFromRecord rec),
         recordAudit u a Audit.ActionKeyRevoke "api_key" rec.(Keystore.k_ID)
           (Some (JObject [("label", of_string rec.(Keystore.k_Name))])) s)
    end.

(** ** Pricing *)

(** [float64(micro) / 1_000_000] and [int64(price * 1_000_000)]. *)
Definition per_1k (micro : Z) : float64 := f_div (of_Z micro) (of_Z 1000000).
Definition micro_of (price : float64) : Z := to_int64 (f_mul price (of_Z 1000000)).

Definition dtoFromRate (r : Pricing.Rate) : json :=
  JObject [("model", of_string r.(Pricing.Model)); ("currency", of_string r.(Pricing.Currency));
           ("input_per_1k", JNumber (FormatFloat (per_1k r.(Pricing.InputPer1kMicro))));
           ("output_per_1k", JNumber (FormatFloat (per_1k r.(Pricing.OutputPer1kMicro))));
           ("input_per_1k_micro", of_int r.(Pricing.InputPer1kMicro));
           ("output_per_1k_micro", of_int r.(Pricing.OutputPer1kMicro));
           ("updated_at", of_time r.(Pricing.UpdatedAt))].

Definition rate_le (r1 r2 : Pricing.Rate) : Prop := Strings.LessEq r1.(Pricing.Model) r2.(Pricing.Model).
#[local] Instance rate_le_dec r1 r2 : Decision (rate_le r1 r2) := Strings.LessEq_dec _ _.

Definition listPricing (s : state) : reply :=
  ok (JObject [("data", JArray (map dtoFromRate (merge_sort rate_le (Pricing.All s.(pricing)))));
               ("object", JString "list")]).

Definition not_priced (model : string) : reply :=
  bad 404 "model_not_priced" ("No pricing entry for model " +:+ model).

Definition getPricing (model : string) (s : state) : reply :=
  match Pricing.Lookup s.(pricing) model with
  | None => not_priced model
  | Some rate => ok (dtoFromRate rate)
  end.

Record pricingWriteRequest := {
  pw_Currency : string; pw_InputPer1k : float64; pw_OutputPer1k : float64;
  pw_InputPer1kMicro : option Z; pw_OutputPer1kMicro : option Z
}.
Definition no_pricing_request : pricingWriteRequest := Build_pricingWriteRequest "" f_zero f_zero None None.
Definition pricing_fields : list (field pricingWriteRequest) :=
  [("currency", via pw_Currency (fun x p => Build_pricingWriteRequest x p.(pw_InputPer1k) p.(pw_OutputPer1k)
      p.(pw_InputPer1kMicro) p.(pw_OutputPer1kMicro)) set_string);
   ("input_per_1k", via pw_InputPer1k (fun x p => Build_pricingWriteRequest p.(pw_Currency) x p.(pw_OutputPer1k)
      p.(pw_InputPer1kMicro) p.(pw_OutputPer1kMicro)) (set_float ParseFloat));
   ("output_per_1k", via pw_OutputPer1k (fun x p => Build_pricingWriteRequest p.(pw_Currency) p.(pw_InputPer1k) x
      p.(pw_InputPer1kMicro) p.(pw_OutputPer1kMicro)) (set_float ParseFloat));
   ("input_per_1k_micro", via pw_InputPer1kMicro (fun x p => Build_pricingWriteRequest p.(pw_Currency)
      p.(pw_InputPer1k) p.(pw_OutputPer1k) x p.(pw_OutputPer1kMicro)) (set_ptr 0 set_int));
   ("output_per_1k_micro", via pw_OutputPer1kMicro (fun x p => Build_pricingWriteRequest p.(pw_Currency)
      p.(pw_InputPer1k) p.(pw_OutputPer1k) p.(pw_InputPer1kMicro) x) (set_ptr 0 set_int))].

Definition pricingBodyLimit : Z := Z.shiftl 8 10.

Definition rate_of (model : string) (req : pricingWriteRequest) : Pricing.Rate :=
  {| Pricing.Model := model; Pricing.Currency := req.(pw_Currency);
     Pricing.InputPer1kMicro := default (micro_of req.(pw_InputPer1k)) req.(pw_InputPer1kMicro);
     Pricing.OutputPer1kMicro := default (micro_of req.(pw_OutputPer1k)) req.(pw_OutputPer1kMicro);
     Pricing.UpdatedAt := 0 |}.

Definition zero_rate : Pricing.Rate :=
  {| Pricing.Model := ""; Pricing.Currency := ""; Pricing.InputPer1kMicro := 0;
     Pricing.OutputPer1kMicro := 0; Pricing.UpdatedAt := 0 |}.

(** [body] is the request body, [None] when reading it fails. *)
Definition upsertPricing (u : auditing) (a : actor) (o : db_outcome) (now : Z) (model : string)
    (body : option string) (s : state) : reply * state :=
  if bool_decide (model = "") then (bad 400 "missing_model" "Field 'model' is required in path", s)
  else match (raw ← body; if Z.of_nat (String.length raw) <=? pricingBodyLimit then Some raw else None) with
  | None => (bad 400 "" "Failed to read request body", s)
  | Some raw =>
      match (match parse_json raw with
             | None => inl (SyntaxError raw)
             | Some j => match set_struct pricing_fields j no_pricing_request with
                         | Some req => inr req
                         | None => inl (UnmarshalError j)
                         end
             end) with
      | inl e => (bad 400 "" ("Malformed JSON: " +:+ e), s)
      | inr req =>
          let '(err, p) := Pricing.Set_ o now (rate_of model req) s.(pricing) in
          let s := set_pricing p s in
          match err with
          | Some e => (bad 400 "" (Error Quote e), s)
          | None =>
              let stored := default zero_rate (Pricing.Lookup p model) in
              (ok (dtoFromRate stored),
               recordAudit u a Audit.ActionPricingUpsert "pricing_rule" model
                 (Some (JObject [("currency", of_string stored.(Pricing.Currency));
                                 ("input_per_1k_micro", of_int stored.(Pricing.InputPer1kMicro));
                                 ("output_per_1k_micro", of_int stored.(Pricing.OutputPer1kMicro))])) s)
          end
      end
  end.

Definition deletePricing (u : auditing) (a : actor) (o : db_outcome) (model : string) (s : state)
    : reply * state :=
  let '(res, p) := Pricing.Delete_ o model s.(pricing) in
  let s := set_pricing p s in
  match res with
  | inl _ => (failed "Failed to delete pricing", s)
  | inr false => (not_priced model, s)
  | inr true => (REmpty 204, recordAudit u a Audit.ActionPricingDelete "pricing_rule" model None s)
  end.

(** ** The provider table *)

Definition breakerStateLabel (state : Z) : string :=
  if state =? 0 then "closed" else if state =? 1 then "half_open" else if state =? 2 then "open" else "unknown".

(** What [Gather] returns, [None] for a nil gatherer: an error, with the
    series it could collect. *)
Abbreviation gathered := (option (option error * gmap series Z)).

(** The series the first two handlers read: on an error, the partial ones. *)
Definition families (g : gathered) : gmap series Z := match g with Some (_, m) => m | None => ∅ end.

Definition breaker_gauge (m : gmap series Z) (name : string) : Z := value_at ("gateway_breaker_state", [name]) m.
Definition failovers (i : nat) (m : gmap series Z) (name : string) : Z :=
  if bool_decide (name = "") then 0
  else Observability.total (fun k => if_1 (in_family "gateway_router_failover_total" k && bool_decide (label i k = name))) m.

(** [modelsByOwner\[name\]]: a missing entry is a nil slice, encoded as null. *)
Definition models_owned (ms : list ModelInfo) (name : string) : json :=
  if bool_decide (name = "") then JNull
  else match merge_sort Strings.LessEq
               (map mod_ID (List.filter (fun m => bool_decide (m.(mod_OwnedBy) = name)) ms)) with
       | [] => JNull
       | ids => of_strings ids
       end.

Definition provider_row (g : gathered) (ms : list ModelInfo) (name : string) : json :=
  JObject [("name", of_string name); ("models", models_owned ms name);
           ("breaker_state", JString (breakerStateLabel
              (if bool_decide (name = "") then 0 else breaker_gauge (families g) name)));
           ("failovers_from", of_int (failovers 0 (families g) name));
           ("failovers_to", of_int (failovers 1 (families g) name))].

(** [None] is the nil dereference of [AllModels]. *)
Definition adminProvidersHandler (g : gathered) (s : state) : option reply :=
  ms ← AllModels s.(registry);
  Some (ok (JObject [("providers", JArray (map (provider_row g ms) (Names s.(registry))))])).

Definition adminProvidersReloadHandler (load : string -> error + Registry adapter) (providersFile : string)
    (u : auditing) (a : actor) (s : state) : option (reply * state) :=
  if bool_decide (providersFile = "") then
    Some (bad 409 "no_providers_file" "Gateway was started without a providers file; nothing to reload", s)
  else match load providersFile with
  | inl err =>
      Some (bad 400 "providers_file_invalid"
              ("Providers file failed validation; keeping the current table: " +:+ Error Quote err), s)
  | inr fresh =>
      let reg := Swap s.(registry) fresh in
      let names := Names reg in
      ms ← AllModels reg;
      let models := Z.of_nat (length ms) in
      Some (ok (JObject [("models", of_int models); ("providers", of_strings names); ("reloaded", JBool true)]),
            recordAudit u a Audit.ActionProvidersReload "providers_file" providersFile
              (Some (JObject [("models", of_int models); ("providers", of_strings names)]))
              (set_registry reg s))
  end.

(** ** Identity *)

Definition idPreviewMe (id : string) : string :=
  if (String.length id <=? 8)%nat then id else Strings.slice_to 8 id.

Definition adminMeHandler (a : actor) : reply :=
  match a.(a_principal) with
  | None => bad 401 "no_principal" "No authenticated principal on request"
  | Some p => ok (JObject [("id", of_string p.(p_ID)); ("id_preview", of_string (idPreviewMe p.(p_ID)));
                           ("label", of_string p.(p_Name)); ("scopes", of_strings (flattenScopes p.(p_Scopes)))])
  end.

(** ** Log and audit queries *)

(** The window both queries require. *)
Definition parse_window (q : gmap string (list string)) : reply + option Z * option Z :=
  let startRaw := get q "start" in
  let endRaw := get q "end" in
  if bool_decide (startRaw = "") || bool_decide (endRaw = "") then
    inl (bad 400 "missing_window" "Both 'start' and 'end' (RFC3339) are required")
  else match ParseTime startRaw with
  | None => inl (bad 400 "invalid_start" "Field 'start' must be RFC3339")
  | Some start =>
      match ParseTime endRaw with
      | None => inl (bad 400 "invalid_end" "Field 'end' must be RFC3339")
      | Some end_ => inr (start, end_)
      end
  end.

Definition parseLogQuery (q : gmap string (list string)) : reply + Logs.LogQuery :=
  match parse_window q with
  | inl r => inl r
  | inr (start, end_) =>
      let bucket := get q "status" in
      let bucket := if bool_decide (bucket = "all") then "" else bucket in
      match parse_limit q with
      | inl r => inl r
      | inr limit =>
          match parse_offset q with
          | inl r => inl r
          | inr offset =>
              inr {| Logs.Start := start; Logs.End_ := end_; Logs.APIKeyIDPrefix := get q "api_key";
                     Logs.Model := get q "model"; Logs.StatusBucket := bucket;
                     Logs.Limit := limit; Logs.Offset := offset |}
          end
      end
  end.

Definition parseAuditQuery (q : gmap string (list string)) : reply + Audit.QueryOpts :=
  match parse_window q with
  | inl r => inl r
  | inr (start, end_) =>
      match parse_limit q with
      | inl r => inl r
      | inr limit =>
          match parse_offset q with
          | inl r => inl r
          | inr offset =>
              inr {| Audit.Start := start; Audit.End_ := end_; Audit.q_ActorID := get q "actor_id";
                     Audit.q_Action := get q "action"; Audit.q_TargetType := get q "target_type";
                     Audit.Limit := limit; Audit.Offset := offset |}
          end
      end
  end.

(** The offset of the next page, -1 after the last one. *)
Definition next_offset (offset : Z) (items : nat) (total : Z) : Z :=
  let next := (offset +i Z.of_nat items)%go in if total <=? next then -1 else next.

Definition page_body (items : list json) (total next : Z) : json :=
  JObject [("items", JArray items); ("next_offset", of_int next); ("object", JString "list");
           ("total", of_int total)].

Definition dtoFromLogRow (r : Logs.LogRow) : json :=
  JObject ([("request_id", of_string r.(Logs.lr_RequestID)); ("started_at", of_time r.(Logs.lr_StartedAt));
            ("api_key_id", of_string r.(Logs.lr_APIKeyID));
            ("api_key_id_preview", of_string r.(Logs.lr_APIKeyIDPreview));
            ("model", of_string r.(Logs.lr_Model)); ("provider", of_string r.(Logs.lr_Provider));
            ("status", of_int r.(Logs.lr_Status)); ("latency_ms", of_int r.(Logs.lr_LatencyMs));
            ("prompt_tokens", of_int r.(Logs.lr_PromptTokens));
            ("completion_tokens", of_int r.(Logs.lr_CompletionTokens));
            ("total_tokens", of_int r.(Logs.lr_TotalTokens)); ("cost_micro", of_int r.(Logs.lr_CostMicro));
            ("currency", of_string r.(Logs.lr_Currency))]
           ++ omit (bool_decide (r.(Logs.lr_ErrorCode) = "")) "error_code" (of_string r.(Logs.lr_ErrorCode))
           ++ [("streamed", JBool r.(Logs.lr_Streamed))]).

Definition adminLogsHandler (pool : option (list Logs.LogRow)) (dbErr : option error)
    (q : gmap string (list string)) : reply :=
  match parseLogQuery q with
  | inl r => r
  | inr query =>
      match Logs.ListLogs pool dbErr query with
      | inl err =>
          if Is err ErrLogWindowInvalid then bad 400 "invalid_window" (Error Quote err)
          else if Is err ErrLogWindowTooWide then
            bad 400 "window_too_wide" "Window must be <= 7d; narrow start/end and retry"
          else failed "Failed to query logs"
      | inr (rows, total) =>
          RJson 200 (if 100000 <? total then [("X-X-Beacon-Logs-Warn", "wide_window")] else [])
            (page_body (map dtoFromLogRow rows) total
               (next_offset query.(Logs.Offset) (length rows) total))
      end
  end.

(** Null metadata is kept as the JSON null the query coalesces it to. *)
Definition auditDTO (r : Audit.Row) : json :=
  let e := r.(Audit.r_Entry) in
  JObject ([("id", of_int r.(Audit.r_ID)); ("occurred_at", of_time r.(Audit.r_OccurredAt));
            ("actor_id", of_string e.(Audit.ActorID)); ("actor_label", of_string e.(Audit.ActorLabel));
            ("action", of_string e.(Audit.Action)); ("target_type", of_string e.(Audit.TargetType));
            ("target_id", of_string e.(Audit.TargetID)); ("metadata", default JNull e.(Audit.Metadata))]
           ++ omit (bool_decide (e.(Audit.RequestID) = "")) "request_id" (of_string e.(Audit.RequestID))).

Definition adminAuditHandler (recorder : Audit.Recorder) (dbErr : option error)
    (q : gmap string (list string)) (s : state) : reply :=
  match parseAuditQuery q with
  | inl r => r
  | inr opts =>
      match Audit.Query recorder dbErr opts s.(audit) with
      | inl Audit.ErrWindowInvalid =>
          bad 400 "invalid_window" "audit: window invalid (start < end, both non-zero)"
      | inl Audit.ErrWindowTooWide => bad 400 "window_too_wide" "Audit window must be <= 31d"
      | inl Audit.ErrNotConfigured =>
          RError {| Status := 503; Type_ := "internal_error"; Code := "audit_disabled";
                    Message := "Audit log not configured (no DB)"; RetryAfter := 0 |}
      | inl _ => failed "Failed to query audit log"
      | inr (rows, total) =>
          ok (page_body (map auditDTO rows) total (next_offset opts.(Audit.Offset) (length rows) total))
      end
  end.

(** ** Rules and statistics *)

(** [gatherRouteHits], [gatherRatelimitRejects]: the count of a rule, summed
    over the other labels; 0 for every rule when gathering fails. *)
Definition rule_count (family : string) (i : nat) (g : gathered) (rule : string) : Z :=
  match g with
  | Some (None, m) =>
      if bool_decide (rule = "") then 0
      else Observability.total (fun k => if_1 (in_family family k && bool_decide (label i k = rule))) m
  | _ => 0
  end.
Definition gatherRouteHits : gathered -> string -> Z := rule_count "gateway_router_decision_total" 2.
Definition gatherRatelimitRejects : gathered -> string -> Z := rule_count "gateway_ratelimit_rejected_total" 0.

Definition omit_int (k : string) (n : Z) : members := omit (n =? 0) k (of_int n).
Definition omit_string (k v : string) : members := omit (bool_decide (v = "")) k (of_string v).
Definition omit_strings (k : string) (l : list string) : members := omit (bool_decide (l = [])) k (of_strings l).

Definition routingRuleDTO (g : gathered) (r : Rule) : json :=
  JObject [("name", of_string r.(Route.Name)); ("route_to", of_string r.(RouteTo));
           ("when", JObject (omit_int "max_tokens" r.(When).(MaxTokens) ++ omit_int "min_tokens" r.(When).(MinTokens)
              ++ omit_strings "keywords_any" r.(When).(KeywordsAny)
              ++ omit_strings "keywords_none" r.(When).(KeywordsNone)));
           ("hits", of_int (gatherRouteHits g r.(Route.Name)))].

(** [None]: smart routing is off. *)
Definition adminRoutingRulesHandler (classifier : option (list Rule)) (g : gathered) : reply :=
  ok (JObject [("enabled", JBool (bool_decide (is_Some classifier)));
               ("rules", match classifier with
                         | None => JNull
                         | Some rules => JArray (map (routingRuleDTO g) rules)
                         end)]).

(** [time.Duration.String]; whether a rule's [KeyBy] is nil rather than empty. *)
Context (DurationString : Z -> string) (KeyByNil : RateLimitRule -> bool).
Definition durString (d : Z) : string := if d =? 0 then "" else DurationString d.

Definition ratelimitRuleDTO (g : gathered) (r : RateLimitRule) : json :=
  JObject ([("name", of_string r.(rlr_Name)); ("algorithm", of_string r.(rlr_Algorithm))]
           ++ omit_string "rate" r.(rlr_Rate) ++ omit_string "window" (durString r.(rlr_Window))
           ++ omit_int "limit" r.(rlr_Limit) ++ omit_int "burst" r.(rlr_Burst)
           ++ [("key_by", if KeyByNil r then JNull else of_strings r.(rlr_KeyBy));
               ("rejects", of_int (gatherRatelimitRejects g r.(rlr_Name)))]).

Definition adminRateLimitRulesHandler (rules : list RateLimitRule) (g : gathered) : reply :=
  ok (JObject [("enabled", JBool (negb (bool_decide (rules = [])))); ("rules", JArray (map (ratelimitRuleDTO g) rules))]).

Definition of_float (f : float64) : json := JNumber (FormatFloat f).

Definition model_row (r : ModelBreakdown) : json :=
  JObject [("provider", of_string r.(mb_Provider)); ("model", of_string r.(mb_Model));
           ("requests", of_int r.(mb_Requests)); ("prompt_tokens", of_int r.(mb_PromptTokens));
           ("completion_tokens", of_int r.(mb_CompletionTokens)); ("cost_micro", of_int r.(mb_CostMicro))].

(** No rows at all is a nil slice. *)
Definition summary_json (s : StatsSummary) : json :=
  JObject [("window", of_string s.(Window)); ("since", of_time s.(Since)); ("as_of", of_time s.(AsOf));
           ("requests_total", of_int s.(RequestsTotal)); ("errors_4xx", of_int s.(Errors4xx));
           ("errors_5xx", of_int s.(Errors5xx)); ("cost_micro_total", of_int s.(CostMicroTotal));
           ("p99_latency_seconds", of_float s.(P99LatencySeconds));
           ("top_models", match s.(TopModels) with [] => JNull | rows => JArray (map model_row rows) end)].

Definition adminStatsSummaryHandler (now : Z) (gather : error + gathering) (c : StatsCollector)
    : reply * StatsCollector :=
  let '(res, c) := Summary now gather c in
  (match res with inl _ => failed "Failed to compute stats summary" | inr s => ok (summary_json s) end, c).

Definition cache_stats_json (s : CacheStats) : json :=
  JObject [("window", of_string s.(cs_Window)); ("since", of_time s.(cs_Since)); ("as_of", of_time s.(cs_AsOf));
           ("exact", JObject ([("hits", of_int s.(Observability.Exact).(Hits));
                               ("writes", of_int s.(Observability.Exact).(Writes))]
              ++ match s.(Observability.Exact).(HitRate) with Some r => [("hit_rate", of_float r)] | None => [] end))].

Definition adminStatsCacheHandler (now : Z) (gather : error + gathering) (c : CacheStatsCollector)
    : reply * CacheStatsCollector :=
  let '(res, c) := Stats now gather c in
  (match res with inl _ => failed "Failed to compute cache stats" | inr s => ok (cache_stats_json s) end, c).

Definition timepoint (p : TimeSeries.TimePoint) : json :=
  JObject [("t", of_time p.(TimeSeries.T)); ("success", of_int p.(TimeSeries.Success));
           ("error", of_int p.(TimeSeries.Error))].

Definition adminStatsTimeseriesHandler (now : Z) (q : gmap string (list string)) (ts : list TimeSeries.tsSlot) : reply :=
  let metric := get q "metric" in
  let metric := if bool_decide (metric = "") then "qps" else metric in
  ok (JObject [("metric", of_string metric); ("points", JArray (map timepoint (TimeSeries.Snapshot now ts)));
               ("step", JString "1m"); ("window", JString "1h")]).
End Handlers.

(** ** The substring search *)

Lemma HasPrefix_substring s sub :
  Strings.HasPrefix s sub = bool_decide (String.substring 0 (String.length sub) s = sub).
Proof.
  revert s. induction sub as [|b sub IH]; intros [|a s]; cbn; try done.
  - rewrite IH. destruct (Ascii.eqb_spec a b) as [->|Hne]; cbn [andb].
    + apply bool_decide_ext. split; [by intros ->|by intros [= ->]].
    + rewrite bool_decide_false; [done|]. intros [= ? _]. congruence.
Qed.
Lemma HasPrefix_long s sub : (String.length s < String.length sub)%nat -> Strings.HasPrefix s sub = false.
Proof.
  revert s. induction sub as [|b sub IH]; intros [|a s]; cbn; try (done || lia).
  intros H. rewrite IH by lia. by rewrite andb_false_r.
Qed.

(** It finds what [strings.Contains] finds. *)
Lemma contains_spec s sub : contains s sub = Strings.Contains s sub.
Proof.
  unfold contains. induction s as [|a s IH].
  - destruct sub; done.
  - cbn [Strings.Contains]. rewrite <- IH, HasPrefix_substring. clear IH.
    destruct (decide (String.length sub <= S (String.length s))%nat) as [Hle|Hgt].
    + replace (S (String.length (String a s)) - String.length sub)%nat
        with (S (S (String.length s) - String.length sub)) by (cbn; lia).
      cbn [seq existsb]. f_equal. rewrite <- seq_shift.
      induction (seq 0 (S (String.length s) - String.length sub)) as [|i l IH]; [done|]. cbn [map existsb]. by rewrite IH.
    + replace (S (String.length (String a s)) - String.length sub)%nat with 0%nat by (cbn; lia).
      replace (S (String.length s) - String.length sub)%nat with 0%nat by lia. cbn [seq existsb].
      rewrite orb_false_r, <- HasPrefix_substring. symmetry. apply HasPrefix_long. cbn. lia.
Qed.

(** ** Scopes *)

(** The tuples of a scope table, in the order of iteration. *)
Definition tuples (m : gmap string (list string)) : list string :=
  concat (map (fun cv : string * list string => map (fun v => cv.1 +:+ ":" +:+ v) cv.2) (map_to_list m)).

Lemma index_cut tuple i :
  Strings.IndexByte tuple ":"%char = Some i ->
  tuple = Strings.slice_to i tuple +:+ ":" +:+ Strings.slice_from (S i) tuple /\
  Strings.IndexByte (Strings.slice_to i tuple) ":"%char = None.
Proof.
  revert i. induction tuple as [|a t IH]; intros i; [done|]. cbn [Strings.IndexByte].
  destruct (Ascii.eqb_spec a ":"%char) as [->|Ha].
  - intros [= <-]. split; [|done]. cbn. by destruct t.
  - destruct (Strings.IndexByte t _) as [j|] eqn:Ej; [|done]. intros [= <-]. cbn.
    destruct (IH j eq_refl) as [H1 H2]. split; [by rewrite H1 at 1|].
    destruct (Ascii.eqb_spec a ":"%char); [done|]. by rewrite H2.
Qed.

Lemma tuple_inj c v c' v' :
  Strings.IndexByte c ":"%char = None -> Strings.IndexByte c' ":"%char = None ->
  c +:+ ":" +:+ v = c' +:+ ":" +:+ v' -> c = c' /\ v = v'.
Proof.
  revert c'. induction c as [|a c IH]; intros [|a' c']; cbn.
  - intros _ _ H. injection H as H. split; [done|exact H].
  - intros _. destruct (Ascii.eqb_spec a' ":"%char); [done|]. intros _ [= H]. congruence.
  - destruct (Ascii.eqb_spec a ":"%char); [done|]. intros _ _ [= H]. congruence.
  - destruct (Ascii.eqb_spec a ":"%char), (Ascii.eqb_spec a' ":"%char); try done.
    destruct (Strings.IndexByte c _) eqn:E1, (Strings.IndexByte c' _) eqn:E2; try done.
    intros _ _ H. injection H as -> H. by destruct (IH c' eq_refl E2 H) as [-> ->].
Qed.

Lemma tuples_elem m t :
  t ∈ tuples m <-> exists c vs v, m !! c = Some vs /\ v ∈ vs /\ t = c +:+ ":" +:+ v.
Proof.
  unfold tuples. rewrite list_elem_of_In, in_concat. split.
  - intros (l & Hl & Ht). apply in_map_iff in Hl as ([c vs] & <- & Hcv). apply in_map_iff in Ht as (v & <- & Hv).
    apply list_elem_of_In, elem_of_map_to_list in Hcv. apply list_elem_of_In in Hv. by exists c, vs, v.
  - intros (c & vs & v & Hc & Hv & ->). exists (map (fun v => c +:+ ":" +:+ v) vs). split.
    + apply in_map_iff. exists (c, vs). split; [done|]. by apply list_elem_of_In, elem_of_map_to_list.
    + apply in_map_iff. exists v. by rewrite <- list_elem_of_In.
Qed.

Lemma tuples_insert m c v :
  tuples (<[c := default [] (m !! c) ++ [v]]> m) ≡ₚ (c +:+ ":" +:+ v) :: tuples m.
Proof.
  unfold tuples. destruct (m !! c) as [vs|] eqn:E; cbn [default].
  - rewrite <- (insert_delete_id m c vs E) at 2. rewrite <- insert_delete_eq.
    rewrite !map_to_list_insert by apply lookup_delete_eq. cbn.
    rewrite map_app. cbn. rewrite <- app_assoc. cbn. by rewrite <- Permutation_middle.
  - by rewrite map_to_list_insert.
Qed.

Lemma expand_step_spec out seen tuple st' :
  expand_step (out, seen) tuple = inr st' ->
  (tuple ∈ seen /\ st' = (out, seen)) \/
  (tuple ∉ seen /\ exists c v, tuple = c +:+ ":" +:+ v /\ Strings.IndexByte c ":"%char = None /\
     st' = (<[c := default [] (out !! c) ++ [v]]> out, {[tuple]} ∪ seen)).
Proof.
  cbn. destruct (Strings.IndexByte tuple _) as [i|] eqn:Ei; [|done].
  destruct (_ || _); [done|]. case_bool_decide as Hs; intros [= <-]; [by left|].
  right. split; [done|]. destruct (index_cut tuple i Ei) as [H1 H2]. eauto 10.
Qed.

(** The table built so far holds each tuple seen once, under colon-free
    categories. *)
Definition expanded (seen : gset string) (out : gmap string (list string)) : Prop :=
  NoDup (tuples out) /\ (forall t, t ∈ tuples out <-> t ∈ seen) /\
  (forall c vs, out !! c = Some vs -> Strings.IndexByte c ":"%char = None).

Lemma expand_loop_spec flat out seen m :
  expanded seen out -> expand_loop flat (out, seen) = inr m ->
  expanded (list_to_set flat ∪ seen) m.
Proof.
  revert out seen. induction flat as [|t flat IH]; intros out seen Hi; cbn [expand_loop].
  - intros [= <-]. cbn. by rewrite union_empty_l_L.
  - destruct (expand_step _ t) as [e|[out' seen']] eqn:E; [done|]. intros Hm.
    assert (expanded seen' out' /\ seen' = {[t]} ∪ seen) as [Hi' ->].
    { destruct Hi as (Hn & He & Hc). apply expand_step_spec in E as [[Ht E]|(Ht & c & v & Htup & Hcc & E)];
        injection E as -> ->.
      - split; [done|set_solver].
      - split; [|done]. split_and!.
        + rewrite tuples_insert, <- Htup. apply NoDup_cons. split; [by rewrite He|done].
        + intros t'. rewrite tuples_insert, <- Htup, elem_of_cons, He. set_solver.
        + intros c' vs'. rewrite lookup_insert_Some. naive_solver. }
    specialize (IH out' ({[t]} ∪ seen) Hi' Hm).
    replace (list_to_set (t :: flat) ∪ seen) with (list_to_set flat ∪ ({[t]} ∪ seen) : gset string) by set_solver.
    done.
Qed.

Lemma flattenScopes_tuples m : flattenScopes m ≡ₚ tuples m.
Proof. apply merge_sort_Permutation. Qed.

(** A posted scope list comes back sorted, without its duplicates and with
    nothing else; a colon-free category holds a value exactly when the tuple of
    the two was posted. *)
Lemma expandScopes_spec flat m :
  expandScopes flat = inr m ->
  Sorted Strings.LessEq (flattenScopes m) /\ NoDup (flattenScopes m) /\
  (forall t, t ∈ flattenScopes m <-> t ∈ flat) /\
  (forall c v, Strings.IndexByte c ":"%char = None ->
     (exists vs, m !! c = Some vs /\ v ∈ vs) <-> c +:+ ":" +:+ v ∈ flat).
Proof.
  intros (Hn & He & Hc)%expand_loop_spec.
  2:{ split_and!; [by constructor| |by intros c vs; rewrite lookup_empty]. intros t. split; [|set_solver].
      by intros (c & vs & v & Hl & _)%tuples_elem. }
  assert (Hin : forall t, t ∈ tuples m <-> t ∈ flat) by (intros t; rewrite He; set_solver).
  split_and!.
  - apply (Sorted_merge_sort _).
  - by rewrite flattenScopes_tuples.
  - intros t. by rewrite flattenScopes_tuples.
  - intros c v Hcc. rewrite <- Hin, tuples_elem. split; [by intros (vs & ? & ?); exists c, vs, v|].
    intros (c' & vs & v' & Hl & Hv & Heq). apply tuple_inj in Heq as [-> ->]; [by exists vs|done|by eapply Hc].
Qed.

(** ** Accountability

    The five mutating requests, with the outcomes of the database calls they
    make and the decoded inputs. *)

Inductive mutation :=
  | MCreateKey (pool : bool) (o : db_outcome) (now : Z) (id : string) (rand : error + bytes) (body : string + json)
  | MRevokeKey (pool has_cache del : bool) (o : db_outcome) (now : Z) (id : string)
  | MUpsertPricing (o : db_outcome) (now : Z) (model : string) (body : option string)
  | MDeletePricing (o : db_outcome) (model : string)
  | MReload (ReadFile : string -> error + string) (Expand : string -> string)
            (Unmarshal : string -> error + providersFile) (path : string).

(** The database answered every statement. *)
Definition answered (op : mutation) : Prop :=
  match op with
  | MCreateKey _ o _ _ _ _ | MRevokeKey _ _ _ o _ _ | MUpsertPricing o _ _ _ | MDeletePricing o _ => o = DbOk
  | MReload _ _ _ _ => True
  end.

(** The database applied the statement and then reported a failure. *)
Definition spurious (o : db_outcome) : Prop := match o with DbErr true _ => True | _ => False end.
Definition misreported (op : mutation) : Prop :=
  match op with
  | MCreateKey _ o _ _ _ _ | MRevokeKey _ _ _ o _ _ | MUpsertPricing o _ _ _ | MDeletePricing o _ => spurious o
  | MReload _ _ _ _ => False
  end.

Definition action_of (op : mutation) : string :=
  match op with
  | MCreateKey _ _ _ _ _ _ => Audit.ActionKeyCreate
  | MRevokeKey _ _ _ _ _ _ => Audit.ActionKeyRevoke
  | MUpsertPricing _ _ _ _ => Audit.ActionPricingUpsert
  | MDeletePricing _ _ => Audit.ActionPricingDelete
  | MReload _ _ _ _ => Audit.ActionProvidersReload
  end.

Definition target_of (op : mutation) : string * string :=
  match op with
  | MCreateKey _ _ _ id _ _ => ("api_key", id)
  | MRevokeKey _ _ _ _ _ id => ("api_key", id)
  | MUpsertPricing _ _ model _ => ("pricing_rule", model)
  | MDeletePricing _ model => ("pricing_rule", model)
  | MReload _ _ _ f => ("providers_file", f)
  end.


Lemma Load_wf ReadFile Expand Unmarshal path r :
  Registry.Load ReadFile Expand Unmarshal path = inr r -> wf_state r.(Registry.state).
Proof.
  unfold Registry.Load. destruct (ReadFile path); [done|]. destruct (Unmarshal _); [done|]. apply build_state_wf.
Qed.

(** The row of a successful request of [a]; a caller without an identity is
    recorded as "unknown". *)
Definition audit_row (u : auditing) (a : actor) (action tt tid : string) (meta : option json) : Audit.Row :=
  let id := match a.(a_principal) with Some p => p.(p_ID) | None => "" end in
  {| Audit.r_ID := u.(au_id); Audit.r_OccurredAt := u.(au_now);
     Audit.r_Entry := {| Audit.ActorID := if bool_decide (id = "") then "unknown" else id;
                         Audit.ActorLabel := match a.(a_principal) with Some p => p.(p_Name) | None => "" end;
                         Audit.Action := action; Audit.TargetType := tt; Audit.TargetID := tid;
                         Audit.Metadata := meta; Audit.RequestID := a.(a_reqID) |} |}.

(** Whether the row gets into the table: the recorder is the one over the
    database, the insert takes effect (it may be reported as failed), and the
    target has a name. *)
Definition recorded (u : auditing) (tid : string) : bool :=
  match u.(au_recorder) with
  | Audit.Postgres true => applied u.(au_db) && negb (bool_decide (tid = ""))
  | _ => false
  end.

Lemma recordAudit_audit u a action tt tid meta s :
  tt <> "" -> Audit.well_formed_action action = true ->
  (recordAudit u a action tt tid meta s).(audit) =
  s.(audit) ++ (if recorded u tid then [audit_row u a action tt tid meta] else []).
Proof.
  intros Ht Ha. unfold recordAudit, recorded, audit_row. destruct a as [pr reqID]. cbn [a_principal a_reqID].
  assert (Hid : forall x : string, bool_decide ((if bool_decide (x = "") then "unknown" else x) = "") = false).
  { intros x. apply bool_decide_eq_false. by case_bool_decide. }
  unfold Audit.Record_. destruct pr as [p|]; cbn [set_audit audit Audit.ActorID Audit.TargetID Audit.TargetType Audit.Action];
    rewrite ?Hid, Ha, (bool_decide_false (tt = "")) by done;
    (destruct (au_recorder u) as [|[]]; [by rewrite app_nil_r| |]); destruct (bool_decide (tid = ""));
    rewrite ?andb_false_r; cbn [orb negb snd]; try (by rewrite app_nil_r);
    destruct (au_db u) as [|[] ?]; cbn; by rewrite ?app_nil_r.
Qed.

Section Accountability.
Context `{sha : !Sha256} `{floats : !FloatText} `{parser : !JsonParser}.
Context (FormatTime : Z -> string) (Quote : string -> string)
        (UnmarshalError : json -> string) (SyntaxError : string -> string).

Definition run_mutation (op : mutation) (u : auditing) (a : actor) (s : state) : option (reply * state) :=
  match op with
  | MCreateKey pool o now id rand body =>
      Some (createKeyHandler FormatTime Quote UnmarshalError u a pool o now id rand body s)
  | MRevokeKey pool has_cache del o now id =>
      Some (revokeKeyHandler FormatTime u a pool has_cache del o now id s)
  | MUpsertPricing o now model body =>
      Some (upsertPricing FormatTime Quote UnmarshalError SyntaxError u a o now model body s)
  | MDeletePricing o model => Some (deletePricing u a o model s)
  | MReload ReadFile Expand Unmarshal path =>
      adminProvidersReloadHandler Quote (Registry.Load ReadFile Expand Unmarshal) path u a s
  end.

(** What the success of a request stands for. *)
Definition performed (op : mutation) (s s' : state) : Prop :=
  match op with
  | MCreateKey _ _ _ id _ _ => exists rw, s'.(keys) = s.(keys) ++ [rw] /\ rw.(r_id) = id
  | MRevokeKey _ _ _ _ now id =>
      s'.(keys) = Keystore.revoke_rows now id s.(keys) /\ is_Some (Keystore.find_id id s.(keys))
  | MUpsertPricing _ now model _ =>
      exists r, Pricing.Lookup s'.(pricing) model = Some r /\ r.(Pricing.UpdatedAt) = now /\
        s'.(pricing).(Pricing.table) !! model = Some r
  | MDeletePricing _ model =>
      is_Some (s.(pricing).(Pricing.table) !! model) /\ s'.(pricing).(Pricing.table) !! model = None /\
      Pricing.Lookup s'.(pricing) model = None
  | MReload ReadFile Expand Unmarshal path => Registry.Load ReadFile Expand Unmarshal path = inr s'.(registry)
  end.

(** What a request leaves behind. *)
Definition accounted (op : mutation) (u : auditing) (a : actor) (s : state) (out : reply * state) : Prop :=
  if reply_ok out.1 then
    answered op /\ performed op s out.2 /\
    exists meta, out.2.(audit) = s.(audit) ++
      (if recorded u (target_of op).2 then [audit_row u a (action_of op) (target_of op).1 (target_of op).2 meta] else [])
  else
    exists t tbl, out.2 = set_pricing (Pricing.set_table tbl s.(pricing)) (set_keys t s.(cache) s) /\
      (~ misreported op -> t = s.(keys) /\ tbl = s.(pricing).(Pricing.table)).

Lemma Create_ok pool o now id rand name scopes t res t' :
  Keystore.Create pool o now id rand name scopes t = (res, t') ->
  match res with
  | inl _ => ~ spurious o -> t' = t
  | inr (rec, secret) => o = DbOk /\ rec.(Keystore.k_ID) = id /\ rec.(Keystore.k_Scopes) = scopes /\
      exists rw, t' = t ++ [rw] /\ rw.(r_id) = id
  end.
Proof.
  unfold Keystore.Create. destruct pool; [|by intros [= <- <-]]. cbn [negb].
  case_bool_decide; [by intros [= <- <-]|]. case_match; [by intros [= <- <-]|].
  destruct (Keystore.validateScopes scopes) eqn:Hv; [by intros [= <- <-]|].
  destruct (Keystore.generateSecret rand); [by intros [= <- <-]|].
  unfold Keystore.insert_row. destruct (Keystore.conflicts _ _ _); [by intros [= <- <-]|].
  destruct o as [|[] e]; intros [= <- <-]; [|by intros []|done].
  split_and!; [done|done| |by eexists].
  apply Keystore.scopesJSON_decodes in Hv. cbn. unfold decodeScopes.
  destruct (no_scopes _); [by simplify_eq|by rewrite Hv].
Qed.

Lemma find_id_revoked now id t :
  is_Some (Keystore.find_id id (Keystore.revoke_rows now id t)) <-> is_Some (Keystore.find_id id t).
Proof.
  unfold Keystore.find_id, Keystore.revoke_rows. induction t as [|r t IH]; [done|]. cbn.
  destruct (bool_decide (r_id r = id)) eqn:E; cbn; [|by rewrite E].
  destruct (active r); cbn; rewrite E; by split; eexists.
Qed.

Lemma revoke_rows_none now id t :
  Keystore.find_id id (Keystore.revoke_rows now id t) = None -> Keystore.revoke_rows now id t = t.
Proof.
  unfold Keystore.find_id, Keystore.revoke_rows. induction t as [|r t IH]; [done|]. cbn.
  destruct (bool_decide (r_id r = id)) eqn:E; cbn.
  - destruct (active r); cbn; by rewrite E.
  - rewrite E. intros H. by rewrite IH.
Qed.

Lemma find_id_Some id t r : Keystore.find_id id t = Some r -> r.(r_id) = id.
Proof. intros [_ H]%find_some. by apply bool_decide_eq_true in H. Qed.

Lemma Revoke_ok pool has_cache del o now id t c res t' c' :
  Keystore.Revoke pool has_cache del o now id t c = (res, (t', c')) ->
  match res with
  | inl _ => c' = c /\ (~ spurious o -> t' = t)
  | inr rec => o = DbOk /\ rec.(Keystore.k_ID) = id /\ t' = Keystore.revoke_rows now id t /\
      is_Some (Keystore.find_id id t)
  end.
Proof.
  unfold Keystore.Revoke, Keystore.revoke_db. destruct pool; [|by intros [= <- <- <-]]. cbn [negb].
  case_bool_decide; [by intros [= <- <- <-]|]. destruct o as [|[] e]; cbn [applied].
  - destruct (Keystore.find_id id _) as [r|] eqn:E.
    + intros [= <- <- _]. split_and!; [done|by eapply find_id_Some|done|]. apply (find_id_revoked now). by rewrite E.
    + intros [= <- <- <-]. by rewrite revoke_rows_none.
  - destruct (Is e ErrNoRows); intros [= <- <- <-]; (split; [done|by intros []]).
  - destruct (Is e ErrNoRows); by intros [= <- <- <-].
Qed.

Lemma Set_ok o now r p err p' :
  Pricing.Set_ o now r p = (err, p') ->
  match err with
  | Some _ => exists tbl, p' = Pricing.set_table tbl p /\ (~ spurious o -> tbl = p.(Pricing.table))
  | None => o = DbOk /\ exists r', Pricing.Lookup p' r.(Pricing.Model) = Some r' /\ r'.(Pricing.UpdatedAt) = now /\
      p'.(Pricing.table) !! r.(Pricing.Model) = Some r'
  end.
Proof.
  assert (Hsame : exists tbl, p = Pricing.set_table tbl p /\ (~ spurious o -> tbl = p.(Pricing.table)))
    by (exists p.(Pricing.table); split; [by destruct p|done]).
  unfold Pricing.Set_. destruct (negb _); [by intros [= <- <-]|]. case_bool_decide; [by intros [= <- <-]|].
  destruct (_ || _); [by intros [= <- <-]|]. destruct o as [|[] e]; intros [= <- <-]; [| |done].
  - split; [done|]. eexists. unfold Pricing.Lookup. cbn. rewrite !lookup_insert_eq. done.
  - eexists. split; [reflexivity|by intros []].
Qed.

Lemma Delete_ok o model p res p' :
  Pricing.Delete_ o model p = (res, p') ->
  match res with
  | inr true => o = DbOk /\ is_Some (p.(Pricing.table) !! model) /\ p'.(Pricing.table) !! model = None /\
      Pricing.Lookup p' model = None
  | _ => exists tbl, p' = Pricing.set_table tbl p /\ (~ spurious o -> tbl = p.(Pricing.table))
  end.
Proof.
  assert (Hsame : exists tbl, p = Pricing.set_table tbl p /\ (~ spurious o -> tbl = p.(Pricing.table)))
    by (exists p.(Pricing.table); split; [by destruct p|done]).
  unfold Pricing.Delete_. destruct (negb _); [by intros [= <- <-]|]. destruct o as [|[] e]; cbn [applied].
  - case_bool_decide as Ht; intros [= <- <-].
    + split_and!; [done|done|..]; unfold Pricing.removeOne, Pricing.Lookup; case_match; cbn; by rewrite ?lookup_delete_eq.
    + eexists. split; [reflexivity|]. intros _. rewrite delete_id; [done|]. by destruct (_ !! model); [exfalso; apply Ht|].
  - intros [= <- <-]. eexists. split; [reflexivity|by intros []].
  - by intros [= <- <-].
Qed.

(** A refusal that has not touched the state. *)
Lemma refused_inert op u a s r : reply_ok r = false -> accounted op u a s (r, s).
Proof.
  intros Hr. unfold accounted. cbn [fst snd]. rewrite Hr. exists s.(keys), s.(pricing).(Pricing.table).
  split; [by destruct s as [? ? [] ? ?]|done].
Qed.

(** C12: No administrator changes the gateway unnoticed, as far as the audit log
    can be written.  Whatever the mutating request (create or revoke a key, set
    or delete a price, reload the provider table), whoever sends it and however
    the database fares, it is answered.  If the reply is a success, the database
    reported success, the change was made, and the log has gained exactly one
    row naming the caller, the action, the target and the request, provided
    the recorder is the one over the database and its insert takes effect:
    otherwise the row is missing, as its failure does not undo the change.  If
    the reply is an error, the log, the key cache, the price snapshot and the
    provider table are unchanged, and so are the tables of keys and prices, unless
    the database applied the statement and then reported a failure. *)
Theorem changes_audited op u a s :
  exists out, run_mutation op u a s = Some out /\ accounted op u a s out.
Proof.
  destruct op as [pool o now id rand body|pool hc del o now id|o now model body|o model|ReadFile Expand Unmarshal path];
    cbn [run_mutation].
  - eexists. split; [done|]. unfold createKeyHandler. destruct (match body with inl _ => _ | _ => _ end) as [e|req];
      [by apply refused_inert|].
    case_bool_decide; [by apply refused_inert|]. case_bool_decide; [by apply refused_inert|].
    destruct (expandScopes _) as [e|scopes]; [by apply refused_inert|].
    destruct (Keystore.Create _ _ _ _ _ _ _ _) as [[e|[rec secret]] t'] eqn:E; apply Create_ok in E.
    + unfold accounted. cbn [fst snd]. destruct (isValidationError _ _); cbn [reply_ok bad failed];
        exists t', s.(pricing).(Pricing.table); (split; [by destruct s as [? ? [] ? ?]|by auto]).
    + destruct E as (-> & <- & _ & rw & -> & Hrw). unfold accounted. cbn [fst snd reply_ok].
      split_and!; [done|exists rw; by rewrite recordAudit_keys|]. eexists. by rewrite recordAudit_audit.
  - eexists. split; [done|]. unfold revokeKeyHandler. case_bool_decide; [by apply refused_inert|].
    destruct (Keystore.Revoke _ _ _ _ _ _ _ _) as [[e|rec] [t' c']] eqn:E; apply Revoke_ok in E; unfold accounted; cbn [fst snd].
    + destruct E as [-> E]. destruct (Is _ _); cbn [reply_ok bad failed];
        exists t', s.(pricing).(Pricing.table); (split; [by destruct s as [? ? [] ? ?]|by auto]).
    + destruct E as (-> & <- & -> & Hf). cbn [reply_ok ok]. split_and!; [done|by cbn [performed]; rewrite recordAudit_keys|].
      eexists. by rewrite recordAudit_audit.
  - eexists. split; [done|]. unfold upsertPricing. case_bool_decide; [by apply refused_inert|].
    destruct (body ≫= _) as [raw|]; [|by apply refused_inert].
    destruct (match parse_json raw with None => _ | _ => _ end) as [e|req]; [by apply refused_inert|].
    destruct (Pricing.Set_ _ _ _ _) as [[e|] p'] eqn:E; apply Set_ok in E; unfold accounted; cbn [fst snd reply_ok bad ok].
    + destruct E as (tbl & -> & Ht). exists s.(keys), tbl. split; [done|by auto].
    + destruct E as (-> & r' & Hr'). split_and!; [done|exists r'; by rewrite recordAudit_pricing|].
      eexists. by rewrite recordAudit_audit.
  - eexists. split; [done|]. unfold deletePricing.
    destruct (Pricing.Delete_ _ _ _) as [[e|[]] p'] eqn:E; apply Delete_ok in E; unfold accounted;
      cbn [fst snd reply_ok bad failed not_priced].
    + destruct E as (tbl & -> & Ht). exists s.(keys), tbl. split; [done|by auto].
    + destruct E as (-> & Hd). split_and!; [done|by cbn [performed]; rewrite recordAudit_pricing|].
      eexists. by rewrite recordAudit_audit.
    + destruct E as (tbl & -> & Ht). exists s.(keys), tbl. split; [done|by auto].
  - unfold adminProvidersReloadHandler. case_bool_decide; [eexists; split; [done|by apply refused_inert]|].
    destruct (Registry.Load _ _ _ path) as [e|fresh] eqn:E; [eexists; split; [done|by apply refused_inert]|].
    destruct (AllModels_spec fresh (Load_wf _ _ _ _ _ E)) as (ps & ms & _ & Hms & _).
    replace (Swap (registry s) fresh) with fresh by (by destruct fresh). rewrite Hms. cbn [mbind option_bind].
    eexists. split; [done|]. unfold accounted. cbn [fst snd reply_ok ok]. split_and!; [done| |].
    + cbn [performed]. rewrite E. unfold recordAudit. by destruct (a_principal a).
    + eexists. by rewrite recordAudit_audit.
Qed.
End Accountability.

(** ** A created key has the scopes that were posted *)

Section Created.
Context `{sha : !Sha256}.
Context (FormatTime : Z -> string) (Quote : string -> string) (UnmarshalError : json -> string).

(** The request a body decodes to. *)
Definition key_request (body : json) : option createKeyRequest :=
  set_struct create_fields body (Build_createKeyRequest "" []).

Lemma createKeyHandler_ok u a pool o now id rand body s r s' :
  createKeyHandler FormatTime Quote UnmarshalError u a pool o now id rand (inr body) s = (r, s') ->
  reply_ok r = true ->
  exists req scopes rec secret,
    key_request body = Some req /\ expandScopes req.(ck_Scopes) = inr scopes /\
    Keystore.Create pool o now id rand req.(ck_Label) scopes s.(keys) = (inr (rec, secret), s'.(keys)) /\
    r = RJson 201 [] (JObject (key_members FormatTime rec ++ [("key", of_string secret);
          ("warning", JString "Store this key now. It is shown only once and cannot be recovered later.")])).
Proof.
  unfold createKeyHandler, key_request. destruct (set_struct _ _ _) as [req|] eqn:Hreq; [|by intros [= <- _]].
  case_bool_decide; [by intros [= <- _]|]. case_bool_decide; [by intros [= <- _]|].
  destruct (expandScopes _) as [e|scopes] eqn:Hs; [by intros [= <- _]|].
  destruct (Keystore.Create _ _ _ _ _ _ _ _) as [[e|[rec secret]] t'] eqn:E.
  - destruct (isValidationError _ _); by intros [= <- _].
  - intros [= <- <-] _. exists req, scopes, rec, secret. by rewrite recordAudit_keys.
Qed.

(** C13: A key made over the API carries the scopes of the request body and no
    others.  When [POST /admin/keys] succeeds, the secret in its reply
    authenticates at once as the new identifier, and the principal it yields
    has the scope [(c, v)] exactly when the tuple [c:v] was posted; the reply
    lists those tuples sorted and without repetition; and the table has gained
    one row that holds the digest of the secret, not the secret. *)
Theorem posted_scopes_granted u a pool o now id rand body s r s' now' :
  createKeyHandler FormatTime Quote UnmarshalError u a pool o now id rand (inr body) s = (r, s') ->
  reply_ok r = true ->
  exists req rec secret extra p t'',
    key_request body = Some req /\
    r = RJson 201 [] (JObject (key_members FormatTime rec ++ ("key", of_string secret) :: extra)) /\
    Postgres_Authenticate true DbOk now' secret s'.(keys) = (inr p, t'') /\ p.(p_ID) = id /\
    (forall c v, Strings.IndexByte c ":"%char = None ->
       HasScope (Some p) c v = true <-> c +:+ ":" +:+ v ∈ req.(ck_Scopes)) /\
    Sorted Strings.LessEq (flattenScopes rec.(Keystore.k_Scopes)) /\
    NoDup (flattenScopes rec.(Keystore.k_Scopes)) /\
    (forall t, t ∈ flattenScopes rec.(Keystore.k_Scopes) <-> t ∈ req.(ck_Scopes)) /\
    exists rw, s'.(keys) = s.(keys) ++ [rw] /\ rw.(r_key_hash) = Sum256 secret.
Proof.
  intros H Hok. destruct (createKeyHandler_ok _ _ _ _ _ _ _ _ _ _ _ H Hok) as
    (req & scopes & rec & secret & Hreq & Hs & Hc & ->).
  destruct (expandScopes_spec _ _ Hs) as (Hsort & Hn & Ht & Hcv).
  destruct (Keystore.Create_authenticates _ _ _ _ _ _ _ _ _ _ _ now' "" "" Hc)
    as (p & t'' & Ha & Hid & _ & _ & rw & Hrw & Hh & _).
  assert (Hks : rec.(Keystore.k_Scopes) = scopes).
  { by apply Create_ok in Hc as (_ & _ & ? & _). }
  subst scopes. exists req, rec, secret. eexists. exists p, t''. split_and!; try done; [|by exists rw].
  intros c v Hcolon. rewrite <- Hcv by done.
  destruct (Keystore.Create_authenticates _ _ _ _ _ _ _ _ _ _ _ now' c v Hc) as (p' & ? & Ha' & _ & _ & Hsc & _).
  rewrite Ha in Ha'. by injection Ha' as <- _.
Qed.
End Created.

(** ** Paging

    A client that asks for the page at an offset, and follows [next_offset]
    until it is negative. *)

#[local] Existing Instance Audit.newest_first_dec.
#[local] Existing Instance Logs.newest_first_dec.

Fixpoint walk {A} (fuel : nat) (fetch : Z -> option (list A * Z)) (offset : Z) : option (list A) :=
  match fuel with
  | O => None
  | S fuel =>
      '(rows, next) ← fetch offset;
      if next <? 0 then Some rows else rest ← walk fuel fetch next; Some (rows ++ rest)
  end.

Definition fetch_page {A} (query : Z -> option (list A * Z)) (offset : Z) : option (list A * Z) :=
  '(rows, total) ← query offset; Some (rows, next_offset offset (length rows) total).

Definition at_offset (off : Z) (q : Audit.QueryOpts) : Audit.QueryOpts :=
  {| Audit.Start := q.(Audit.Start); Audit.End_ := q.(Audit.End_); Audit.q_ActorID := q.(Audit.q_ActorID);
     Audit.q_Action := q.(Audit.q_Action); Audit.q_TargetType := q.(Audit.q_TargetType);
     Audit.Limit := q.(Audit.Limit); Audit.Offset := off |}.

Definition log_offset (off : Z) (q : Logs.LogQuery) : Logs.LogQuery :=
  {| Logs.Start := q.(Logs.Start); Logs.End_ := q.(Logs.End_); Logs.APIKeyIDPrefix := q.(Logs.APIKeyIDPrefix);
     Logs.Model := q.(Logs.Model); Logs.StatusBucket := q.(Logs.StatusBucket); Logs.Limit := q.(Logs.Limit);
     Logs.Offset := off |}.

Lemma walk_pages {A B} (f : A -> B) (hits : list A) limit query fuel offset :
  1 <= limit -> 0 <= offset <= Z.of_nat (length hits) -> Z.of_nat (length hits) <= max_int64 ->
  (forall off, 0 <= off <= max_int64 ->
     query off = Some (map f (Audit.page_of limit off hits).1, (Audit.page_of limit off hits).2)) ->
  Z.of_nat (length hits) - offset < Z.of_nat fuel ->
  walk fuel (fetch_page query) offset = Some (map f (drop (Z.to_nat offset) hits)).
Proof.
  intros Hl Ho Hmax Hq. revert offset Ho. induction fuel as [|fuel IH]; intros offset Ho Hf; [lia|].
  cbn [walk]. replace (fetch_page query offset) with
    (Some (map f (Audit.page_of limit offset hits).1,
           next_offset offset (length (map f (Audit.page_of limit offset hits).1)) (Audit.page_of limit offset hits).2))
    by (unfold fetch_page; by rewrite Hq by lia).
  cbn [mbind option_bind]. unfold Audit.page_of. cbn [fst snd]. set (rest := drop (Z.to_nat offset) hits).
  assert (Hrest : Z.of_nat (length rest) = Z.of_nat (length hits) - offset)
    by (unfold rest; rewrite length_drop; lia).
  unfold next_offset. rewrite length_map, length_take.
  rewrite wrap64_id by (unfold_int64; lia).
  destruct (take (Z.to_nat limit) rest) eqn:Et.
  - assert (Hnil : rest = []) by (destruct rest; [done|]; destruct (Z.to_nat limit) eqn:E; [lia|done]).
    rewrite (proj2 (Z.leb_le 0 _)) by lia. cbn [Z.ltb]. rewrite Hnil. done.
  - rewrite <- Et. destruct (Z.leb_spec (Z.of_nat (length hits)) (offset + Z.of_nat (Z.to_nat limit `min` length rest))).
    + cbn. f_equal. f_equal. apply take_ge. lia.
    + rewrite (proj2 (Z.ltb_ge _ 0)) by lia. rewrite IH by lia. cbn. f_equal.
      rewrite <- map_app. f_equal.
      replace (Z.to_nat (offset + _)) with (Z.to_nat offset + Z.to_nat limit)%nat by lia.
      rewrite <- drop_drop. apply take_drop.
Qed.

(** Following [next_offset] reads every matching audit row exactly once,
    newest first, and stops: for a well-formed query of any page size, the
    walk over the pages of [Postgres.Query], with one request more than there
    are rows as fuel, returns the whole filtered log. *)
Theorem audit_pages_complete q lo hi t :
  q.(Audit.Start) = Some lo -> q.(Audit.End_) = Some hi -> lo < hi -> time_sub hi lo <= Audit.maxAuditWindow ->
  Z.of_nat (length t) <= max_int64 ->
  walk (S (length t)) (fetch_page (fun off =>
      match Audit.Query (Audit.Postgres true) None (at_offset off q) t with inr r => Some r | inl _ => None end)) 0
  = Some (merge_sort Audit.newest_first (List.filter (Audit.where_ q lo hi) t)).
Proof.
  intros Hlo Hhi Hlt Hw Hmax. set (hits := merge_sort _ _).
  assert (Hlen : (length hits <= length t)%nat).
  { unfold hits. rewrite (Permutation_length (merge_sort_Permutation _ _)). apply filter_length_le. }
  rewrite <- (map_id hits).
  rewrite (walk_pages (fun i => i) hits (if (q.(Audit.Limit) <=? 0) || (Audit.maxAuditLimit <? q.(Audit.Limit))
      then Audit.defAuditLimit else q.(Audit.Limit))); [done| |lia..| |lia].
  - unfold Audit.defAuditLimit. destruct (Z.leb_spec (Audit.Limit q) 0), (_ <? _); cbn; lia.
  - intros off Hoff. unfold Audit.Query, at_offset. cbn. rewrite Hlo, Hhi.
    rewrite (proj2 (Z.ltb_lt lo hi)), (proj2 (Z.ltb_ge Audit.maxAuditWindow _)) by done. cbn.
    rewrite (proj2 (Z.ltb_ge off 0)) by lia. by rewrite map_id.
Qed.

(** The request log reads whole too: for a well-formed query of any page
    size and any filter, following [next_offset] over [ListLogs] returns every
    matching row exactly once, newest first, and stops. *)
Theorem log_pages_complete q lo hi t :
  q.(Logs.Start) = Some lo -> q.(Logs.End_) = Some hi -> lo < hi -> time_sub hi lo <= Logs.maxLogWindow ->
  is_Some (Logs.status_ok q.(Logs.StatusBucket) 0) -> Z.of_nat (length t) <= max_int64 ->
  walk (S (length t)) (fetch_page (fun off =>
      match Logs.ListLogs (Some t) None (log_offset off q) with inr r => Some r | inl _ => None end)) 0
  = Some (map Logs.with_preview (merge_sort Logs.newest_first (List.filter (Logs.where_ q lo hi) t))).
Proof.
  intros Hlo Hhi Hlt Hw [b Hb] Hmax. set (hits := merge_sort _ _).
  assert (Hlen : (length hits <= length t)%nat).
  { unfold hits. rewrite (Permutation_length (merge_sort_Permutation _ _)). apply filter_length_le. }
  rewrite (walk_pages Logs.with_preview hits (if (q.(Logs.Limit) <=? 0) || (Logs.maxLogLimit <? q.(Logs.Limit))
      then Logs.defLogLimit else q.(Logs.Limit))); [done| |lia..| |lia].
  - unfold Logs.defLogLimit. destruct (Z.leb_spec (Logs.Limit q) 0), (_ <? _); cbn; lia.
  - intros off Hoff. unfold Logs.ListLogs, log_offset. cbn. rewrite Hlo, Hhi.
    rewrite (proj2 (Z.ltb_lt lo hi)), (proj2 (Z.ltb_ge Logs.maxLogWindow _)) by done. cbn.
    rewrite (proj2 (Z.ltb_ge off 0)), Hb by lia. done.
Qed.

(** ** Corners of the code *)

(** Duplicate tuples are merged, not refused. *)
Example duplicates_merged :
  expandScopes ["admin:webui"; "admin:webui"] = inr {["admin" := ["webui"]]}.
Proof. reflexivity. Qed.

(** A price shown as a float and written back through the float field loses a
    unit: 249 micro is shown as 0.000249, which is stored as 248. *)
Example price_drifts : micro_of (per_1k 249) = 248 /\ micro_of (per_1k 250) = 250.
Proof. by vm_compute. Qed.

(** A provider whose breaker has not reported is shown as closed. *)
Lemma silent_breaker_closed m name :
  m !! ("gateway_breaker_state", [name]) = None -> breakerStateLabel (breaker_gauge m name) = "closed".
Proof. unfold breaker_gauge, value_at. by intros ->. Qed.

(** The text of a database failure decides the status: one that says "invalid"
    is answered as the client's fault, with the text. *)
Example database_text_relayed :
  isValidationError (fun s => s) (Errorf "auth: insert api_key: %w" []
    (Some (Foreign "ERROR: invalid input syntax for type json" []))) = true.
Proof. by vm_compute. Qed.

(** A status bucket the log query does not know is answered as a server error. *)
Example bad_bucket_500 t :
  adminLogsHandler (fun _ => "") (fun s => if bool_decide (s = "a") then Some (Some 0) else Some (Some 1)) (fun s => s)
    (Some t) None {["start" := ["a"]; "end" := ["b"]; "status" := ["3xx"]]} = failed "Failed to query logs".
Proof. by vm_compute. Qed.

(** Models are looked up by provider name but filed under the vendor: a
    provider with a name of its own shows no models. *)
Example renamed_provider_empty :
  (ms ← AllModels test_registry; Some (models_owned ms "openai-primary", models_owned ms "openai"))
  = Some (JNull, of_strings ["gpt-4o"; "gpt-4o-mini"]).
Proof. by vm_compute. Qed.

Module Example.

#[local] Instance toy_floats : FloatText := {| ParseFloat _ := None; FormatFloat _ := "0" |}.
#[local] Instance toy_json : JsonParser := fun _ => Some JNull.
#[local] Existing Instance Keystore.toy_digest.

Definition admin : Principal := {| p_ID := "ak_1"; p_Name := "ops"; p_Scopes := {["admin" := ["webui"]]} |}.
Definition log : auditing :=
  {| au_recorder := Audit.Postgres true; au_db := DbOk; au_id := 7; au_now := 100 |}.
Definition empty : state :=
  {| keys := []; cache := ∅; pricing := Pricing.NewPricingCache true ∅; registry := test_registry; audit := [] |}.
Definition priced : state :=
  {| keys := []; cache := ∅; pricing := Pricing.NewPricingCache true {["gpt-4o" := Pricing.test_rate "gpt-4o"]};
     registry := test_registry; audit := [] |}.
Definition body : json :=
  JObject [("label", JString "ci"); ("scopes", JArray [JString "admin:webui"; JString "admin:pricing"; JString "admin:webui"])].
Definition create : mutation := MCreateKey true DbOk 5 "ak_2" (inr (repeat 7 32)) (inr body).
Definition created : option (reply * state) :=
  run_mutation (fun _ => "t") (fun s => s) (fun _ => "") (fun _ => "") create log
    {| a_principal := Some admin; a_reqID := "r1" |} empty.

(** A key is created and recorded; a price change that the database applied but
    reported as failed is refused and leaves the table changed and no row. *)
Lemma changes_audited_witness :
  (exists out meta, created = Some out /\ reply_ok out.1 = true /\
     out.2.(audit) = [audit_row log {| a_principal := Some admin; a_reqID := "r1" |} "key.create" "api_key" "ak_2" meta]) /\
  exists out, run_mutation (fun _ => "t") (fun s => s) (fun _ => "") (fun _ => "")
      (MDeletePricing (DbErr true (Foreign "timeout" [])) "gpt-4o") log {| a_principal := None; a_reqID := "r2" |} priced = Some out /\
    reply_ok out.1 = false /\ out.2.(audit) = [] /\ out.2.(pricing).(Pricing.table) = ∅.
Proof.
  split.
  - destruct (changes_audited (fun _ => "t") (fun s => s) (fun _ => "") (fun _ => "") create log
      {| a_principal := Some admin; a_reqID := "r1" |} empty) as (out & E & H).
    assert (Hok : reply_ok out.1 = true).
    { change (reply_ok (default (REmpty 0, empty) (Some out)).1 = true). rewrite <- E. vm_compute. reflexivity. }
    unfold accounted in H. rewrite Hok in H. destruct H as (_ & _ & meta & Hm). exists out, meta.
    split; [exact E|]. split; [exact Hok|exact Hm].
  - eexists. split; [reflexivity|]. split; [reflexivity|]. split; vm_compute; reflexivity.
Defined.

Lemma posted_scopes_granted_witness :
  exists secret p t'',
    Postgres_Authenticate true DbOk 9 secret (default (REmpty 0, empty) created).2.(keys) = (inr p, t'') /\
    HasScope (Some p) "admin" "pricing" = true.
Proof.
  destruct (createKeyHandler (fun _ => "t") (fun s => s) (fun _ => "") log {| a_principal := Some admin; a_reqID := "r1" |}
              true DbOk 5 "ak_2" (inr (repeat 7 32)) (inr body) empty) as [r s'] eqn:E.
  assert (Hok : reply_ok r = true) by (change (reply_ok (r, s').1 = true); rewrite <- E; by vm_compute).
  destruct (posted_scopes_granted (fun _ => "t") (fun s => s) (fun _ => "") log _ true DbOk 5 "ak_2"
              (inr (repeat 7 32)) body empty r s' 9 E Hok)
    as (req & rec & secret & extra & p & t'' & Hreq & _ & Ha & _ & Hsc & _).
  exists secret, p, t''. split.
  - unfold created, create. cbn [run_mutation]. rewrite E. exact Ha.
  - apply Hsc; [by vm_compute|]. assert (Hr : key_request body = Some (Build_createKeyRequest "ci" ["admin:webui"; "admin:pricing"; "admin:webui"]))
      by by vm_compute.
    rewrite Hr in Hreq. injection Hreq as <-. cbn [ck_Scopes]. change ("admin" +:+ ":" +:+ "pricing") with "admin:pricing".
    by right; left.
Defined.

Definition entry (action : string) : Audit.Entry :=
  {| Audit.ActorID := "ak_1"; Audit.ActorLabel := ""; Audit.Action := action; Audit.TargetType := "api_key";
     Audit.TargetID := "x"; Audit.Metadata := None; Audit.RequestID := "" |}.
Definition rows : list Audit.Row :=
  map (fun i => {| Audit.r_ID := i; Audit.r_OccurredAt := 10 * i; Audit.r_Entry := entry "key.create" |}) [1; 2; 3; 4; 5].
Definition query : Audit.QueryOpts :=
  {| Audit.Start := Some 0; Audit.End_ := Some 50; Audit.q_ActorID := ""; Audit.q_Action := "";
     Audit.q_TargetType := ""; Audit.Limit := 2; Audit.Offset := 0 |}.

Lemma audit_pages_complete_witness :
  option_map (map Audit.r_ID) (walk 6 (fetch_page (fun off =>
      match Audit.Query (Audit.Postgres true) None (at_offset off query) rows with inr r => Some r | inl _ => None end)) 0)
  = Some [4; 3; 2; 1].
Proof.
  change 6%nat with (S (length rows)).
  rewrite (audit_pages_complete query 0 50 rows); [by vm_compute|done|done|lia|by vm_compute|by vm_compute].
Defined.

Definition log_query : Logs.LogQuery :=
  {| Logs.Start := Some 0; Logs.End_ := Some 50; Logs.APIKeyIDPrefix := ""; Logs.Model := "";
     Logs.StatusBucket := ""; Logs.Limit := 1; Logs.Offset := 0 |}.

Lemma log_pages_complete_witness :
  option_map (map Logs.lr_RequestID) (walk 4 (fetch_page (fun off =>
      match Logs.ListLogs (Some [Logs.test_row "a" 5; Logs.test_row "b" 9; Logs.test_row "c" 70])
              None (log_offset off log_query) with inr r => Some r | inl _ => None end)) 0)
  = Some ["b"; "a"].
Proof.
  change 4%nat with (S (length [Logs.test_row "a" 5; Logs.test_row "b" 9; Logs.test_row "c" 70])).
  rewrite (log_pages_complete log_query 0 50); [by vm_compute|done|done|lia|by vm_compute|by eexists|by vm_compute].
Defined.

End Example.
