(* ===== verification/Xbctl.v ===== *)
(** * Xbctl: the operations command line and the storage layer under it

    [cmd/xbctl] and [internal/storage].  A subcommand takes the outcome of its
    flag parsing (an error of the [flag] package, or the values), the
    configuration loader, the pool constructor and the outcomes of its
    statements; it returns its error, what it printed, line by line, and the new
    table.  A table printed through a tab writer is its rows of cells.
    Connections are opened and closed within one command. *)

From Stdlib Require Import Ascii.
From S2P Require Import Prelude GoStd Float64 Rounding Errors Types Encoding Wire Config Registry Billing Auth Admin.
From stdpp Require Import base list gmap sorting.
Import Json.
Local Open Scope Z_scope.

(** ** Storage *)

Module Storage.

Record Config := {
  DSN : string; MaxConns : Z; MinConns : Z; MaxConnLifetime : Z; MaxConnIdleTime : Z
}.

(** The part of [pgxpool.Config] the code sets; connection counts are [int32]. *)
Record poolConfig := { pc_MaxConns : Z; pc_MinConns : Z; pc_Lifetime : Z; pc_IdleTime : Z }.

Definition int32 (n : Z) : Z := (n + 2 ^ 31) mod 2 ^ 32 - 2 ^ 31.

Section Pool.
(** [pgxpool.ParseConfig] and [pgxpool.NewWithConfig]. *)
Context (ParseConfig : string -> error + poolConfig) (NewWithConfig : poolConfig -> option error).

(** The values of [cfg] that are set replace those of the connection string. *)
Definition apply_config (cfg : Config) (p : poolConfig) : poolConfig :=
  {| pc_MaxConns := if 0 <? cfg.(MaxConns) then int32 cfg.(MaxConns) else p.(pc_MaxConns);
     pc_MinConns := if 0 <? cfg.(MinConns) then int32 cfg.(MinConns) else p.(pc_MinConns);
     pc_Lifetime := if 0 <? cfg.(MaxConnLifetime) then cfg.(MaxConnLifetime) else p.(pc_Lifetime);
     pc_IdleTime := if 0 <? cfg.(MaxConnIdleTime) then cfg.(MaxConnIdleTime) else p.(pc_IdleTime) |}.

Definition NewPool (cfg : Config) : error + poolConfig :=
  if bool_decide (cfg.(DSN) = "") then inl (Errorf "storage: Config.DSN is required" [] None)
  else match ParseConfig cfg.(DSN) with
  | inl err => inl (Errorf "storage: parse DSN: %w" [] (Some err))
  | inr p =>
      let p := apply_config cfg p in
      match NewWithConfig p with
      | Some err => inl (Errorf "storage: build pool: %w" [] (Some err))
      | None => inr p
      end
  end.
End Pool.

(** [None] is a nil pool. *)
Definition Ping (pool : option (option error)) : option error :=
  match pool with
  | None => Some (Errorf "storage: pool is nil" [] None)
  | Some e => e
  end.

Definition toMigrateURL (dsn : string) : string :=
  if Strings.HasPrefix dsn "postgres://" then "pgx5://" +:+ Strings.TrimPrefix dsn "postgres://"
  else if Strings.HasPrefix dsn "postgresql://" then "pgx5://" +:+ Strings.TrimPrefix dsn "postgresql://"
  else dsn.

(** The errors of [golang-migrate] the code tells apart. *)
Inductive migrate_error := ErrNoChange | ErrNilVersion | MigrateErr (err : error).

Section Migrate.
(** The embedded source; opening the library on a URL; a migration handle. *)
Context {M : Type} (iofs : option error) (open : string -> error + M).

Definition migrateRun {A} (dsn : string) (action : M -> error + A) : error + A :=
  match iofs with
  | Some err => inl (Errorf "storage: build migration source: %w" [] (Some err))
  | None =>
      match open (toMigrateURL dsn) with
      | inl err => inl (Errorf "storage: open migrate: %w" [] (Some err))
      | inr m => action m
      end
  end.

Definition tolerate (e : option migrate_error) : error + unit :=
  match e with
  | None | Some ErrNoChange => inr tt
  | Some ErrNilVersion => inl (Foreign "no migration" [])
  | Some (MigrateErr err) => inl err
  end.

Context (Up Down : M -> option migrate_error) (Version : M -> Z * bool * option migrate_error).

Definition MigrateUp (dsn : string) : error + unit := migrateRun dsn (fun m => tolerate (Up m)).
Definition MigrateDown (dsn : string) : error + unit := migrateRun dsn (fun m => tolerate (Down m)).

(** On an error the version and the flag are those the library returned. *)
Definition MigrateVersion (dsn : string) : error + Z * bool :=
  migrateRun dsn (fun m =>
    match Version m with
    | (_, _, Some ErrNilVersion) => inr (0, false)
    | (v, d, None) => inr (v, d)
    | (_, _, Some ErrNoChange) => inl (Foreign "no change" [])
    | (_, _, Some (MigrateErr err)) => inl err
    end).
End Migrate.

End Storage.

(** ** Flags *)

(** The [-scope] flag. *)
Abbreviation scopeFlag := (gmap string (list string)).

Record dsnInputs := { in_configPath : string; in_dsn : string }.

Section Commands.
Context `{sha : !Sha256} `{floats : !FloatText}.
(** [config.Load]; [storage.NewPool] with the two connections of the tool. *)
Context (loadConfig : string -> error + Config.Config) (connect : string -> option error).

Definition resolveDSN (i : dsnInputs) : error + string :=
  if negb (bool_decide (i.(in_dsn) = "")) then inr i.(in_dsn)
  else match loadConfig i.(in_configPath) with
  | inl err => inl (Errorf "load config %q: %w" [ArgS i.(in_configPath)] (Some err))
  | inr cfg =>
      if bool_decide (cfg.(c_Database).(dc_DSN) = "") then
        inl (Errorf "database.dsn is empty in config; pass -dsn or set it in config.yaml" [] None)
      else inr cfg.(c_Database).(dc_DSN)
  end.

(** Resolving the DSN and connecting, as every command that touches the
    database does. *)
Definition connected (i : dsnInputs) : option error :=
  match resolveDSN i with
  | inl err => Some err
  | inr dsn => match connect dsn with Some err => Some (Errorf "connect: %w" [] (Some err)) | None => None end
  end.

(** [scopeFlag.Set]. *)
Definition Set_ (s : scopeFlag) (raw : string) : error + scopeFlag :=
  let invalid := Errorf "invalid scope %q (expected category:value)" [ArgS raw] None in
  match Strings.IndexByte raw ":"%char with
  | None => inl invalid
  | Some idx =>
      if (idx =? 0)%nat || (idx =? String.length raw - 1)%nat then inl invalid
      else
        let cat := Strings.slice_to idx raw in
        let val := Strings.slice_from (S idx) raw in
        inr (<[cat := default [] (s !! cat) ++ [val]]> s)
  end.

(** The [-scope] occurrences of a command line; [flag] stops at an error. *)
Fixpoint scope_flags (s : scopeFlag) (raws : list string) : error + scopeFlag :=
  match raws with
  | [] => inr s
  | raw :: rest => match Set_ s raw with inl e => inl e | inr s => scope_flags s rest end
  end.

(** ** Keys *)

(** A double quote. *)
Definition dq : string := String (GoStd.ascii_of_byte 34) "".

Record keygenFlags := { kg_in : dsnInputs; kg_name : string; kg_id : string; kg_scopes : list string }.

(** [uuid] is the fresh identifier; [show] prints a JSON value. *)
Definition runKeygen (show : json -> string) (flags : error + keygenFlags) (o : db_outcome) (now : Z)
    (uuid : string) (rand : error + bytes) (t : list row) : option error * list string * list row :=
  match (match flags with inl e => inl e | inr f => match scope_flags ∅ f.(kg_scopes) with
                                                   | inl e => inl e | inr s => inr (f, s) end end) with
  | inl e => (Some e, [], t)
  | inr (f, scopes) =>
      if bool_decide (f.(kg_name) = "") then (Some (Errorf ("--name is required (e.g. -name " +:+ dq +:+ "prod CI" +:+ dq +:+ ")") [] None), [], t)
      else
        let id := if bool_decide (f.(kg_id) = "") then uuid else f.(kg_id) in
        match resolveDSN f.(kg_in) with
        | inl e => (Some e, [], t)
        | inr _ =>
            match Keystore.generateSecret rand with
            | inl e => (Some (Errorf "generate secret: %w" [] (Some e)), [], t)
            | inr secret =>
                match connected f.(kg_in) with
                | Some e => (Some e, [], t)
                | None =>
                    let r := {| r_id := id; r_key_hash := Sum256 secret; r_name := f.(kg_name);
                                r_scopes := Keystore.scopesJSON scopes; r_created_at := now;
                                r_last_used_at := None; r_revoked_at := None |} in
                    match Keystore.insert_row o r t with
                    | (Some e, t') => (Some (Errorf "insert api_key: %w" [] (Some e)), [], t')
                    | (None, t') =>
                        (None,
                         ["Created API key."; "  id:     " +:+ id; "  name:   " +:+ f.(kg_name)]
                         ++ (if bool_decide (scopes = ∅) then []
                             else ["  scopes: " +:+ show (Keystore.scopesJSON scopes)])
                         ++ ["  secret: " +:+ secret; "";
                             "This secret is shown ONLY ONCE. Store it now; the gateway never displays it again."],
                         t')
                    end
                end
            end
        end
  end.

(** The rows of [keylist], newest first. *)
#[local] Existing Instance Keystore.newest_first_dec.
Record keyRow := {
  kr_ID : string; kr_Name : string; kr_KeyHashHex : string; kr_CreatedAt : Z; kr_LastUsedAt : option Z;
  kr_RevokedAt : option Z
}.
Definition to_keyRow (r : row) : keyRow :=
  {| kr_ID := r.(r_id); kr_Name := r.(r_name); kr_KeyHashHex := Hex.EncodeToString r.(r_key_hash);
     kr_CreatedAt := r.(r_created_at); kr_LastUsedAt := r.(r_last_used_at); kr_RevokedAt := r.(r_revoked_at) |}.

(** [time.Time.Format] with [time.RFC3339], in UTC, and [MarshalJSON]. *)
Context (FormatRFC3339 FormatTime : Z -> string).

Definition formatTime (t : option Z) : string := match t with None => "-" | Some t => FormatRFC3339 t end.
Definition shortHash (h : string) : string := if (String.length h <=? 12)%nat then h else Strings.slice_to 12 h.

Definition key_json (r : keyRow) : json :=
  JObject ([("id", of_string r.(kr_ID)); ("name", of_string r.(kr_Name));
            ("key_hash_hex", of_string r.(kr_KeyHashHex)); ("created_at", JString (FormatTime r.(kr_CreatedAt)))]
           ++ match r.(kr_LastUsedAt) with Some t => [("last_used_at", JString (FormatTime t))] | None => [] end
           ++ match r.(kr_RevokedAt) with Some t => [("revoked_at", JString (FormatTime t))] | None => [] end).
Definition writeKeysJSON (rows : list keyRow) : json := JArray (map key_json rows).

Definition key_cells (r : keyRow) : list string :=
  [r.(kr_ID); r.(kr_Name); shortHash r.(kr_KeyHashHex) +:+ "…"; formatTime (Some r.(kr_CreatedAt));
   formatTime r.(kr_LastUsedAt); formatTime r.(kr_RevokedAt)].
Definition writeKeysTable (rows : list keyRow) : list (list string) :=
  ["ID"; "NAME"; "HASH"; "CREATED"; "LAST USED"; "REVOKED"] :: map key_cells rows
  ++ match rows with [] => [["(no keys)"]] | _ => [] end.

Record keylistFlags := { kl_in : dsnInputs; kl_json : bool; kl_all : bool }.

Definition runKeylist (flags : error + keylistFlags) (dbErr : option error) (t : list row)
    : option error * (json + list (list string)) :=
  match flags with
  | inl e => (Some e, inr [])
  | inr f =>
      match connected f.(kl_in) with
      | Some e => (Some e, inr [])
      | None =>
          match dbErr with
          | Some e => (Some (Errorf "query api_keys: %w" [] (Some e)), inr [])
          | None =>
              let rows := map to_keyRow (merge_sort Keystore.newest_first
                            (List.filter (fun r => f.(kl_all) || active r) t)) in
              (None, if f.(kl_json) then inl (writeKeysJSON rows) else inr (writeKeysTable rows))
          end
      end
  end.

Record keyrevokeFlags := { kv_in : dsnInputs; kv_id : string }.

(** Rows the [UPDATE] of [keyrevoke] matches. *)
Definition matched (id : string) (t : list row) : Z :=
  Z.of_nat (length (List.filter (fun r => bool_decide (r.(r_id) = id) && active r) t)).

(** [existsErr] is the error of the second query, if any. *)
Definition runKeyrevoke (flags : error + keyrevokeFlags) (o : db_outcome) (existsErr : option error) (now : Z)
    (t : list row) : option error * list string * list row :=
  match flags with
  | inl e => (Some e, [], t)
  | inr f =>
      let id := f.(kv_id) in
      if bool_decide (id = "") then (Some (Errorf "--id is required" [] None), [], t)
      else match connected f.(kv_in) with
      | Some e => (Some e, [], t)
      | None =>
          let t' := if applied o then Keystore.revoke_rows now id t else t in
          match o with
          | DbErr _ e => (Some (Errorf "revoke: %w" [] (Some e)), [], t')
          | DbOk =>
              let n := matched id t in
              if n =? 1 then
                (None, ["Revoked key " +:+ id +:+ ".";
                        "Note: cached principals may persist up to one positive-TTL window."], t')
              else if n =? 0 then
                match existsErr, Keystore.find_id id t' with
                | None, Some _ => (None, ["Key " +:+ id +:+ " is already revoked; no change."], t')
                | _, _ => (Some (Errorf "no key with id %q" [ArgS id] None), [], t')
                end
              else (Some (Errorf "revoke: unexpected rows affected: %d" [ArgD n] None), [], t')
          end
      end
  end.

(** ** Prices *)

(** [strconv.FormatFloat(f, 'f', 6, 64)]; the error text of [ParseFloat]; the
    date format of the listing; [strconv.Quote]. *)
Context (Quote : string -> string) (FormatFixed6 : float64 -> string) (ParseFloatError : string -> error) (FormatMinute : Z -> string).

Definition parseRate (s : string) : error + Z :=
  match ParseFloat s with
  | None => inl (Errorf "invalid rate %q: %w" [ArgS s] (Some (ParseFloatError s)))
  | Some v =>
      if f_ltb v f_zero then inl (Errorf "rate must be >= 0, got %v" [] None)
      else inr (to_int64 (f_add (f_mul v (of_Z 1000000)) (lit 1 2)))
  end.

Definition fmtMicro (m : Z) : string := FormatFixed6 (f_div (of_Z m) (of_Z 1000000)).

(** The two loops of [sortRatesByModel]. *)
Definition swap {A} (i j : nat) (l : list A) : list A :=
  match l !! i, l !! j with Some x, Some y => <[i := y]> (<[j := x]> l) | _, _ => l end.
Fixpoint sift (j : nat) (rs : list Pricing.Rate) : list Pricing.Rate :=
  match j with
  | O => rs
  | S j' =>
      match rs !! j', rs !! j with
      | Some a, Some b => if Strings.Less b.(Pricing.Model) a.(Pricing.Model) then sift j' (swap j' j rs) else rs
      | _, _ => rs
      end
  end.
Definition sortRatesByModel (rs : list Pricing.Rate) : list Pricing.Rate :=
  fold_left (fun rs i => sift i rs) (seq 1 (length rs - 1)) rs.

Definition runPricingList (i : error + dsnInputs) (dbErr : option error) (table : gmap string Pricing.Rate)
    : option error * list (list string) :=
  match i with
  | inl e => (Some e, [])
  | inr i =>
      match connected i with
      | Some e => (Some e, [])
      | None =>
          match Pricing.Reload dbErr (Pricing.NewPricingCache true table) with
          | (Some e, _) => (Some (Errorf "reload pricing: %w" [] (Some e)), [])
          | (None, c) =>
              (None, ["MODEL"; "CURRENCY"; "INPUT/1K"; "OUTPUT/1K"; "UPDATED"]
                     :: map (fun r => [r.(Pricing.Model); r.(Pricing.Currency); fmtMicro r.(Pricing.InputPer1kMicro);
                                       fmtMicro r.(Pricing.OutputPer1kMicro); FormatMinute r.(Pricing.UpdatedAt)])
                          (sortRatesByModel (Pricing.All c)))
          end
      end
  end.

Record pricingSetFlags := { ps_in : dsnInputs; ps_currency : string; ps_args : list string }.

Definition runPricingSet (flags : error + pricingSetFlags) (o : db_outcome) (now : Z)
    (table : gmap string Pricing.Rate) : option error * list string * gmap string Pricing.Rate :=
  match flags with
  | inl e => (Some e, [], table)
  | inr f =>
      match f.(ps_args) with
      | [model; input; output] =>
          match parseRate input with
          | inl e => (Some (Errorf "input_per_1k: %w" [] (Some e)), [], table)
          | inr inRate =>
              match parseRate output with
              | inl e => (Some (Errorf "output_per_1k: %w" [] (Some e)), [], table)
              | inr outRate =>
                  match connected f.(ps_in) with
                  | Some e => (Some e, [], table)
                  | None =>
                      let rate := {| Pricing.Model := model; Pricing.Currency := f.(ps_currency);
                                     Pricing.InputPer1kMicro := inRate; Pricing.OutputPer1kMicro := outRate;
                                     Pricing.UpdatedAt := 0 |} in
                      match Pricing.Set_ o now rate (Pricing.NewPricingCache true table) with
                      | (Some e, c) => (Some (Errorf "upsert: %w" [] (Some e)), [], c.(Pricing.table))
                      | (None, c) =>
                          (None, ["Set pricing for " +:+ Quote model +:+ ": input=" +:+ fmtMicro inRate
                                  +:+ " output=" +:+ fmtMicro outRate +:+ " " +:+ f.(ps_currency) +:+ "/1k"],
                           c.(Pricing.table))
                      end
                  end
              end
          end
      | _ => (Some (Errorf "usage: xbctl pricing set <model> <input_per_1k> <output_per_1k>" [] None), [], table)
      end
  end.

Definition runPricingDelete (flags : error + dsnInputs * list string) (o : db_outcome)
    (table : gmap string Pricing.Rate) : option error * list string * gmap string Pricing.Rate :=
  match flags with
  | inl e => (Some e, [], table)
  | inr (i, [model]) =>
      match connected i with
      | Some e => (Some e, [], table)
      | None =>
          match Pricing.Delete_ o model (Pricing.NewPricingCache true table) with
          | (inl e, c) => (Some (Errorf "delete: %w" [] (Some e)), [], c.(Pricing.table))
          | (inr ok, c) =>
              (None, [if ok : bool then "Deleted pricing for " +:+ Quote model +:+ "."
                      else "No pricing entry for " +:+ Quote model +:+ " (already absent)."],
               c.(Pricing.table))
          end
      end
  | inr _ => (Some (Errorf "usage: xbctl pricing delete <model>" [] None), [], table)
  end.

(** ** Migrations and dispatch *)

Definition runMigrate {M} (iofs : option error) (open : string -> error + M)
    (Up Down : M -> option Storage.migrate_error) (Version : M -> Z * bool * option Storage.migrate_error)
    (flags : error + dsnInputs * list string) : option error * list string :=
  match flags with
  | inl e => (Some e, [])
  | inr (i, []) => (Some (Errorf "migrate: subaction required (up | down | version)" [] None), [])
  | inr (i, [action]) =>
      match resolveDSN i with
      | inl e => (Some e, [])
      | inr dsn =>
          if bool_decide (action = "up") then
            match Storage.MigrateUp iofs open Up dsn with
            | inl e => (Some (Errorf "migrate up: %w" [] (Some e)), [])
            | inr _ => (None, ["Schema is at head."])
            end
          else if bool_decide (action = "down") then
            match Storage.MigrateDown iofs open Down dsn with
            | inl e => (Some (Errorf "migrate down: %w" [] (Some e)), [])
            | inr _ => (None, ["Rolled back one migration."])
            end
          else if bool_decide (action = "version") then
            match Storage.MigrateVersion iofs open Version dsn with
            | inl e => (Some (Errorf "migrate version: %w" [] (Some e)), [])
            | inr (v, dirty) =>
                (None, ["version=" +:+ Strconv.Itoa v +:+ " dirty=" +:+ (if dirty : bool then "true" else "false")])
            end
          else (Some (Errorf "migrate: unknown subaction %q (want: up | down | version)" [ArgS action] None), [])
      end
  | inr (i, action :: _) => (Some (Errorf "migrate: unexpected arguments after %q" [ArgS action] None), [])
  end.
End Commands.

(** What [run] and [runPricing] do with a command line. *)
Inductive dispatch := Usage (on_stderr : bool) (err : option error) | Banner | Command (sub : string) (rest : list string).

Definition run (args : list string) : dispatch :=
  match args with
  | [] => Usage false (Some (Errorf "subcommand required" [] None))
  | sub :: rest =>
      if bool_decide (sub ∈ ["-h"; "--help"; "help"]) then Usage false None
      else if bool_decide (sub ∈ ["-version"; "--version"]) then Banner
      else if bool_decide (sub ∈ ["keygen"; "keylist"; "keyrevoke"; "migrate"; "pricing"]) then Command sub rest
      else Usage true (Some (Errorf "unknown subcommand %q" [ArgS sub] None))
  end.

Definition runPricing (args : list string) : dispatch :=
  match args with
  | [] => Usage false (Some (Errorf "pricing subcommand required" [] None))
  | sub :: rest =>
      if bool_decide (sub ∈ ["list"; "set"; "delete"]) then Command sub rest
      else if bool_decide (sub ∈ ["-h"; "--help"; "help"]) then Usage false None
      else Usage false (Some (Errorf "unknown pricing subcommand %q" [ArgS sub] None))
  end.

(** ** Prices are stored as they were entered *)

(** C39: A price typed at the command line is stored exactly.  Whenever the text
    reads as the float nearest to [m] millionths, as [strconv.ParseFloat] reads
    any decimal with at most six places, [parseRate] returns [m] micro-units, up
    to 2^50 of them: the half added before the truncation absorbs the error of
    the division and the multiplication. *)
Theorem parseRate_exact `{!FloatText} ParseFloatError s m :
  0 <= m < 2 ^ 50 -> ParseFloat s = Some (f_div (of_Z m) (of_Z 1000000)) ->
  parseRate ParseFloatError s = inr m.
Proof.
  intros Hm Hs. unfold parseRate. rewrite Hs, million_roundtrip by done.
  destruct (f_ltb _ f_zero) eqn:E; [exfalso|done]. destruct (Z.eq_dec m 0) as [->|]; [by vm_compute in E|].
  destruct (quotient_close m ltac:(lia)) as (k & e & (Hf & Hk & He & _) & Hpos & _). rewrite Hf in E.
  destruct k as [|p|p]; try lia. unfold finish in E. by rewrite (proj2 (Z.leb_le e 971)) in E by lia.
Qed.

(** ** The insertion sort *)

Lemma swap_Permutation {A} i j (l : list A) : swap i j l ≡ₚ l.
Proof.
  unfold swap. destruct (l !! i) as [x|] eqn:Ei, (l !! j) as [y|] eqn:Ej; try done.
  apply Permutation_inj. split; [by rewrite !length_insert|].
  exists (fun k => if decide (k = i) then j else if decide (k = j) then i else k). split.
  - intros a b. repeat case_decide; congruence.
  - intros k. pose proof (lookup_lt_Some _ _ _ Ei). pose proof (lookup_lt_Some _ _ _ Ej).
    destruct (decide (k = i)) as [->|Hi].
    { by rewrite list_lookup_insert_eq by (rewrite length_insert; lia). }
    rewrite list_lookup_insert_ne by done. destruct (decide (k = j)) as [->|Hj].
    + by rewrite list_lookup_insert_eq by lia.
    + by rewrite list_lookup_insert_ne by done.
Qed.

#[local] Existing Instance Strings.LessEq_total.
#[local] Existing Instance Strings.LessEq_trans.
#[local] Existing Instance rate_le_dec.
#[local] Instance rate_le_total : Total rate_le.
Proof. intros r1 r2. apply Strings.LessEq_total. Qed.
#[local] Instance rate_le_trans : Transitive rate_le.
Proof. intros r1 r2 r3. apply Strings.LessEq_trans. Qed.

Lemma sift_sorted l1 b l2 :
  StronglySorted rate_le l1 ->
  exists l, sift (length l1) (l1 ++ b :: l2) = l ++ l2 /\ l ≡ₚ b :: l1 /\ StronglySorted rate_le l.
Proof.
  revert b l2. induction l1 as [|a l1 IH] using rev_ind; intros b l2 Hs.
  { exists [b]. split_and!; [done|done|repeat constructor]. }
  assert (Hall : Forall (fun x => rate_le x a) l1).
  { apply Forall_forall. intros x Hx. apply (StronglySorted_app_1_elem_of _ _ _ _ _ Hs Hx). by apply list_elem_of_singleton. }
  rewrite length_app, Nat.add_1_r. cbn [sift].
  rewrite <- app_assoc. cbn [app]. rewrite list_lookup_middle by done.
  rewrite lookup_app_r, Nat.sub_succ_l, Nat.sub_diag by lia. cbn [lookup list_lookup].
  destruct (Strings.Less _ _) eqn:E.
  - assert (Hsw : swap (length l1) (S (length l1)) (l1 ++ a :: b :: l2) = l1 ++ b :: a :: l2).
    { unfold swap. rewrite list_lookup_middle by done.
      rewrite lookup_app_r, Nat.sub_succ_l, Nat.sub_diag by lia. cbn [lookup list_lookup].
      rewrite (insert_app_r_alt l1 _ (S (length l1))), Nat.sub_succ_l, Nat.sub_diag by lia.
      by rewrite (insert_app_r_alt l1 _ (length l1)), Nat.sub_diag by lia. }
    rewrite Hsw. destruct (IH b (a :: l2)) as (l & -> & Hp & Hl); [by eapply StronglySorted_app_1_l|].
    exists (l ++ [a]). split_and!.
    + by rewrite <- app_assoc.
    + rewrite Hp. cbn. by rewrite Permutation_app_comm.
    + apply StronglySorted_app_2; [|done|repeat constructor]. intros x y Hx ->%list_elem_of_singleton.
      rewrite Hp in Hx. apply elem_of_cons in Hx as [->|Hx]; [|by eapply Forall_forall in Hall].
      unfold rate_le, Strings.LessEq. by apply Strings.lt_bytes_asym.
  - exists (l1 ++ [a; b]). split_and!.
    + by rewrite <- app_assoc.
    + rewrite (Permutation_cons_append (l1 ++ [a]) b), <- app_assoc. done.
    + change [a; b] with ([a] ++ [b]). rewrite (app_assoc l1 [a] [b]). apply StronglySorted_app_2; [|done|repeat constructor].
      intros x y Hx ->%list_elem_of_singleton. assert (Hab : rate_le a b) by done.
      apply elem_of_app in Hx as [Hx| ->%list_elem_of_singleton]; [|done].
      unfold rate_le in *. etrans; [|exact Hab]. by eapply Forall_forall in Hall.
Qed.

Lemma sort_prefix k i rs :
  StronglySorted rate_le (take i rs) -> (i + k <= length rs)%nat ->
  let rs' := fold_left (fun rs i => sift i rs) (seq i k) rs in
  StronglySorted rate_le (take (i + k) rs') /\ rs' ≡ₚ rs.
Proof.
  revert i rs. induction k as [|k IH]; intros i rs Hs Hlen; cbn [seq fold_left]; [by rewrite Nat.add_0_r|].
  destruct (lookup_lt_is_Some_2 rs i ltac:(lia)) as [b Hb].
  destruct (sift_sorted (take i rs) b (drop (S i) rs) Hs) as (l & Hl & Hp & Hsl).
  rewrite take_drop_middle, length_take_le in Hl by (done || lia).
  assert (Hll : length l = S i) by (rewrite Hp; cbn; rewrite length_take_le; lia).
  assert (Hrs : sift i rs ≡ₚ rs).
  { rewrite Hl, Hp. cbn. rewrite Permutation_middle. by rewrite take_drop_middle. }
  destruct (IH (S i) (sift i rs)) as [H1 H2].
  - rewrite Hl. rewrite take_app_le, take_ge by lia. done.
  - rewrite Hrs. lia.
  - split; [by rewrite Nat.add_succ_r|]. by rewrite H2, Hrs.
Qed.

Lemma sortRatesByModel_spec rs : StronglySorted rate_le (sortRatesByModel rs) /\ sortRatesByModel rs ≡ₚ rs.
Proof.
  unfold sortRatesByModel. destruct rs as [|r rs]; [split; [constructor|done]|].
  destruct (sort_prefix (length rs) 1 (r :: rs)) as [H1 H2]; [repeat constructor|done|].
  cbn [length]. rewrite Nat.sub_succ, Nat.sub_0_r. split; [|done].
  rewrite take_ge in H1; [done|]. rewrite H2. done.
Qed.

Lemma sorted_models_unique l k :
  StronglySorted rate_le l -> StronglySorted rate_le k -> NoDup (map Pricing.Model l) -> l ≡ₚ k -> l = k.
Proof.
  revert k. induction l as [|a l IH]; intros k Hl Hk Hn Hp.
  { by apply Permutation_nil in Hp. }
  destruct k as [|b k]; [by apply Permutation_nil_r in Hp|].
  apply StronglySorted_inv in Hl as [Hl Ha]. apply StronglySorted_inv in Hk as [Hk Hb].
  apply NoDup_cons in Hn as [Han Hn].
  assert (a = b) as ->.
  { assert (Hbin : b ∈ a :: l) by (rewrite Hp; by left). assert (Hain : a ∈ b :: k) by (rewrite <- Hp; by left).
    apply elem_of_cons in Hbin as [->|Hbin]; [done|]. apply elem_of_cons in Hain as [->|Hain]; [done|]. exfalso.
    eapply Forall_forall in Ha; [|exact Hbin]. eapply Forall_forall in Hb; [|exact Hain].
    apply Han. rewrite (Strings.LessEq_antisym _ _ Ha Hb). apply list_elem_of_fmap. by exists b. }
  f_equal. apply IH; try done. by eapply Permutation_cons_inv.
Qed.

(** A reloaded cache files each row under its model. *)
Lemma from_rows_models rs m r : Pricing.from_rows rs !! m = Some r -> r.(Pricing.Model) = m.
Proof.
  unfold Pricing.from_rows. induction rs as [|x rs IH] using rev_ind; [done|].
  rewrite fold_left_app. cbn [fold_left]. rewrite lookup_insert_Some. intros [[<- <-]|[_ H]]; [done|by apply IH].
Qed.

Lemma keyed_models_nodup (m : gmap string Pricing.Rate) :
  (forall k r, m !! k = Some r -> r.(Pricing.Model) = k) -> NoDup (map Pricing.Model (map_to_list m).*2).
Proof.
  intros Hk. assert (Hl : map Pricing.Model (map_to_list m).*2 = (map_to_list m).*1).
  { change (map Pricing.Model (map_to_list m).*2) with (Pricing.Model <$> (map_to_list m).*2).
    rewrite <- list_fmap_compose. apply list_fmap_ext. intros i [k r] Hi. cbn.
    apply Hk, elem_of_map_to_list. by eapply list_elem_of_lookup_2. }
  rewrite Hl. apply NoDup_fst_map_to_list.
Qed.

(** The hand-written insertion sort of [xbctl pricing list] orders the
    table exactly as the library sort behind [GET /admin/pricing] does: on
    every cache that has been loaded from the database the two lists are equal,
    entry by entry. *)
Theorem pricing_lists_agree dbErr c c' :
  Pricing.Reload dbErr c = (None, c') ->
  sortRatesByModel (Pricing.All c') = merge_sort rate_le (Pricing.All c').
Proof.
  intros Hr. assert (Hn : NoDup (map Pricing.Model (Pricing.All c'))).
  { revert Hr. unfold Pricing.Reload. destruct (negb _); [done|]. destruct dbErr; [done|]. intros [= <-].
    apply keyed_models_nodup. intros k r. cbn. apply from_rows_models. }
  destruct (sortRatesByModel_spec (Pricing.All c')) as [Hs Hp].
  apply sorted_models_unique; [done|apply (StronglySorted_merge_sort _)|by rewrite Hp|].
  by rewrite Hp, merge_sort_Permutation.
Qed.

(** ** Keys made at the command line *)

Lemma Set_spec s raw s' :
  Set_ s raw = inr s' ->
  exists c v, raw = c +:+ ":" +:+ v /\ Strings.IndexByte c ":"%char = None /\
    s' = <[c := default [] (s !! c) ++ [v]]> s.
Proof.
  unfold Set_. destruct (Strings.IndexByte raw _) as [i|] eqn:Ei; [|done]. destruct (_ || _); [done|].
  intros [= <-]. destruct (index_cut raw i Ei) as [H1 H2]. eauto 10.
Qed.

Definition colon_free (s : scopeFlag) : Prop :=
  forall c vs, s !! c = Some vs -> Strings.IndexByte c ":"%char = None.

Lemma scope_flags_spec raws s s' :
  colon_free s -> scope_flags s raws = inr s' -> tuples s' ≡ₚ tuples s ++ raws /\ colon_free s'.
Proof.
  revert s. induction raws as [|raw raws IH]; intros s Hs; cbn [scope_flags].
  - intros [= <-]. by rewrite app_nil_r.
  - destruct (Set_ s raw) as [e|s1] eqn:E; [done|]. intros H. apply Set_spec in E as (c & v & Hraw & Hc & ->).
    destruct (IH _ ltac:(intros c' vs'; rewrite lookup_insert_Some; naive_solver) H) as [Hp Hf].
    split; [|done]. rewrite Hp, tuples_insert, <- Hraw. cbn. by rewrite Permutation_middle.
Qed.

(** What [HasScope] says of a table of tuples. *)
Lemma HasScope_tuples p c v :
  colon_free p.(p_Scopes) -> Strings.IndexByte c ":"%char = None ->
  HasScope (Some p) c v = true <->
  c +:+ ":" +:+ v ∈ tuples p.(p_Scopes) \/ c +:+ ":*" ∈ tuples p.(p_Scopes).
Proof.
  intros Hf Hc. assert (Hin : forall w, c +:+ ":" +:+ w ∈ tuples p.(p_Scopes) <->
                              w ∈ default [] (p.(p_Scopes) !! c)).
  { intros w. rewrite tuples_elem. split.
    - intros (c' & vs & w' & Hl & Hw & Heq). apply tuple_inj in Heq as [-> ->]; [by rewrite Hl|done|by eapply Hf].
    - destruct (p_Scopes p !! c) as [vs|] eqn:E; cbn; [|set_solver]. by exists c, vs, w. }
  change (c +:+ ":*") with (c +:+ ":" +:+ "*"). rewrite !Hin. cbn [HasScope]. rewrite existsb_exists.
  setoid_rewrite <- list_elem_of_In. split.
  - intros (w & Hw & Hor). apply orb_true_iff in Hor as [H|H]; apply bool_decide_eq_true in H; subst; auto.
  - intros [H|H]; eexists; (split; [exact H|]); apply orb_true_iff; rewrite !bool_decide_eq_true; auto.
Qed.

Lemma scopesJSON_valid scopes :
  map_Forall (fun _ vs => Forall valid_string vs) scopes ->
  (if no_scopes (Keystore.scopesJSON scopes) then Some ∅ else string_map (Keystore.scopesJSON scopes) ∅) = Some scopes.
Proof.
  intros Hv. unfold Keystore.scopesJSON. case_bool_decide as H0; [by rewrite H0|].
  pose proof (scopes_roundtrip scopes Hv) as Hs. destruct (no_scopes _) eqn:E; [|exact Hs].
  exfalso. revert Hs E. unfold of_map. destruct (merge_sort _ _); cbn; [|done]. intros [= Hs]. by rewrite <- Hs in H0.
Qed.

Section Keygen.
Context `{sha : !Sha256}.
Context (loadConfig : string -> error + Config.Config) (connect : string -> option error) (show : json -> string).

Lemma runKeygen_ok f o now uuid rand t out t' :
  runKeygen loadConfig connect show (inr f) o now uuid rand t = (None, out, t') ->
  exists scopes secret r, scope_flags ∅ f.(kg_scopes) = inr scopes /\ "  secret: " +:+ secret ∈ out /\
    t' = t ++ [r] /\ Keystore.conflicts r.(r_id) (Sum256 secret) t = false /\
    r = {| r_id := if bool_decide (f.(kg_id) = "") then uuid else f.(kg_id); r_key_hash := Sum256 secret;
           r_name := f.(kg_name); r_scopes := Keystore.scopesJSON scopes; r_created_at := now;
           r_last_used_at := None; r_revoked_at := None |} /\ secret <> "".
Proof.
  unfold runKeygen. destruct (scope_flags ∅ _) as [e|scopes]; [done|]. case_bool_decide; [done|].
  destruct (resolveDSN _ _); [done|]. destruct rand as [e|buf]; cbn [Keystore.generateSecret]; [done|].
  set (secret := Keystore.secretPrefix +:+ _). destruct (connected _ _ _); [done|]. unfold Keystore.insert_row.
  set (r := Build_row _ _ _ _ _ _ _). destruct (Keystore.conflicts (r_id r) (r_key_hash r) t) eqn:Ec; [done|].
  destruct o; [|done]. intros [= <- <-]. exists scopes, secret, r. split_and!; try done.
  do 3 apply list_elem_of_further. apply elem_of_app. right. by left.
Qed.

(** A key made with [xbctl keygen] works at once and means what its flags
    say.  When the command succeeds, the secret it prints authenticates as the
    new identifier, with a principal that has the scope [(c, v)] exactly when
    [-scope c:v] was given, or [-scope c:*]: unlike the HTTP API, the tool
    accepts the wildcard. *)
Theorem keygen_grants f o now uuid rand t out t' scopes now' :
  runKeygen loadConfig connect show (inr f) o now uuid rand t = (None, out, t') ->
  scope_flags ∅ f.(kg_scopes) = inr scopes -> map_Forall (fun _ vs => Forall valid_string vs) scopes ->
  exists secret p t'', "  secret: " +:+ secret ∈ out /\
    Postgres_Authenticate true DbOk now' secret t' = (inr p, t'') /\
    p.(p_ID) = (if bool_decide (f.(kg_id) = "") then uuid else f.(kg_id)) /\
    forall c v, Strings.IndexByte c ":"%char = None ->
      HasScope (Some p) c v = true <-> c +:+ ":" +:+ v ∈ f.(kg_scopes) \/ c +:+ ":*" ∈ f.(kg_scopes).
Proof.
  intros Hrun Hflags Hv. destruct (runKeygen_ok _ _ _ _ _ _ _ _ Hrun)
    as (scopes' & secret & r & Hs & Hout & -> & Hc & Hr & Hne).
  rewrite Hflags in Hs. injection Hs as <-. exists secret, {| p_ID := r.(r_id); p_Name := r.(r_name); p_Scopes := scopes |}.
  destruct (scope_flags_spec _ _ _ ltac:(by intros c vs; rewrite lookup_empty) Hflags) as [Hp Hf].
  eexists. split; [done|]. split; [|split; [by rewrite Hr|]].
  - unfold Postgres_Authenticate. rewrite bool_decide_false by done. cbn [negb applied].
    unfold hashKeyBytes. rewrite (Keystore.find_active_app (Sum256 secret) t r) by (done || by rewrite Hr).
    f_equal. unfold row_principal. rewrite Hr. cbn [r_scopes r_id r_name].
    assert (Hd : (if no_scopes (Keystore.scopesJSON scopes) then Some ∅ else string_map (Keystore.scopesJSON scopes) ∅)
                 = Some scopes) by by apply scopesJSON_valid.
    destruct (no_scopes _); [by injection Hd as <-|by rewrite Hd].
  - intros c v Hcolon. rewrite HasScope_tuples by done. cbn [p_Scopes]. by rewrite Hp.
Qed.
End Keygen.

(** ** Revocation at the command line *)

Section Keyrevoke.
Context (loadConfig : string -> error + Config.Config) (connect : string -> option error).

Lemma revoke_rows_inactive now id t r :
  r ∈ Keystore.revoke_rows now id t -> r.(r_id) = id -> active r = false.
Proof.
  unfold Keystore.revoke_rows. intros Hr Hid. apply list_elem_of_In, in_map_iff in Hr as (r0 & <- & _).
  destruct (bool_decide (r_id r0 = id)) eqn:E1, (active r0) eqn:E2; cbn [andb] in *; try done.
  by rewrite bool_decide_eq_false in E1.
Qed.

Lemma revoke_rows_done now id t :
  (forall r, r ∈ t -> r.(r_id) = id -> active r = false) ->
  Keystore.revoke_rows now id t = t /\ matched id t = 0.
Proof.
  intros H. unfold Keystore.revoke_rows, matched. induction t as [|r t IH]; [done|]. cbn.
  destruct IH as [IH1 IH2]; [intros r' Hr'; apply H; by right|].
  assert (Hr : bool_decide (r_id r = id) && active r = false).
  { case_bool_decide as Hid; [|done]. apply H; [by left|done]. }
  rewrite Hr, IH1. split; [done|exact IH2].
Qed.

Lemma matched_find now id t :
  matched id t <> 0 -> is_Some (Keystore.find_id id (Keystore.revoke_rows now id t)).
Proof.
  unfold matched, Keystore.find_id, Keystore.revoke_rows. induction t as [|r t IH]; [done|]. cbn.
  destruct (bool_decide (r_id r = id)) eqn:E; cbn; [|rewrite E; exact IH].
  destruct (active r); cbn; rewrite E; by eexists.
Qed.

(** When [xbctl keyrevoke] reports success, the key is dead in the table
    and stays so: the table has a row of that identifier, every one is revoked,
    rows of other identifiers are as they were, and running the command again
    succeeds and changes nothing. *)
Theorem keyrevoke_final f ee ee' now now' t out t' :
  runKeyrevoke loadConfig connect (inr f) DbOk ee now t = (None, out, t') ->
  (exists r, r ∈ t' /\ r.(r_id) = f.(kv_id)) /\
  (forall r, r ∈ t' -> r.(r_id) = f.(kv_id) -> active r = false) /\
  List.filter (fun r => negb (bool_decide (r.(r_id) = f.(kv_id)))) t' =
  List.filter (fun r => negb (bool_decide (r.(r_id) = f.(kv_id)))) t /\
  (ee' = None -> exists out', runKeyrevoke loadConfig connect (inr f) DbOk ee' now' t' = (None, out', t')).
Proof.
  unfold runKeyrevoke. case_bool_decide as Hid; [done|]. destruct (connected _ _ _); [done|]. cbn [applied].
  set (id := kv_id f) in *. set (t1 := Keystore.revoke_rows now id t). intros H.
  assert (t' = t1 /\ is_Some (Keystore.find_id id t1)) as [-> [r Hr]].
  { destruct (Z.eqb_spec (matched id t) 1) as [E|E]; [injection H as _ <-; split; [done|apply matched_find; lia]|].
    destruct (matched id t =? 0); [|done]. destruct ee; [done|].
    destruct (Keystore.find_id id t1) eqn:Ef; [|done]. injection H as _ <-. split; [done|by eexists]. }
  assert (Hdead : forall r, r ∈ t1 -> r.(r_id) = id -> active r = false)
    by (intros r'; apply revoke_rows_inactive).
  split_and!; [|done| |].
  - exists r. split; [|by eapply find_id_Some]. apply find_some in Hr as [Hin _]. by apply list_elem_of_In.
  - unfold t1, Keystore.revoke_rows. clear. induction t as [|r t IH]; [done|]. cbn.
    destruct (bool_decide (r_id r = id)) eqn:E; cbn [andb].
    + destruct (active r); cbn; rewrite E; exact IH.
    + cbn. rewrite E. cbn. by rewrite IH.
  - intros ->. destruct (revoke_rows_done now' id t1 Hdead) as [-> ->]. cbn. rewrite Hr. by eexists.
Qed.
End Keyrevoke.

(** ** Corners *)

(** A database failure of the second query is reported as a missing key. *)
Example exists_failure_hidden e :
  (runKeyrevoke (fun _ => inl e) (fun _ => None) (inr {| kv_in := {| in_configPath := ""; in_dsn := "d" |}; kv_id := "k" |})
     DbOk (Some e) 5
     [{| r_id := "k"; r_key_hash := []; r_name := "ci"; r_scopes := JNull; r_created_at := 0; r_last_used_at := None;
         r_revoked_at := Some 1 |}]).1.1 = Some (Errorf "no key with id %q" [ArgS "k"] None).
Proof. reflexivity. Qed.

(** The pool size is cut to 32 bits: 2^31 connections become -2^31. *)
Example pool_size_wraps : Storage.int32 (2 ^ 31) = - 2 ^ 31 /\ Storage.int32 2 = 2.
Proof. by vm_compute. Qed.

Example migrate_urls :
  map Storage.toMigrateURL ["postgres://u@h/db"; "postgresql://u@h/db"; "pgx5://u@h/db"]
  = repeat "pgx5://u@h/db" 3.
Proof. by vm_compute. Qed.

Module Example.

#[local] Existing Instance Keystore.toy_digest.
#[local] Existing Instance Wire.Example.coded.

Definition here : dsnInputs := {| in_configPath := ""; in_dsn := "postgres://" |}.
Definition no_config (_ : string) : error + Config.Config := inl (Errorf "no file" [] None).
Definition up (_ : string) : option error := None.

#[local] Instance typed : FloatText :=
  {| ParseFloat s := if bool_decide (s = "0.000249") then Some (f_div (of_Z 249) (of_Z 1000000)) else None;
     FormatFloat _ := "" |}.

Lemma parseRate_exact_witness : parseRate (fun _ => Errorf "syntax" [] None) "0.000249" = inr 249.
Proof. apply (parseRate_exact _ "0.000249" 249); [lia|by vm_compute]. Defined.

Definition rate (model : string) : Pricing.Rate :=
  {| Pricing.Model := model; Pricing.Currency := "USD"; Pricing.InputPer1kMicro := 1; Pricing.OutputPer1kMicro := 2;
     Pricing.UpdatedAt := 0 |}.
Definition priced : Pricing.state :=
  Pricing.NewPricingCache true {["gpt" := rate "gpt"; "claude" := rate "claude"]}.
Definition loaded : Pricing.state := (Pricing.Reload None priced).2.

Lemma pricing_lists_agree_witness :
  map Pricing.Model (merge_sort rate_le (Pricing.All loaded)) = ["claude"; "gpt"] /\
  sortRatesByModel (Pricing.All loaded) = merge_sort rate_le (Pricing.All loaded).
Proof. split; [by vm_compute|]. apply (pricing_lists_agree None priced loaded). by vm_compute. Defined.

Definition keygen : keygenFlags :=
  {| kg_in := here; kg_name := "ops"; kg_id := "k"; kg_scopes := ["admin:*"; "smart_route:disable"] |}.

Definition keygen_scopes : gmap string (list string) := {["admin" := ["*"]; "smart_route" := ["disable"]]}.

Lemma keygen_parses : scope_flags ∅ keygen.(kg_scopes) = inr keygen_scopes.
Proof. by vm_compute. Qed.
Lemma keygen_valid : map_Forall (fun _ vs => Forall valid_string vs) keygen_scopes.
Proof.
  intros c vs. unfold keygen_scopes. rewrite lookup_insert_Some, lookup_singleton_Some.
  intros [[_ <-]|[_ [_ <-]]]; repeat constructor.
Qed.

Lemma keygen_grants_witness :
  exists secret p t'' out t',
    runKeygen no_config up (fun _ => "{}") (inr keygen) DbOk 5 "u" (inr (repeat 7 32)) [] = (None, out, t') /\
    Postgres_Authenticate true DbOk 9 secret t' = (inr p, t'') /\ HasScope (Some p) "admin" "pricing" = true.
Proof.
  destruct (runKeygen no_config up (fun _ => "{}") (inr keygen) DbOk 5 "u" (inr (repeat 7 32)) [])
    as [[[e|] out] t'] eqn:E; [by vm_compute in E|].
  destruct (keygen_grants no_config up (fun _ => "{}") keygen DbOk 5 "u" (inr (repeat 7 32)) [] out t' keygen_scopes 9 E
              keygen_parses keygen_valid) as (secret & p & t'' & _ & Ha & _ & Hs).
  exists secret, p, t'', out, t'. split; [reflexivity|]. split; [exact Ha|].
  apply Hs; [by vm_compute|]. right. by left.
Defined.

Lemma keyrevoke_final_witness :
  exists out t', runKeyrevoke no_config up (inr {| kv_in := here; kv_id := "k" |}) DbOk None 5
      [{| r_id := "k"; r_key_hash := []; r_name := "ci"; r_scopes := JNull; r_created_at := 0; r_last_used_at := None;
          r_revoked_at := None |}] = (None, out, t') /\
    forall r, r ∈ t' -> r.(r_id) = "k" -> active r = false.
Proof.
  do 2 eexists. split; [reflexivity|].
  apply (keyrevoke_final no_config up {| kv_in := here; kv_id := "k" |} None None 5 6
    [{| r_id := "k"; r_key_hash := []; r_name := "ci"; r_scopes := JNull; r_created_at := 0; r_last_used_at := None;
        r_revoked_at := None |}] _ _ eq_refl).
Defined.

End Example.
